(* ===== verification/_CoqProject ===== *)
-Q . S2P
Prelude.v
Effects.v
Text.v
Sql.v
Keyset.v
Domain.v
Schema.v
Isolation.v
Social.v
Users.v
GraphRaces.v
RateLimits.v
Redis.v
RateLimiter.v
RateSpec.v
Trust.v
Invites.v
Crypto.v
Auth.v
SessionRaces.v
TrustRaces.v
InviteRaces.v
Posts.v
Engagement.v
World.v
Feed.v
FeedRaces.v
Stories.v
StoryRaces.v
Moderation.v
PostRaces.v
Fingerprint.v
DeviceRaces.v
Transactions.v
ConnectionPool.v
Notifications.v
Shutdown.v
Search.v
Media.v
MediaWorker.v
Queue.v
Cleanup.v
Http.v
App.v
Middleware.v
Observability.v
Config.v
HandlersUsers.v
HandlersPosts.v
HandlersMedia.v
Avatars.v
HandlersSafety.v
HandlersStories.v
Endpoints.v
ClientErrors.v
Access.v
Hidden.v
Routes.v
Rejections.v
Startup.v
Clients.v
Delivery.v
Invariant.v
System.v
Sessions.v
Pages.v
Freshness.v
