(* ===== verification/Prelude.v ===== *)
(** * Ciel backend: verification library

    A model of the Rust backend of a small social network ([src/src/**.rs]) and the
    theorems that make its parts correct. The program is an axum HTTP service over
    four stores: Postgres (all durable data), Redis (rate-limit counters, feed
    caches, presigned URLs), an SQS queue of media jobs and an S3 bucket. Requests
    pass a stack of middlewares, handlers call the services of [app/], services
    run SQL statements and transactions; three background jobs (media worker,
    notification worker, cleanup loop) work on the same stores.

    ** How code becomes definitions

    An [async fn .. -> Result<A, E>] is a computation [M S E A] (this file): it maps
    a state to a result and a new state, and a failure keeps the effects it had
    before it, except under [transaction], which undoes them as a dropped
    [sqlx::Transaction] does. Single-store services have the state [Db] or [Redis];
    those that touch several have [World], and handlers have [App], which adds the
    notification channel. Every generated value (uuids, random
    codes, nonces, salts) and every clock reading ([now()] of the database and
    [now_utc()] of the process are the two fields of [Clock], Redis has its own) is
    an argument, so that theorems hold for all of them. Integers are [Z] with the
    bounds of their columns or machine types checked where the code can overflow
    ([int4], [cast_i32], [saturating_sub], the [u32] replies of Redis). Strings are
    byte strings; where the code works on characters, [Text.chars] cuts UTF-8 into
    them. A SQL statement is written as the row set it selects or the table update
    it makes, with the constraint that can reject it: primary and unique keys,
    foreign keys, CHECKs, cascades, RESTRICT and SET NULL of the migrations.

    A service method is one step there. Where the order of the statements of concurrent
    transactions matters, the method is modelled a second time, as a program of
    [Isolation]: every statement a step of its own under READ COMMITTED, with the row
    locks PostgreSQL takes (also those of foreign keys and unique indexes), writes
    visible to others at commit, and any transaction cut off at any point. The
    [*Races] files prove that every interleaving keeps the invariants, and
    [Transactions] ties the programs, run alone, to the one-step methods.

    ** Files

    - [Prelude]: the monad, its specification predicate [preserves] with the hint
      database [ciel], the tactics [run], [unfold_m] and [bool_to_prop] that execute
      a computation symbolically, and shared list and integer lemmas. [Effects]: the
      rules for the other specifications of computations (reads only, cannot fail,
      leaves no trace when it fails), with the databases [reads], [total], [undo].
    - [Text] (strings, uuid text, UTF-8), [Sql] (tables as finite maps: [select],
      [count_where], [update_where], errors with their SQLSTATE), [Keyset] (ORDER BY
      with a keyset cursor and LIMIT, pages and walks over pages).
    - [Domain] ([domain/*.rs]) and [Schema] (one record per table of
      [migrations/*.sql], the database [Db], the shared WHERE clauses).
    - [Isolation]: transaction programs, the machine that interleaves them, and the
      program logic ([wp], [stable], [rely]) the races are proved with.
    - [Social] ([app/social.rs]), [Users] ([app/users.rs]), [Posts], [Engagement],
      [Feed], [Stories], [Notifications] (with [jobs/notifications.rs]),
      [Moderation], [Fingerprint], [Search], [Media]: the service of the same name
      under [app/], one definition per method under the method's name.
    - [Redis] ([infra/cache.rs] and the commands used), [RateLimits]
      ([config/rate_limits.rs]), [RateLimiter] ([app/rate_limiter.rs]), [RateSpec]:
      the specification of the limiter as a function of the request history.
    - [Trust] ([app/trust.rs]), [Invites] ([app/invites.rs]), [Crypto] (the
      interface of PASETO, Argon2 and SHA-256) and [Auth] ([app/auth.rs]).
    - [GraphRaces] (follow, unfollow, block, unblock, delete_account), [SessionRaces]
      (refresh, login, revoke_refresh_token), [TrustRaces] (record_flag, add_strike,
      recalculate_trust_level, record_activity), [InviteRaces] (signup with its invite,
      creation and revocation of codes), [StoryRaces] (views, reactions, deletion of
      stories, the append to a highlight), [PostRaces] (reports, takedowns, likes,
      comments, the deletion of posts with its cascade), [DeviceRaces] (registration and
      blocking of devices): the same methods statement by statement;
      [Transactions] ties them to the methods. [ConnectionPool]: the pool of database
      connections ([infra/db.rs]), the requests that wait for one, and which connections
      every method takes. [FeedRaces]: the commands of
      [get_home_feed] and of the invalidation, interleaved with time passing.
    - [World]: the four stores together. [MediaWorker]
      ([jobs/media_processor.rs]) first as one run of a job, then as a step relation
      in which any number of workers, clients, redeliveries and crashes interleave;
      [Delivery]: one message with the clock, the visibility timeout of the queue and
      the limits of the calls; [Cleanup] ([jobs/cleanup.rs] and the two SQL functions it calls).
    - [Http] ([http/error.rs], [http/validation.rs], the cursor functions of
      [http/handlers.rs], the extractors of [http/auth.rs]) and [Middleware]
      ([http/middleware/*.rs] and their order in [http/mod.rs]); [Observability]
      ([http/middleware/metrics.rs], [http/middleware/served_by.rs], the order of the
      request-id layers and the log span of [main.rs]).
    - [Queue] ([infra/queue.rs] and the loop of [media_processor::run] over it).
    - [App] (the [AppState] of [lib.rs] with the channel, the error mappings, page and
      invalidation helpers of [http/handlers.rs]); [HandlersUsers], [HandlersPosts],
      [HandlersMedia], [HandlersSafety], [HandlersStories]: every handler of
      [http/handlers.rs] under its name; [Endpoints]: one constructor per endpoint,
      and [serve], which runs the extractors ([http/extract.rs], [http/auth.rs]) and
      the handler in the order of its parameters; [Avatars]: the avatar keys of
      [update_profile] against the access rules of [get_media]; [Routes]: the table of
      [http/routes.rs] and the layers [http/mod.rs] puts around each group.
    - [Config] ([config/mod.rs]), [Startup] ([infra/db.rs] connecting, [main.rs]),
      [Clients] (what [infra/db.rs], [infra/storage.rs] and [infra/queue.rs] set on their
      clients), [Shutdown] (the signal, the joins and the drain of the notification
      worker, [main.rs] and [jobs/notifications.rs]).
    - Theorems over all endpoints: [ClientErrors] and, through the layers in front of
      the handlers, [Rejections]; [Access], [Hidden], [Pages], [Freshness]. [Invariant]
      (what a property of the database needs to be kept by every request: the class
      [Kept]) and [System], which runs requests, workers, cleanup and outages in any
      order ([KeptByJobs] for the background jobs); [Sessions] uses both classes for
      the row of a rotated token.

    ** Interfaces

    Code outside the repository is a class: its operations as fields and what is
    documented of it as laws, with a concrete instance that satisfies the laws so
    that every theorem is exercised on an example: [Crypto]/[CryptoLaws],
    [FeedCodec], [StoriesCodec] (serde_json), [S3Signer], [UrlLib], [ImageLib]/
    [ImageLaws], [IpLib], [CursorCodec]/[CursorLaws], [Sqs]/[SqsLaws], [JobCodec],
    [ConfigLib]/[ConfigLaws] (base64, IP networks), [AwsEnv] (what the SDK loads from
    its environment), [RequestIdLayers] (tower-http), and the locale's case mapping in
    [Search]. [Libs] collects those a handler reaches. The laws are round trips and
    documented behaviour, never the properties proved from them.

    ** What the theorems show

    - Sessions ([Auth], [Sessions]): signup is atomic; a login yields tokens for exactly
      the account that was asked for; a rotated refresh token never works again, whatever
      the service does in between, and presenting it ends the sessions of its user;
      deleted and banned accounts are locked out.
    - Graph and content ([Social], [Users], [Posts], [Engagement], [Feed],
      [Stories], [Search]): no follow edge survives or appears across a block, the
      follower cap holds on every reachable database, the visibility rules of posts,
      stories and images are stated once and all listings agree with them, created
      posts read back, likes count once, story counters equal their rows, search is
      literal case-insensitive substring search.
    - Abuse control ([RateSpec], [Trust], [Invites], [Fingerprint], [Moderation],
      [Middleware]): the Redis counters implement the quota specification for every
      sequence of requests; the exact ladders of reports, strikes, bans and device
      risk; an invite code never admits more users than it has uses; the audit log is
      complete and append-only; which hop of X-Forwarded-For is taken for the client,
      and when the client can choose it; the rate-limit layer fails closed.
    - Media ([Media], [MediaWorker], [Cleanup]): the life of an upload under every
      interleaving, a job done once, deletion that removes everything and nothing
      else, presigned URLs that are never handed out stale, stuck uploads that are
      found again.
    - The service as a whole: its data stay well-formed under any interleaving of
      requests and background work ([System]); a 4xx answer left no trace but the
      counters of the rate limiter, two endpoints excepted ([Rejections]); nothing is
      served or changed without the credential the endpoint asks for ([Access]); hidden
      content looks absent to all endpoints but two ([Hidden]); the limits agree with the
      route table and hold through the middleware stack ([Routes]); pages that are not
      taken from a cache are bounded and reading them ends ([Pages]); readers see their
      own writes through the feed cache ([Freshness]).
    - Concurrency: however the statements of the transactions interleave and wherever
      they are cut off, the social graph keeps its invariant ([GraphRaces]), a refresh
      token is rotated at most once and sessions do not multiply ([SessionRaces]), an
      invite code admits no more users than it allows, quotas hold and accounts stay
      unique ([InviteRaces]), reports climb the strike ladder without skipping a step
      ([TrustRaces]), the counters of stories equal their rows ([StoryRaces]), no like,
      comment or report outlives its post and the audit log gains exactly the lines of
      what took effect ([PostRaces]), and device registrations are serializable
      ([DeviceRaces]); the committed database is the replay of the answers. Requests that
      use one connection at a time drain a pool of any size without time-outs
      ([ConnectionPool]). A
      cached feed is at most its lifetime and one request old ([FeedRaces]); a message
      whose processing fits into the visibility timeout is processed once ([Delivery]);
      no accepted notification is lost in a shutdown that keeps to its timeouts, and
      the process gets to its end ([Shutdown]).
    - Processes ([Config], [Startup], [Queue]): which environments are configurations,
      which field comes from which variable, what a failed start reports, what each mode
      runs and needs, how long it waits for the database; the queue client implements the
      abstract queue the media theorems are stated over, also when other clients use the
      queue meanwhile and deleted messages come back.
    - Deviations are theorems too: pages that skip the row used as cursor, a cached
      page that ignores the limit, an empty administrator token that opens the
      administrative endpoints, handlers no limiter charges, the HTTPS check and the
      ban check that cannot fire, duplicate media rows of a slow job, an encoding error
      that is retried for ever, two follows that deadlock, reuse detection that misses
      the token just being issued, a recalculation that undoes a demotion, two endpoints
      that give hidden content away, a feed stored
      after its invalidation, stories appended to a highlight at the same position,
      notifications lost by requests after the signal, creations of invites that stop the
      connection pool, images read through an avatar key, request ids that reach nobody,
      and metrics that grow with the paths clients make up.

    ** Bounds and fuel

    Functions are total. Loops are structural over the list of things they work on:
    requests, jobs, rounds, characters. The two searches that the code bounds itself
    keep its bound: code generation tries 10 codes, the invite tree is cut at the
    depth the caller asks for. [Feed.browse_feed] takes the number of pages to fetch;
    [Pages.read_all] takes fuel, and [reading_terminates] shows how much is enough.
    [Startup.connect_loop] has the fuel of its ten attempts, and [connect_terminates]
    shows that it never runs out. The interleavings ([schedule], [pool_events], [feed_moves],
    [process_moves], [lane_moves], [sys_run]) are lists of moves of any length, so that
    no bound is chosen; a move that is not possible makes the run undefined.
    The SCAN loop of Redis is the list of replies of a full iteration.

    ** Not modelled

    Tracing set-up, the CORS, compression and body-limit layers, the matching of a URL
    against the route table, JSON encoding beyond the codecs above, back-off sleeps: they
    are configuration of libraries, or have no state the theorems speak of. Deadlock
    detection of PostgreSQL is the cut of any transaction at any time in [Isolation], and
    of a victim of a cycle in [ConnectionPool]. The creation of posts and stories, the
    edits of profiles and captions, uploads and notifications are one step each, and so
    are the first statements of [add_to_highlight]: they insert or update single rows
    whose uniqueness and foreign keys the one-step model checks. The store accesses of one
    request are taken in order, between which other requests run in [FeedRaces],
    [MediaWorker] and [Delivery] only. [join_all] runs its futures in turn.

    Smaller simplifications: [generate_presigned_get_url] has one instant for the lookup,
    the signing and the SETEX, where the code's lifetime in the cache starts at the SETEX,
    so that a cached URL can have less than 300 seconds left by the time between the two.
    [Shutdown.send] is one step, so that a sender does not hold a permit of the channel
    while it is closed. [access_ttl_minutes * 60] is computed in [Z], where the code
    multiplies [u64]. The slice [fingerprint_hash[..8]] of a log line would panic on a
    hash of less than eight bytes; the handler passes the 64 hexadecimal digits of
    [hash_fingerprint].

    ** What could come next

    The remaining single-statement writes as programs of [Isolation]; the handlers over
    [Isolation], so that the theorems over all endpoints also range over interleavings
    within a request; the matching of URLs. *)

From stdpp Require Export base gmap strings list fin_maps sorting pretty.
From stdpp Require Import options.
From Stdlib Require Export ZArith Lia.

(** ** Base types of the service *)

(** A [Uuid] is the 128-bit value; Postgres and the [uuid] crate both compare
    UUIDs by their bytes, which is the order of that number. *)
Abbreviation Uuid := N (only parsing).
(** Instants ([OffsetDateTime], [TIMESTAMPTZ]) in microseconds since the epoch. *)
Abbreviation Time := Z (only parsing).

Definition seconds (n : Z) : Z := (n * 1000000)%Z.
Definition days (n : Z) : Z := seconds (n * 86400).

(** The two clocks an operation reads: [now()] of the database transaction and
    [OffsetDateTime::now_utc()] of the process. *)
Record Clock := mkClock { db_now : Z; app_now : Z }.

(** ** Results and the state-and-error monad *)

Inductive Result (E A : Type) : Type :=
| Ok (a : A)
| Err (e : E).
Arguments Ok {E A} a.
Arguments Err {E A} e.

Global Instance Result_eq_dec {E A} `{EqDecision E, EqDecision A} :
  EqDecision (Result E A).
Proof. solve_decision. Defined.

Definition is_ok {E A} (r : Result E A) : bool :=
  match r with Ok _ => true | Err _ => false end.

(** A computation over the state [S] that may fail with [E]: what an
    [async fn .. -> Result<A, E>] does to the stores it talks to. A failing
    computation keeps the effects it had before the failure, unless it runs
    under [transaction]. *)
Definition M (S E A : Type) : Type := S → Result E A * S.

Section monad.
Context {S E : Type}.

Global Instance M_ret : MRet (M S E) := λ A a s, (Ok a, s).
Global Instance M_bind : MBind (M S E) := λ A B k m s,
  match m s with
  | (Ok a, s') => k a s'
  | (Err e, s') => (Err e, s')
  end.

Definition throw {A} (e : E) : M S E A := λ s, (Err e, s).
Definition get_db : M S E S := λ s, (Ok s, s).
Definition reads {A} (f : S → A) : M S E A := λ s, (Ok (f s), s).
Definition modifies (f : S → S) : M S E unit := λ s, (Ok tt, f s).
Definition ok_or {A} (o : option A) (e : E) : M S E A :=
  match o with Some a => mret a | None => throw e end.
Definition from_result {A} (r : Result E A) : M S E A := λ s, (r, s).
Definition guard_else (b : bool) (e : E) : M S E unit :=
  if b then mret tt else throw e.
End monad.

(** [map_err], and the implicit [From] conversion of the [?] operator. *)
Definition map_err {S E E' A} (f : E → E') (m : M S E A) : M S E' A := λ s,
  match m s with
  | (Ok a, s') => (Ok a, s')
  | (Err e, s') => (Err (f e), s')
  end.

(** [if let Err(err) = m.await { warn!(..) }]: the error is dropped, the
    effects stay. *)
Definition best_effort {S E E' A} (m : M S E A) : M S E' unit := λ s,
  (Ok tt, snd (m s)).

(** A database transaction: [tx.commit()] keeps the writes, [tx.rollback()]
    and every early return through [?] (the dropped [Transaction]) undo them. *)
Inductive Tx (A : Type) : Type :=
| Commit (a : A)
| Rollback (a : A).
Arguments Commit {A} a.
Arguments Rollback {A} a.

Definition transaction {S E A} (m : M S E (Tx A)) : M S E A := λ s,
  match m s with
  | (Ok (Commit a), s') => (Ok a, s')
  | (Ok (Rollback a), _) => (Ok a, s)
  | (Err e, _) => (Err e, s)
  end.

(** Sequential [for x in xs { body(x)?; }]. *)
Fixpoint for_each {S E A} (xs : list A) (body : A → M S E unit) : M S E unit :=
  match xs with
  | [] => mret tt
  | x :: xs' => body x ≫= λ _, for_each xs' body
  end.

(** ** Specifications of computations *)

(** [m] keeps [I], whatever it returns. *)
Definition preserves {S E A} (I : S → Prop) (m : M S E A) : Prop :=
  ∀ s, I s → I (snd (m s)).
(** [m] leaves the state alone. *)
Definition read_only {S E A} (m : M S E A) : Prop := ∀ s, snd (m s) = s.

Create HintDb ciel.

Section preserves.
Context {S E : Type} (I : S → Prop).

Lemma preserves_ret {A} (a : A) : preserves (E := E) I (mret a).
Proof. by intros s. Qed.
Lemma preserves_throw {A} (e : E) : preserves (A := A) I (throw e).
Proof. by intros s. Qed.
Lemma preserves_get_db : preserves (E := E) I get_db.
Proof. by intros s. Qed.
Lemma preserves_reads {A} (f : S → A) : preserves (E := E) I (reads f).
Proof. by intros s. Qed.
Lemma preserves_ok_or {A} (o : option A) (e : E) : preserves I (ok_or o e).
Proof. by intros s; destruct o. Qed.
Lemma preserves_guard (b : bool) (e : E) : preserves I (guard_else b e).
Proof. by intros s; destruct b. Qed.
Lemma preserves_modifies (f : S → S) :
  (∀ s, I s → I (f s)) → preserves (E := E) I (modifies f).
Proof. intros H s. apply H. Qed.
Lemma preserves_bind {A B} (m : M S E A) (k : A → M S E B) :
  preserves I m → (∀ a, preserves I (k a)) → preserves I (m ≫= k).
Proof.
  intros Hm Hk s Hs. unfold mbind, M_bind. specialize (Hm s Hs).
  destruct (m s) as [[a|e] s']; [by apply Hk | done].
Qed.
Lemma preserves_transaction {A} (m : M S E (Tx A)) :
  preserves I m → preserves I (transaction m).
Proof.
  intros Hm s Hs. unfold transaction. specialize (Hm s Hs).
  by destruct (m s) as [[[]|] ?].
Qed.
Lemma preserves_map_err {E' A} (f : E' → E) (m : M S E' A) :
  preserves I m → preserves I (map_err f m).
Proof.
  intros Hm s Hs. unfold map_err. specialize (Hm s Hs).
  by destruct (m s) as [[] ?].
Qed.
Lemma preserves_best_effort {E' A} (m : M S E' A) :
  preserves I m → preserves (E := E) I (best_effort m).
Proof. intros Hm s Hs. by apply Hm. Qed.
Lemma preserves_for_each {A} (xs : list A) (body : A → M S E unit) :
  (∀ x, preserves I (body x)) → preserves I (for_each xs body).
Proof.
  intros Hb. induction xs as [|x xs IH]; [apply preserves_ret|].
  by apply preserves_bind.
Qed.
End preserves.

#[export] Hint Resolve preserves_ret preserves_throw preserves_get_db preserves_reads
  preserves_ok_or preserves_guard preserves_bind preserves_transaction
  preserves_map_err preserves_best_effort preserves_for_each : ciel.

(** A transaction that fails leaves no trace. *)
Lemma transaction_err {S E A} (m : M S E (Tx A)) s e s' :
  transaction m s = (Err e, s') → s' = s.
Proof. unfold transaction. repeat case_match; naive_solver. Qed.

(** ** Tactics *)

(** Run a monadic definition symbolically: unfold the monad and split on every
    scrutinee that is stuck. *)
Ltac unfold_m :=
  unfold ok_or, from_result, guard_else, map_err, best_effort, transaction in *;
  unfold mbind, M_bind, mret, M_ret, throw, get_db, reads, modifies in *.
Ltac innermost x k :=
  lazymatch x with
  | context [match ?y with _ => _ end] => innermost y k
  | _ => k x
  end.
Ltac split_match :=
  match goal with
  | |- context [match ?x with _ => _ end] =>
      innermost x ltac:(fun y => destruct y eqn:?)
  | H : context [match ?x with _ => _ end] |- _ =>
      innermost x ltac:(fun y => destruct y eqn:?)
  end.
Ltac run_step := cbv beta iota zeta in *; cbn [fst snd id] in *.
Ltac run := unfold_m; run_step; repeat (split_match; run_step; simplify_eq).
(** Case analysis that keeps the facts in [Prop]. *)
Ltac bool_to_prop :=
  repeat match goal with
  | H : bool_decide _ = true |- _ => apply bool_decide_eq_true in H
  | H : bool_decide _ = false |- _ => apply bool_decide_eq_false in H
  | H : (_ && _) = true |- _ => apply andb_true_iff in H as [??]
  | H : (_ || _) = false |- _ => apply orb_false_iff in H as [??]
  | H : negb _ = true |- _ => apply negb_true_iff in H
  | H : negb _ = false |- _ => apply negb_false_iff in H
  end.

(** ** [match s { "lit" => .., _ => .. }] on string literals *)

Fixpoint str_case {A} (s : string) (arms : list (string * A)) (otherwise : A) : A :=
  match arms with
  | [] => otherwise
  | (lit, a) :: arms' => if decide (s = lit) then a else str_case s arms' otherwise
  end.

Section str_case.
Context {A : Type}.
Implicit Types (arms : list (string * A)).

(** A property of every arm is a property of the selected one. *)
Lemma str_case_ind (P : string → A → Prop) s arms (d : A) :
  Forall (λ arm, P arm.1 arm.2) arms → P s d → P s (str_case s arms d).
Proof.
  intros Harms Hd. induction Harms as [|[l a] arms Ha _ IH]; simpl; [done|].
  case_decide; by subst.
Qed.

Lemma str_case_map {B} (f : A → B) s arms (d : A) :
  f (str_case s arms d) = str_case s (prod_map id f <$> arms) (f d).
Proof. induction arms as [|[l a] arms IH]; simpl; [done|]. by case_decide. Qed.
End str_case.

(** ** Machine integers of the schema *)

Definition i32_min : Z := (-2147483648)%Z.
Definition i32_max : Z := 2147483647%Z.
Definition u32_max : Z := 4294967295%Z.
Definition in_i32 (z : Z) : bool := ((i32_min <=? z) && (z <=? i32_max))%Z.
(** [as i32]: the low 32 bits as a two's-complement number. *)
Definition cast_i32 (z : Z) : Z := ((z + 2147483648) mod 4294967296 - 2147483648)%Z.
Lemma cast_i32_small z : (0 ≤ z ≤ i32_max)%Z → cast_i32 z = z.
Proof. unfold cast_i32, i32_max. intros. rewrite Z.mod_small; lia. Qed.
(** [u32::saturating_sub], [u64::saturating_sub]. *)
Definition saturating_sub (a b : Z) : Z := Z.max 0 (a - b).

(** ** Lists *)

Section lists.
Context {A : Type}.

Lemma filter_none (P : A → Prop) `{!∀ x, Decision (P x)} (l : list A) :
  (∀ x, x ∈ l → ¬ P x) → filter P l = [].
Proof.
  induction l as [|x l IH]; intros Hn; [done|].
  rewrite filter_cons_False by (apply Hn; left). apply IH. set_solver.
Qed.

Lemma filter_all (P : A → Prop) `{!∀ x, Decision (P x)} (l : list A) :
  (∀ x, x ∈ l → P x) → filter P l = l.
Proof.
  induction l as [|x l IH]; intros Hn; [done|].
  rewrite filter_cons_True by (apply Hn; left). rewrite IH; set_solver.
Qed.

Lemma filter_fmap_comm {B} (f : A → B) (P : B → Prop) `{!∀ x, Decision (P x)}
    (l : list A) : filter P (f <$> l) = f <$> filter (λ x, P (f x)) l.
Proof.
  induction l as [|x l IH]; [done|]. rewrite fmap_cons, !filter_cons.
  case_decide; [|done]. by rewrite fmap_cons, IH.
Qed.

(** Elements of a list with distinct keys are determined by their key. *)
Lemma NoDup_fmap_inj {B} (f : A → B) (l : list A) x y :
  NoDup (f <$> l) → x ∈ l → y ∈ l → f x = f y → x = y.
Proof.
  intros Hnd [i Hi]%list_elem_of_lookup [j Hj]%list_elem_of_lookup Hf.
  assert (i = j) as ->; [|congruence].
  eapply NoDup_lookup; [exact Hnd| |]; rewrite list_lookup_fmap.
  - by rewrite Hi.
  - rewrite Hj. simpl. by rewrite Hf.
Qed.
End lists.
