(* ===== verification/Effects.v ===== *)
(** * Effects of computations

    A small program logic over the monad of [Prelude], beside its [preserves]: what a
    computation reads, what it can fail with, and what it leaves behind when it
    fails. The rules follow the structure of the code and are collected in the hint
    databases [reads] (no effect), [total] (no failure) and [undo] (a failure of the
    given class leaves no trace). *)

From S2P Require Import Prelude.
From stdpp Require Import options.

(** [m] leaves the component [f] of the state alone. *)
Definition keeps {S T E A} (f : S → T) (m : M S E A) : Prop := ∀ s, f (snd (m s)) = f s.
(** [m] always returns a value. *)
Definition total {S E A} (m : M S E A) : Prop := ∀ s, is_ok (fst (m s)) = true.
(** When [m] fails with an error in [P], the state is as before: from a given state,
    and from every state. *)
Definition undone_at {S E A} (P : E → Prop) (m : M S E A) (s : S) : Prop :=
  match m s with (Err e, s') => P e → s' = s | (Ok _, _) => True end.
Definition undone {S E A} (P : E → Prop) (m : M S E A) : Prop := ∀ s, undone_at P m s.
(** A result in [Q] comes with an unchanged state. *)
Definition idle {S E A} (Q : A → Prop) (m : M S E A) : Prop :=
  ∀ s, match m s with (Ok a, s') => Q a → s' = s | (Err _, _) => True end.

Create HintDb reads.
Create HintDb total.
Create HintDb undo.

(** ** Rules *)

Section read_only.
Context {S E : Type}.

Lemma read_only_ret {A} (a : A) : read_only (S := S) (E := E) (mret a).
Proof. done. Qed.
Lemma read_only_throw {A} (e : E) : read_only (S := S) (A := A) (throw e).
Proof. done. Qed.
Lemma read_only_get_db : read_only (S := S) (E := E) get_db.
Proof. done. Qed.
Lemma read_only_reads {A} (f : S → A) : read_only (E := E) (reads f).
Proof. done. Qed.
Lemma read_only_ok_or {A} (o : option A) (e : E) : read_only (S := S) (ok_or o e).
Proof. by destruct o. Qed.
Lemma read_only_from_result {A} (r : Result E A) : read_only (S := S) (from_result r).
Proof. done. Qed.
Lemma read_only_guard b (e : E) : read_only (S := S) (guard_else b e).
Proof. by destruct b. Qed.
Lemma read_only_bind {A B} (m : M S E A) (k : A → M S E B) :
  read_only m → (∀ a, read_only (k a)) → read_only (m ≫= k).
Proof.
  intros Hm Hk s. unfold mbind, M_bind. specialize (Hm s).
  destruct (m s) as [[a|err] s']; simpl in Hm; subst s'; [apply Hk|done].
Qed.
Lemma read_only_map_err {E' A} (f : E' → E) (m : M S E' A) : read_only m → read_only (map_err f m).
Proof. intros Hm s. unfold map_err. specialize (Hm s). by destruct (m s) as [[]?]. Qed.
Lemma read_only_best_effort {E' A} (m : M S E' A) : read_only m → read_only (E := E) (best_effort m).
Proof. intros Hm s. apply Hm. Qed.

Lemma read_only_run {A} (m : M S E A) s r s' : read_only m → m s = (r, s') → s' = s.
Proof. intros Hm Hr. specialize (Hm s). by rewrite Hr in Hm. Qed.
End read_only.

#[export] Hint Resolve read_only_ret read_only_throw read_only_get_db read_only_reads read_only_ok_or
  read_only_from_result read_only_guard read_only_bind read_only_map_err read_only_best_effort : reads.

Section total.
Context {S E : Type}.

Lemma total_ret {A} (a : A) : total (S := S) (E := E) (mret a).
Proof. done. Qed.
Lemma total_reads {A} (f : S → A) : total (E := E) (reads f).
Proof. done. Qed.
Lemma total_modifies (f : S → S) : total (E := E) (modifies f).
Proof. done. Qed.
Lemma total_best_effort {E' A} (m : M S E' A) : total (E := E) (best_effort m).
Proof. done. Qed.
Lemma total_bind {A B} (m : M S E A) (k : A → M S E B) :
  total m → (∀ a, total (k a)) → total (m ≫= k).
Proof.
  intros Hm Hk s. unfold mbind, M_bind. specialize (Hm s). destruct (m s) as [[a|err] s']; [apply Hk|done].
Qed.
Lemma total_map_err {E' A} (f : E' → E) (m : M S E' A) : total m → total (map_err f m).
Proof. intros Hm s. unfold map_err. specialize (Hm s). by destruct (m s) as [[]?]. Qed.
Lemma total_for_each {A} (xs : list A) (body : A → M S E unit) :
  (∀ x, total (body x)) → total (for_each xs body).
Proof. intros Hb. induction xs; simpl; [apply total_ret|]. by apply total_bind. Qed.
End total.

#[export] Hint Resolve total_ret total_reads total_modifies total_best_effort total_bind total_map_err
  total_for_each : total.

Section undone.
Context {S E : Type}.
Implicit Types (P : E → Prop).

Lemma undone_read_only {A} P (m : M S E A) : read_only m → undone P m.
Proof. intros Hm s. unfold undone_at. specialize (Hm s). by destruct (m s) as [[]?]. Qed.
Lemma undone_total {A} P (m : M S E A) : total m → undone P m.
Proof. intros Hm s. unfold undone_at. specialize (Hm s). by destruct (m s) as [[]?]. Qed.
Lemma undone_transaction {A} P (m : M S E (Tx A)) : undone P (transaction m).
Proof.
  intros s. unfold undone_at. destruct (transaction m s) as [[]?] eqn:Hr; [done|].
  intros _. by eapply transaction_err.
Qed.
Lemma undone_at_map_err {E' A} (f : E' → E) P (m : M S E' A) s :
  undone_at (λ e, P (f e)) m s → undone_at P (map_err f m) s.
Proof. unfold undone_at, map_err. by destruct (m s) as [[]?]. Qed.
(** A prefix without effects. *)
Lemma undone_at_bind_reads {A B} P (m : M S E A) (k : A → M S E B) s :
  read_only m → (∀ a, m s = (Ok a, s) → undone_at P (k a) s) → undone_at P (m ≫= k) s.
Proof.
  intros Hm Hk. unfold undone_at, mbind, M_bind. specialize (Hm s).
  destruct (m s) as [[a|err] s']; simpl in Hm; subst s'; [by apply Hk|done].
Qed.
(** A suffix that cannot fail. *)
Lemma undone_at_bind_total {A B} P (m : M S E A) (k : A → M S E B) s :
  undone_at P m s → (∀ a, total (k a)) → undone_at P (m ≫= k) s.
Proof.
  intros Hm Hk. unfold undone_at, mbind, M_bind in *. destruct (m s) as [[a|err] s']; [|done].
  specialize (Hk a s'). by destruct (k a s') as [[]?].
Qed.
(** In general: the suffix fails only where the prefix did nothing. *)
Lemma undone_at_bind {A B} P (m : M S E A) (k : A → M S E B) s :
  undone_at P m s →
  (∀ a s', m s = (Ok a, s') → (s' = s ∧ read_only (k a)) ∨ total (k a)) → undone_at P (m ≫= k) s.
Proof.
  unfold undone_at, mbind, M_bind. destruct (m s) as [[a|err] s']; [|done].
  intros _ Hk. destruct (Hk a s' eq_refl) as [[-> Hr]|Ht].
  - specialize (Hr s). destruct (k a s) as [[]?]; simpl in *; [done|by intros _].
  - specialize (Ht s'). by destruct (k a s') as [[]?].
Qed.

Lemma undone_map_err {E' A} (f : E' → E) P (m : M S E' A) :
  undone (λ e, P (f e)) m → undone P (map_err f m).
Proof. intros Hm s. by apply undone_at_map_err. Qed.
Lemma undone_bind_reads {A B} P (m : M S E A) (k : A → M S E B) :
  read_only m → (∀ a, undone P (k a)) → undone P (m ≫= k).
Proof. intros Hm Hk s. apply undone_at_bind_reads; [done|]. intros a _. apply Hk. Qed.
Lemma undone_bind_total {A B} P (m : M S E A) (k : A → M S E B) :
  undone P m → (∀ a, total (k a)) → undone P (m ≫= k).
Proof. intros Hm Hk s. by apply undone_at_bind_total. Qed.
(** A suffix that fails only after an idle prefix. *)
Lemma undone_bind_idle {A B} (Q : A → Prop) `{!∀ a, Decision (Q a)} P (m : M S E A) (k : A → M S E B) :
  undone P m → idle Q m → (∀ a, Q a → read_only (k a)) → (∀ a, ¬ Q a → total (k a)) → undone P (m ≫= k).
Proof.
  intros Hm Hi Hr Ht s. apply undone_at_bind; [done|]. intros a s' Ha. specialize (Hi s). rewrite Ha in Hi.
  destruct (decide (Q a)); [left|right]; auto.
Qed.
End undone.

Lemma idle_map_err {S E E' A} (f : E' → E) (Q : A → Prop) (m : M S E' A) : idle Q m → idle Q (map_err f m).
Proof. intros Hm s. unfold map_err. specialize (Hm s). by destruct (m s) as [[]?]. Qed.

(** ** Preservation *)

Section preserves_more.
Context {S E : Type}.

Lemma preserves_read_only {A} (I : S → Prop) (m : M S E A) : read_only m → preserves I m.
Proof. intros Hm s Hs. by rewrite Hm. Qed.
Lemma preserves_from_result {A} (I : S → Prop) (r : Result E A) : preserves I (from_result r).
Proof. by intros s. Qed.
Lemma preserves_and {A} (I J : S → Prop) (m : M S E A) :
  preserves I m → preserves J m → preserves (λ s, I s ∧ J s) m.
Proof. intros HI HJ s [??]. split; [by apply HI|by apply HJ]. Qed.
End preserves_more.

#[export] Hint Resolve preserves_from_result : ciel.
