(* ===== verification/Text.v ===== *)
(** * Text formats

    The strings the program builds keys from: the hyphenated form of a [Uuid]
    ([Uuid]'s [Display]), decimal numbers (stdpp's [pretty]), and
    colon-separated keys; with the lemmas that make such keys unambiguous. *)

From S2P Require Import Prelude.
From Stdlib Require Import Ascii.
From stdpp Require Import options.

#[local] Arguments String.append : simpl nomatch.

(** ** Characters of a string *)

Fixpoint all_chars (p : ascii → bool) (s : string) : bool :=
  match s with
  | EmptyString => true
  | String c s' => p c && all_chars p s'
  end.

(** [c] does not occur in [s]. *)
Definition lacks (c : ascii) (s : string) : bool :=
  all_chars (λ x, negb (bool_decide (x = c))) s.

Lemma all_chars_app p s t : all_chars p (s +:+ t) = all_chars p s && all_chars p t.
Proof. induction s as [|c s IH]; simpl; [done|]. by rewrite IH, andb_assoc. Qed.

Lemma all_chars_impl p q s :
  (∀ c, p c = true → q c = true) → all_chars p s = true → all_chars q s = true.
Proof.
  intros Hpq. induction s as [|c s IH]; simpl; [done|].
  intros [Hc Hs]%andb_true_iff. by rewrite (Hpq c), IH.
Qed.

Lemma append_assoc (s t u : string) : (s +:+ t) +:+ u = s +:+ (t +:+ u).
Proof. induction s as [|c s IH]; simpl; [done|]. by rewrite IH. Qed.

Lemma append_length (s t : string) :
  String.length (s +:+ t) = String.length s + String.length t.
Proof. induction s as [|c s IH]; simpl; [done|]. by rewrite IH. Qed.

(** A prefix of known length is determined. *)
Lemma append_inj_length s s' t t' :
  String.length s = String.length s' → s +:+ t = s' +:+ t' → s = s' ∧ t = t'.
Proof.
  revert s'. induction s as [|c s IH]; intros [|c' s']; simpl; try done.
  intros [= Hl] [= -> He]. destruct (IH _ Hl He) as [-> ->]. done.
Qed.

(** What stands before the first separator is determined. *)
Lemma split_first c s s' t t' :
  lacks c s = true → lacks c s' = true →
  s +:+ String c t = s' +:+ String c t' → s = s' ∧ t = t'.
Proof.
  unfold lacks. revert s'. induction s as [|x s IH]; intros [|x' s'] Hs Hs' He; simpl in *.
  - by simplify_eq.
  - simplify_eq. by rewrite bool_decide_true in Hs'.
  - simplify_eq. by rewrite bool_decide_true in Hs.
  - apply andb_true_iff in Hs as [_ Hs], Hs' as [_ Hs']. injection He as -> He.
    by destruct (IH s' Hs Hs' He) as [-> ->].
Qed.

(** What stands behind the last separator is determined. *)
Lemma split_last c s s' t t' :
  lacks c t = true → lacks c t' = true →
  s +:+ String c t = s' +:+ String c t' → s = s' ∧ t = t'.
Proof.
  assert (Hno : ∀ s t u, lacks c t = true → t ≠ s +:+ String c u).
  { intros s0 t0 u Ht ->. unfold lacks in Ht. rewrite all_chars_app in Ht.
    apply andb_true_iff in Ht as [_ Ht]. simpl in Ht. by rewrite bool_decide_true in Ht. }
  revert s'. induction s as [|x s IH]; intros [|x' s'] Ht Ht' He; simpl in *.
  - by simplify_eq.
  - injection He as <- He. by destruct (Hno s' t t' Ht).
  - injection He as -> He. by destruct (Hno s t' t Ht').
  - injection He as -> He. by destruct (IH s' Ht Ht' He) as [-> ->].
Qed.

(** ** Decimal numbers *)

Definition is_digit (c : ascii) : bool :=
  ((48 <=? N_of_ascii c) && (N_of_ascii c <=? 57))%N.

Lemma pretty_N_digits (n : N) : all_chars is_digit (pretty n) = true.
Proof.
  assert (Hgo : ∀ x s, all_chars is_digit s = true →
                       all_chars is_digit (pretty_N_go x s) = true).
  { intros x. induction (N.lt_wf_0 x) as [x _ IH]. intros s Hs.
    destruct (decide (x = 0)%N) as [->|Hx]; [by rewrite pretty_N_go_0|].
    rewrite pretty_N_go_step by lia. apply IH; [apply N.div_lt; lia|].
    simpl. rewrite Hs, andb_true_r. unfold pretty_N_char. by repeat case_match. }
  unfold pretty, pretty_N. case_decide; [done|]. by apply Hgo.
Qed.

Lemma pretty_N_lacks c (n : N) : is_digit c = false → lacks c (pretty n) = true.
Proof.
  intros Hc. unfold lacks. eapply all_chars_impl; [|apply pretty_N_digits].
  intros x Hx. simpl. rewrite bool_decide_false; [done|]. congruence.
Qed.

(** ** Uuids *)

Definition hex_char (d : N) : ascii :=
  ascii_of_N (if (d <? 10)%N then 48 + d else 87 + d)%N.

(** The [n] low hexadecimal digits of [u], least significant first. *)
Fixpoint hex_digits (n : nat) (u : N) : list ascii :=
  match n with
  | O => []
  | S n' => hex_char (u mod 16) :: hex_digits n' (u / 16)
  end.

Fixpoint string_of (l : list ascii) : string :=
  match l with [] => "" | c :: l' => String c (string_of l') end.

(** 8-4-4-4-12 lower-case hexadecimal digits. *)
Definition uuid_str (u : Uuid) : string :=
  let ds := reverse (hex_digits 32 u) in
  string_of (take 8 ds) +:+ "-" +:+ string_of (take 4 (drop 8 ds)) +:+ "-" +:+
  string_of (take 4 (drop 12 ds)) +:+ "-" +:+ string_of (take 4 (drop 16 ds)) +:+ "-" +:+
  string_of (drop 20 ds).

Definition valid_uuid (u : Uuid) : Prop := (u < 2 ^ 128)%N.

Example uuid_str_example :
  uuid_str 0x123e4567e89b12d3a456426614174000 = "123e4567-e89b-12d3-a456-426614174000".
Proof. vm_compute. reflexivity. Qed.

Lemma string_of_length l : String.length (string_of l) = length l.
Proof. induction l; simpl; congruence. Qed.
Lemma string_of_inj l l' : string_of l = string_of l' → l = l'.
Proof. revert l'. induction l; intros []; simpl; naive_solver congruence. Qed.
Lemma string_of_all p l : forallb p l = true → all_chars p (string_of l) = true.
Proof. induction l as [|c l IH]; simpl; [done|]. by intros [-> ->%IH]%andb_true_iff. Qed.

Lemma hex_digits_length n u : length (hex_digits n u) = n.
Proof. revert u. induction n; intros; simpl; congruence. Qed.

Definition small_N (n : nat) : list N := N.of_nat <$> seq 0 n.
Lemma elem_of_small_N n x : (x < N.of_nat n)%N → x ∈ small_N n.
Proof.
  intros Hx. unfold small_N. apply list_elem_of_fmap. exists (N.to_nat x).
  split; [lia|]. apply elem_of_seq. lia.
Qed.

Lemma hex_char_inj a b : (a < 16)%N → (b < 16)%N → hex_char a = hex_char b → a = b.
Proof.
  intros Ha Hb. apply (elem_of_small_N 16) in Ha, Hb. revert a Ha b Hb.
  assert (Hall : Forall (λ a, Forall (λ b, hex_char a = hex_char b → a = b)
                                (small_N 16)) (small_N 16)).
  { apply (bool_decide_unpack _). vm_compute. done. }
  intros a Ha b Hb. rewrite Forall_forall in Hall. specialize (Hall a Ha).
  rewrite Forall_forall in Hall. by apply Hall.
Qed.

Lemma hex_digits_inj n u v :
  (u < 16 ^ N.of_nat n)%N → (v < 16 ^ N.of_nat n)%N →
  hex_digits n u = hex_digits n v → u = v.
Proof.
  revert u v. induction n as [|n IH]; intros u v Hu Hv He; [simpl in *; lia|].
  rewrite Nat2N.inj_succ, N.pow_succ_r' in Hu, Hv. injection He as Hc Hd.
  apply hex_char_inj in Hc; [|apply N.mod_lt; lia..].
  apply IH in Hd; [|apply N.Div0.div_lt_upper_bound; lia..].
  rewrite (N.div_mod u 16), (N.div_mod v 16) by done. congruence.
Qed.

Lemma uuid_str_inj u v : valid_uuid u → valid_uuid v → uuid_str u = uuid_str v → u = v.
Proof.
  intros Hu Hv He. apply (hex_digits_inj 32); [exact Hu|exact Hv|].
  apply (inj reverse). unfold uuid_str in He.
  pose proof (hex_digits_length 32 u) as Hlu. pose proof (hex_digits_length 32 v) as Hlv.
  rewrite <-length_reverse in Hlu, Hlv.
  cbv zeta in He. revert He Hlu Hlv.
  generalize (reverse (hex_digits 32 u)) (reverse (hex_digits 32 v)).
  intros lu lv He Hlu Hlv.
  apply append_inj_length in He as [H1%string_of_inj He];
    [|rewrite !string_of_length, !length_take; lia]. injection He as He.
  apply append_inj_length in He as [H2%string_of_inj He];
    [|rewrite !string_of_length, !length_take, !length_drop; lia]. injection He as He.
  apply append_inj_length in He as [H3%string_of_inj He];
    [|rewrite !string_of_length, !length_take, !length_drop; lia]. injection He as He.
  apply append_inj_length in He as [H4%string_of_inj He];
    [|rewrite !string_of_length, !length_take, !length_drop; lia]. injection He as He.
  apply string_of_inj in He.
  rewrite <-(take_drop 8 lu), <-(take_drop 8 lv), H1. f_equal.
  rewrite <-(take_drop 4 (drop 8 lu)), <-(take_drop 4 (drop 8 lv)), H2. f_equal.
  rewrite !drop_drop. simpl.
  rewrite <-(take_drop 4 (drop 12 lu)), <-(take_drop 4 (drop 12 lv)), H3. f_equal.
  rewrite !drop_drop. simpl.
  rewrite <-(take_drop 4 (drop 16 lu)), <-(take_drop 4 (drop 16 lv)), H4. f_equal.
  rewrite !drop_drop. simpl. exact He.
Qed.

Lemma uuid_str_length u : String.length (uuid_str u) = 36.
Proof.
  unfold uuid_str. pose proof (hex_digits_length 32 u) as Hl. rewrite <-length_reverse in Hl.
  repeat (rewrite append_length || rewrite string_of_length || rewrite length_take
          || rewrite length_drop). simpl String.length. rewrite Hl. lia.
Qed.

Definition is_hex_or_dash (c : ascii) : bool :=
  bool_decide (c ∈ (hex_char <$> small_N 16)) || bool_decide (c = "-"%char).

Lemma uuid_str_chars u : all_chars is_hex_or_dash (uuid_str u) = true.
Proof.
  assert (Hd : ∀ n v, forallb is_hex_or_dash (hex_digits n v) = true).
  { induction n as [|n IH]; intros v; simpl; [done|]. rewrite IH, andb_true_r.
    apply orb_true_iff. left. apply bool_decide_eq_true, list_elem_of_fmap_2,
      elem_of_small_N, N.mod_lt. done. }
  unfold uuid_str. set (ds := reverse _).
  assert (Hds : Forall (λ c, is_hex_or_dash c = true) ds).
  { apply Forall_forall. intros c Hc. unfold ds in Hc.
    specialize (Hd 32 u). rewrite forallb_forall in Hd. apply Hd.
    by apply list_elem_of_In, elem_of_reverse. }
  assert (Hs : ∀ l, Forall (λ c, is_hex_or_dash c = true) l →
                    all_chars is_hex_or_dash (string_of l) = true).
  { induction 1 as [|c l Hc Hl IH]; simpl; [done|]. by rewrite Hc, IH. }
  rewrite !all_chars_app, !Hs; try done; eauto using Forall_take, Forall_drop.
Qed.

Lemma uuid_str_lacks_colon u : lacks ":" (uuid_str u) = true.
Proof.
  unfold lacks. eapply all_chars_impl; [|apply uuid_str_chars].
  intros c Hc. apply negb_true_iff, bool_decide_eq_false. intros ->. done.
Qed.

(** ** Reading the hyphenated form back *)

Definition hex_value (c : ascii) : N :=
  let n := N_of_ascii c in if (n <? 58)%N then n - 48 else n - 87.

Fixpoint of_hex_digits (l : list ascii) : N :=
  match l with [] => 0 | c :: l' => hex_value c + 16 * of_hex_digits l' end.

Fixpoint bytes_of (s : string) : list ascii :=
  match s with EmptyString => [] | String c s' => c :: bytes_of s' end.

Definition uuid_of_str (s : string) : Uuid :=
  of_hex_digits (reverse (filter (λ c, c ≠ "-"%char) (bytes_of s))).

Lemma hex_value_char d : (d < 16)%N → hex_value (hex_char d) = d ∧ hex_char d ≠ "-"%char.
Proof.
  intros Hd%(elem_of_small_N 16). revert d Hd.
  assert (Hall : Forall (λ d, hex_value (hex_char d) = d ∧ hex_char d ≠ "-"%char) (small_N 16))
    by (apply (bool_decide_unpack _); vm_compute; done).
  intros d Hd. rewrite Forall_forall in Hall. by apply Hall.
Qed.

Lemma of_hex_digits_spec n u :
  (u < 16 ^ N.of_nat n)%N → of_hex_digits (hex_digits n u) = u.
Proof.
  revert u. induction n as [|n IH]; intros u Hu; simpl hex_digits; cbn [of_hex_digits].
  - simpl in Hu. lia.
  - rewrite Nat2N.inj_succ, N.pow_succ_r' in Hu.
    rewrite IH by (apply N.Div0.div_lt_upper_bound; lia).
    rewrite (proj1 (hex_value_char _ (N.mod_lt u 16 ltac:(done)))).
    pose proof (N.div_mod u 16). lia.
Qed.

Lemma hex_digits_no_dash n u : Forall (λ c, c ≠ "-"%char) (hex_digits n u).
Proof.
  revert u. induction n as [|n IH]; intros u; simpl; constructor; [|apply IH].
  apply hex_value_char, N.mod_lt. done.
Qed.

Lemma bytes_of_app s t : bytes_of (s +:+ t) = bytes_of s ++ bytes_of t.
Proof. induction s; simpl; [done|]. by f_equal. Qed.
Lemma bytes_of_string_of l : bytes_of (string_of l) = l.
Proof. induction l; simpl; congruence. Qed.

Lemma uuid_of_str_spec u : valid_uuid u → uuid_of_str (uuid_str u) = u.
Proof.
  intros Hu. unfold uuid_of_str, uuid_str.
  pose proof (hex_digits_no_dash 32 u) as Hd. rewrite <-Forall_reverse in Hd.
  assert (Hf : ∀ l, Forall (λ c, c ≠ "-"%char) l → filter (λ c, c ≠ "-"%char) l = l).
  { intros l Hl. apply filter_all. by rewrite Forall_forall in Hl. }
  rewrite !bytes_of_app, !bytes_of_string_of, !filter_app. cbv zeta.
  change (filter (λ c, c ≠ "-"%char) (bytes_of "-")) with (@nil ascii). cbn [app].
  rewrite !Hf by eauto using Forall_take, Forall_drop.
  set (ds := reverse (hex_digits 32 u)).
  assert (Hcat : take 8 ds ++ take 4 (drop 8 ds) ++ take 4 (drop 12 ds) ++ take 4 (drop 16 ds)
                 ++ drop 20 ds = ds) by reflexivity.
  rewrite Hcat. unfold ds. rewrite reverse_involutive. by apply of_hex_digits_spec.
Qed.

(** ** UTF-8 *)

(** A continuation byte: [10xxxxxx]. *)
Definition is_continuation (c : ascii) : bool :=
  ((128 <=? N_of_ascii c) && (N_of_ascii c <? 192))%N.

(** [s.chars().count()] of a UTF-8 string: its bytes that start a character. *)
Fixpoint char_count (s : string) : nat :=
  match s with
  | EmptyString => O
  | String c s' => (if is_continuation c then O else 1) + char_count s'
  end.

(** ** Characters of a UTF-8 string *)

(** [s.chars()], each character as the string of its bytes: a byte and the
    continuation bytes that follow it. *)
Definition starts_inside (s : string) : bool :=
  match s with String b _ => is_continuation b | EmptyString => false end.
Fixpoint chars (s : string) : list string :=
  match s with
  | EmptyString => []
  | String c s' =>
      match chars s' with
      | x :: xs => if starts_inside x then String c x :: xs else String c "" :: x :: xs
      | [] => [String c ""]
      end
  end.
Fixpoint join (l : list string) : string :=
  match l with [] => "" | x :: l' => (x +:+ join l')%string end.

(** A well-formed character: a first byte and its continuation bytes. *)
Definition wf_char (c : string) : bool :=
  match c with
  | String b rest => negb (is_continuation b) && all_chars is_continuation rest
  | EmptyString => false
  end.
(** A string that starts at a character boundary is read as well-formed
    characters. *)
Lemma chars_wf s : starts_inside s = false → Forall (λ c, wf_char c = true) (chars s).
Proof.
  assert (H : ∀ s, match chars s with
                   | [] => True
                   | x :: xs => Forall (λ c, wf_char c = true) xs ∧ starts_inside x = starts_inside s ∧
                       match x with String _ r => all_chars is_continuation r = true | "" => False end
                   end).
  { clear s. induction s as [|c s IH]; simpl; [done|].
    destruct (chars s) as [|x xs]; [done|]. destruct IH as (Hxs & Hs & Hx).
    destruct x as [|b r]; [done|]. destruct (starts_inside (String b r)) eqn:Hb; simpl in Hb |- *.
    - by rewrite Hb, Hx.
    - split_and!; [|done..]. constructor; [|done]. simpl. by rewrite Hb, Hx. }
  intros Hs. specialize (H s). destruct (chars s) as [|x xs]; [constructor|].
  destruct H as (Hxs & Hx & Hr). constructor; [|done].
  destruct x as [|b r]; [done|]. simpl in *. by rewrite Hx, Hs, Hr.
Qed.

Lemma chars_cons_wf c s : wf_char c = true → starts_inside s = false → chars (c +:+ s) = c :: chars s.
Proof.
  intros Hc Hs.
  assert (Hh : match chars s with x :: _ => starts_inside x = false | [] => True end).
  { pose proof (chars_wf s Hs) as Hwf. destruct (chars s) as [|x xs]; [done|].
    apply Forall_cons_1 in Hwf as [Hx _]. destruct x as [|b r]; [done|].
    apply andb_true_iff in Hx as [Hb _]. by apply negb_true_iff. }
  destruct c as [|b r]; [done|]. simpl in Hc. apply andb_true_iff in Hc as [_ Hr].
  change (String b r +:+ s)%string with (String b (r +:+ s)). revert b.
  induction r as [|b' r IH]; intros b.
  - change ("" +:+ s)%string with s. simpl. destruct (chars s) as [|x xs]; [done|]. by rewrite Hh.
  - simpl in Hr. apply andb_true_iff in Hr as [Hb' Hr].
    change (String b' r +:+ s)%string with (String b' (r +:+ s)).
    change (chars (String b (String b' (r +:+ s)))) with
      (match chars (String b' (r +:+ s)) with
       | x :: xs => if starts_inside x then String b x :: xs else String b "" :: x :: xs
       | [] => [String b ""] end).
    rewrite (IH Hr b'). simpl. by rewrite Hb'.
Qed.

Lemma starts_inside_join l : Forall (λ c, wf_char c = true) l → starts_inside (join l) = false.
Proof.
  intros [|c l' Hc]; [done|]. destruct c as [|b r]; [done|]. simpl in *.
  apply andb_true_iff in Hc as [Hb _]. by apply negb_true_iff.
Qed.

Lemma chars_join l : Forall (λ c, wf_char c = true) l → chars (join l) = l.
Proof.
  induction 1 as [|c l Hc Hl IH]; [done|]. simpl.
  rewrite chars_cons_wf, IH by auto using starts_inside_join. done.
Qed.

Lemma join_app l l' : join (l ++ l') = (join l +:+ join l')%string.
Proof. induction l as [|x l IH]; [done|]. simpl. by rewrite IH, append_assoc. Qed.
