(* ===== verification/Sql.v ===== *)
(** * The SQL vocabulary of the services

    The services talk to Postgres through SQL text. This file gives the
    statements they use a meaning over finite maps keyed by primary key:
    constraint errors, [WHERE] filters, [UPDATE], [DELETE], [COUNT], joins, and
    the [ORDER BY (created_at, id) .. LIMIT n] keyset pages behind every list
    endpoint, with the lemmas the components share. *)

From S2P Require Import Prelude.
From stdpp Require Import options.

(** Errors [sqlx] reports that the services can provoke; the names carry the
    SQLSTATE classes the handlers match on. *)
Inductive DbError :=
| UniqueViolation (constraint : string)      (* 23505 *)
| ForeignKeyViolation (constraint : string)  (* 23503 *)
| CheckViolation (constraint : string)       (* 23514 *)
| NumericOutOfRange                          (* 22003 *)
| StringTooLong                              (* 22001 *)
| InvalidEscapeSequence                      (* 22025 *)
| RowNotFound.                               (* sqlx::Error::RowNotFound *)

Global Instance DbError_eq_dec : EqDecision DbError.
Proof. solve_decision. Defined.

(** [SQLSTATE] of a database error; [RowNotFound] is raised by the client. *)
Definition db_code (e : DbError) : option string :=
  match e with
  | UniqueViolation _ => Some "23505"
  | ForeignKeyViolation _ => Some "23503"
  | CheckViolation _ => Some "23514"
  | NumericOutOfRange => Some "22003"
  | StringTooLong => Some "22001"
  | InvalidEscapeSequence => Some "22025"
  | RowNotFound => None
  end.

(** [INT4] arithmetic: Postgres raises instead of wrapping. *)
Definition int4 {S} (z : Z) : M S DbError Z :=
  if in_i32 z then mret z else throw NumericOutOfRange.

#[global] Arguments in_i32 : simpl never.

(** ** Tables *)

Section table.
Context {K V : Type} `{Countable K}.
Implicit Types (m : gmap K V) (P : K → V → bool).

(** [SELECT f FROM m] with the join and filter folded into a partial [f]. *)
Definition select {R} (f : K → V → option R) (m : gmap K V) : list R :=
  omap (λ kv, f kv.1 kv.2) (map_to_list m).

(** [SELECT COUNT( * ) FROM m WHERE P]. *)
Definition count_where P m : Z :=
  Z.of_nat (length (select (λ k v, if P k v then Some k else None) m)).

(** [EXISTS (SELECT 1 FROM m WHERE P)]. *)
Definition exists_where P m : bool :=
  existsb (λ kv, P kv.1 kv.2) (map_to_list m).

(** [UPDATE m SET f WHERE P]. *)
Definition update_where P (f : V → V) m : gmap K V :=
  map_imap (λ k v, Some (if P k v then f v else v)) m.

(** [DELETE FROM m WHERE P]. *)
Definition delete_where P m : gmap K V := filter (λ kv, P kv.1 kv.2 = false) m.

(** [k] is a present primary key. *)
Definition has_key (k : K) m : bool := bool_decide (is_Some (m !! k)).

Lemma elem_of_select {R} (f : K → V → option R) m r :
  r ∈ select f m ↔ ∃ k v, m !! k = Some v ∧ f k v = Some r.
Proof.
  unfold select. rewrite list_elem_of_omap. split.
  - intros [[k v] [Hin Hf]]. apply elem_of_map_to_list in Hin. eauto.
  - intros (k & v & Hm & Hf). exists (k, v). by rewrite elem_of_map_to_list.
Qed.

Lemma exists_where_true P m :
  exists_where P m = true ↔ ∃ k v, m !! k = Some v ∧ P k v = true.
Proof.
  unfold exists_where. rewrite existsb_exists. split.
  - intros [[k v] [Hin HP]]. apply list_elem_of_In, elem_of_map_to_list in Hin. eauto.
  - intros (k & v & Hm & HP). exists (k, v).
    by rewrite <-list_elem_of_In, elem_of_map_to_list.
Qed.

Lemma exists_where_false P m :
  exists_where P m = false ↔ ∀ k v, m !! k = Some v → P k v = false.
Proof.
  rewrite <-not_true_iff_false, exists_where_true. split.
  - intros Hn k v Hm. destruct (P k v) eqn:?; naive_solver.
  - intros Ha (k & v & Hm & HP). rewrite (Ha _ _ Hm) in HP. done.
Qed.

Lemma lookup_update_where P f m k :
  update_where P f m !! k = (λ v, if P k v then f v else v) <$> m !! k.
Proof.
  unfold update_where. rewrite map_lookup_imap. by destruct (m !! k).
Qed.

Lemma lookup_delete_where P m k v :
  delete_where P m !! k = Some v ↔ m !! k = Some v ∧ P k v = false.
Proof. unfold delete_where. apply map_lookup_filter_Some. Qed.

Lemma lookup_delete_where_None P m k :
  delete_where P m !! k = None ↔ ∀ v, m !! k = Some v → P k v = true.
Proof.
  unfold delete_where. rewrite map_lookup_filter_None. split.
  - intros [Hn|Hn] v Hv; [congruence|]. specialize (Hn v Hv). simpl in Hn.
    by destruct (P k v).
  - intros Ha. right. intros v Hv. simpl. by rewrite (Ha v Hv).
Qed.

Lemma delete_where_none P m : exists_where P m = false → delete_where P m = m.
Proof.
  rewrite exists_where_false. intros Hn. apply map_filter_id. intros k v. apply Hn.
Qed.

Lemma has_key_true k m : has_key k m = true ↔ is_Some (m !! k).
Proof. unfold has_key. apply bool_decide_eq_true. Qed.
Lemma has_key_false k m : has_key k m = false ↔ m !! k = None.
Proof. unfold has_key. by rewrite bool_decide_eq_false, <-eq_None_not_Some. Qed.

(** A selection keyed by the primary key returns each key once. *)
Lemma select_NoDup {R} (f : K → V → option R) (g : R → K) m :
  (∀ k v r, f k v = Some r → g r = k) → NoDup (g <$> select f m).
Proof.
  intros Hg. unfold select.
  pose proof (NoDup_fst_map_to_list m) as Hnd.
  induction (map_to_list m) as [|[k v] l IH]; simpl in *; [constructor|].
  inversion_clear Hnd as [|? ? Hk Hl]. specialize (IH Hl).
  destruct (f k v) as [r|] eqn:Hf; simpl; [|done].
  constructor; [|done]. rewrite (Hg _ _ _ Hf). intros Hin. apply Hk.
  apply list_elem_of_fmap in Hin as (r' & -> & Hr').
  apply list_elem_of_omap in Hr' as ([k' v'] & Hin & Hf'). simpl in Hf'.
  rewrite (Hg _ _ _ Hf'). apply list_elem_of_fmap. by exists (k', v').
Qed.

(** Counting one more row: a fresh row adds one exactly when it satisfies [P]. *)
Lemma count_where_insert_fresh P m k v :
  m !! k = None →
  count_where P (<[k:=v]> m) = (count_where P m + if P k v then 1 else 0)%Z.
Proof.
  intros Hk. unfold count_where, select.
  assert (Hp : map_to_list (<[k:=v]> m) ≡ₚ (k, v) :: map_to_list m)
    by (by apply map_to_list_insert).
  apply (omap_Permutation (λ kv, if P kv.1 kv.2 then Some kv.1 else None)),
    Permutation_length in Hp.
  rewrite Hp. cbn [omap list_omap fst snd].
  destruct (P k v); cbn [length]; lia.
Qed.

(** Removing a present row. *)
Lemma count_where_delete P m k v :
  m !! k = Some v →
  count_where P (delete k m) = (count_where P m - if P k v then 1 else 0)%Z.
Proof.
  intros Hk. rewrite <-(insert_delete_id m k v Hk) at 2.
  rewrite count_where_insert_fresh by apply lookup_delete_eq.
  destruct (P k v); lia.
Qed.

Lemma count_where_nonneg P m : (0 ≤ count_where P m)%Z.
Proof. unfold count_where. lia. Qed.

Lemma count_where_empty P : count_where P ∅ = 0%Z.
Proof. unfold count_where, select. by rewrite map_to_list_empty. Qed.

(** Rows that fail [P] do not count. *)
Lemma count_where_zero P m :
  (∀ k v, m !! k = Some v → P k v = false) → count_where P m = 0%Z.
Proof.
  intros Ha. unfold count_where.
  destruct (select _ m) as [|r l] eqn:Hs; [done|].
  assert (Hin : r ∈ select (λ k v, if P k v then Some k else None) m)
    by (rewrite Hs; left).
  apply elem_of_select in Hin as (k & v & Hm & Hf).
  by rewrite (Ha _ _ Hm) in Hf.
Qed.
End table.

(** Deleting rows that do not satisfy [P] does not change the count of [P]. *)
Lemma count_where_delete_where {K V} `{Countable K} (P Q : K → V → bool)
    (m : gmap K V) :
  (∀ k v, m !! k = Some v → Q k v = true → P k v = false) →
  count_where P (delete_where Q m) = count_where P m.
Proof.
  induction m as [|k v m Hk IH] using map_ind; intros Hd.
  - unfold delete_where. by rewrite map_filter_empty.
  - assert (Hd' : ∀ k' v', m !! k' = Some v' → Q k' v' = true → P k' v' = false).
    { intros k' v' Hm. apply Hd. rewrite lookup_insert_ne; congruence. }
    specialize (IH Hd'). rewrite count_where_insert_fresh by done.
    unfold delete_where in *. destruct (Q k v) eqn:HQ.
    + rewrite map_filter_insert_False by (simpl; congruence).
      rewrite delete_id by done. rewrite IH, (Hd k v); [lia| |done].
      apply lookup_insert_eq.
    + rewrite map_filter_insert_True by done.
      rewrite count_where_insert_fresh, IH; [done|].
      apply map_lookup_filter_None. by left.
Qed.

(** An update that leaves [P] alone leaves its count alone. *)
Lemma count_where_insert_same {K V} `{Countable K} (P : K → V → bool)
    (m : gmap K V) k v v' :
  m !! k = Some v → P k v' = P k v →
  count_where P (<[k:=v']> m) = count_where P m.
Proof.
  intros Hk HP. rewrite <-(insert_delete_eq m k v').
  rewrite count_where_insert_fresh by apply lookup_delete_eq.
  rewrite (count_where_delete P m k v Hk), HP. destruct (P k v); lia.
Qed.


(** Replacing a present row. *)
Lemma count_where_replace {K V} `{Countable K} (P : K → V → bool) (m : gmap K V) k v v' :
  m !! k = Some v →
  count_where P (<[k:=v']> m)
  = (count_where P m - (if P k v then 1 else 0) + if P k v' then 1 else 0)%Z.
Proof.
  intros Hk. rewrite <-(insert_delete_eq m k v').
  rewrite count_where_insert_fresh by apply lookup_delete_eq.
  rewrite (count_where_delete P m k v Hk). lia.
Qed.

(** Selecting from a table with one more row. *)
Lemma select_insert_fresh {K V R} `{Countable K} (f : K → V → option R) (m : gmap K V) k v :
  m !! k = None →
  select f (<[k:=v]> m) ≡ₚ option_list (f k v) ++ select f m.
Proof.
  intros Hk. unfold select.
  rewrite (omap_Permutation _ _ _ (map_to_list_insert m k v Hk)). simpl.
  by destruct (f k v).
Qed.

Lemma select_empty {K V R} `{Countable K} (f : K → V → option R) (m : gmap K V) :
  (∀ k v, m !! k = Some v → f k v = None) → select f m = [].
Proof.
  intros Hn. destruct (select f m) as [|r l] eqn:Hs; [done|].
  assert (Hin : r ∈ select f m) by (rewrite Hs; left).
  apply elem_of_select in Hin as (k & v & Hm & Hf). by rewrite (Hn _ _ Hm) in Hf.
Qed.

(** [HashSet::len() == Vec::len()] is a test for duplicates. *)
Lemma size_list_to_set_NoDup {A} `{Countable A} (l : list A) :
  size (list_to_set l : gset A) = length l ↔ NoDup l.
Proof.
  split; [|apply size_list_to_set].
  assert (Hle : ∀ l : list A, size (list_to_set l : gset A) ≤ length l).
  { clear. induction l as [|x l IH]; simpl; [done|].
    pose proof (size_union_alt ({[x]} : gset A) (list_to_set l)) as Hu.
    rewrite size_singleton in Hu.
    pose proof (subseteq_size (list_to_set l ∖ {[x]} : gset A) (list_to_set l) ltac:(set_solver)).
    lia. }
  induction l as [|x l IH]; simpl; [constructor|]. intros Hs.
  destruct (decide (x ∈ l)) as [Hx|Hx].
  - assert (He : ({[x]} ∪ list_to_set l : gset A) = list_to_set l) by set_solver.
    rewrite He in Hs. specialize (Hle l). lia.
  - constructor; [done|]. apply IH.
    rewrite size_union in Hs by set_solver. rewrite size_singleton in Hs. lia.
Qed.

(** Counting the rows whose keys are listed: all of them are there when the count
    is the length of the list. *)
Lemma count_where_all {K V} `{Countable K} (l : list K) (Q : V → bool) (m : gmap K V) :
  NoDup l →
  count_where (λ k v, bool_decide (k ∈ l) && Q v) m = Z.of_nat (length l) →
  ∀ k, k ∈ l → ∃ v, m !! k = Some v ∧ Q v = true.
Proof.
  intros Hnd Hc k Hk. unfold count_where in Hc. apply Nat2Z.inj in Hc.
  set (s := select _ m) in Hc.
  assert (Hs : ∀ x, x ∈ s → x ∈ l ∧ ∃ v, m !! x = Some v ∧ Q v = true).
  { intros x (k' & v & Hm & Hf)%elem_of_select.
    destruct (bool_decide (k' ∈ l)) eqn:Hin; simpl in Hf; [|done].
    apply bool_decide_eq_true in Hin. destruct (Q v) eqn:HQ; [|done]. simplify_eq. eauto. }
  assert (Hsub : s ⊆+ l).
  { apply NoDup_submseteq; [|intros x Hx; by apply Hs].
    rewrite <-(list_fmap_id s). apply select_NoDup. intros k' v r.
    destruct (_ && _); naive_solver. }
  apply Hs. rewrite (submseteq_length_Permutation _ _ Hsub); [done|]. rewrite Hc. done.
Qed.

Lemma exists_where_ext {K V} `{Countable K} (P Q : K → V → bool) (m : gmap K V) :
  (∀ k v, P k v = Q k v) → exists_where P m = exists_where Q m.
Proof.
  intros He. unfold exists_where. induction (map_to_list m) as [|[k v] l IH]; simpl; [done|].
  by rewrite He, IH.
Qed.

(** Deleting what was just inserted. *)
Lemma delete_where_insert_fresh {K V} `{Countable K} (P : K → V → bool) (m : gmap K V) k v :
  m !! k = None → P k v = true → exists_where P m = false →
  delete_where P (<[k:=v]> m) = m.
Proof.
  intros Hk HP Hno. rewrite exists_where_false in Hno. apply map_eq. intros i.
  destruct (m !! i) as [x|] eqn:Hi.
  - apply lookup_delete_where. rewrite lookup_insert_ne by congruence. eauto.
  - apply lookup_delete_where_None. intros x. rewrite lookup_insert_Some.
    intros [[<- <-]|[_ ?]]; congruence.
Qed.
