(* ===== verification/Keyset.v ===== *)
(** * Keyset pages

    Every list endpoint of the service reads
    [.. AND (created_at < $c OR (created_at = $c AND id < $i))
     ORDER BY created_at DESC, id DESC LIMIT n]
    (or the ascending mirror image), asks for one row more than the page holds
    and turns the surplus row into the next cursor. This file models the query
    and the page step, and relates consecutive pages to the full result. *)

From S2P Require Import Prelude.
From stdpp Require Import options.

Abbreviation Key := (Z * N)%type (only parsing).

(** [created_at < c OR (created_at = c AND id < i)]. *)
Definition key_ltb (a b : Key) : bool :=
  (a.1 <? b.1)%Z || ((a.1 =? b.1)%Z && (a.2 <? b.2)%N).
Definition key_lt (a b : Key) : Prop := key_ltb a b = true.
Definition key_le (a b : Key) : Prop := key_ltb b a = false.

Lemma key_lt_spec a b : key_lt a b ↔ (a.1 < b.1)%Z ∨ (a.1 = b.1 ∧ (a.2 < b.2)%N).
Proof.
  unfold key_lt, key_ltb. rewrite orb_true_iff, andb_true_iff.
  by rewrite Z.ltb_lt, Z.eqb_eq, N.ltb_lt.
Qed.
Lemma key_le_spec a b : key_le a b ↔ ¬ key_lt b a.
Proof. unfold key_le, key_lt. by rewrite not_true_iff_false. Qed.

Global Instance key_lt_dec : RelDecision key_lt.
Proof. intros a b. unfold key_lt. apply _. Defined.
Global Instance key_le_dec : RelDecision key_le.
Proof. intros a b. unfold key_le. apply _. Defined.

Ltac key_solve :=
  repeat match goal with
  | H : key_le _ _ |- _ => apply key_le_spec in H
  | H : key_lt _ _ |- _ => apply key_lt_spec in H
  | H : ¬ key_lt _ _ |- _ => rewrite key_lt_spec in H
  | |- key_le _ _ => apply key_le_spec
  | |- key_lt _ _ => apply key_lt_spec
  | |- ¬ key_lt _ _ => rewrite key_lt_spec
  end; try lia.

Lemma key_lt_irrefl a : ¬ key_lt a a.
Proof. key_solve. Qed.
Lemma key_lt_trans a b c : key_lt a b → key_lt b c → key_lt a c.
Proof. intros; key_solve. Qed.
Lemma key_le_antisym a b : key_le a b → key_le b a → a = b.
Proof. destruct a, b. intros; key_solve. f_equal; simpl in *; lia. Qed.

#[local] Arguments Nat.modulo : simpl never.

Section keyset.
Context {A : Type} (key : A → Key).
Implicit Types (rows : list A) (c : option Key).

(** The direction of the walk: [DESC] (newest first) or [ASC]. *)
Inductive Dir := Desc | Asc.

(** [x] comes before [y] in the result. *)
Definition precedes (d : Dir) (a b : Key) : Prop :=
  match d with Desc => key_lt b a | Asc => key_lt a b end.
Definition row_le (d : Dir) (x y : A) : Prop :=
  match d with Desc => key_le (key y) (key x) | Asc => key_le (key x) (key y) end.

Global Instance precedes_dec d : RelDecision (precedes d).
Proof. intros a b. destruct d; simpl; apply _. Defined.
Global Instance row_le_dec d : RelDecision (row_le d).
Proof. intros x y. destruct d; simpl; apply _. Defined.

Definition after_cursor (d : Dir) (c : option Key) (x : A) : bool :=
  match c with None => true | Some k => bool_decide (precedes d k (key x)) end.

(** [ORDER BY created_at d, id d]. *)
Definition order_by (d : Dir) (rows : list A) : list A := merge_sort (row_le d) rows.

(** The rows after the cursor, in order: the query without its [LIMIT]. *)
Definition walk (d : Dir) c rows : list A :=
  order_by d (filter (λ x, after_cursor d c x = true) rows).

(** The whole query. *)
Definition keyset (d : Dir) c (limit : Z) rows : list A :=
  take (Z.to_nat limit) (walk d c rows).

(** The page step shared by the handlers: fetch [limit + 1] rows; when the
    surplus row is there, pop it and make it the next cursor. *)
Definition page_of (limit : Z) (fetched : list A) : list A * option Key :=
  if (limit <? Z.of_nat (length fetched))%Z
  then (take (Nat.pred (length fetched)) fetched, key <$> last fetched)
  else (fetched, None).

(** A client that follows [next_cursor] until it is null. *)
Fixpoint browse (fuel : nat) (d : Dir) (limit : Z) c rows : list A :=
  match fuel with
  | O => []
  | S fuel' =>
      let '(items, next) := page_of limit (keyset d c (limit + 1) rows) in
      items ++ match next with
               | None => []
               | Some k => browse fuel' d limit (Some k) rows
               end
  end.

(** The rows whose position is not congruent to [n] modulo [n + 1]. *)
Definition drop_every (n : nat) (l : list A) : list A :=
  (filter (λ p, p.1 mod (S n) ≠ n) (imap pair l)).*2.

Lemma precedes_irrefl d a : ¬ precedes d a a.
Proof. destruct d; apply key_lt_irrefl. Qed.
Lemma precedes_trans d a b e : precedes d a b → precedes d b e → precedes d a e.
Proof. destruct d; simpl; intros; eauto using key_lt_trans. Qed.

Global Instance row_le_trans d : Transitive (row_le d).
Proof. intros x y z. destruct d; simpl; intros; key_solve. Qed.
Global Instance row_le_total d : Total (row_le d).
Proof.
  intros x y. destruct d; simpl; unfold key_le, key_ltb;
    destruct (key x) as [a b], (key y) as [a' b']; simpl;
    rewrite !orb_false_iff, !andb_false_iff, !Z.ltb_ge, !Z.eqb_neq, !N.ltb_ge; lia.
Qed.

Lemma order_by_perm d rows : order_by d rows ≡ₚ rows.
Proof. apply merge_sort_Permutation. Qed.

Lemma order_by_sorted d rows : StronglySorted (row_le d) (order_by d rows).
Proof. apply StronglySorted_merge_sort; apply _. Qed.

Lemma elem_of_walk d c rows x :
  x ∈ walk d c rows ↔ x ∈ rows ∧ after_cursor d c x = true.
Proof. unfold walk. rewrite order_by_perm, list_elem_of_filter. naive_solver. Qed.

(** A row sorted before another, with another key, precedes it strictly. *)
Lemma row_le_strict d x y :
  row_le d x y → key x ≠ key y → precedes d (key x) (key y).
Proof.
  intros Hle Hne. destruct d; simpl in *.
  - destruct (decide (key_lt (key y) (key x))) as [|Hn]; [done|]. exfalso.
    apply Hne, key_le_antisym; [by apply key_le_spec|done].
  - destruct (decide (key_lt (key x) (key y))) as [|Hn]; [done|]. exfalso.
    apply Hne, key_le_antisym; [done|by apply key_le_spec].
Qed.

Lemma imap_pair_shift (n : nat) (l : list A) :
  (filter (λ p, p.1 mod (S n) ≠ n) (imap (λ i y, (S n + i, y)) l)).*2
  = drop_every n l.
Proof.
  unfold drop_every.
  replace (imap (λ i y, (S n + i, y)) l)
    with (prod_map (λ i, S n + i) id <$> imap pair l)
    by (rewrite fmap_imap; by apply imap_ext).
  rewrite filter_fmap_comm, <-list_fmap_compose.
  rewrite (list_filter_iff _ (λ p, p.1 mod (S n) ≠ n)).
  - by apply list_fmap_ext.
  - intros [i y]. cbn -[Nat.modulo Nat.add].
    replace (S n + i) with (i + 1 * S n) by lia. by rewrite Nat.Div0.mod_add.
Qed.

Lemma drop_every_short n (l : list A) : length l ≤ n → drop_every n l = l.
Proof.
  intros Hl. unfold drop_every. rewrite filter_all.
  - rewrite fmap_imap. apply list_eq. intros i. rewrite list_lookup_imap.
    by destruct (l !! i).
  - intros [i x] (j & y & [= -> ->] & Hj)%elem_of_lookup_imap_1. simpl.
    apply lookup_lt_Some in Hj. rewrite Nat.mod_small; lia.
Qed.

Lemma drop_every_app n (l1 : list A) x l2 :
  length l1 = n → drop_every n (l1 ++ x :: l2) = l1 ++ drop_every n l2.
Proof.
  intros Hn. rewrite <-(drop_every_short n l1) at 2 by lia.
  rewrite <-(imap_pair_shift n l2). unfold drop_every.
  rewrite imap_app, filter_app, fmap_app. f_equal. simpl.
  rewrite filter_cons_False.
  2:{ simpl. rewrite Nat.add_0_r, Hn, Nat.mod_small; lia. }
  do 2 f_equal. apply imap_ext. intros i y _. simpl. f_equal. lia.
Qed.

(** Membership in [drop_every] by position. *)
Lemma drop_every_lookup n (l : list A) i x :
  NoDup l → l !! i = Some x → x ∈ drop_every n l ↔ i mod (S n) ≠ n.
Proof.
  intros Hnd Hi. unfold drop_every. rewrite list_elem_of_fmap. split.
  - intros ([j y] & -> & [Hj (k & z & [= -> ->] & Hk)%elem_of_lookup_imap_1]%list_elem_of_filter).
    simpl in *. by rewrite (NoDup_lookup _ _ _ _ Hnd Hi Hk).
  - intros Hm. exists (i, x). split; [done|]. apply list_elem_of_filter. split; [done|].
    apply elem_of_lookup_imap_2. eauto.
Qed.

Section distinct.
Context (rows : list A) (Hkeys : NoDup (key <$> rows)).

Lemma walk_keys d c : NoDup (key <$> walk d c rows).
Proof using Hkeys.
  unfold walk. rewrite order_by_perm.
  eapply sublist_NoDup; [apply Hkeys|]. apply fmap_sublist, sublist_filter.
Qed.

(** The walk is in strict order: no two rows of a page tie. *)
Lemma walk_strict d c :
  StronglySorted (λ x y, precedes d (key x) (key y)) (walk d c rows).
Proof using Hkeys.
  pose proof (walk_keys d c) as Hnd.
  pose proof (order_by_sorted d (filter (λ x, after_cursor d c x = true) rows)) as Hs.
  fold (walk d c rows) in Hs. induction Hs as [|x l Hl IH Hx]; constructor.
  - apply IH. by inversion Hnd.
  - simpl in Hnd. apply NoDup_cons in Hnd as [Hnin _].
    rewrite Forall_forall in Hx |- *. intros y Hy.
    apply row_le_strict; [by apply Hx|]. intros He. apply Hnin. rewrite He.
    by apply list_elem_of_fmap_2.
Qed.

(** In the part of a walk behind [x], and only there, rows come after [x]. *)
Lemma filter_after d l1 x l2 :
  StronglySorted (λ x y, precedes d (key x) (key y)) (l1 ++ x :: l2) →
  filter (λ y, after_cursor d (Some (key x)) y = true) (l1 ++ x :: l2) = l2.
Proof.
  intros Hs. pose proof (StronglySorted_app_1_r _ _ _ Hs) as Hr.
  apply StronglySorted_inv in Hr as [_ Hr]. rewrite Forall_forall in Hr.
  rewrite filter_app, filter_none.
  - simpl. rewrite filter_cons_False.
    + apply filter_all. intros y Hy. by apply bool_decide_eq_true, Hr.
    + simpl. rewrite bool_decide_eq_true. apply precedes_irrefl.
  - intros y Hy. simpl. rewrite bool_decide_eq_true. intros Hp.
    apply (precedes_irrefl d (key x)). eapply precedes_trans; [exact Hp|].
    eapply (StronglySorted_app_1_elem_of _ _ _ y x Hs); [done|left].
Qed.

(** Two ordered arrangements of the same rows are the same list. *)
Lemma ordered_unique d l l' :
  l ⊆ rows → StronglySorted (row_le d) l → StronglySorted (row_le d) l' →
  l ≡ₚ l' → l = l'.
Proof using Hkeys.
  intros Hsub Hl Hl' Hp. apply (StronglySorted_unique_strong (row_le d)); try done.
  intros y z Hy Hz H1 H2. rewrite <-Hp in Hz.
  apply (NoDup_fmap_inj key rows); [done|set_solver..|].
  destruct d; simpl in *; eauto using key_le_antisym, eq_sym.
Qed.

(** Restarting the walk at one of its own rows yields exactly the rows
    behind it. *)
Lemma walk_restart d c l1 x l2 :
  walk d c rows = l1 ++ x :: l2 → walk d (Some (key x)) rows = l2.
Proof using Hkeys.
  intros Hw. pose proof (walk_strict d c) as Hs. rewrite Hw in Hs.
  assert (Hx : after_cursor d c x = true)
    by (eapply elem_of_walk; rewrite Hw; set_solver).
  assert (Hmono : ∀ y, after_cursor d (Some (key x)) y = true →
                       after_cursor d c y = true).
  { intros y Hy. unfold after_cursor in *. destruct c as [k|]; [|done].
    apply bool_decide_eq_true in Hy, Hx. apply bool_decide_eq_true.
    by eapply precedes_trans. }
  apply (ordered_unique d).
  - intros y Hy. by apply elem_of_walk in Hy as [? _].
  - apply order_by_sorted.
  - eapply (StronglySorted_app_1_r _ (l1 ++ [x])). rewrite <-(assoc_L app).
    simpl. rewrite <-Hw. apply order_by_sorted.
  - rewrite <-(filter_after d l1 x l2 Hs), <-Hw. unfold walk.
    rewrite !order_by_perm, list_filter_filter_l; [done|exact Hmono].
Qed.

(** A full page followed by the page at its last row is the double page:
    what a cursor that names the last row {e returned} would give. *)
Lemma keyset_continue d c n x n' :
  last (keyset d c (Z.of_nat n) rows) = Some x →
  keyset d c (Z.of_nat n) rows ++ keyset d (Some (key x)) (Z.of_nat n') rows
  = keyset d c (Z.of_nat (n + n')) rows.
Proof using Hkeys.
  unfold keyset. rewrite !Nat2Z.id. intros [l Hl]%last_Some.
  assert (Hr : walk d (Some (key x)) rows = drop n (walk d c rows)).
  { apply (walk_restart d c l x).
    rewrite <-(take_drop n (walk d c rows)) at 1. rewrite Hl.
    by rewrite <-(assoc_L app). }
  rewrite Hr. apply take_take_drop.
Qed.

(** What the page step does to a walk that has more rows than the page: the
    page holds the first [limit] rows, the cursor names the row after them. *)
Lemma page_of_more d c n l1 x l2 :
  walk d c rows = l1 ++ x :: l2 → length l1 = n →
  page_of (Z.of_nat n) (keyset d c (Z.of_nat n + 1) rows) = (l1, Some (key x)).
Proof.
  intros Hw Hn. unfold keyset.
  replace (Z.to_nat (Z.of_nat n + 1)) with (S n) by lia.
  assert (Ht : take (S n) (walk d c rows) = l1 ++ [x]).
  { rewrite Hw, <-Hn. rewrite firstn_app. rewrite take_ge by lia.
    by replace (S (length l1) - length l1) with 1 by lia. }
  rewrite Ht. unfold page_of. rewrite length_app. simpl.
  rewrite (proj2 (Z.ltb_lt _ _)) by lia.
  replace (Nat.pred (length l1 + 1)) with (length l1) by lia.
  by rewrite take_app_length, last_snoc.
Qed.

Lemma page_of_last d c n :
  length (walk d c rows) ≤ n →
  page_of (Z.of_nat n) (keyset d c (Z.of_nat n + 1) rows) = (walk d c rows, None).
Proof.
  intros Hn. unfold keyset.
  replace (Z.to_nat (Z.of_nat n + 1)) with (S n) by lia.
  rewrite take_ge by lia. unfold page_of.
  by rewrite (proj2 (Z.ltb_ge _ _)) by lia.
Qed.

(** A page is the rest of the walk, or stops before a row that is there. *)
Lemma page_cases d c n :
  let page := page_of (Z.of_nat n) (keyset d c (Z.of_nat n + 1) rows) in
  (length (walk d c rows) ≤ n ∧ page = (walk d c rows, None)) ∨
  ∃ l1 x l2, walk d c rows = l1 ++ x :: l2 ∧ length l1 = n ∧ page = (l1, Some (key x)) ∧
             walk d (Some (key x)) rows = l2.
Proof using Hkeys.
  intros page. destruct (decide (length (walk d c rows) ≤ n)) as [Hle|Hgt].
  - left. split; [done|]. by apply page_of_last.
  - right. destruct (lookup_lt_is_Some_2 (walk d c rows) n) as [x Hx]; [lia|].
    exists (take n (walk d c rows)), x, (drop (S n) (walk d c rows)).
    assert (Hw : walk d c rows = take n (walk d c rows) ++ x :: drop (S n) (walk d c rows))
      by (symmetry; by apply take_drop_middle).
    assert (Hn : length (take n (walk d c rows)) = n) by (rewrite length_take; lia).
    split_and!; [exact Hw|exact Hn|by eapply page_of_more|by eapply walk_restart].
Qed.

(** Following the cursors delivers the walk without every [(n+1)]-st row:
    each surplus row becomes a cursor, and the next page starts behind it. *)
Lemma browse_drop_every d n fuel c :
  length (walk d c rows) < fuel →
  browse fuel d (Z.of_nat n) c rows = drop_every n (walk d c rows).
Proof using Hkeys.
  revert c. induction fuel as [|fuel IH]; intros c Hf; [lia|]. simpl.
  destruct (page_cases d c n) as [[Hle ->]|(l1 & x & l2 & Hw & Hn & -> & Hr)].
  - rewrite app_nil_r. symmetry. by apply drop_every_short.
  - rewrite Hw, length_app in Hf. simpl in Hf. rewrite IH, Hr by (rewrite Hr; lia).
    rewrite Hw. symmetry. by apply drop_every_app.
Qed.
End distinct.
End keyset.

(** Rows with distinct ids have distinct keys. *)
Lemma NoDup_keys {A} (key : A → Key) (idf : A → N) (rows : list A) :
  (∀ x, (key x).2 = idf x) → NoDup (idf <$> rows) → NoDup (key <$> rows).
Proof.
  intros Hk Hnd. apply (NoDup_fmap_1 snd). rewrite <-list_fmap_compose.
  erewrite list_fmap_ext; [exact Hnd|]. intros i x _. apply Hk.
Qed.

(** Sorting a rearrangement of a list that is in order gives the list back. *)
Lemma order_by_sorted_perm {A} (key : A → Key) d (l l' : list A) :
  NoDup (key <$> l) → StronglySorted (row_le key d) l → l' ≡ₚ l → order_by key d l' = l.
Proof.
  intros Hnd Hs Hp. apply (ordered_unique key l Hnd d).
  - intros x. by rewrite order_by_perm, Hp.
  - apply order_by_sorted.
  - done.
  - by rewrite order_by_perm.
Qed.

(** ** Pages of positions *)

Section positions.
Context {A : Type} (key : A → Key).

(** What a query returns is determined by the positions of its rows. *)
Lemma walk_keys_of d c (rows : list A) :
  NoDup (key <$> rows) → key <$> walk key d c rows = walk id d c (key <$> rows).
Proof using Type.
  intros Hnd. symmetry. apply order_by_sorted_perm.
  - rewrite list_fmap_id. by apply walk_keys.
  - eapply (StronglySorted_fmap key (row_le key d)); [by destruct d|apply order_by_sorted].
  - unfold walk. by rewrite order_by_perm, filter_fmap_comm.
Qed.
Lemma keyset_keys_of d c n (rows : list A) :
  NoDup (key <$> rows) → key <$> keyset key d c n rows = keyset id d c n (key <$> rows).
Proof using Type. intros Hnd. unfold keyset. by rewrite fmap_take, walk_keys_of. Qed.
Lemma page_keys_of n (l : list A) :
  page_of id n (key <$> l) = (key <$> (page_of key n l).1, (page_of key n l).2).
Proof using Type.
  unfold page_of. rewrite length_fmap. case_match; simpl; [|done].
  rewrite fmap_take, fmap_last. by destruct (last l).
Qed.
End positions.

(** A page never holds more than it was asked for. *)
Lemma page_of_length {A} (key : A → Key) n (l : list A) :
  (0 ≤ n)%Z → (Z.of_nat (length l) ≤ n + 1)%Z → (Z.of_nat (length (page_of key n l).1) ≤ n)%Z.
Proof.
  intros Hn Hl. unfold page_of. destruct (Z.ltb_spec n (Z.of_nat (length l))); simpl; [|lia].
  rewrite length_take. lia.
Qed.
