(* ===== verification/Domain.v ===== *)
(** * Domain types

    The structs and enums of [src/domain]: what the services return to the
    HTTP layer. Field names carry the struct's name, since Rocq projections
    share one name space. *)

From S2P Require Import Prelude.
From stdpp Require Import options.

(** ** user.rs *)

Record User := mkUser {
  user_id : Uuid; user_handle : string; user_email : string;
  user_display_name : string; user_bio : option string;
  user_avatar_key : option string; user_avatar_url : option string;
  user_created_at : Time }.

Record PublicUser := mkPublicUser {
  pu_id : Uuid; pu_handle : string; pu_display_name : string;
  pu_bio : option string; pu_avatar_url : option string; pu_created_at : Time;
  pu_followers_count : Z; pu_following_count : Z; pu_posts_count : Z }.

(** [impl From<User> for PublicUser]: the e-mail address and the storage key of
    the avatar stay behind. *)
Definition public_user_from (u : User) : PublicUser :=
  mkPublicUser (user_id u) (user_handle u) (user_display_name u) (user_bio u)
    (user_avatar_url u) (user_created_at u) 0 0 0.

(** [PublicUser::from_user_with_url]. *)
Definition from_user_with_url (u : User) (avatar_url : option string) : PublicUser :=
  mkPublicUser (user_id u) (user_handle u) (user_display_name u) (user_bio u)
    avatar_url (user_created_at u) 0 0 0.

(** ** media.rs *)

Record Media := mkMedia {
  media_id : Uuid; media_owner_id : Uuid; media_original_key : string;
  media_thumb_key : string; media_medium_key : string; media_width : Z;
  media_height : Z; media_bytes : Z; media_created_at : Time;
  media_thumb_url : option string; media_medium_url : option string;
  media_original_url : option string }.

(** ** post.rs *)

Inductive PostVisibility := Public | FollowersOnly.
Global Instance PostVisibility_eq_dec : EqDecision PostVisibility.
Proof. solve_decision. Defined.

Definition post_visibility_from_db (value : string) : option PostVisibility :=
  if decide (value = "public") then Some Public
  else if decide (value = "followers_only") then Some FollowersOnly
  else None.
Definition post_visibility_as_db (v : PostVisibility) : string :=
  match v with Public => "public" | FollowersOnly => "followers_only" end.

Record Post := mkPost {
  post_id : Uuid; post_owner_id : Uuid; post_owner_handle : option string;
  post_owner_display_name : option string; post_media_ids : list Uuid;
  post_primary_media : option Media; post_caption : option string;
  post_created_at : Time; post_visibility : PostVisibility;
  post_owner_avatar_key : option string; post_owner_avatar_url : option string;
  post_like_count : option Z; post_comment_count : option Z;
  post_liked_by_viewer : option bool }.

(** ** engagement.rs *)

Record Like := mkLike {
  like_id : Uuid; like_user_id : Uuid; like_post_id : Uuid; like_created_at : Time }.

Record Comment := mkComment {
  comment_id : Uuid; comment_user_id : Uuid; comment_post_id : Uuid;
  comment_body : string; comment_created_at : Time;
  comment_user_handle : option string; comment_user_display_name : option string }.

(** ** story.rs *)

Inductive StoryVisibility := StoryPublic | FriendsOnly | CloseFriendsOnly.
Global Instance StoryVisibility_eq_dec : EqDecision StoryVisibility.
Proof. solve_decision. Defined.

Definition story_visibility_from_db (value : string) : option StoryVisibility :=
  if decide (value = "public") then Some StoryPublic
  else if decide (value = "friends_only") then Some FriendsOnly
  else if decide (value = "close_friends_only") then Some CloseFriendsOnly
  else None.
Definition story_visibility_as_db (v : StoryVisibility) : string :=
  match v with
  | StoryPublic => "public"
  | FriendsOnly => "friends_only"
  | CloseFriendsOnly => "close_friends_only"
  end.

Record Story := mkStory {
  story_id : Uuid; story_user_id : Uuid; story_user_handle : option string;
  story_user_display_name : option string; story_user_avatar_key : option string;
  story_user_avatar_url : option string; story_media_id : Uuid;
  story_media : option Media; story_caption : option string;
  story_created_at : Time; story_expires_at : Time;
  story_visibility : StoryVisibility; story_view_count : Z;
  story_reaction_count : Z }.

Record StoryReaction := mkStoryReaction {
  reaction_id : Uuid; reaction_story_id : Uuid; reaction_user_id : Uuid;
  reaction_user_handle : option string; reaction_emoji : string;
  reaction_created_at : Time }.

Record StoryView := mkStoryView {
  view_viewer_id : Uuid; view_viewer_handle : option string;
  view_viewer_display_name : option string; view_viewer_avatar_key : option string;
  view_viewer_avatar_url : option string; view_viewed_at : Time }.

Record StoryHighlight := mkStoryHighlight {
  highlight_id : Uuid; highlight_user_id : Uuid; highlight_name : string;
  highlight_cover_story_id : option Uuid; highlight_created_at : Time;
  highlight_updated_at : Time }.

Record EmojiCount := mkEmojiCount { emoji_emoji : string; emoji_count : Z }.

Record StoryMetrics := mkStoryMetrics {
  metrics_story_id : Uuid; metrics_view_count : Z; metrics_reaction_count : Z;
  metrics_reactions_by_emoji : list EmojiCount; metrics_viewer_ids : list Uuid }.

(** ** notification.rs *)

(** [serde_json::Value]; objects are sorted maps without duplicate keys, kept
    here as association lists built by [json_insert]. *)
Inductive Json :=
| JNull
| JBool (b : bool)
| JNumber (z : Z)
| JString (s : string)
| JArray (l : list Json)
| JObject (kvs : list (string * Json)).

(** [Map::insert]: replaces the value of a present key. *)
Definition json_insert (k : string) (v : Json) (kvs : list (string * Json)) :
    list (string * Json) :=
  (k, v) :: filter (λ kv, kv.1 ≠ k) kvs.

Definition json_lookup (k : string) (j : Json) : option Json :=
  match j with
  | JObject kvs => (λ p, p.2.2) <$> list_find (λ kv, kv.1 = k) kvs
  | _ => None
  end.

Record Notification := mkNotification {
  notif_id : Uuid; notif_user_id : Uuid; notif_type : string; notif_payload : Json;
  notif_read_at : option Time; notif_created_at : Time }.

(** ** moderation.rs *)

Record ModerationAction := mkModerationAction {
  action_id : Uuid; action_actor_id : option Uuid; action_target_type : string;
  action_target_id : Uuid; action_reason : option string; action_created_at : Time }.

Record UserFlag := mkUserFlag {
  uflag_id : Uuid; uflag_reporter_id : Uuid; uflag_target_id : Uuid;
  uflag_reason : option string; uflag_created_at : Time }.

Record PostFlag := mkPostFlag {
  pflag_id : Uuid; pflag_reporter_id : Uuid; pflag_post_id : Uuid;
  pflag_reason : option string; pflag_created_at : Time }.

(** The labels written to the enum columns are read back. *)
Lemma post_visibility_roundtrip v :
  post_visibility_from_db (post_visibility_as_db v) = Some v.
Proof. by destruct v. Qed.
Lemma story_visibility_roundtrip v :
  story_visibility_from_db (story_visibility_as_db v) = Some v.
Proof. by destruct v. Qed.
