(* ===== verification/Schema.v ===== *)
(** * Database schema

    One record per table of [migrations/*.sql] as it stands after migration 015,
    and [Db], the database the services share. Tables are finite maps keyed by
    primary key. Tables whose own [id] no query reads ([story_views],
    [story_highlight_items]) are keyed by their UNIQUE pair. [story_reactions],
    [user_flags] and [post_flags] are keyed by their UNIQUE pair and keep [id] as
    a column. Users are only ever soft-deleted, so the ON DELETE clauses on user
    references never fire; the cascades from posts and stories, and the RESTRICT
    on media, are [delete_post_rows], [delete_story_rows] and [media_referenced]. *)

From S2P Require Import Prelude Sql Domain.
From stdpp Require Import options.

(** ** Rows *)

Record UserRow := mkUserRow {
  u_handle : string; u_email : string; u_display_name : string;
  u_bio : option string; u_avatar_key : option string; u_created_at : Time;
  u_password_hash : string; u_deleted_at : option Time }.

Record RefreshRow := mkRefreshRow {
  rt_user_id : Uuid; rt_token_hash : string; rt_created_at : Time;
  rt_expires_at : Time; rt_revoked_at : option Time; rt_replaced_by : option Uuid }.

Record TrustRow := mkTrustRow {
  ts_trust_level : Z; ts_trust_points : Z; ts_account_age_days : Z;
  ts_posts_count : Z; ts_comments_count : Z; ts_likes_received_count : Z;
  ts_followers_count : Z; ts_flags_received : Z; ts_strikes : Z;
  ts_banned_until : option Time; ts_created_at : Time; ts_updated_at : Time;
  ts_last_activity_at : Time; ts_invites_sent : Z; ts_successful_invites : Z }.

Record InviteRow := mkInviteRow {
  ic_created_by : option Uuid; ic_used_by : option Uuid; ic_created_at : Time;
  ic_used_at : option Time; ic_expires_at : Time; ic_is_valid : bool;
  ic_invite_type : string; ic_max_uses : Z; ic_use_count : Z }.

Record InviteRelRow := mkInviteRelRow { ir_invite_code : string; ir_invited_at : Time }.

Record MediaRow := mkMediaRow {
  m_owner_id : Uuid; m_original_key : string; m_thumb_key : string;
  m_medium_key : string; m_width : Z; m_height : Z; m_bytes : Z; m_created_at : Time }.

(** [media_upload_status]. *)
Inductive UploadStatus := Pending | Uploaded | Processing | Failed | Completed.
Global Instance UploadStatus_eq_dec : EqDecision UploadStatus.
Proof. solve_decision. Defined.

Record UploadRow := mkUploadRow {
  mu_owner_id : Uuid; mu_original_key : string; mu_content_type : string;
  mu_bytes : Z; mu_status : UploadStatus; mu_created_at : Time;
  mu_uploaded_at : option Time; mu_processed_media_id : option Uuid }.

Record PostRow := mkPostRow {
  p_owner_id : Uuid; p_caption : option string; p_visibility : PostVisibility;
  p_created_at : Time }.

Record LikeRow := mkLikeRow { l_user_id : Uuid; l_post_id : Uuid; l_created_at : Time }.

Record CommentRow := mkCommentRow {
  c_user_id : Uuid; c_post_id : Uuid; c_body : string; c_created_at : Time }.

Record StoryRow := mkStoryRow {
  s_user_id : Uuid; s_media_id : Uuid; s_caption : option string; s_created_at : Time;
  s_expires_at : Time; s_visibility : StoryVisibility; s_view_count : Z;
  s_reaction_count : Z }.

Record ReactionRow := mkReactionRow { sr_id : Uuid; sr_emoji : string; sr_created_at : Time }.

Record HighlightRow := mkHighlightRow {
  h_user_id : Uuid; h_name : string; h_cover_story_id : option Uuid;
  h_created_at : Time; h_updated_at : Time }.

Record NotificationRow := mkNotificationRow {
  n_user_id : Uuid; n_type : string; n_payload : Json; n_read_at : option Time;
  n_created_at : Time }.

Record ActionRow := mkActionRow {
  a_actor_id : option Uuid; a_target_type : string; a_target_id : Uuid;
  a_reason : option string; a_created_at : Time }.

Record FlagRow := mkFlagRow { f_id : Uuid; f_reason : option string; f_created_at : Time }.

Record DeviceRow := mkDeviceRow {
  d_last_seen_at : Time; d_user_ids : list Uuid; d_account_count : Z;
  d_risk_score : Z; d_is_blocked : bool; d_block_reason : option string;
  d_blocked_at : option Time; d_user_agent : option string; d_updated_at : Time }.

(** ** The database *)

Record Db := mkDb {
  users : gmap N UserRow;
  refresh_tokens : gmap N RefreshRow;
  user_trust_scores : gmap N TrustRow;
  invite_codes : gmap string InviteRow;
  invite_relationships : gmap (N * N) InviteRelRow;
  follows : gmap (N * N) Z;
  blocks : gmap (N * N) Z;
  media : gmap N MediaRow;
  media_uploads : gmap N UploadRow;
  posts : gmap N PostRow;
  post_media : gmap (N * N) Z;
  likes : gmap N LikeRow;
  comments : gmap N CommentRow;
  stories : gmap N StoryRow;
  story_views : gmap (N * N) Z;
  story_reactions : gmap (N * N) ReactionRow;
  story_highlights : gmap N HighlightRow;
  story_highlight_items : gmap (N * N) Z;
  notifications : gmap N NotificationRow;
  moderation_actions : gmap N ActionRow;
  user_flags : gmap (N * N) FlagRow;
  post_flags : gmap (N * N) FlagRow;
  device_fingerprints : gmap string DeviceRow }.

Definition empty_db : Db :=
  mkDb ∅ ∅ ∅ ∅ ∅ ∅ ∅ ∅ ∅ ∅ ∅ ∅ ∅ ∅ ∅ ∅ ∅ ∅ ∅ ∅ ∅ ∅ ∅.

(** Table updates. *)

Definition set_users (f : gmap N UserRow → gmap N UserRow) (d : Db) : Db :=
  mkDb (f (users d)) (refresh_tokens d) (user_trust_scores d) (invite_codes d) (invite_relationships d) (follows d) (blocks d) (media d) (media_uploads d) (posts d) (post_media d) (likes d) (comments d) (stories d) (story_views d) (story_reactions d) (story_highlights d) (story_highlight_items d) (notifications d) (moderation_actions d) (user_flags d) (post_flags d) (device_fingerprints d).
Definition set_refresh_tokens (f : gmap N RefreshRow → gmap N RefreshRow) (d : Db) : Db :=
  mkDb (users d) (f (refresh_tokens d)) (user_trust_scores d) (invite_codes d) (invite_relationships d) (follows d) (blocks d) (media d) (media_uploads d) (posts d) (post_media d) (likes d) (comments d) (stories d) (story_views d) (story_reactions d) (story_highlights d) (story_highlight_items d) (notifications d) (moderation_actions d) (user_flags d) (post_flags d) (device_fingerprints d).
Definition set_user_trust_scores (f : gmap N TrustRow → gmap N TrustRow) (d : Db) : Db :=
  mkDb (users d) (refresh_tokens d) (f (user_trust_scores d)) (invite_codes d) (invite_relationships d) (follows d) (blocks d) (media d) (media_uploads d) (posts d) (post_media d) (likes d) (comments d) (stories d) (story_views d) (story_reactions d) (story_highlights d) (story_highlight_items d) (notifications d) (moderation_actions d) (user_flags d) (post_flags d) (device_fingerprints d).
Definition set_invite_codes (f : gmap string InviteRow → gmap string InviteRow) (d : Db) : Db :=
  mkDb (users d) (refresh_tokens d) (user_trust_scores d) (f (invite_codes d)) (invite_relationships d) (follows d) (blocks d) (media d) (media_uploads d) (posts d) (post_media d) (likes d) (comments d) (stories d) (story_views d) (story_reactions d) (story_highlights d) (story_highlight_items d) (notifications d) (moderation_actions d) (user_flags d) (post_flags d) (device_fingerprints d).
Definition set_invite_relationships (f : gmap (N * N) InviteRelRow → gmap (N * N) InviteRelRow) (d : Db) : Db :=
  mkDb (users d) (refresh_tokens d) (user_trust_scores d) (invite_codes d) (f (invite_relationships d)) (follows d) (blocks d) (media d) (media_uploads d) (posts d) (post_media d) (likes d) (comments d) (stories d) (story_views d) (story_reactions d) (story_highlights d) (story_highlight_items d) (notifications d) (moderation_actions d) (user_flags d) (post_flags d) (device_fingerprints d).
Definition set_follows (f : gmap (N * N) Z → gmap (N * N) Z) (d : Db) : Db :=
  mkDb (users d) (refresh_tokens d) (user_trust_scores d) (invite_codes d) (invite_relationships d) (f (follows d)) (blocks d) (media d) (media_uploads d) (posts d) (post_media d) (likes d) (comments d) (stories d) (story_views d) (story_reactions d) (story_highlights d) (story_highlight_items d) (notifications d) (moderation_actions d) (user_flags d) (post_flags d) (device_fingerprints d).
Definition set_blocks (f : gmap (N * N) Z → gmap (N * N) Z) (d : Db) : Db :=
  mkDb (users d) (refresh_tokens d) (user_trust_scores d) (invite_codes d) (invite_relationships d) (follows d) (f (blocks d)) (media d) (media_uploads d) (posts d) (post_media d) (likes d) (comments d) (stories d) (story_views d) (story_reactions d) (story_highlights d) (story_highlight_items d) (notifications d) (moderation_actions d) (user_flags d) (post_flags d) (device_fingerprints d).
Definition set_media (f : gmap N MediaRow → gmap N MediaRow) (d : Db) : Db :=
  mkDb (users d) (refresh_tokens d) (user_trust_scores d) (invite_codes d) (invite_relationships d) (follows d) (blocks d) (f (media d)) (media_uploads d) (posts d) (post_media d) (likes d) (comments d) (stories d) (story_views d) (story_reactions d) (story_highlights d) (story_highlight_items d) (notifications d) (moderation_actions d) (user_flags d) (post_flags d) (device_fingerprints d).
Definition set_media_uploads (f : gmap N UploadRow → gmap N UploadRow) (d : Db) : Db :=
  mkDb (users d) (refresh_tokens d) (user_trust_scores d) (invite_codes d) (invite_relationships d) (follows d) (blocks d) (media d) (f (media_uploads d)) (posts d) (post_media d) (likes d) (comments d) (stories d) (story_views d) (story_reactions d) (story_highlights d) (story_highlight_items d) (notifications d) (moderation_actions d) (user_flags d) (post_flags d) (device_fingerprints d).
Definition set_posts (f : gmap N PostRow → gmap N PostRow) (d : Db) : Db :=
  mkDb (users d) (refresh_tokens d) (user_trust_scores d) (invite_codes d) (invite_relationships d) (follows d) (blocks d) (media d) (media_uploads d) (f (posts d)) (post_media d) (likes d) (comments d) (stories d) (story_views d) (story_reactions d) (story_highlights d) (story_highlight_items d) (notifications d) (moderation_actions d) (user_flags d) (post_flags d) (device_fingerprints d).
Definition set_post_media (f : gmap (N * N) Z → gmap (N * N) Z) (d : Db) : Db :=
  mkDb (users d) (refresh_tokens d) (user_trust_scores d) (invite_codes d) (invite_relationships d) (follows d) (blocks d) (media d) (media_uploads d) (posts d) (f (post_media d)) (likes d) (comments d) (stories d) (story_views d) (story_reactions d) (story_highlights d) (story_highlight_items d) (notifications d) (moderation_actions d) (user_flags d) (post_flags d) (device_fingerprints d).
Definition set_likes (f : gmap N LikeRow → gmap N LikeRow) (d : Db) : Db :=
  mkDb (users d) (refresh_tokens d) (user_trust_scores d) (invite_codes d) (invite_relationships d) (follows d) (blocks d) (media d) (media_uploads d) (posts d) (post_media d) (f (likes d)) (comments d) (stories d) (story_views d) (story_reactions d) (story_highlights d) (story_highlight_items d) (notifications d) (moderation_actions d) (user_flags d) (post_flags d) (device_fingerprints d).
Definition set_comments (f : gmap N CommentRow → gmap N CommentRow) (d : Db) : Db :=
  mkDb (users d) (refresh_tokens d) (user_trust_scores d) (invite_codes d) (invite_relationships d) (follows d) (blocks d) (media d) (media_uploads d) (posts d) (post_media d) (likes d) (f (comments d)) (stories d) (story_views d) (story_reactions d) (story_highlights d) (story_highlight_items d) (notifications d) (moderation_actions d) (user_flags d) (post_flags d) (device_fingerprints d).
Definition set_stories (f : gmap N StoryRow → gmap N StoryRow) (d : Db) : Db :=
  mkDb (users d) (refresh_tokens d) (user_trust_scores d) (invite_codes d) (invite_relationships d) (follows d) (blocks d) (media d) (media_uploads d) (posts d) (post_media d) (likes d) (comments d) (f (stories d)) (story_views d) (story_reactions d) (story_highlights d) (story_highlight_items d) (notifications d) (moderation_actions d) (user_flags d) (post_flags d) (device_fingerprints d).
Definition set_story_views (f : gmap (N * N) Z → gmap (N * N) Z) (d : Db) : Db :=
  mkDb (users d) (refresh_tokens d) (user_trust_scores d) (invite_codes d) (invite_relationships d) (follows d) (blocks d) (media d) (media_uploads d) (posts d) (post_media d) (likes d) (comments d) (stories d) (f (story_views d)) (story_reactions d) (story_highlights d) (story_highlight_items d) (notifications d) (moderation_actions d) (user_flags d) (post_flags d) (device_fingerprints d).
Definition set_story_reactions (f : gmap (N * N) ReactionRow → gmap (N * N) ReactionRow) (d : Db) : Db :=
  mkDb (users d) (refresh_tokens d) (user_trust_scores d) (invite_codes d) (invite_relationships d) (follows d) (blocks d) (media d) (media_uploads d) (posts d) (post_media d) (likes d) (comments d) (stories d) (story_views d) (f (story_reactions d)) (story_highlights d) (story_highlight_items d) (notifications d) (moderation_actions d) (user_flags d) (post_flags d) (device_fingerprints d).
Definition set_story_highlights (f : gmap N HighlightRow → gmap N HighlightRow) (d : Db) : Db :=
  mkDb (users d) (refresh_tokens d) (user_trust_scores d) (invite_codes d) (invite_relationships d) (follows d) (blocks d) (media d) (media_uploads d) (posts d) (post_media d) (likes d) (comments d) (stories d) (story_views d) (story_reactions d) (f (story_highlights d)) (story_highlight_items d) (notifications d) (moderation_actions d) (user_flags d) (post_flags d) (device_fingerprints d).
Definition set_story_highlight_items (f : gmap (N * N) Z → gmap (N * N) Z) (d : Db) : Db :=
  mkDb (users d) (refresh_tokens d) (user_trust_scores d) (invite_codes d) (invite_relationships d) (follows d) (blocks d) (media d) (media_uploads d) (posts d) (post_media d) (likes d) (comments d) (stories d) (story_views d) (story_reactions d) (story_highlights d) (f (story_highlight_items d)) (notifications d) (moderation_actions d) (user_flags d) (post_flags d) (device_fingerprints d).
Definition set_notifications (f : gmap N NotificationRow → gmap N NotificationRow) (d : Db) : Db :=
  mkDb (users d) (refresh_tokens d) (user_trust_scores d) (invite_codes d) (invite_relationships d) (follows d) (blocks d) (media d) (media_uploads d) (posts d) (post_media d) (likes d) (comments d) (stories d) (story_views d) (story_reactions d) (story_highlights d) (story_highlight_items d) (f (notifications d)) (moderation_actions d) (user_flags d) (post_flags d) (device_fingerprints d).
Definition set_moderation_actions (f : gmap N ActionRow → gmap N ActionRow) (d : Db) : Db :=
  mkDb (users d) (refresh_tokens d) (user_trust_scores d) (invite_codes d) (invite_relationships d) (follows d) (blocks d) (media d) (media_uploads d) (posts d) (post_media d) (likes d) (comments d) (stories d) (story_views d) (story_reactions d) (story_highlights d) (story_highlight_items d) (notifications d) (f (moderation_actions d)) (user_flags d) (post_flags d) (device_fingerprints d).
Definition set_user_flags (f : gmap (N * N) FlagRow → gmap (N * N) FlagRow) (d : Db) : Db :=
  mkDb (users d) (refresh_tokens d) (user_trust_scores d) (invite_codes d) (invite_relationships d) (follows d) (blocks d) (media d) (media_uploads d) (posts d) (post_media d) (likes d) (comments d) (stories d) (story_views d) (story_reactions d) (story_highlights d) (story_highlight_items d) (notifications d) (moderation_actions d) (f (user_flags d)) (post_flags d) (device_fingerprints d).
Definition set_post_flags (f : gmap (N * N) FlagRow → gmap (N * N) FlagRow) (d : Db) : Db :=
  mkDb (users d) (refresh_tokens d) (user_trust_scores d) (invite_codes d) (invite_relationships d) (follows d) (blocks d) (media d) (media_uploads d) (posts d) (post_media d) (likes d) (comments d) (stories d) (story_views d) (story_reactions d) (story_highlights d) (story_highlight_items d) (notifications d) (moderation_actions d) (user_flags d) (f (post_flags d)) (device_fingerprints d).
Definition set_device_fingerprints (f : gmap string DeviceRow → gmap string DeviceRow) (d : Db) : Db :=
  mkDb (users d) (refresh_tokens d) (user_trust_scores d) (invite_codes d) (invite_relationships d) (follows d) (blocks d) (media d) (media_uploads d) (posts d) (post_media d) (likes d) (comments d) (stories d) (story_views d) (story_reactions d) (story_highlights d) (story_highlight_items d) (notifications d) (moderation_actions d) (user_flags d) (post_flags d) (f (device_fingerprints d)).

(** ** Shared predicates of the queries *)

(** [JOIN users u ON u.id = $1 AND u.deleted_at IS NULL]. *)
Definition active_user (d : Db) (u : Uuid) : option UserRow :=
  match users d !! u with
  | Some r => if decide (u_deleted_at r = None) then Some r else None
  | None => None
  end.

(** [EXISTS (SELECT 1 FROM follows WHERE follower_id = a AND followee_id = b)]. *)
Definition follows_edge (d : Db) (a b : Uuid) : bool := has_key (a, b) (follows d).

(** [EXISTS (SELECT 1 FROM blocks WHERE (blocker_id = a AND blocked_id = b)
      OR (blocker_id = b AND blocked_id = a))]. *)
Definition blocked_pair (d : Db) (a b : Uuid) : bool :=
  has_key (a, b) (blocks d) || has_key (b, a) (blocks d).

(** Foreign keys to [users] only need the row; soft-deleted rows count. *)
Definition user_exists (d : Db) (u : Uuid) : bool := has_key u (users d).

(** [DELETE FROM posts ..] with the ON DELETE CASCADE of [post_media], [likes],
    [comments] and [post_flags]. *)
Definition delete_post_rows (id : Uuid) (d : Db) : Db :=
  set_post_flags (delete_where (λ k _, bool_decide (k.2 = id)))
  (set_comments (delete_where (λ _ c, bool_decide (c_post_id c = id)))
  (set_likes (delete_where (λ _ l, bool_decide (l_post_id l = id)))
  (set_post_media (delete_where (λ k _, bool_decide (k.1 = id)))
  (set_posts (delete id) d)))).

(** [DELETE FROM stories ..] with the cascades of [story_views],
    [story_reactions] and [story_highlight_items] and the SET NULL of the
    highlight covers. *)
Definition delete_story_rows (P : Uuid → StoryRow → bool) (d : Db) : Db :=
  let gone (id : Uuid) : bool :=
    match stories d !! id with Some s => P id s | None => false end in
  set_story_highlights
    (update_where (λ _ h, match h_cover_story_id h with Some c => gone c | None => false end)
      (λ h, mkHighlightRow (h_user_id h) (h_name h) None (h_created_at h) (h_updated_at h)))
  (set_story_highlight_items (delete_where (λ k _, gone k.2))
  (set_story_reactions (delete_where (λ k _, gone k.1))
  (set_story_views (delete_where (λ k _, gone k.1))
  (set_stories (delete_where P) d)))).

(** RESTRICT: a post or a story still shows the media. *)
Definition media_referenced (d : Db) (id : Uuid) : bool :=
  exists_where (λ k _, bool_decide (k.2 = id)) (post_media d)
  || exists_where (λ _ s, bool_decide (s_media_id s = id)) (stories d).

Lemma blocked_pair_sym d a b : blocked_pair d a b = blocked_pair d b a.
Proof. unfold blocked_pair. apply orb_comm. Qed.

Lemma active_user_Some d u r :
  active_user d u = Some r ↔ users d !! u = Some r ∧ u_deleted_at r = None.
Proof.
  unfold active_user. destruct (users d !! u) as [r'|]; [|naive_solver].
  case_decide; naive_solver.
Qed.
