(* ===== verification/Isolation.v ===== *)
(** * Concurrent transactions

    The services run their transactions at the default isolation level of Postgres,
    READ COMMITTED, on many connections at once. This file models that level: every
    statement sees what is committed when it starts, together with the writes of its
    own transaction; a write becomes visible to others when its transaction commits;
    row locks are held until then, and a statement that needs a lock somebody else
    holds in a conflicting mode waits. A transaction may be cut off at any point
    (a broken connection, a timeout, the victim of a deadlock).

    Transactions are programs ([Txn]), the pool of running ones is a machine whose
    steps interleave freely, and [wp] is a program logic for them: what a program does
    when it commits, whatever compatible transactions commit in between. *)

From S2P Require Import Prelude Sql Domain Schema.
From stdpp Require Import relations options.

(** ** Row locks *)

(** The row-level locks of Postgres and their conflict table. *)
Inductive LockMode := ForKeyShare | ForShare | ForNoKeyUpdate | ForUpdate.
Global Instance LockMode_eq_dec : EqDecision LockMode.
Proof. solve_decision. Defined.

Definition mode_conflicts (m1 m2 : LockMode) : bool :=
  match m1, m2 with
  | ForUpdate, _ | _, ForUpdate => true
  | ForNoKeyUpdate, ForKeyShare | ForKeyShare, ForNoKeyUpdate => false
  | ForNoKeyUpdate, _ | _, ForNoKeyUpdate => true
  | _, _ => false
  end.

(** What can be locked: a row by its table and key, or the entry of a unique index
    that an insertion claims. *)
Inductive Row :=
| RUser (id : Uuid) | RFollow (follower followee : Uuid) | RBlock (blocker blocked : Uuid)
| RToken (id : Uuid) | RTokenHash (hash : string) | RInvite (code : string) | RTrust (user : Uuid)
| RHandle (handle : string) | REmail (email : string) | RInvited (inviter invitee : Uuid)
| RStory (id : Uuid) | RView (story viewer : Uuid) | RReaction (story user : Uuid) | RReactionId (id : Uuid)
| RHighlight (id : Uuid) | RItem (highlight story : Uuid)
| RPost (id : Uuid) | RPostMedia (post media : Uuid) | RLike (user post : Uuid) | RLikeId (id : Uuid) | RComment (id : Uuid)
| RUserFlag (reporter target : Uuid) | RUserFlagId (id : Uuid) | RPostFlag (reporter post : Uuid) | RPostFlagId (id : Uuid)
| RAction (id : Uuid) | RDevice (fingerprint_hash : string).
Global Instance Row_eq_dec : EqDecision Row.
Proof. solve_decision. Defined.

Definition Locks := list (Row * LockMode).
Definition lock_conflicts (l1 l2 : Row * LockMode) : bool :=
  bool_decide (l1.1 = l2.1) && mode_conflicts l1.2 l2.2.
(** Locks that two transactions can hold at the same time. *)
Definition compatible (L1 L2 : Locks) : Prop :=
  ∀ l1 l2, l1 ∈ L1 → l2 ∈ L2 → lock_conflicts l1 l2 = false.

(** ** Programs *)

Section txn.
Context {A : Type}.

(** [TQuery] reads in a snapshot; [TLock] waits for a row lock; [TExec] makes a
    change of rows that was worked out before; [TInsert] is an insertion into a table
    with a unique key: it waits for another insertion of the key to end, and then
    tells whether the key was free. *)
Inductive Txn :=
| TCommit (a : A)
| TRollback (a : A)
| TQuery (k : Db → Txn)
| TLock (r : Row) (m : LockMode) (k : Txn)
| TExec (w : Db → Db) (k : Txn)
| TInsert (r : Row) (taken : Db → bool) (w : Db → Db) (k : bool → Txn).

(** A running transaction: the rest of its program, the locks it holds and its
    uncommitted writes, as a function of what is committed. *)
Record Thread := mkThread { th_prog : Txn; th_locks : Locks; th_writes : Db → Db }.

(** The committed database, the running transactions, and the answers of those that
    ended, latest first. *)
Record Machine := mkMachine { committed : Db; running : gmap N Thread; answered : list A }.

(** *** Steps *)

(** Somebody other than [i] holds a lock that conflicts with [want]. *)
Definition held_against (i : N) (ts : gmap N Thread) (want : Row * LockMode) : bool :=
  exists_where (λ j t, bool_decide (j ≠ i) && existsb (lock_conflicts want) (th_locks t)) ts.

(** The next step of transaction [i]; [None] when it waits. *)
Definition advance (i : N) (s : Machine) : option Machine :=
  t ← running s !! i;
  let d := committed s in
  let resume p L w := Some (mkMachine d (<[i := mkThread p L w]> (running s)) (answered s)) in
  match th_prog t with
  | TCommit a => Some (mkMachine (th_writes t d) (delete i (running s)) (a :: answered s))
  | TRollback a => Some (mkMachine d (delete i (running s)) (a :: answered s))
  | TQuery k => resume (k (th_writes t d)) (th_locks t) (th_writes t)
  | TLock r m k =>
      if held_against i (running s) (r, m) then None else resume k ((r, m) :: th_locks t) (th_writes t)
  | TExec w k => resume k (th_locks t) (λ d, w (th_writes t d))
  | TInsert r taken w k =>
      if held_against i (running s) (r, ForUpdate) then None
      else if taken (th_writes t d) then resume (k false) (th_locks t) (th_writes t)
      else resume (k true) ((r, ForUpdate) :: th_locks t) (λ d, w (th_writes t d))
  end.

(** Moves of the pool: a transaction starts, takes a step, or is cut off. *)
Inductive PoolMove := Begin (i : N) (p : Txn) | Step (i : N) | Cut (i : N).
Definition pool_move (m : PoolMove) (s : Machine) : option Machine :=
  match m with
  | Begin i p =>
      match running s !! i with
      | Some _ => None
      | None => Some (mkMachine (committed s) (<[i := mkThread p [] (λ d, d)]> (running s)) (answered s))
      end
  | Step i => advance i s
  | Cut i => Some (mkMachine (committed s) (delete i (running s)) (answered s))
  end.
Fixpoint schedule (ms : list PoolMove) (s : Machine) : option Machine :=
  match ms with [] => Some s | m :: ms' => s' ← pool_move m s; schedule ms' s' end.

Definition idle_machine (d : Db) : Machine := mkMachine d ∅ [].

(** [i] waits for a lock. *)
Definition waits (i : N) (s : Machine) : Prop := is_Some (running s !! i) ∧ advance i s = None.

(** *** A program on its own *)

Fixpoint alone (p : Txn) (w : Db → Db) (d : Db) : A * Db :=
  match p with
  | TCommit a => (a, w d)
  | TRollback a => (a, d)
  | TQuery k => alone (k (w d)) w d
  | TLock _ _ k => alone k w d
  | TExec w' k => alone k (λ d, w' (w d)) d
  | TInsert _ taken w' k =>
      if taken (w d) then alone (k false) w d else alone (k true) (λ d, w' (w d)) d
  end.
Definition run_alone (p : Txn) (d : Db) : A * Db := alone p (λ d, d) d.
End txn.

Arguments Txn : clear implicits.
Arguments Thread : clear implicits.
Arguments Machine : clear implicits.
Arguments PoolMove : clear implicits.

(** ** Statements

    Programs are written in the order of the code, as computations that hand their
    result to the rest of the transaction. *)

Definition Proc (A B : Type) : Type := (B → Txn A) → Txn A.
Global Instance Proc_bind A : MBind (Proc A) := λ B C f p k, p (λ b, f b k).
Global Instance Proc_ret A : MRet (Proc A) := λ B b k, k b.

Section statements.
Context {A : Type}.

Definition query {B} (f : Db → B) : Proc A B := λ k, TQuery (λ d, k (f d)).
Definition lock (r : Row) (m : LockMode) : Proc A unit := λ k, TLock r m (k tt).
Definition exec (w : Db → Db) : Proc A unit := λ k, TExec w (k tt).
Definition insert_row (r : Row) (taken : Db → bool) (w : Db → Db) : Proc A bool := λ k, TInsert r taken w k.
(** Ends of a transaction: what would follow is not run. *)
Definition commit {B} (a : A) : Proc A B := λ _, TCommit a.
Definition rollback {B} (a : A) : Proc A B := λ _, TRollback a.
Definition script (p : Proc A A) : Txn A := p TCommit.

(** [UPDATE] or [DELETE]: the rows that match in the snapshot are locked one after
    another, looked at again in their latest version, and changed if they still
    match. The result is the list of the rows changed. *)
Fixpoint change_rows {K} (row : K → Row) (m : LockMode) (matches : K → Db → bool) (change : K → Db → Db)
    (ks : list K) : Proc A (list K) :=
  match ks with
  | [] => mret []
  | k :: ks' =>
      _ ← lock (row k) m;
      still ← query (matches k);
      done ← (if still : bool then _ ← exec (change k); mret [k] else mret []);
      rest ← change_rows row m matches change ks';
      mret (done ++ rest)
  end.
(** The check of a foreign key on an inserted row, [SELECT .. FOR KEY SHARE]: the row it
    refers to is locked, and looked at again once the lock is there. *)
Definition references (r : Row) (exists_ : Db → bool) : Proc A bool :=
  found ← query exists_;
  if found : bool then _ ← lock r ForKeyShare; query exists_ else mret false.
End statements.

(** ** Programs on their own

    What the statements do when nobody interferes. *)

Lemma alone_ext {A} (p : Txn A) w w' d : w d = w' d → alone p w d = alone p w' d.
Proof.
  revert w w'. induction p as [a|a|k IH|r m p IH|w1 p IH|r tk w1 k IH]; intros w w' Hw; simpl; [by rewrite Hw|done|..].
  - rewrite Hw. by apply IH.
  - by apply IH.
  - apply IH. by rewrite Hw.
  - rewrite Hw. destruct (tk (w' d)); apply IH; [done|by rewrite Hw].
Qed.
Lemma alone_references {A} r f (k : bool → Txn A) w d : alone (references r f k) w d = alone (k (f (w d))) w d.
Proof. unfold references, mbind, Proc_bind, query. cbn [alone]. destruct (f (w d)) eqn:Hf; [|done]. cbn. by rewrite Hf. Qed.

(** A unique column of a new row: another row has the value, or had it before. *)
Lemma exists_where_other `{Countable K} {V C} `{EqDecision C} (column : V → C) (k : K) (row : V) (m : gmap K V) :
  m !! k = None →
  exists_where (λ x r, bool_decide (x ≠ k) && bool_decide (column r = column row)) (<[k := row]> m)
  = exists_where (λ _ r, bool_decide (column r = column row)) m.
Proof.
  intros Hk. apply eq_true_iff_eq. rewrite !exists_where_true. split; intros (x & r & Hx & Hr); exists x, r.
  - destruct (decide (x = k)) as [->|]; [by rewrite bool_decide_false in Hr by naive_solver|].
    rewrite lookup_insert_ne in Hx by done. by rewrite bool_decide_true in Hr.
  - assert (x ≠ k) by congruence. by rewrite lookup_insert_ne, bool_decide_true by congruence.
Qed.

(** The loop of [UPDATE] and [DELETE] on one table: [P] selects rows, [g] changes
    them ([fmap f] for an update, the constant [None] for a deletion). *)
Section sweep.
Context `{Countable K} {V : Type} (P : V → bool) (g : option V → option V).

Definition hits (k : K) (m : gmap K V) : bool := match m !! k with Some v => P v | None => false end.
Fixpoint sweep (ks : list K) (m : gmap K V) : list K * gmap K V :=
  match ks with
  | [] => ([], m)
  | k :: ks' =>
      if hits k m then let r := sweep ks' (partial_alter g k m) in (k :: r.1, r.2) else sweep ks' m
  end.

(** A changed row is not hit again. *)
Context (Hg : ∀ v, P v = true → match g (Some v) with Some v' => P v' = false | None => True end).
Lemma lookup_sweep ks m k :
  (sweep ks m).2 !! k = if bool_decide (k ∈ ks) && hits k m then g (m !! k) else m !! k.
Proof using Hg.
  revert m. induction ks as [|x ks IH]; intros m; [by rewrite bool_decide_false by apply not_elem_of_nil|].
  cbn [sweep]. destruct (decide (k = x)) as [->|Hne].
  - rewrite (bool_decide_true (x ∈ x :: ks)) by apply list_elem_of_here. simpl.
    destruct (hits x m) eqn:Hx; simpl; rewrite IH; unfold hits in *; [rewrite lookup_partial_alter|].
    + destruct (m !! x) as [v|] eqn:Hv; [|done]. rewrite decide_True by done. specialize (Hg v Hx).
      destruct (g (Some v)); [by rewrite Hg, andb_false_r|by rewrite andb_false_r].
    + by rewrite Hx, andb_false_r.
  - rewrite (bool_decide_ext (k ∈ x :: ks) (k ∈ ks)) by set_solver.
    destruct (hits x m); simpl; rewrite IH; [|done]. unfold hits. by rewrite lookup_partial_alter_ne by done.
Qed.
Lemma sweep_hits ks m : (sweep ks m).1 = [] ↔ existsb (λ k, hits k m) ks = false.
Proof. clear Hg. induction ks as [|x ks IH]; [done|]. simpl. by destruct (hits x m). Qed.

Context {A : Type} (row : K → Row) (mode : LockMode) (matches : K → Db → bool).
Context (get : Db → gmap K V) (upd : (gmap K V → gmap K V) → Db → Db).
Context (get_upd : ∀ f d, get (upd f d) = f (get d)) (upd_same : ∀ d, upd (λ _, get d) d = d).
Context (upd_upd : ∀ f h d, upd (λ _, h) (upd f d) = upd (λ _, h) d).
Lemma alone_change_rows ks (k : list K → Txn A) w d :
  (∀ x d, matches x d = hits x (get d)) →
  alone (change_rows row mode matches (λ x, upd (partial_alter g x)) ks k) w d =
  alone (k (sweep ks (get (w d))).1) (λ _, upd (λ _, (sweep ks (get (w d))).2) (w d)) d.
Proof using get_upd upd_same upd_upd.
  clear Hg. intros Hm. revert k w. induction ks as [|x ks IH]; intros k w; cbn [change_rows sweep].
  { apply alone_ext. symmetry. apply upd_same. }
  unfold mbind, Proc_bind, mret, Proc_ret, lock, query, exec. cbn [alone]. rewrite Hm. destruct (hits x (get (w d))).
  - cbn [alone]. rewrite IH, get_upd. simpl. apply alone_ext. apply upd_upd.
  - rewrite IH. done.
Qed.
End sweep.

(** ** A program logic *)

Lemma compatible_nil L : compatible L [].
Proof. intros l1 l2 _ Hl. by apply not_elem_of_nil in Hl. Qed.
Lemma lock_conflicts_sym l1 l2 : lock_conflicts l1 l2 = lock_conflicts l2 l1.
Proof.
  unfold lock_conflicts. rewrite (bool_decide_ext (l1.1 = l2.1) (l2.1 = l1.1)) by naive_solver.
  f_equal. by destruct l1 as [? []], l2 as [? []].
Qed.
Lemma compatible_sym L1 L2 : compatible L1 L2 → compatible L2 L1.
Proof. intros Hc l1 l2 H1 H2. rewrite lock_conflicts_sym. by apply Hc. Qed.
(** Two transactions never hold conflicting locks on a row. *)
Lemma compatible_excl L1 L2 r m1 m2 :
  compatible L1 L2 → (r, m1) ∈ L1 → (r, m2) ∈ L2 → mode_conflicts m1 m2 = true → False.
Proof.
  intros Hc H1 H2 Hm. specialize (Hc _ _ H1 H2). unfold lock_conflicts in Hc. simpl in Hc.
  rewrite bool_decide_true, Hm in Hc by done. done.
Qed.

Section logic.
Context {A : Type}.
(** The guarantee: a transaction that holds [L] may answer [a] and take the committed
    database from [d] to [d'] only if [G L a d d']. *)
Context (G : Locks → A → Db → Db → Prop).

(** What can happen to a transaction that holds [L] between two of its steps. *)
Definition rely (L : Locks) (d d' : Db) : Prop := ∃ L' a, compatible L L' ∧ G L' a d d'.
Definition drifts (L : Locks) : Db → Db → Prop := rtc (rely L).

(** From [d], with the locks [L] and the pending writes [w], the program ends within
    the guarantee, whatever drifts under it. *)
Fixpoint wp (p : Txn A) (L : Locks) (w : Db → Db) (d : Db) : Prop :=
  ∀ d', drifts L d d' →
  match p with
  | TCommit a => G L a d' (w d')
  | TRollback a => G L a d' d'
  | TQuery k => wp (k (w d')) L w d'
  | TLock r m k => wp k ((r, m) :: L) w d'
  | TExec w' k => wp k L (λ d, w' (w d)) d'
  | TInsert r taken w' k =>
      if taken (w d') then wp (k false) L w d'
      else wp (k true) ((r, ForUpdate) :: L) (λ d, w' (w d)) d'
  end.

(** A fact about the committed database that compatible transactions cannot undo. *)
Definition stable (L : Locks) (P : Db → Prop) : Prop := ∀ d d', rely L d d' → P d → P d'.

Lemma stable_drifts L P d d' : stable L P → drifts L d d' → P d → P d'.
Proof. intros Hs. induction 1; eauto. Qed.

Lemma wp_drift p L w d d' : drifts L d d' → wp p L w d → wp p L w d'.
Proof. intros Hd Hp. destruct p; simpl in *; intros d2 Hd2; apply Hp; by etrans. Qed.

Lemma wp_ext p L w w' d : (∀ d, w d = w' d) → wp p L w d → wp p L w' d.
Proof.
  revert L w w' d. induction p as [a|a|k IH|r m p IH|w1 p IH|r tk w1 k IH]; intros L w w' d Hw Hp; simpl in *;
    intros d' Hd'; specialize (Hp d' Hd').
  - by rewrite <-Hw.
  - done.
  - rewrite <-Hw. by eapply IH.
  - by eapply IH.
  - eapply IH; [|exact Hp]. intros x. simpl. by rewrite Hw.
  - rewrite <-Hw. destruct (tk (w d')); [by eapply IH|]. eapply IH; [|exact Hp]. intros x. simpl. by rewrite Hw.
Qed.

(** More locks, less drift. *)
Lemma compatible_subseteq L1 L1' L2 : L1 ⊆ L1' → compatible L1' L2 → compatible L1 L2.
Proof. intros Hs Hc l1 l2 H1 H2. apply Hc; [by apply Hs|done]. Qed.
Lemma stable_more L L' P : L ⊆ L' → stable L P → stable L' P.
Proof. intros Hs Hp d d' (L2 & a & Hc & Hg). apply Hp. exists L2, a. eauto using compatible_subseteq. Qed.

(** *** Rules for the statements: a query and a lock in a context that is stable *)

Section rules.
Context (P : Locks → Db → Prop) (Hstable : ∀ L, stable L (P L)) (Hmore : ∀ L l d, P L d → P (l :: L) d).

Lemma wp_query {B} (f : Db → B) k L w d :
  P L d → (∀ d', P L d' → wp (k (f (w d'))) L w d') → wp (query f k) L w d.
Proof using Hstable. intros Hd Hk d' Hdr. apply Hk. by eapply stable_drifts. Qed.
Lemma wp_lock r m k L w d :
  P L d → (∀ d', P ((r, m) :: L) d' → wp (k tt) ((r, m) :: L) w d') → wp (lock r m k) L w d.
Proof using Hstable Hmore. intros Hd Hk d' Hdr. apply Hk, Hmore. by eapply stable_drifts. Qed.
Lemma wp_exec w' k L w d :
  P L d → (∀ d', P L d' → wp (k tt) L (λ d, w' (w d)) d') → wp (exec w' k) L w d.
Proof using Hstable. intros Hd Hk d' Hdr. apply Hk. by eapply stable_drifts. Qed.
Lemma wp_insert r taken w' k L w d :
  P L d →
  (∀ d', P L d' → taken (w d') = true → wp (k false) L w d') →
  (∀ d', P L d' → taken (w d') = false → wp (k true) ((r, ForUpdate) :: L) (λ d, w' (w d)) d') →
  wp (insert_row r taken w' k) L w d.
Proof using Hstable.
  intros Hd Ht Hf d' Hdr. assert (Hd' : P L d') by (by eapply stable_drifts).
  destruct (taken (w d')) eqn:He; eauto.
Qed.
End rules.
(** A foreign key that is found leads from [P] to [P'], and is still there under the lock. *)
Lemma wp_references_live (P P' : Locks → Db → Prop) r exists_ k L w d :
  (∀ L, stable L (P L)) → (∀ L, stable L (P' L)) → (∀ L l d, P' L d → P' (l :: L) d) →
  (∀ d, P L d → exists_ (w d) = true → P' L d) → P L d →
  (∀ L' d', (L' = L ∧ P L d' ∨ L' = (r, ForKeyShare) :: L ∧ P' L' d') → wp (k false) L' w d') →
  (∀ d', P' ((r, ForKeyShare) :: L) d' → exists_ (w d') = true → wp (k true) ((r, ForKeyShare) :: L) w d') →
  wp (references r exists_ k) L w d.
Proof.
  intros Hs Hs' Hm HP Hd Hn Hy. apply (wp_query P); [done..|]. intros d' Hd'.
  destruct (exists_ (w d')) eqn:He; [|apply Hn; auto]. apply (wp_lock P'); [auto..|]. intros d2 Hd2.
  apply (wp_query P'); [done..|]. intros d3 Hd3. destruct (exists_ (w d3)) eqn:He3; auto.
Qed.
Lemma wp_references (P P' : Locks → Db → Prop) r exists_ k L w d :
  (∀ L, stable L (P L)) → (∀ L, stable L (P' L)) → (∀ L l d, P' L d → P' (l :: L) d) →
  (∀ d, P L d → exists_ (w d) = true → P' L d) → P L d →
  (∀ L' d', (L' = L ∧ P L d' ∨ L' = (r, ForKeyShare) :: L ∧ P' L' d') → wp (k false) L' w d') →
  (∀ d', P' ((r, ForKeyShare) :: L) d' → wp (k true) ((r, ForKeyShare) :: L) w d') →
  wp (references r exists_ k) L w d.
Proof. intros Hs Hs' Hm HP Hd Hn Hy. by apply (wp_references_live P P'); [done..|]; auto. Qed.

(** The loop of [UPDATE] and [DELETE]: [J todo done] holds while the rows of [todo]
    are left and those of [done] have been changed. *)
Section change.
Context {K : Type} (row : K → Row) (m : LockMode) (matches : K → Db → bool) (change : K → Db → Db).

(** The changes made, latest first. *)
Definition changed (ks : list K) (d : Db) : Db := foldr change d ks.

Lemma wp_change_rows_exact (J : list K → list K → Locks → Db → Prop) todo done k L w d :
  (∀ t dn L, stable L (J t dn L)) → (∀ t dn L l d, J t dn L d → J t dn (l :: L) d) →
  (∀ x t dn L d, (row x, m) ∈ L → J (x :: t) dn L d →
     if matches x (changed dn (w d)) then J t (x :: dn) L d else J t dn L d) →
  J todo done L d →
  (∀ ks L d, J [] (reverse ks ++ done) L d → wp (k ks) L (λ d, changed (reverse ks ++ done) (w d)) d) →
  wp (change_rows row m matches change todo k) L (λ d, changed done (w d)) d.
Proof.
  intros Hst Hmo Hst1. revert done k L d. induction todo as [|x todo IH]; intros done k L d HJ Hk; [by apply (Hk [])|].
  cbn [change_rows]. unfold mbind, Proc_bind. apply (wp_lock (J (x :: todo) done)); [done|auto..|].
  intros d1 H1. apply (wp_query (J (x :: todo) done)); [done|done|]. intros d2 H2.
  pose proof (Hst1 x todo done _ _ (list_elem_of_here _ _) H2) as H3. destruct (matches x (changed done (w d2))).
  - apply (wp_exec (J todo (x :: done))); [done|done|]. intros d3 H4. apply (IH (x :: done)); [done|]. intros ks L' d' HJ'.
    specialize (Hk (x :: ks) L' d'). rewrite reverse_cons, <-app_assoc in Hk. by apply Hk.
  - apply IH; [done|]. intros. by apply Hk.
Qed.
Lemma wp_change_rows (J : list K → list K → Locks → Db → Prop) todo done k L w d :
  (∀ t dn L, stable L (J t dn L)) → (∀ t dn L l d, J t dn L d → J t dn (l :: L) d) →
  (∀ x t dn L d, (row x, m) ∈ L → J (x :: t) dn L d →
     if matches x (changed dn (w d)) then J t (x :: dn) L d else J t dn L d) →
  J todo done L d →
  (∀ ks dn L d, J [] dn L d → wp (k ks) L (λ d, changed dn (w d)) d) →
  wp (change_rows row m matches change todo k) L (λ d, changed done (w d)) d.
Proof. intros Hst Hmo Hst1 HJ Hk. eapply wp_change_rows_exact; eauto. Qed.
End change.

(** A lock that keeps every other writer away from a row. *)
Definition exclusive (L : Locks) (r : Row) : Prop := (r, ForUpdate) ∈ L ∨ (r, ForNoKeyUpdate) ∈ L.
Lemma exclusive_more L l r : exclusive L r → exclusive (l :: L) r.
Proof. intros [?|?]; [left|right]; by apply list_elem_of_further. Qed.
(** A table whose rows change only under such a lock keeps the rows one holds. *)
Lemma stable_row `{Countable K} `{EqDecision V} (row : K → Row) (get : Db → gmap K V) L k v :
  (∀ L a d d', G L a d d' → ∀ k, get d !! k ≠ get d' !! k → exclusive L (row k)) →
  exclusive L (row k) → stable L (λ d, get d !! k = v).
Proof.
  intros Hrow Hk d d' (L' & ans & Hc & Hg) <-. destruct (decide (get d !! k = get d' !! k)) as [|Hne]; [done|].
  exfalso. destruct Hk as [Hk|Hk], (Hrow _ _ _ _ Hg k Hne) as [Hk'|Hk']; by eapply compatible_excl.
Qed.

(** The history of a pool: the answers, latest first, with the changes they made. *)
Inductive replay (d0 : Db) : list A → Db → Prop :=
| replay_nil : replay d0 [] d0
| replay_snoc answers a L d d' : replay d0 answers d → G L a d d' → replay d0 (a :: answers) d'.

Record pool_inv (d0 : Db) (s : Machine A) : Prop := {
  pool_wp i t : running s !! i = Some t → wp (th_prog t) (th_locks t) (th_writes t) (committed s);
  pool_locks i j t u : i ≠ j → running s !! i = Some t → running s !! j = Some u →
    compatible (th_locks t) (th_locks u);
  pool_replay : replay d0 (answered s) (committed s) }.

Lemma not_held_compatible i (ts : gmap N (Thread A)) l j u :
  held_against i ts l = false → j ≠ i → ts !! j = Some u → compatible [l] (th_locks u).
Proof.
  unfold held_against. intros Hf Hne Hu l1 l2 ->%list_elem_of_singleton Hl.
  rewrite exists_where_false in Hf. specialize (Hf j u Hu). rewrite bool_decide_true in Hf by done.
  destruct (lock_conflicts l l2) eqn:Hc; [|done]. rewrite <- Hf. symmetry. apply existsb_exists.
  exists l2. split; [by apply list_elem_of_In|done].
Qed.

(** *** Soundness *)

(** A thread that resumes with the same committed database. *)
Lemma pool_resume d0 s i t t' :
  pool_inv d0 s → running s !! i = Some t →
  wp (th_prog t') (th_locks t') (th_writes t') (committed s) →
  (∀ j u, j ≠ i → running s !! j = Some u → compatible (th_locks t') (th_locks u)) →
  pool_inv d0 (mkMachine (committed s) (<[i := t']> (running s)) (answered s)).
Proof.
  intros [Hwp Hl Hr] Hi Hp Hc. split; [| |done]; simpl.
  - intros j u. destruct (decide (j = i)) as [->|Hne].
    + rewrite lookup_insert_eq. by intros [= <-].
    + rewrite lookup_insert_ne by done. apply Hwp.
  - intros j k u v Hjk Hj Hk. apply lookup_insert_Some in Hj as [[<- <-]|[Hji Hj]];
      apply lookup_insert_Some in Hk as [[<- <-]|[Hki Hk]]; [done|by apply (Hc k _ (not_eq_sym Hki))| |by eapply (Hl j k)].
    by apply compatible_sym, (Hc j _ (not_eq_sym Hji)).
Qed.
(** A thread that ends. *)
Lemma pool_end d0 s i t a d' :
  pool_inv d0 s → running s !! i = Some t → G (th_locks t) a (committed s) d' →
  pool_inv d0 (mkMachine d' (delete i (running s)) (a :: answered s)).
Proof.
  intros [Hwp Hl Hr] Hi Hg. split; simpl.
  - intros j u [Hne Hj]%lookup_delete_Some. eapply wp_drift; [|by eapply Hwp].
    apply rtc_once. exists (th_locks t), a. split; [by apply (Hl j i _ _ (not_eq_sym Hne))|done].
  - intros j k u v Hjk [_ Hj]%lookup_delete_Some [_ Hk]%lookup_delete_Some. by eapply (Hl j k).
  - by eapply replay_snoc.
Qed.

Lemma pool_advance d0 s i s' : pool_inv d0 s → advance i s = Some s' → pool_inv d0 s'.
Proof.
  intros Hs. unfold advance. destruct (running s !! i) as [t|] eqn:Hi; simpl; [|done].
  pose proof (pool_wp _ _ Hs _ _ Hi) as Hp. pose proof (pool_locks _ _ Hs) as Hl.
  assert (Hold : ∀ j u, j ≠ i → running s !! j = Some u → compatible (th_locks t) (th_locks u)).
  { intros j u Hne Hj. by eapply (Hl i j). }
  destruct t as [p L w]. simpl in *. destruct p as [a|a|k|r m k|w' k|r taken w' k]; simpl in Hp;
    specialize (Hp _ (rtc_refl _ _)).
  - intros [= <-]. by eapply (pool_end _ _ _ (mkThread _ _ _)).
  - intros [= <-]. by eapply (pool_end _ _ _ (mkThread _ _ _)).
  - intros [= <-]. by eapply pool_resume.
  - case_match eqn:Hh; [done|]. intros [= <-]. eapply pool_resume; [done..|]. simpl. intros j u Hne Hj l1 l2.
    intros [->|H1]%elem_of_cons; [|by eapply Hold]. eapply not_held_compatible; [done..|]. by apply list_elem_of_singleton.
  - intros [= <-]. by eapply pool_resume.
  - destruct (held_against i (running s) (r, ForUpdate)) eqn:Hh; [done|].
    destruct (taken _); intros [= <-]; (eapply pool_resume; [done..|]); [done|].
    simpl. intros j u Hne Hj l1 l2. intros [->|H1]%elem_of_cons; [|by eapply Hold].
    eapply not_held_compatible; [done..|]. by apply list_elem_of_singleton.
Qed.

(** Programs that may be started when [I] holds. *)
Definition valid (I : Db → Prop) (p : Txn A) : Prop := ∀ d, I d → wp p [] (λ d, d) d.

(** Whatever the schedule, every running transaction stays within its proof and the
    database is explained by the answers given. *)
Theorem schedule_sound (I : Db → Prop) ms d0 s s' :
  (∀ L a d d', I d → G L a d d' → I d') → I d0 →
  (∀ i p, Begin i p ∈ ms → valid I p) →
  pool_inv d0 s → schedule ms s = Some s' → pool_inv d0 s'.
Proof.
  intros HI H0 Hms Hs. assert (Hall : ∀ l d, replay d0 l d → I d) by (induction 1; eauto).
  revert s Hs Hms. induction ms as [|m ms IH]; intros s Hs Hms; simpl; [by intros [= <-]|].
  destruct (pool_move m s) as [s1|] eqn:Hm; simpl; [|done]. apply IH; [|set_solver].
  destruct m as [i p|i|i]; simpl in Hm.
  - destruct (running s !! i) eqn:Hi; [done|]. injection Hm as <-.
    destruct Hs as [Hwp Hl Hr]. split; [| |done]; simpl.
    + intros j u [[<- <-]|[Hne Hj]]%lookup_insert_Some; [|by eapply Hwp].
      simpl. apply (Hms i p); [set_solver|eauto].
    + intros j k u v Hjk [[<- <-]|[_ Hj]]%lookup_insert_Some [[<- <-]|[_ Hk]]%lookup_insert_Some;
        [done|apply compatible_sym, compatible_nil|apply compatible_nil|by eapply (Hl j k)].
  - by eapply pool_advance.
  - injection Hm as <-. destruct Hs as [Hwp Hl Hr]. split; [| |done]; simpl.
    + intros j u [_ Hj]%lookup_delete_Some. by eapply Hwp.
    + intros j k u v Hjk [_ Hj]%lookup_delete_Some [_ Hk]%lookup_delete_Some. by eapply (Hl j k).
Qed.
Lemma pool_inv_idle d0 : pool_inv d0 (idle_machine d0).
Proof. split; simpl; [by intros ?? ?%lookup_empty_Some|by intros ????? ?%lookup_empty_Some|constructor]. Qed.

(** The history of every schedule from an idle pool. *)
Corollary schedule_replay (I : Db → Prop) ms d0 s :
  (∀ L a d d', I d → G L a d d' → I d') → I d0 → (∀ i p, Begin i p ∈ ms → valid I p) →
  schedule ms (idle_machine d0) = Some s → replay d0 (answered s) (committed s).
Proof. intros HI H0 Hms Hs. eapply pool_replay, schedule_sound; [done..|apply pool_inv_idle|done]. Qed.
End logic.

(** ** Runs in which a transaction is left to itself *)

Lemma schedule_app {A} ms ms' (s : Machine A) : schedule (ms ++ ms') s = schedule ms s ≫= schedule ms'.
Proof. revert s. induction ms as [|m ms IH]; intros s; [done|]. simpl. destruct (pool_move m s); [apply IH|done]. Qed.
Lemma schedule_begin {A} i p ms d ts (ans : list A) :
  ts !! i = None →
  schedule ([Begin i p] ++ ms) (mkMachine d ts ans)
  = schedule ms (mkMachine d (<[i := mkThread p [] (λ d, d)]> ts) ans).
Proof. intros Hi. simpl. by rewrite Hi. Qed.
Lemma schedule_step {A} i (s s' : Machine A) n :
  advance i s = Some s' → schedule (replicate (S n) (Step i)) s = schedule (replicate n (Step i)) s'.
Proof. intros Hs. simpl. by rewrite Hs. Qed.

Section solo.
Context {A : Type} (i : N) (ts : gmap N (Thread A)).

(** One's own locks do not stand in one's way. *)
Lemma held_against_own t want : held_against i (<[i := t]> ts) want = held_against i ts want.
Proof.
  apply eq_true_iff_eq. unfold held_against. rewrite !exists_where_true. split; intros (j & u & Hj & Hl).
  - exists j, u. split; [|done]. rewrite lookup_insert_ne in Hj; [done|].
    intros ->. rewrite bool_decide_false in Hl by naive_solver. done.
  - exists j, u. split; [|done]. rewrite lookup_insert_ne; [done|].
    intros ->. rewrite bool_decide_false in Hl by naive_solver. done.
Qed.
Lemma held_against_false want :
  (∀ j u, j ≠ i → ts !! j = Some u → existsb (lock_conflicts want) (th_locks u) = false) →
  held_against i ts want = false.
Proof.
  intros Hn. apply exists_where_false. intros j u Hj. case_bool_decide; [|done]. by eapply Hn.
Qed.

(** The locks a program asks for when it runs on its own. *)
Fixpoint asks (p : Txn A) (w : Db → Db) (d : Db) : Locks :=
  match p with
  | TCommit _ | TRollback _ => []
  | TQuery k => asks (k (w d)) w d
  | TLock r m k => (r, m) :: asks k w d
  | TExec w' k => asks k (λ d, w' (w d)) d
  | TInsert r taken w' k =>
      (r, ForUpdate) :: if taken (w d) then asks (k false) w d else asks (k true) (λ d, w' (w d)) d
  end.
Ltac own_step := unfold advance; cbn [running committed answered]; rewrite lookup_insert_eq; simpl.
(** When nobody holds them, the transaction can run to its end, while all others
    pause; it then does what it does alone. *)
Lemma run_to_end p L w d ans :
  Forall (λ l, held_against i ts l = false) (asks p w d) →
  ∃ n, schedule (replicate n (Step i)) (mkMachine d (<[i := mkThread p L w]> ts) ans)
       = Some (mkMachine (alone p w d).2 (delete i ts) ((alone p w d).1 :: ans)).
Proof.
  assert (Hnext : ∀ p L w p' L' w',
    advance i (mkMachine d (<[i := mkThread p L w]> ts) ans) = Some (mkMachine d (<[i := mkThread p' L' w']> ts) ans) →
    alone p w d = alone p' w' d →
    (∃ n, schedule (replicate n (Step i)) (mkMachine d (<[i := mkThread p' L' w']> ts) ans)
       = Some (mkMachine (alone p' w' d).2 (delete i ts) ((alone p' w' d).1 :: ans))) →
    ∃ n, schedule (replicate n (Step i)) (mkMachine d (<[i := mkThread p L w]> ts) ans)
       = Some (mkMachine (alone p w d).2 (delete i ts) ((alone p w d).1 :: ans))).
  { intros p0 L0 w0 p' L' w' Ha He [n Hn]. exists (S n). by rewrite (schedule_step _ _ _ _ Ha), He. }
  revert L w. induction p as [a|a|k IH|r m p IH|w1 p IH|r tk w1 k IH]; intros L w Hf; cbn [asks] in Hf.
  1,2: exists 1%nat; simpl; unfold advance; cbn [running committed]; rewrite lookup_insert_eq; simpl; by rewrite delete_insert_eq.
  - eapply Hnext; [own_step; by rewrite insert_insert_eq|reflexivity|by apply IH].
  - apply Forall_cons in Hf as [Hr Hf].
    eapply Hnext; [own_step; by rewrite held_against_own, Hr, insert_insert_eq|reflexivity|by apply IH].
  - eapply Hnext; [own_step; by rewrite insert_insert_eq|reflexivity|by apply IH].
  - apply Forall_cons in Hf as [Hr Hf]. destruct (tk (w d)) eqn:Ht.
    + eapply Hnext; [own_step; by rewrite held_against_own, Hr, Ht, insert_insert_eq|simpl; by rewrite Ht|by apply IH].
    + eapply Hnext; [own_step; by rewrite held_against_own, Hr, Ht, insert_insert_eq|simpl; by rewrite Ht|by apply IH].
Qed.
End solo.

(** What the statements ask for. *)
Section asks.
Context {A : Type} (P : Row * LockMode → Prop).
Lemma asks_change_rows {K} (row : K → Row) m matches change ks (k : list K → Txn A) w d :
  (∀ x, P (row x, m)) → (∀ l w, Forall P (asks (k l) w d)) →
  Forall P (asks (change_rows row m matches change ks k) w d).
Proof.
  intros Hr. revert k w. induction ks as [|x ks IH]; intros k w Hk; [apply Hk|].
  cbn [change_rows]. unfold mbind, Proc_bind, mret, Proc_ret, lock, query, exec. cbn [asks]. apply Forall_cons. split; [done|].
  destruct (matches x (w d)); cbn [asks]; apply IH; intros; apply Hk.
Qed.
Lemma asks_references r exists_ (k : bool → Txn A) w d :
  P (r, ForKeyShare) → (∀ b, Forall P (asks (k b) w d)) → Forall P (asks (references r exists_ k) w d).
Proof.
  intros Hr Hk. unfold references, mbind, Proc_bind, mret, Proc_ret, lock, query. cbn [asks].
  destruct (exists_ (w d)); cbn [asks]; [|apply Hk]. apply Forall_cons. split; [done|apply Hk].
Qed.
End asks.
