(* ===== verification/Social.v ===== *)
(** * Social graph

    [SocialService] of [src/app/social.rs]: follow and block edges between
    users. Each method runs as one atomic step; [GraphRaces] has the statements of
    each method one by one and shows what concurrent requests do. *)

From S2P Require Import Prelude Sql Keyset Domain Schema.
From stdpp Require Import options.

Inductive SocialError :=
| UserNotFound
| FollowerLimitReached
| Db_ (e : DbError).

Record SocialUserEdge := mkEdge { edge_user : User; edge_followed_at : Time }.

Record RelationshipStatus := mkRel {
  is_following : bool; is_followed_by : bool; is_blocking : bool; is_blocked_by : bool }.

(** The [SELECT u.id, u.handle, ..] prefix every service decodes into [User]. *)
Definition row_to_user (id : Uuid) (r : UserRow) : User :=
  mkUser id (u_handle r) (u_email r) (u_display_name r) (u_bio r) (u_avatar_key r)
    None (u_created_at r).

Definition list_follower_ids (followee_id : Uuid) : M Db SocialError (list Uuid) :=
  reads (λ d, select (λ k _, if decide (k.2 = followee_id) then Some k.1 else None) (follows d)).

Definition MAX_FOLLOWERS : Z := 5000.

(** [SELECT COUNT( * ) FROM follows WHERE followee_id = $1]. *)
Definition follower_count (d : Db) (u : Uuid) : Z :=
  count_where (λ k _, bool_decide (k.2 = u)) (follows d).

Definition follow (clk : Clock) (follower_id followee_id : Uuid) : M Db SocialError bool :=
  transaction (
    d ← get_db;
    _ ← ok_or (active_user d followee_id) UserNotFound;
    _ ← guard_else (follower_count d followee_id <? MAX_FOLLOWERS)%Z FollowerLimitReached;
    if bool_decide (follower_id ≠ followee_id)
       && negb (blocked_pair d follower_id followee_id)
       && negb (follows_edge d follower_id followee_id)
    then
      _ ← guard_else (user_exists d follower_id)
            (Db_ (ForeignKeyViolation "follows_follower_id_fkey"));
      _ ← modifies (set_follows (<[(follower_id, followee_id) := db_now clk]>));
      mret (Commit true)
    else mret (Commit false)).

Definition unfollow (follower_id followee_id : Uuid) : M Db SocialError bool :=
  d ← get_db;
  _ ← modifies (set_follows (delete (follower_id, followee_id)));
  mret (follows_edge d follower_id followee_id).

Definition block (clk : Clock) (blocker_id blocked_id : Uuid) : M Db SocialError bool :=
  transaction (
    d ← get_db;
    inserted ←
      (if bool_decide (blocker_id ≠ blocked_id) && negb (has_key (blocker_id, blocked_id) (blocks d))
       then
         _ ← guard_else (user_exists d blocker_id && user_exists d blocked_id)
               (Db_ (ForeignKeyViolation "blocks_fkey"));
         _ ← modifies (set_blocks (<[(blocker_id, blocked_id) := db_now clk]>));
         mret true
       else mret false);
    _ ← modifies (set_follows (λ m, delete (blocker_id, blocked_id) (delete (blocked_id, blocker_id) m)));
    mret (Commit inserted)).

Definition unblock (blocker_id blocked_id : Uuid) : M Db SocialError bool :=
  d ← get_db;
  _ ← modifies (set_blocks (delete (blocker_id, blocked_id)));
  mret (has_key (blocker_id, blocked_id) (blocks d)).

(** The rows of both listings: the far end of the edge, when not deleted. *)
Definition edge_row (d : Db) (other : Uuid) (at_ : Time) : option SocialUserEdge :=
  (λ r, mkEdge (row_to_user other r) at_) <$> active_user d other.
Definition edge_key (e : SocialUserEdge) : Key := (edge_followed_at e, user_id (edge_user e)).

Definition follower_rows (d : Db) (user_id : Uuid) : list SocialUserEdge :=
  select (λ k t, if decide (k.2 = user_id) then edge_row d k.1 t else None) (follows d).
Definition following_rows (d : Db) (user_id : Uuid) : list SocialUserEdge :=
  select (λ k t, if decide (k.1 = user_id) then edge_row d k.2 t else None) (follows d).

Definition list_followers (user_id : Uuid) (cursor : option Key) (limit : Z) :
    M Db SocialError (list SocialUserEdge) :=
  reads (λ d, keyset edge_key Desc cursor limit (follower_rows d user_id)).

Definition list_following (user_id : Uuid) (cursor : option Key) (limit : Z) :
    M Db SocialError (list SocialUserEdge) :=
  reads (λ d, keyset edge_key Desc cursor limit (following_rows d user_id)).

Definition relationship_status (viewer_id other_id : Uuid) : M Db SocialError RelationshipStatus :=
  reads (λ d, mkRel (follows_edge d viewer_id other_id) (follows_edge d other_id viewer_id)
                    (has_key (viewer_id, other_id) (blocks d))
                    (has_key (other_id, viewer_id) (blocks d))).

(** ** Invariant *)

(** No edge between a blocked pair, no self edges, and no account above the
    follower cap. *)
Record social_inv (d : Db) : Prop := {
  inv_no_edge_when_blocked a b : follows_edge d a b = true → blocked_pair d a b = false;
  inv_no_self_follow a : follows_edge d a a = false;
  inv_no_self_block a : has_key (a, a) (blocks d) = false;
  inv_follower_cap u : (follower_count d u ≤ MAX_FOLLOWERS)%Z }.

Lemma follows_edge_insert d a b t x y :
  follows_edge (set_follows (<[(a, b) := t]>) d) x y
  = bool_decide ((a, b) = (x, y)) || follows_edge d x y.
Proof.
  unfold follows_edge, has_key. simpl. rewrite lookup_insert.
  case_decide as Hd; simplify_eq.
  - rewrite !bool_decide_true by (try eexists; done). done.
  - rewrite (bool_decide_false ((a, b) = (x, y))) by done. done.
Qed.

Lemma follows_edge_delete d a b x y :
  follows_edge (set_follows (delete (a, b)) d) x y
  = negb (bool_decide ((a, b) = (x, y))) && follows_edge d x y.
Proof.
  unfold follows_edge, has_key. simpl. rewrite lookup_delete.
  case_decide as Hd; simplify_eq.
  - by rewrite (bool_decide_true ((x, y) = (x, y))).
  - rewrite (bool_decide_false ((a, b) = (x, y))) by done. done.
Qed.

Lemma follower_count_delete d a b u :
  (follower_count (set_follows (delete (a, b)) d) u ≤ follower_count d u)%Z.
Proof.
  unfold follower_count. simpl. destruct (follows d !! (a, b)) as [t|] eqn:He.
  - rewrite (count_where_delete _ _ _ _ He). case_bool_decide; lia.
  - by rewrite delete_id.
Qed.

Lemma follower_count_insert d a b t u :
  follows_edge d a b = false →
  follower_count (set_follows (<[(a, b) := t]>) d) u
  = (follower_count d u + if decide (b = u) then 1 else 0)%Z.
Proof.
  intros He. unfold follower_count. simpl.
  rewrite count_where_insert_fresh by (by apply has_key_false).
  simpl. case_bool_decide; case_decide; done.
Qed.

Lemma social_inv_delete_follow d a b :
  social_inv d → social_inv (set_follows (delete (a, b)) d).
Proof.
  intros [H1 H2 H3 H4]. split.
  - intros x y. rewrite follows_edge_delete. intros [_ He]%andb_true_iff. by apply H1.
  - intros x. rewrite follows_edge_delete, H2. by rewrite andb_false_r.
  - apply H3.
  - intros u. etransitivity; [apply follower_count_delete|apply H4].
Qed.

Lemma social_inv_add_follow d a b t :
  social_inv d → a ≠ b → blocked_pair d a b = false → follows_edge d a b = false →
  (follower_count d b < MAX_FOLLOWERS)%Z →
  social_inv (set_follows (<[(a, b) := t]>) d).
Proof.
  intros [H1 H2 H3 H4] Hne Hb He Hc. split.
  - intros x y. rewrite follows_edge_insert.
    intros [[= <- <-]%bool_decide_eq_true|Hxy]%orb_true_iff; [done|by apply H1].
  - intros x. rewrite follows_edge_insert, H2. rewrite bool_decide_false; [done|].
    intros [=]. congruence.
  - apply H3.
  - intros u. rewrite follower_count_insert by done. case_decide; [subst; lia|].
    specialize (H4 u). lia.
Qed.

Lemma follow_preserves clk a b : preserves social_inv (follow clk a b).
Proof.
  intros d Hd. unfold follow. run; try done; bool_to_prop.
  apply social_inv_add_follow; try done. by apply Z.ltb_lt.
Qed.

Lemma unfollow_preserves a b : preserves social_inv (unfollow a b).
Proof. intros d Hd. unfold unfollow. run. by apply social_inv_delete_follow. Qed.

Lemma blocked_pair_insert d a b t x y :
  blocked_pair (set_blocks (<[(a, b) := t]>) d) x y
  = bool_decide ((a, b) = (x, y)) || bool_decide ((a, b) = (y, x)) || blocked_pair d x y.
Proof.
  unfold blocked_pair, has_key. simpl. rewrite !lookup_insert.
  repeat case_decide; simplify_eq; repeat case_bool_decide; naive_solver.
Qed.

Lemma social_inv_block d a b t :
  social_inv d → a ≠ b →
  social_inv (set_follows (λ m, delete (a, b) (delete (b, a) m)) (set_blocks (<[(a, b) := t]>) d)).
Proof.
  intros Hd Hne.
  change (social_inv (set_follows (delete (a, b))
    (set_follows (delete (b, a)) (set_blocks (<[(a, b) := t]>) d)))).
  pose proof (social_inv_delete_follow _ a b (social_inv_delete_follow _ b a Hd)) as [H1 H2 _ H4].
  split; [|exact H2| |exact H4].
  - intros x y Hxy.
    change (blocked_pair (set_blocks (<[(a, b) := t]>) d) x y = false).
    rewrite blocked_pair_insert. change (blocked_pair d x y) with (blocked_pair
      (set_follows (delete (a, b)) (set_follows (delete (b, a)) d)) x y).
    rewrite H1 by exact Hxy.
    change (follows_edge (set_follows (delete (a, b)) (set_follows (delete (b, a)) d)) x y = true) in Hxy.
    rewrite !follows_edge_delete in Hxy. bool_to_prop.
    rewrite !bool_decide_false; [done| |done]. intros [=]. congruence.
  - intros x. unfold has_key. simpl. rewrite lookup_insert. case_decide; [congruence|].
    apply (inv_no_self_block _ Hd).
Qed.

Lemma block_preserves clk a b : preserves social_inv (block clk a b).
Proof.
  intros d Hd. unfold block. run; try done; bool_to_prop.
  - by apply social_inv_block.
  - change (social_inv (set_follows (delete (a, b)) (set_follows (delete (b, a)) d))).
    by do 2 apply social_inv_delete_follow.
Qed.

Lemma blocked_pair_delete d a b x y :
  blocked_pair (set_blocks (delete (a, b)) d) x y = true → blocked_pair d x y = true.
Proof.
  unfold blocked_pair, has_key. simpl. rewrite !lookup_delete.
  repeat case_decide; simplify_eq; repeat case_bool_decide; naive_solver.
Qed.

Lemma unblock_preserves a b : preserves social_inv (unblock a b).
Proof.
  intros d [H1 H2 H3 H4]. unfold unblock. run. split; [|exact H2| |exact H4].
  - intros x y Hxy. apply not_true_is_false. intros Hb%blocked_pair_delete.
    by rewrite (H1 x y Hxy) in Hb.
  - intros x. unfold has_key. simpl. rewrite lookup_delete. case_decide; [done|].
    apply H3.
Qed.

#[export] Hint Resolve follow_preserves unfollow_preserves block_preserves
  unblock_preserves : ciel.

(** A successful [block] leaves no follow edge in either direction and a
    block edge, so that a later [follow] between the two, either way, is
    answered [false] (or an error) and inserts nothing. *)
Theorem block_cuts_and_prevents_follow clk clk' a b d r d1 :
  a ≠ b → block clk a b d = (Ok r, d1) →
  follows_edge d1 a b = false ∧ follows_edge d1 b a = false ∧
  blocked_pair d1 a b = true ∧
  snd (follow clk' a b d1) = d1 ∧ snd (follow clk' b a d1) = d1.
Proof.
  intros Hne Hb.
  assert (Hpost : follows_edge d1 a b = false ∧ follows_edge d1 b a = false ∧
                  blocked_pair d1 a b = true).
  { unfold block in Hb. run; bool_to_prop; simplify_eq.
    all: split_and!.
    all: try (unfold follows_edge; apply has_key_false; simpl;
              rewrite ?lookup_delete_eq; try done;
              rewrite lookup_delete_ne by congruence; by rewrite lookup_delete_eq).
    - unfold blocked_pair. simpl.
      apply orb_true_iff. left. apply has_key_true. rewrite lookup_insert_eq. eauto.
    - unfold blocked_pair. simpl. apply orb_true_iff. left.
      match goal with H : _ && _ = false |- _ =>
        apply andb_false_iff in H as [Hf|Hf] end; bool_to_prop; [by destruct Hf|done]. }
  destruct Hpost as (He1 & He2 & Hbl). split_and!; try done.
  - unfold follow. run; bool_to_prop; try done. congruence.
  - unfold follow. run; bool_to_prop; try done.
    rewrite blocked_pair_sym in Hbl. congruence.
Qed.

(** ** Concrete runs *)

Definition two_users : Db :=
  set_users (λ _, {[ 1%N := mkUserRow "ann" "ann@x" "Ann" None None 0 "" None;
                     2%N := mkUserRow "bob" "bob@x" "Bob" None None 0 "" None ]}) empty_db.

Lemma social_inv_two_users : social_inv two_users.
Proof. by split. Qed.

Lemma block_cuts_and_prevents_follow_witness :
  let d := snd (follow (mkClock 1 1) 1%N 2%N two_users) in
  let d1 := snd (block (mkClock 2 2) 2%N 1%N d) in
  follows_edge d1 2 1 = false ∧ follows_edge d1 1 2 = false ∧ blocked_pair d1 2 1 = true ∧
  snd (follow (mkClock 3 3) 2%N 1%N d1) = d1 ∧ snd (follow (mkClock 3 3) 1%N 2%N d1) = d1.
Proof.
  apply (block_cuts_and_prevents_follow (mkClock 2 2) (mkClock 3 3) 2%N 1%N
    (snd (follow (mkClock 1 1) 1%N 2%N two_users)) true); [lia|].
  vm_compute. reflexivity.
Defined.
