(* ===== verification/Users.v ===== *)
(** * Accounts

    [UserService] of [src/app/users.rs]: profile reads and updates, and the
    soft delete of an account with the clean-up it runs in the same
    transaction. The second half follows the social graph through every
    operation that writes it. *)

From S2P Require Import Prelude Sql Keyset Domain Schema Social.
From stdpp Require Import options.

Definition get_user (id : Uuid) : M Db DbError (option User) :=
  reads (λ d, row_to_user id <$> active_user d id).

Definition get_public_user_with_counts (id : Uuid) : M Db DbError (option (User * Z * Z * Z)) :=
  reads (λ d, (λ r, (row_to_user id r,
      count_where (λ k _, bool_decide (k.2 = id)) (follows d),
      count_where (λ k _, bool_decide (k.1 = id)) (follows d),
      count_where (λ _ p, bool_decide (p_owner_id p = id)) (posts d)))
    <$> active_user d id).

(** [COALESCE($n, column)]. *)
Definition coalesce {A} (new : option A) (old : A) : A := default old new.

Definition update_profile (id : Uuid) (display_name bio avatar_key : option string) :
    M Db DbError (option User) :=
  d ← get_db;
  match active_user d id with
  | None => mret None
  | Some r =>
      let r' := mkUserRow (u_handle r) (u_email r) (coalesce display_name (u_display_name r))
                  (match bio with Some b => Some b | None => u_bio r end)
                  (match avatar_key with Some k => Some k | None => u_avatar_key r end)
                  (u_created_at r) (u_password_hash r) (u_deleted_at r) in
      _ ← modifies (set_users (<[id := r']>));
      mret (Some (row_to_user id r'))
  end.

Definition soft_deleted (t : Time) (r : UserRow) : UserRow :=
  mkUserRow (u_handle r) (u_email r) (u_display_name r) (u_bio r) (u_avatar_key r)
    (u_created_at r) (u_password_hash r) (Some t).

Definition revoked (t : Time) (r : RefreshRow) : RefreshRow :=
  mkRefreshRow (rt_user_id r) (rt_token_hash r) (rt_created_at r) (rt_expires_at r)
    (Some t) (rt_replaced_by r).

(** [UPDATE refresh_tokens SET revoked_at = now() WHERE user_id = $1 AND
    revoked_at IS NULL]: also the reaction to a replayed token in [auth.rs]. *)
Definition revoke_all_tokens (t : Time) (user_id : Uuid) : Db → Db :=
  set_refresh_tokens (update_where
    (λ _ r, bool_decide (rt_user_id r = user_id) && bool_decide (rt_revoked_at r = None))
    (revoked t)).

Definition touches (u : Uuid) (k : Uuid * Uuid) : bool :=
  bool_decide (k.1 = u) || bool_decide (k.2 = u).

Definition delete_account (clk : Clock) (user_id : Uuid) : M Db DbError bool :=
  transaction (
    d ← get_db;
    match active_user d user_id with
    | None => mret (Rollback false)
    | Some _ =>
        _ ← modifies (set_users (alter (soft_deleted (db_now clk)) user_id));
        _ ← modifies (revoke_all_tokens (db_now clk) user_id);
        _ ← modifies (set_follows (delete_where (λ k _, touches user_id k)));
        _ ← modifies (set_blocks (delete_where (λ k _, touches user_id k)));
        mret (Commit true)
    end).

(** ** What deleting an account leaves behind *)

(** The state after a successful [delete_account]. *)
Definition deleted_db (clk : Clock) (u : Uuid) (d : Db) : Db :=
  set_blocks (delete_where (λ k _, touches u k))
  (set_follows (delete_where (λ k _, touches u k))
  (revoke_all_tokens (db_now clk) u
  (set_users (alter (soft_deleted (db_now clk)) u) d))).

Lemma delete_account_run clk u d :
  delete_account clk u d =
  match active_user d u with
  | Some _ => (Ok true, deleted_db clk u d)
  | None => (Ok false, d)
  end.
Proof. unfold delete_account. unfold_m. run_step. by destruct (active_user d u). Qed.

Lemma has_key_delete_where {K V} `{Countable K} (P : K → V → bool) (m : gmap K V) k :
  has_key k (delete_where P m) = true → has_key k m = true.
Proof.
  rewrite !has_key_true. intros [v [Hv _]%lookup_delete_where]. by exists v.
Qed.

Lemma follower_count_delete_where P d u :
  (follower_count (set_follows (delete_where P) d) u ≤ follower_count d u)%Z.
Proof.
  unfold follower_count. simpl. induction (follows d) as [|k v m Hk IH] using map_ind.
  - unfold delete_where. by rewrite map_filter_empty.
  - rewrite count_where_insert_fresh by done. unfold delete_where in *.
    rewrite map_filter_insert. case_decide.
    + rewrite count_where_insert_fresh; [lia|]. apply map_lookup_filter_None. by left.
    + rewrite delete_id by done. case_bool_decide; lia.
Qed.

Lemma delete_account_preserves clk u : preserves social_inv (delete_account clk u).
Proof.
  intros d Hd. rewrite delete_account_run. destruct (active_user d u); [|done].
  cbn [snd]. destruct Hd as [H1 H2 H3 H4]. split.
  - intros a b Hab. apply not_true_is_false. unfold blocked_pair.
    intros Hb. assert (Hb' : blocked_pair d a b = true).
    { apply orb_true_iff in Hb. apply orb_true_iff.
      destruct Hb as [Hb|Hb]; [left|right]; by apply has_key_delete_where in Hb. }
    rewrite H1 in Hb'; [done|]. by apply has_key_delete_where in Hab.
  - intros a. apply not_true_is_false. intros Ha%has_key_delete_where.
    change (follows_edge d a a = true) in Ha. by rewrite H2 in Ha.
  - intros a. apply not_true_is_false. intros Ha%has_key_delete_where.
    change (has_key (a, a) (blocks d) = true) in Ha. by rewrite H3 in Ha.
  - intros x. etransitivity; [|apply (H4 x)].
    exact (follower_count_delete_where _ d x).
Qed.
#[export] Hint Resolve delete_account_preserves : ciel.

Lemma deleted_not_active clk u d : active_user (deleted_db clk u d) u = None.
Proof.
  unfold active_user, deleted_db. simpl. rewrite lookup_alter.
  case_decide; [|congruence]. by destruct (users d !! u).
Qed.

Lemma deleted_tokens clk u d id r :
  refresh_tokens (deleted_db clk u d) !! id = Some r → rt_user_id r = u →
  rt_revoked_at r ≠ None.
Proof.
  unfold deleted_db, revoke_all_tokens. simpl. rewrite lookup_update_where.
  destruct (refresh_tokens d !! id) as [r0|]; simpl; [|done].
  intros [= <-]. case_match; simpl; [done|]. intros Hu Hr.
  by rewrite !bool_decide_true in *.
Qed.

(** ** The social graph as a transition system *)

(** One request that writes [follows] or [blocks]. *)
Inductive social_step : Db → Db → Prop :=
| step_follow clk a b d : social_step d (snd (follow clk a b d))
| step_unfollow a b d : social_step d (snd (unfollow a b d))
| step_block clk a b d : social_step d (snd (block clk a b d))
| step_unblock a b d : social_step d (snd (unblock a b d))
| step_delete_account clk u d : social_step d (snd (delete_account clk u d)).

Lemma social_step_inv d d' : social_step d d' → social_inv d → social_inv d'.
Proof.
  intros [] Hd.
  - by apply follow_preserves. - by apply unfollow_preserves.
  - by apply block_preserves. - by apply unblock_preserves.
  - by apply delete_account_preserves.
Qed.

(** Whatever sequence of follow, unfollow, block, unblock and account-delete
    requests runs, from a database that satisfies it, the social graph never
    holds a follow edge between two users one of whom blocks the other, never a
    self edge, and no user ever has more than 5000 followers. *)
Theorem social_graph_invariant d d' :
  rtc social_step d d' → social_inv d → social_inv d'.
Proof. induction 1; eauto using social_step_inv. Qed.

(** ** Concrete runs *)

Lemma social_graph_invariant_witness :
  let d := snd (block (mkClock 2 2) 2%N 1%N (snd (follow (mkClock 1 1) 1%N 2%N two_users))) in
  follows_edge (snd (follow (mkClock 1 1) 1%N 2%N two_users)) 1 2 = true ∧ social_inv d.
Proof.
  split; [vm_compute; reflexivity|].
  apply (social_graph_invariant two_users); [|apply social_inv_two_users].
  eapply rtc_l; [apply (step_follow (mkClock 1 1) 1%N 2%N)|].
  apply rtc_once, (step_block (mkClock 2 2) 2%N 1%N).
Defined.
