(* ===== verification/GraphRaces.v ===== *)
(** * The social graph under concurrent requests

    The statements of [follow], [unfollow], [block], [unblock] ([src/app/social.rs])
    and [delete_account] ([src/app/users.rs]) as transaction programs, and what every
    interleaving of them does. [Social] takes each of these methods as one step; here
    the locks are shown to make that right: [follow] holds [FOR UPDATE] on the
    followee, and the foreign keys of [blocks] take a key-share lock on both users, so
    a follow and a block of the same pair wait for each other. *)

From S2P Require Import Prelude Sql Domain Schema Isolation Social Users.
From stdpp Require Import options.

(** ** The transactions *)

Inductive GraphOp :=
| OpFollow (follower followee : Uuid) | OpUnfollow (follower followee : Uuid)
| OpBlock (blocker blocked : Uuid) | OpUnblock (blocker blocked : Uuid)
| OpDelete (user : Uuid).
Definition Answer : Type := GraphOp * Result SocialError bool.

Definition is_active (u : Uuid) (d : Db) : bool := bool_decide (is_Some (active_user d u)).

(** A row that [UPDATE refresh_tokens .. WHERE user_id = $1 AND revoked_at IS NULL] hits. *)
Definition unrevoked_of (u : Uuid) (r : RefreshRow) : bool :=
  bool_decide (rt_user_id r = u) && bool_decide (rt_revoked_at r = None).

(** The statement: the live tokens of [u] in the snapshot, one after another. *)
Definition revoke_tokens {A} (t : Time) (u : Uuid) : Proc A (list Uuid) :=
  tokens ← query (λ d, select (λ k r, if unrevoked_of u r then Some k else None) (refresh_tokens d));
  change_rows RToken ForNoKeyUpdate
    (λ k d, match refresh_tokens d !! k with Some r => unrevoked_of u r | None => false end)
    (λ k, set_refresh_tokens (alter (revoked t) k)) tokens.

Section programs.
Context (clk : Clock).

Definition follow_txn (a b : Uuid) : Txn Answer := script (
  let answer r := (OpFollow a b, r) in
  (* SELECT id FROM users WHERE id = $1 AND deleted_at IS NULL FOR UPDATE *)
  seen ← query (is_active b);
  if negb seen then rollback (answer (Err UserNotFound)) else
  _ ← lock (RUser b) ForUpdate;
  still ← query (is_active b);
  if negb still then rollback (answer (Err UserNotFound)) else
  (* SELECT COUNT( * ) FROM follows WHERE followee_id = $1 *)
  count ← query (λ d, follower_count d b);
  if (MAX_FOLLOWERS <=? count)%Z then rollback (answer (Err FollowerLimitReached)) else
  (* INSERT INTO follows .. SELECT .. WHERE .. ON CONFLICT DO NOTHING *)
  allowed ← query (λ d, bool_decide (a ≠ b) && negb (blocked_pair d a b));
  if negb allowed then mret (answer (Ok false)) else
  inserted ← insert_row (RFollow a b) (λ d, follows_edge d a b) (set_follows (<[(a, b) := db_now clk]>));
  if negb inserted then mret (answer (Ok false)) else
  follower_ok ← references (RUser a) (λ d, user_exists d a);
  if negb follower_ok then rollback (answer (Err (Db_ (ForeignKeyViolation "follows_follower_id_fkey")))) else
  followee_ok ← references (RUser b) (λ d, user_exists d b);
  if negb followee_ok then rollback (answer (Err (Db_ (ForeignKeyViolation "follows_followee_id_fkey")))) else
  mret (answer (Ok true))).

(** [DELETE FROM follows] of the listed edges. *)
Definition delete_edges (ks : list (Uuid * Uuid)) : Proc Answer (list (Uuid * Uuid)) :=
  change_rows (λ k, RFollow k.1 k.2) ForUpdate (λ k d, has_key k (follows d)) (λ k, set_follows (delete k)) ks.
Definition delete_blocks (ks : list (Uuid * Uuid)) : Proc Answer (list (Uuid * Uuid)) :=
  change_rows (λ k, RBlock k.1 k.2) ForUpdate (λ k d, has_key k (blocks d)) (λ k, set_blocks (delete k)) ks.
Definition affected {K} (rows : list K) : bool := match rows with [] => false | _ => true end.

Definition unfollow_txn (a b : Uuid) : Txn Answer := script (
  edges ← query (λ d, filter (λ k, has_key k (follows d) = true) [(a, b)]);
  deleted ← delete_edges edges;
  mret (OpUnfollow a b, Ok (affected deleted))).

Definition block_txn (x y : Uuid) : Txn Answer := script (
  let answer r := (OpBlock x y, r) in
  (* INSERT INTO blocks .. SELECT $1, $2 WHERE $1 <> $2 ON CONFLICT DO NOTHING *)
  inserted ← (if bool_decide (x ≠ y)
              then insert_row (RBlock x y) (λ d, has_key (x, y) (blocks d)) (set_blocks (<[(x, y) := db_now clk]>))
              else mret false);
  blocker_ok ← (if inserted : bool then references (RUser x) (λ d, user_exists d x) else mret true);
  if negb blocker_ok then rollback (answer (Err (Db_ (ForeignKeyViolation "blocks_fkey")))) else
  blocked_ok ← (if inserted : bool then references (RUser y) (λ d, user_exists d y) else mret true);
  if negb blocked_ok then rollback (answer (Err (Db_ (ForeignKeyViolation "blocks_fkey")))) else
  (* DELETE FROM follows WHERE .. OR .. *)
  edges ← query (λ d, filter (λ k, has_key k (follows d) = true) [(x, y); (y, x)]);
  _ ← delete_edges edges;
  mret (answer (Ok inserted))).

Definition unblock_txn (x y : Uuid) : Txn Answer := script (
  rows ← query (λ d, filter (λ k, has_key k (blocks d) = true) [(x, y)]);
  deleted ← delete_blocks rows;
  mret (OpUnblock x y, Ok (affected deleted))).

Definition delete_account_txn (u : Uuid) : Txn Answer := script (
  (* UPDATE users SET deleted_at = now() WHERE id = $1 AND deleted_at IS NULL *)
  seen ← query (is_active u);
  if negb seen then rollback (OpDelete u, Ok false) else
  _ ← lock (RUser u) ForNoKeyUpdate;
  still ← query (is_active u);
  if negb still then rollback (OpDelete u, Ok false) else
  _ ← exec (set_users (alter (soft_deleted (db_now clk)) u));
  (* UPDATE refresh_tokens SET revoked_at = now() WHERE user_id = $1 AND revoked_at IS NULL *)
  _ ← revoke_tokens (db_now clk) u;
  edges ← query (λ d, select (λ k _, if touches u k then Some k else None) (follows d));
  _ ← delete_edges edges;
  rows ← query (λ d, select (λ k _, if touches u k then Some k else None) (blocks d));
  _ ← delete_blocks rows;
  mret (OpDelete u, Ok true)).
End programs.

(** ** What a commit does *)

Definition drop_edge (k : Uuid * Uuid) : Db → Db := set_follows (delete k).
Definition drop_block (k : Uuid * Uuid) : Db → Db := set_blocks (delete k).
Definition revoke_token_row (t : Time) (k : Uuid) : Db → Db := set_refresh_tokens (alter (revoked t) k).

(** The edges between two users. *)
Definition between (x y : Uuid) : list (Uuid * Uuid) := [(x, y); (y, x)].

(** *** The loops, written out *)

Lemma changed_edges ks d : changed drop_edge ks d = set_follows (λ m, foldr delete m ks) d.
Proof. induction ks as [|k ks IH]; [by destruct d|]. cbn [changed foldr]. unfold changed in IH. by rewrite IH. Qed.
Lemma changed_blocks ks d : changed drop_block ks d = set_blocks (λ m, foldr delete m ks) d.
Proof. induction ks as [|k ks IH]; [by destruct d|]. cbn [changed foldr]. unfold changed in IH. by rewrite IH. Qed.
Lemma changed_tokens t ks d :
  changed (revoke_token_row t) ks d = set_refresh_tokens (λ m, foldr (λ k m, alter (revoked t) k m) m ks) d.
Proof. induction ks as [|k ks IH]; [by destruct d|]. cbn [changed foldr]. unfold changed in IH. by rewrite IH. Qed.

Lemma set_follows_ext f g d : f (follows d) = g (follows d) → set_follows f d = set_follows g d.
Proof. intros He. unfold set_follows. by rewrite He. Qed.
Lemma has_key_delete {K V} `{Countable K} (m : gmap K V) x k :
  has_key k (delete x m) = negb (bool_decide (k = x)) && has_key k m.
Proof.
  unfold has_key. rewrite lookup_delete. case_decide as Hx.
  - subst. by rewrite (bool_decide_true (k = k)).
  - by rewrite (bool_decide_false (k = x)).
Qed.
Lemma has_key_foldr_delete {K V} `{Countable K} (ks : list K) (m : gmap K V) k :
  has_key k (foldr delete m ks) = negb (bool_decide (k ∈ ks)) && has_key k m.
Proof.
  induction ks as [|x ks IH]; cbn [foldr].
  - rewrite bool_decide_false by apply not_elem_of_nil. done.
  - rewrite has_key_delete, IH, andb_assoc. f_equal.
    repeat case_bool_decide; set_solver.
Qed.
Lemma count_foldr_delete {K V} `{Countable K} (P : K → V → bool) ks (m : gmap K V) :
  (count_where P (foldr delete m ks) ≤ count_where P m)%Z.
Proof.
  induction ks as [|k ks IH]; [done|]. cbn [foldr]. etrans; [|exact IH].
  destruct (foldr delete m ks !! k) as [t|] eqn:Hk; [|by rewrite delete_id].
  rewrite (count_where_delete _ _ _ _ Hk). destruct (P k t); lia.
Qed.

(** What the sequential operations need and do when they answer [true]. *)
Lemma follow_true clk a b d d' :
  follow clk a b d = (Ok true, d') ↔
  is_active b d = true ∧ (follower_count d b < MAX_FOLLOWERS)%Z ∧ a ≠ b ∧ blocked_pair d a b = false ∧
  follows_edge d a b = false ∧ user_exists d a = true ∧ d' = set_follows (<[(a, b) := db_now clk]>) d.
Proof.
  unfold follow, is_active. unfold_m. run_step. destruct (active_user d b) as [u|]; [|naive_solver].
  rewrite (bool_decide_true (is_Some (Some u))) by done.
  destruct (Z.ltb_spec (follower_count d b) MAX_FOLLOWERS); [|naive_solver lia].
  case_bool_decide; [|naive_solver]. destruct (blocked_pair d a b); [naive_solver|].
  destruct (follows_edge d a b); [naive_solver|]. destruct (user_exists d a); simpl; naive_solver.
Qed.
Lemma block_true clk x y d d' :
  block clk x y d = (Ok true, d') ↔
  x ≠ y ∧ has_key (x, y) (blocks d) = false ∧ user_exists d x = true ∧ user_exists d y = true ∧
  d' = changed drop_edge (between x y) (set_blocks (<[(x, y) := db_now clk]>) d).
Proof.
  unfold block, changed, between, drop_edge. unfold_m. run_step. case_bool_decide; [|naive_solver].
  destruct (has_key (x, y) (blocks d)); [naive_solver|]. destruct (user_exists d x); simpl; [|naive_solver].
  destruct (user_exists d y); simpl; naive_solver.
Qed.
Lemma unfollow_true a b d d' :
  unfollow a b d = (Ok true, d') ↔ follows_edge d a b = true ∧ d' = drop_edge (a, b) d.
Proof. unfold unfollow, drop_edge. unfold_m. split; [by intros [= -> <-]|by intros [-> ->]]. Qed.
Lemma unblock_true x y d d' :
  unblock x y d = (Ok true, d') ↔ has_key (x, y) (blocks d) = true ∧ d' = drop_block (x, y) d.
Proof. unfold unblock, drop_block. unfold_m. split; [by intros [= -> <-]|by intros [-> ->]]. Qed.

(** *** The effect of an answer *)

(** Accounts that keep quiet: they send no follow, and nobody sends a block that
    involves them. Only for such an account is a deletion sure to meet all its rows. *)
Section commits.
Context (quiet : Uuid → Prop).

(** The effect of an answer on the committed database, with the locks the transaction
    holds at that moment. A positive answer is the sequential operation; a negative
    one changes nothing, except that [block] of a pair that is blocked already may
    remove edges of that pair. Deleting an account closes it, revokes exactly the
    sessions [delete_account] revokes and removes every follow of it; it may leave
    behind a follow by it or a block with it that was sent meanwhile, and is the
    sequential operation for an account that keeps quiet. *)
Definition graph_effect (L : Locks) (ans : Answer) (d d' : Db) : Prop :=
  match ans with
  | (OpFollow a b, Ok true) =>
      ¬ quiet a ∧ (RUser b, ForUpdate) ∈ L ∧ ∃ clk, follow clk a b d = (Ok true, d')
  | (OpUnfollow a b, Ok true) => unfollow a b d = (Ok true, d')
  | (OpBlock x y, Ok true) =>
      ¬ quiet x ∧ ¬ quiet y ∧
      (RUser x, ForKeyShare) ∈ L ∧ (RUser y, ForKeyShare) ∈ L ∧ ∃ clk, block clk x y d = (Ok true, d')
  | (OpBlock x y, Ok false) => ∃ ks, ks ⊆ between x y ∧ d' = changed drop_edge ks d
  | (OpUnblock x y, Ok true) => unblock x y d = (Ok true, d')
  | (OpDelete u, Ok true) =>
      (RUser u, ForNoKeyUpdate) ∈ L ∧ is_active u d = true ∧ ∃ clk fs bs,
        Forall (λ k, touches u k = true) (fs ++ bs) ∧
        (∀ a, follows_edge d a u = true → (a, u) ∈ fs) ∧
        d' = changed drop_block bs (changed drop_edge fs (revoke_all_tokens (db_now clk) u
               (set_users (alter (soft_deleted (db_now clk)) u) d))) ∧
        (quiet u → delete_account clk u d = (Ok true, d'))
  | _ => d' = d
  end.
(** Rows are inserted and deleted under their locks. *)
Definition rows_locked (L : Locks) (d d' : Db) : Prop :=
  (∀ a b, follows_edge d a b ≠ follows_edge d' a b → (RFollow a b, ForUpdate) ∈ L) ∧
  (∀ x y, has_key (x, y) (blocks d) ≠ has_key (x, y) (blocks d') → (RBlock x y, ForUpdate) ∈ L).
Definition graph_step (L : Locks) (ans : Answer) (d d' : Db) : Prop :=
  graph_effect L ans d d' ∧ rows_locked L d d'.

(** *** What a commit cannot do without the right lock *)

(** The four tables after a commit. *)
Record table_changes (L : Locks) (d d' : Db) : Prop := {
  ch_users : users d' = users d ∨
    ∃ u t, (RUser u, ForNoKeyUpdate) ∈ L ∧ users d' = alter (soft_deleted t) u (users d);
  ch_follows : (∃ ks, follows d' = foldr delete (follows d) ks) ∨
    ∃ a b t, ¬ quiet a ∧ (RUser b, ForUpdate) ∈ L ∧ follows d' = <[(a, b) := t]> (follows d);
  ch_blocks : (∃ ks, blocks d' = foldr delete (blocks d) ks) ∨
    ∃ x y t, ¬ quiet x ∧ ¬ quiet y ∧
      (RUser x, ForKeyShare) ∈ L ∧ (RUser y, ForKeyShare) ∈ L ∧ blocks d' = <[(x, y) := t]> (blocks d);
  ch_tokens : refresh_tokens d' = refresh_tokens d ∨
    ∃ u t, (RUser u, ForNoKeyUpdate) ∈ L ∧ refresh_tokens d' = refresh_tokens (revoke_all_tokens t u d) }.
Lemma changes_same L d : table_changes L d d.
Proof. split; left; by try exists []. Qed.

Lemma step_changes L ans d d' : graph_step L ans d d' → table_changes L d d'.
Proof.
  intros [He _]. pose proof (changes_same L d).
  destruct ans as [[x y|x y|x y|x y|u] [[]|]]; simpl in He; try by subst.
  - destruct He as (Hq & HL & clk & (_ & _ & _ & _ & _ & _ & ->)%follow_true).
    split; [by left|right; eauto 6|left; by exists []|by left].
  - apply unfollow_true in He as [_ ->]. split; [by left|left; by exists [(x, y)]|left; by exists []|by left].
  - destruct He as (Hqx & Hqy & Hx & Hy & clk & (_ & _ & _ & _ & ->)%block_true). rewrite changed_edges.
    split; [by left|left; by exists (between x y)|right; by exists x, y, (db_now clk)|by left].
  - destruct He as (ks & _ & ->). rewrite changed_edges.
    split; [by left|left; by exists ks|left; by exists []|by left].
  - apply unblock_true in He as [_ ->]. split; [by left|left; by exists []|left; by exists [(x, y)]|by left].
  - destruct He as (HL & _ & clk & fs & bs & _ & _ & -> & _). rewrite changed_blocks, changed_edges.
    split; [right; by exists u, (db_now clk)|left; by exists fs|left; by exists bs|right; by exists u, (db_now clk)].
Qed.

Section frame.
Context (L : Locks) (d d' : Db) (Hch : table_changes L d d').

Lemma frame_edge a b :
  follows_edge d a b = false → follows_edge d' a b = true → ¬ quiet a ∧ (RUser b, ForUpdate) ∈ L.
Proof using Hch.
  unfold follows_edge. intros Hn. destruct (ch_follows _ _ _ Hch) as [[ks ->]|(x & y & t & Hq & HL & ->)].
  - by rewrite has_key_foldr_delete, Hn, andb_false_r.
  - unfold has_key in *. rewrite lookup_insert. case_decide; simplify_eq; [done|]. by rewrite Hn.
Qed.
Lemma frame_count b : (RUser b, ForUpdate) ∉ L → (follower_count d' b ≤ follower_count d b)%Z.
Proof using Hch.
  intros HL. unfold follower_count. destruct (ch_follows _ _ _ Hch) as [[ks ->]|(x & y & t & _ & HL' & ->)].
  - apply count_foldr_delete.
  - destruct (follows d !! (x, y)) as [t'|] eqn:Hk.
    + rewrite (count_where_replace _ _ _ _ _ Hk). lia.
    + rewrite count_where_insert_fresh by done. rewrite bool_decide_false by (simpl; congruence). lia.
Qed.
Lemma frame_block x y :
  has_key (x, y) (blocks d) = false → has_key (x, y) (blocks d') = true →
  (¬ quiet x ∧ ¬ quiet y) ∧ (RUser x, ForKeyShare) ∈ L ∧ (RUser y, ForKeyShare) ∈ L.
Proof using Hch.
  intros Hn. destruct (ch_blocks _ _ _ Hch) as [[ks ->]|(x' & y' & t & Hqx & Hqy & HL & HL' & ->)].
  - by rewrite has_key_foldr_delete, Hn, andb_false_r.
  - unfold has_key in *. rewrite lookup_insert. case_decide; simplify_eq; [done|]. by rewrite Hn.
Qed.
Lemma frame_active u : is_active u d = true → (RUser u, ForNoKeyUpdate) ∉ L → is_active u d' = true.
Proof using Hch.
  unfold is_active, active_user. destruct (ch_users _ _ _ Hch) as [->|(v & t & HL & ->)]; [done|].
  intros Ha Hl. rewrite lookup_alter_ne by congruence. done.
Qed.
Lemma frame_exists u : user_exists d u = true → user_exists d' u = true.
Proof using Hch.
  unfold user_exists, has_key. destruct (ch_users _ _ _ Hch) as [->|(v & t & HL & ->)]; [done|].
  intros Hu%bool_decide_eq_true. apply bool_decide_eq_true. by apply lookup_alter_is_Some.
Qed.
(** The live sessions of an account that nobody else deletes. *)
Lemma frame_sessions u k :
  (RUser u, ForNoKeyUpdate) ∉ L →
  hits (unrevoked_of u) k (refresh_tokens d') = hits (unrevoked_of u) k (refresh_tokens d).
Proof using Hch.
  intros HL. destruct (ch_tokens _ _ _ Hch) as [->|(v & t & HL' & ->)]; [done|]. unfold hits, revoke_all_tokens. simpl.
  rewrite lookup_update_where. destruct (refresh_tokens d !! k) as [r|]; [|done]. simpl.
  destruct (bool_decide (rt_user_id r = v) && _) eqn:Hv; [|done]. bool_to_prop. unfold unrevoked_of. simpl.
  by rewrite !bool_decide_false by congruence.
Qed.
End frame.

(** ** Every transaction keeps to its effect *)

Notation gwp := (wp graph_step).
Notation gstable := (stable graph_step).

Section protected.
Context (L : Locks).

Lemma rely_changes d d' : rely graph_step L d d' → ∃ L', compatible L L' ∧ table_changes L' d d' ∧ rows_locked L' d d'.
Proof. intros (L' & ans & Hc & Hs). exists L'. split; [done|]. split; [by eapply step_changes|apply Hs]. Qed.

Lemma stable_and P Q : gstable L P → gstable L Q → gstable L (λ d, P d ∧ Q d).
Proof. intros HP HQ d d' Hr [??]. split; eauto. Qed.
Lemma stable_const (P : Prop) : gstable L (λ _, P).
Proof. by intros d d'. Qed.
Lemma stable_exists u : gstable L (λ d, user_exists d u = true).
Proof. intros d d' (L' & _ & Hch & _)%rely_changes. by eapply frame_exists. Qed.
(** Under a lock on the row of an edge, or of a block, it does not change. *)
Lemma stable_edge_row a b v : (RFollow a b, ForUpdate) ∈ L → gstable L (λ d, follows_edge d a b = v).
Proof.
  intros Hl d d' (L' & Hc & _ & Hrow & _)%rely_changes <-. destruct (follows_edge d a b) eqn:He, (follows_edge d' a b) eqn:He'; try done.
  all: exfalso; eapply compatible_excl; [exact Hc|exact Hl|apply Hrow; by rewrite He, He'|done].
Qed.
Lemma stable_block_row x y v : (RBlock x y, ForUpdate) ∈ L → gstable L (λ d, has_key (x, y) (blocks d) = v).
Proof.
  intros Hl d d' (L' & Hc & _ & _ & Hrow)%rely_changes <-.
  destruct (has_key (x, y) (blocks d)) eqn:He, (has_key (x, y) (blocks d')) eqn:He'; try done.
  all: exfalso; eapply compatible_excl; [exact Hc|exact Hl|apply Hrow; by rewrite He, He'|done].
Qed.
(** Under a key-share lock on both users, no edge between them appears. *)
Lemma stable_no_edge a b m :
  (RUser b, m) ∈ L → gstable L (λ d, follows_edge d a b = false).
Proof.
  intros Hl d d' (L' & Hc & Hch & _)%rely_changes He. destruct (follows_edge d' a b) eqn:He'; [|done].
  exfalso. eapply compatible_excl; [exact Hc|exact Hl|by eapply (frame_edge _ d d')|by destruct m].
Qed.
(** Nobody adds an edge or a block to a quiet account that is locked. *)
Lemma stable_no_touch u m k :
  quiet u → (RUser u, m) ∈ L → touches u k = true → gstable L (λ d, has_key k (follows d) = false).
Proof.
  destruct k as [a b]. intros Hq Hl Hk. destruct (decide (b = u)) as [->|Hne]; [by eapply stable_no_edge|].
  unfold touches in Hk. simpl in Hk. rewrite (bool_decide_false (b = u)), orb_false_r in Hk by done.
  apply bool_decide_eq_true in Hk as ->. intros d d' (L' & Hc & Hch & _)%rely_changes He.
  apply not_true_is_false. intros He'. by destruct (frame_edge _ d d' Hch u b He He').
Qed.
Lemma stable_no_block u k :
  quiet u → touches u k = true → gstable L (λ d, has_key k (blocks d) = false).
Proof.
  destruct k as [x y]. intros Hq Hk d d' (L' & Hc & Hch & _)%rely_changes He. apply not_true_is_false. intros He'.
  destruct (frame_block _ d d' Hch x y He He') as [[Hx Hy] _]. unfold touches in Hk. simpl in Hk.
  apply orb_true_iff in Hk as [Hk%bool_decide_eq_true|Hk%bool_decide_eq_true]; by subst.
Qed.
Lemma stable_sessions u k v :
  (RUser u, ForNoKeyUpdate) ∈ L → gstable L (λ d, hits (unrevoked_of u) k (refresh_tokens d) = v).
Proof.
  intros Hl d d' (L' & Hc & Hch & _)%rely_changes <-. eapply frame_sessions; [done|]. intros Hl'.
  by eapply compatible_excl.
Qed.
Lemma stable_active u m :
  (RUser u, m) ∈ L → mode_conflicts m ForNoKeyUpdate = true → gstable L (λ d, is_active u d = true).
Proof.
  intros Hu Hm d d' (L' & Hc & Hch & _)%rely_changes Ha. eapply frame_active; [done..|]. intros Hl.
  by eapply compatible_excl.
Qed.
(** Under [FOR UPDATE] on [b]: nobody adds a follower or blocks across a pair it
    belongs to. *)
Context (b : Uuid) (Hb : (RUser b, ForUpdate) ∈ L).
Lemma stable_count : gstable L (λ d, (follower_count d b < MAX_FOLLOWERS)%Z).
Proof using Hb.
  intros d d' (L' & Hc & Hch & _)%rely_changes Ha. eapply Z.le_lt_trans; [|done]. eapply frame_count; [done|].
  intros Hl. by eapply compatible_excl.
Qed.
Lemma stable_unblocked a : gstable L (λ d, blocked_pair d a b = false).
Proof using Hb.
  intros d d' (L' & Hc & Hch & _)%rely_changes. unfold blocked_pair. intros [H1 H2]%orb_false_iff.
  apply orb_false_iff. split; apply not_true_is_false; intros Ht;
    [destruct (frame_block _ _ _ Hch _ _ H1 Ht) as [_ []]|destruct (frame_block _ _ _ Hch _ _ H2 Ht) as [_ []]];
    by eapply compatible_excl.
Qed.
End protected.

(** Answers that leave the database alone. *)
Definition harmless (ans : Answer) : Prop := ∀ L d, graph_effect L ans d d.
Lemma step_same ans L d : harmless ans → graph_step L ans d d.
Proof. intros Ha. split; [apply Ha|by split]. Qed.
Lemma wp_undone ans L w d : harmless ans → gwp (TRollback ans) L w d.
Proof. intros Ha d' _. by apply step_same. Qed.
Lemma wp_nothing ans L d : harmless ans → gwp (TCommit ans) L (λ d, d) d.
Proof. intros Ha d' _. by apply step_same. Qed.
Ltac harmless := first [apply wp_undone | apply wp_nothing]; by intros ??.

(** *** [follow] *)

Section follow.
Context (a b : Uuid).

(** What [follow] has established before its insertion, step by step. *)
Definition locked (L : Locks) (d : Db) : Prop := (RUser b, ForUpdate) ∈ L.
Definition found (L : Locks) (d : Db) : Prop := locked L d ∧ is_active b d = true.
Definition room (L : Locks) (d : Db) : Prop := found L d ∧ (follower_count d b < MAX_FOLLOWERS)%Z.
Definition allowed (L : Locks) (d : Db) : Prop := room L d ∧ a ≠ b ∧ blocked_pair d a b = false.
Definition new_edge (L : Locks) (d : Db) : Prop :=
  allowed L d ∧ (RFollow a b, ForUpdate) ∈ L ∧ follows_edge d a b = false.
Definition valid_edge (L : Locks) (d : Db) : Prop := new_edge L d ∧ user_exists d a = true.

Lemma locked_stable L : gstable L (locked L).
Proof. by intros d d'. Qed.
Lemma found_stable L : gstable L (found L).
Proof. intros d d' Hr [Hl Ha]. split; [done|]. by eapply (stable_active L b ForUpdate). Qed.
Lemma room_stable L : gstable L (room L).
Proof. intros d d' Hr [Hf Hc]. split; [by eapply found_stable|]. eapply stable_count; [apply Hf|done..]. Qed.
Lemma allowed_stable L : gstable L (allowed L).
Proof.
  intros d d' Hr (Hf & Hne & Hc). split; [by eapply room_stable|]. split; [done|].
  eapply stable_unblocked; [apply Hf|done..].
Qed.
Lemma new_edge_stable L : gstable L (new_edge L).
Proof.
  intros d d' Hr (Hf & Hl & He). split; [by eapply allowed_stable|]. split; [done|]. by eapply stable_edge_row.
Qed.
Lemma valid_edge_stable L : gstable L (valid_edge L).
Proof. intros d d' Hr [Hf He]. split; [by eapply new_edge_stable|by eapply stable_exists]. Qed.

Ltac weaken_locks :=
  intros; unfold valid_edge, new_edge, allowed, room, found, locked in *; destruct_and?; split_and!;
  first [done | by apply list_elem_of_here | by apply list_elem_of_further].

Lemma follow_valid clk I : ¬ quiet a → valid graph_step I (follow_txn clk a b).
Proof.
  intros Hq d _. unfold follow_txn, script, mbind, Proc_bind.
  apply (wp_query _ (λ _ _, True)); [by intros ????|done|]. intros d1 _.
  destruct (is_active b d1); simpl negb; cbv iota; [|harmless].
  apply (wp_lock _ (λ _ _, True)); [by intros ????|done|done|]. intros d2 _.
  apply (wp_query _ locked); [apply locked_stable|unfold locked; set_solver|]. intros d3 Hl.
  destruct (is_active b d3) eqn:Ha; simpl negb; cbv iota; [|harmless].
  apply (wp_query _ found); [apply found_stable|done|]. intros d4 Hf.
  destruct (Z.leb_spec MAX_FOLLOWERS (follower_count d4 b)); [harmless|].
  apply (wp_query _ room); [apply room_stable|done|]. intros d5 Hr.
  destruct (bool_decide (a ≠ b) && negb (blocked_pair d5 a b)) eqn:Hal; simpl negb; cbv iota; [|harmless].
  bool_to_prop. apply (wp_insert _ allowed); [apply allowed_stable|done|intros; harmless|].
  intros d6 H6 He. simpl negb. cbv iota.
  apply (wp_references _ new_edge valid_edge); [apply new_edge_stable|apply valid_edge_stable|weaken_locks|done|weaken_locks|intros; harmless|].
  intros d7 H7. simpl negb. cbv iota.
  apply (wp_references _ valid_edge valid_edge); [apply valid_edge_stable|apply valid_edge_stable|weaken_locks|done|weaken_locks|intros; harmless|].
  intros d8 H8 d9 Hd.
  destruct (stable_drifts _ _ _ _ _ (valid_edge_stable _) Hd H8) as [[[[[HL Hact] Hroom] [Hne Hbl]] [HLf Hno]] Hex].
  split; [split; [done|]; split; [done|]; exists clk; by apply follow_true|]. split; [|done]. intros x y Hxy.
  rewrite follows_edge_insert in Hxy. case_bool_decide as Hk; [by simplify_eq|done].
Qed.
End follow.

(** *** [unfollow] and [unblock] *)

Lemma unfollow_valid a b I : valid graph_step I (unfollow_txn a b).
Proof.
  intros d _. unfold unfollow_txn, script, mbind, Proc_bind.
  apply (wp_query _ (λ _ _, True)); [by intros ????|done|]. intros d1 _.
  rewrite filter_cons, filter_nil. case_decide; [|harmless].
  unfold delete_edges. cbn [change_rows]. unfold mbind, Proc_bind, mret, Proc_ret.
  apply (wp_lock _ (λ _ _, True)); [by intros ????|done|done|]. intros d2 _.
  apply (wp_query _ (λ _ _, True)); [by intros ????|done|]. intros d3 _. cbn [fst snd].
  destruct (has_key (a, b) (follows d3)) eqn:He; [|harmless].
  set (P (L : Locks) (d : Db) := (RFollow a b, ForUpdate) ∈ L ∧ follows_edge d a b = true).
  assert (Hst : ∀ L, gstable L (P L)).
  { intros L x y Hr [Hl Hx]. split; [done|]. by eapply (stable_edge_row L a b true). }
  apply (wp_exec _ P); [done|split; [by apply list_elem_of_here|done]|]. intros d4 H4 d5 Hd.
  destruct (stable_drifts _ _ _ _ _ (Hst _) Hd H4) as [Hl Hy].
  split; [by apply unfollow_true|]. split; [|done]. intros x y Hxy.
  rewrite follows_edge_delete in Hxy. case_bool_decide as Hk; [by simplify_eq|done].
Qed.
Lemma unblock_valid x y I : valid graph_step I (unblock_txn x y).
Proof.
  intros d _. unfold unblock_txn, script, mbind, Proc_bind.
  apply (wp_query _ (λ _ _, True)); [by intros ????|done|]. intros d1 _.
  rewrite filter_cons, filter_nil. case_decide; [|harmless].
  unfold delete_blocks. cbn [change_rows]. unfold mbind, Proc_bind, mret, Proc_ret.
  apply (wp_lock _ (λ _ _, True)); [by intros ????|done|done|]. intros d2 _.
  apply (wp_query _ (λ _ _, True)); [by intros ????|done|]. intros d3 _. cbn [fst snd].
  destruct (has_key (x, y) (blocks d3)) eqn:He; [|harmless].
  set (P (L : Locks) (d : Db) := (RBlock x y, ForUpdate) ∈ L ∧ has_key (x, y) (blocks d) = true).
  assert (Hst : ∀ L, gstable L (P L)).
  { intros L u v Hr [Hl Hx]. split; [done|]. by eapply (stable_block_row L x y true). }
  apply (wp_exec _ P); [done|split; [by apply list_elem_of_here|done]|]. intros d4 H4 d5 Hd.
  destruct (stable_drifts _ _ _ _ _ (Hst _) Hd H4) as [Hl Hy].
  split; [by apply unblock_true|]. split; [done|]. intros u v. simpl. rewrite has_key_delete.
  intros Huv. case_bool_decide as Hk; [by simplify_eq|done].
Qed.

(** *** [block] *)

Section block.
Context (x y : Uuid).

(** While the edges are deleted: the edges of [dn] are locked and are edges of the
    pair. *)
Definition cutting (todo dn : list (Uuid * Uuid)) (L : Locks) (d : Db) : Prop :=
  todo ⊆ between x y ∧ dn ⊆ between x y ∧ (∀ k, k ∈ dn → (RFollow k.1 k.2, ForUpdate) ∈ L).
(** After an insertion, moreover: no other edge of the pair is left. *)
Definition blocking (L : Locks) (d : Db) : Prop :=
  x ≠ y ∧ (RBlock x y, ForUpdate) ∈ L ∧ has_key (x, y) (blocks d) = false.
Definition checked (us : list Uuid) (L : Locks) (d : Db) : Prop :=
  blocking L d ∧ ∀ u, u ∈ us → (RUser u, ForKeyShare) ∈ L ∧ user_exists d u = true.
Definition emptied (todo dn : list (Uuid * Uuid)) (L : Locks) (d : Db) : Prop :=
  cutting todo dn L d ∧ checked [x; y] L d ∧
  ∀ k, k ∈ between x y → has_key k (follows d) = true → k ∈ todo ∨ k ∈ dn.

Lemma cutting_stable t dn L : gstable L (cutting t dn L).
Proof. by intros d d'. Qed.
Lemma blocking_stable L : gstable L (blocking L).
Proof. intros d d' Hr (Hne & Hl & Hb). split_and!; [done..|]. by eapply stable_block_row. Qed.
Lemma checked_stable us L : gstable L (checked us L).
Proof.
  intros d d' Hr [Hb Hu]. split; [by eapply blocking_stable|]. intros u [Hl He]%Hu. split; [done|].
  by eapply stable_exists.
Qed.
Lemma emptied_stable t dn L : gstable L (emptied t dn L).
Proof.
  intros d d' Hr (Hc & Hch & Hk). split_and!; [done|by eapply checked_stable|].
  intros k Hin Hy. apply Hk; [done|]. destruct (has_key k (follows d)) eqn:Hn; [done|].
  destruct k as [u v]. assert (Hv : v ∈ [x; y]) by (unfold between in Hin; set_solver).
  destruct (proj2 Hch _ Hv) as [Hl _]. change (follows_edge d' u v = true) in Hy.
  by rewrite (stable_no_edge L u v _ Hl d d' Hr Hn) in Hy.
Qed.

Lemma cutting_step k todo dn L d :
  (RFollow k.1 k.2, ForUpdate) ∈ L → cutting (k :: todo) dn L d → cutting todo (k :: dn) L d.
Proof. clear quiet. intros Hl (Ht & Hd & Hk). split_and!; [set_solver|set_solver|]. intros k' [->|Hk']%elem_of_cons; auto. Qed.
Lemma cutting_skip k todo dn L d : cutting (k :: todo) dn L d → cutting todo dn L d.
Proof. clear quiet. intros (Ht & Hd & Hk). split_and!; [set_solver|done..]. Qed.
Lemma emptied_step k todo dn L w d :
  (RFollow k.1 k.2, ForUpdate) ∈ L → emptied (k :: todo) dn L d → follows (w d) = follows d →
  if has_key k (follows (changed drop_edge dn (w d))) then emptied todo (k :: dn) L d else emptied todo dn L d.
Proof. clear quiet.
  intros Hl (Hc & Hch & Hk) Hw. rewrite changed_edges. simpl. rewrite has_key_foldr_delete, Hw.
  destruct (negb _ && _) eqn:He.
  - split_and!; [by apply cutting_step|done|]. intros k' Hin Hy. destruct (Hk k' Hin Hy) as [Ht|Ht]; set_solver.
  - split_and!; [by eapply cutting_skip|done|]. intros k' Hin Hy. destruct (Hk k' Hin Hy) as [Ht|Ht]; [|by right].
    apply elem_of_cons in Ht as [->|Ht]; [|by left]. rewrite Hy, andb_true_r in He.
    apply negb_false_iff, bool_decide_eq_true in He. by right.
Qed.

(** The pair has no edges left, so the deletions are those of [block]. *)
Lemma emptied_exact t dn L d :
  emptied [] dn L d →
  changed drop_edge dn (set_blocks (<[(x, y) := t]>) d)
  = changed drop_edge (between x y) (set_blocks (<[(x, y) := t]>) d).
Proof. clear quiet.
  intros (Hc & _ & Hk). rewrite !changed_edges. apply set_follows_ext. apply map_eq. intros k.
  change (follows (set_blocks _ d)) with (follows d).
  assert (Hl : ∀ ks : list (Uuid * Uuid), foldr delete (follows d) ks !! k
            = if bool_decide (k ∈ ks) then None else follows d !! k).
  { intros ks. induction ks as [|k' ks IH]; cbn [foldr].
    - rewrite bool_decide_false by apply not_elem_of_nil. done.
    - rewrite lookup_delete, IH. repeat case_bool_decide; repeat case_decide; set_solver. }
  rewrite (Hl dn), (Hl (between x y)). destruct Hc as (_ & Hd & _).
  repeat case_bool_decide; try done; [by exfalso; apply H0, Hd|].
  destruct (follows d !! k) eqn:Hf; [|done]. exfalso.
  destruct (Hk k) as [Ht|Ht]; [done| |by apply not_elem_of_nil in Ht|done].
  apply has_key_true. eauto.
Qed.

Lemma cutting_more t dn L l d : cutting t dn L d → cutting t dn (l :: L) d.
Proof. intros (Ht & Hd & Hk). split_and!; [done..|]. intros k Hin. by apply list_elem_of_further, Hk. Qed.
Lemma checked_more us L l d : checked us L d → checked us (l :: L) d.
Proof.
  intros [(Hn & Hl & Hk) Hu]. split; [split_and!; [done|by apply list_elem_of_further|done]|].
  intros u [Hlu Hex]%Hu. split; [by apply list_elem_of_further|done].
Qed.
Lemma emptied_more t dn L l d : emptied t dn L d → emptied t dn (l :: L) d.
Proof. intros (Hc & Hch & Hk). split_and!; [by apply cutting_more|by apply checked_more|done]. Qed.
Lemma checked_exists_stable us u L : gstable L (λ d, checked us L d ∧ user_exists d u = true).
Proof. intros d d' Hr [Hc He]. split; [by eapply checked_stable|by eapply stable_exists]. Qed.

(** The second statement of [block], without and with an insertion before it. *)
Lemma cut_valid L d :
  gwp (query (λ d, filter (λ k, has_key k (follows d) = true) (between x y))
         (λ edges, delete_edges edges (λ _, TCommit (OpBlock x y, Ok false)))) L (λ d, d) d.
Proof.
  apply (wp_query _ (λ _ _, True)); [by intros ????|done|]. intros d1 _.
  apply (wp_change_rows _ _ _ _ _ cutting _ []).
  - apply cutting_stable.
  - intros. by apply cutting_more.
  - intros k t dn L' d' Hl Hc. case_match; [by apply cutting_step|by eapply cutting_skip].
  - split_and!; [|set_solver|set_solver]. intros k. rewrite list_elem_of_filter. tauto.
  - intros ks dn L' d' (_ & Hd & Hk) d2 _. split; [by exists dn|]. rewrite changed_edges. split; [|done].
    intros a b. unfold follows_edge. simpl. rewrite has_key_foldr_delete. intros Hab.
    case_bool_decide as Hin; [|done]. by apply (Hk (a, b)).
Qed.
Lemma cut_blocked_valid clk L d :
  ¬ quiet x → ¬ quiet y → checked [x; y] L d →
  gwp (query (λ d, filter (λ k, has_key k (follows d) = true) (between x y))
         (λ edges, delete_edges edges (λ _, TCommit (OpBlock x y, Ok true))))
    L (set_blocks (<[(x, y) := db_now clk]>)) d.
Proof.
  intros Hqx Hqy Hd. apply (wp_query _ (checked [x; y])); [apply checked_stable|done|]. intros d1 H1.
  apply (wp_change_rows _ _ _ _ _ emptied _ [] _ _ (set_blocks (<[(x, y) := db_now clk]>))).
  - apply emptied_stable.
  - intros. by apply emptied_more.
  - intros k t dn L' d' Hl He. by apply (emptied_step k t dn L' (set_blocks (<[(x, y) := db_now clk]>))).
  - split; [|split; [done|]].
    + split_and!; [|set_solver|set_solver]. intros k. rewrite list_elem_of_filter. tauto.
    + intros k Hin Hy. left. by apply list_elem_of_filter.
  - intros ks dn L' d' He d2 Hdr. pose proof (stable_drifts _ _ _ _ _ (emptied_stable _ _ _) Hdr He) as He2.
    pose proof He2 as ((_ & Hs & Hk) & ((Hne & Hl & Hb) & Hu) & _).
    destruct (Hu x) as [Hlx Hex]; [set_solver|]. destruct (Hu y) as [Hly Hey]; [set_solver|].
    split; [do 4 (split; [done|]); exists clk; apply block_true; split_and!; try done; by eapply emptied_exact|].
    rewrite changed_edges. split.
    + intros a b. unfold follows_edge. simpl. rewrite has_key_foldr_delete. intros Hab.
      case_bool_decide as Hin; [|done]. by apply (Hk (a, b)).
    + intros a b. simpl. unfold has_key. rewrite lookup_insert. case_decide; [by simplify_eq|done].
Qed.
Lemma block_valid clk I : ¬ quiet x → ¬ quiet y → valid graph_step I (block_txn clk x y).
Proof.
  intros Hqx Hqy d _. unfold block_txn, script, mbind, Proc_bind, mret, Proc_ret.
  case_bool_decide as Hne; [|simpl negb; cbv iota; apply cut_valid].
  apply (wp_insert _ (λ _ _, True)); [by intros ????|done|intros; simpl negb; cbv iota; apply cut_valid|].
  intros d1 _ Hb.
  apply (wp_references _ (checked []) (λ L d, checked [] L d ∧ user_exists d x = true));
    [apply checked_stable|apply checked_exists_stable|by intros L l d' [??]; split; [apply checked_more|]|done| |by intros; harmless|].
  { split; [by split_and!; [|apply list_elem_of_here|]|set_solver]. }
  intros d2 [H2 Hx]. simpl negb. cbv iota.
  apply (wp_references _ (checked [x]) (λ L d, checked [x] L d ∧ user_exists d y = true));
    [apply checked_stable|apply checked_exists_stable|by intros L l d' [??]; split; [apply checked_more|]|done| |by intros; harmless|].
  { destruct H2 as [Hbl _]. split; [done|]. intros u ->%list_elem_of_singleton. split; [apply list_elem_of_here|done]. }
  intros d3 [H3 Hy]. simpl negb. cbv iota. apply cut_blocked_valid; [done..|].
  destruct H3 as [Hbl Hu]. split; [done|]. intros u [->|Hin]%elem_of_cons; [apply Hu; set_solver|].
  apply list_elem_of_singleton in Hin as ->. split; [apply list_elem_of_here|done].
Qed.
End block.

(** *** [delete_account] *)

Section delete_account.
Context (u : Uuid).

Definition closing (L : Locks) (d : Db) : Prop := (RUser u, ForNoKeyUpdate) ∈ L ∧ is_active u d = true.
Lemma closing_stable L : gstable L (closing L).
Proof. intros d d' Hr [Hl Ha]. split; [done|]. by eapply (stable_active L u ForNoKeyUpdate). Qed.
Lemma closing_more L l d : closing L d → closing (l :: L) d.
Proof. intros [Hl Ha]. split; [by apply list_elem_of_further|done]. Qed.

(** While the sessions are revoked: the live ones are those left and those done. *)
Definition logging_out (todo dn : list Uuid) (L : Locks) (d : Db) : Prop :=
  closing L d ∧ ∀ k, hits (unrevoked_of u) k (refresh_tokens d) = bool_decide (k ∈ todo ++ dn).
Lemma logging_out_stable t dn L : gstable L (logging_out t dn L).
Proof.
  intros d d' Hr [Hc Hk]. split; [by eapply closing_stable|]. intros k. by eapply (stable_sessions L u k _ (proj1 Hc)).
Qed.
Lemma logging_out_more t dn L l d : logging_out t dn L d → logging_out t dn (l :: L) d.
Proof. intros [Hc Hk]. split; [by apply closing_more|done]. Qed.

Lemma lookup_revoke t ks (m : gmap Uuid RefreshRow) k :
  foldr (λ k m, alter (revoked t) k m) m ks !! k
  = if bool_decide (k ∈ ks) then revoked t <$> m !! k else m !! k.
Proof. clear quiet.
  induction ks as [|x ks IH]; cbn [foldr]; [by rewrite bool_decide_false by apply not_elem_of_nil|].
  destruct (decide (x = k)) as [->|Hne].
  - rewrite lookup_alter_eq, IH, (bool_decide_true (k ∈ k :: ks)) by apply list_elem_of_here.
    case_bool_decide; [|done]. by destruct (m !! k).
  - rewrite lookup_alter_ne, IH by done. by rewrite (bool_decide_ext (k ∈ x :: ks) (k ∈ ks)) by set_solver.
Qed.
Lemma logged_out t dn L d :
  logging_out [] dn L d → changed (revoke_token_row t) dn d = revoke_all_tokens t u d.
Proof.
  intros [_ Hk]. rewrite changed_tokens. unfold revoke_all_tokens, set_refresh_tokens. f_equal. apply map_eq. intros k.
  rewrite lookup_revoke, lookup_update_where. specialize (Hk k). simpl in Hk. rewrite <-Hk. unfold hits, unrevoked_of.
  by destruct (refresh_tokens d !! k) as [r|]; [|]; simpl; try case_match.
Qed.

Lemma wp_revoke_tokens t k L w d :
  (∀ d, refresh_tokens (w d) = refresh_tokens d) → closing L d →
  (∀ ks dn L d, logging_out [] dn L d → gwp (k ks) L (λ d, changed (revoke_token_row t) dn (w d)) d) →
  gwp (revoke_tokens t u k) L w d.
Proof.
  intros Hw Hd Hk. unfold revoke_tokens, mbind, Proc_bind.
  apply (wp_query _ closing); [apply closing_stable|done|]. intros d1 H1.
  apply (wp_change_rows _ _ _ _ (revoke_token_row t) logging_out _ [] _ _ w);
    [apply logging_out_stable|intros; by apply logging_out_more| | |done].
  - intros x todo dn L' d' _ [Hc Hx]. rewrite (changed_tokens t dn (w d')). simpl. rewrite lookup_revoke, Hw.
    pose proof (Hx x) as Hxx. rewrite bool_decide_true in Hxx by apply list_elem_of_here. unfold hits in Hxx.
    destruct (refresh_tokens d' !! x) as [r|]; [|done]. case_bool_decide as Hin; simpl.
    + unfold unrevoked_of. simpl. rewrite andb_false_r. split; [done|]. intros k0. rewrite Hx.
      apply bool_decide_ext. set_solver.
    + rewrite Hxx. split; [done|]. intros k0. rewrite Hx. apply bool_decide_ext. set_solver.
  - split; [done|]. intros k0. rewrite app_nil_r. apply eq_true_iff_eq. rewrite bool_decide_eq_true, elem_of_select, Hw.
    unfold hits. split.
    + destruct (refresh_tokens d1 !! k0) as [r|] eqn:Hr; [|done]. intros Hu. exists k0, r. by rewrite Hu.
    + intros (k' & r & Hr & Hs). destruct (unrevoked_of u r) eqn:Hu; simplify_eq. by rewrite Hr.
Qed.

(** Deleting the rows of a table that touch the account: those that [must] go cannot
    appear any more, so all of them are met. *)
Section clear.
Context (row : Uuid * Uuid → Row) (get : Db → gmap (Uuid * Uuid) Time) (change : Uuid * Uuid → Db → Db).
Context (must : Uuid * Uuid → Prop) (B : Locks → Db → Prop).
Context (HBst : ∀ L, gstable L (B L)) (HBmore : ∀ L l d, B L d → B (l :: L) d).
Context (Hmust : ∀ k, must k → touches u k = true).
Context (Hnew : ∀ L k d, B L d → must k → gstable L (λ d, has_key k (get d) = false)).
Context (Hget : ∀ dn d, get (changed change dn d) = foldr delete (get d) dn).

Record clearing (todo dn : list (Uuid * Uuid)) (L : Locks) (d : Db) : Prop := {
  cl_base : B L d;
  cl_own k : k ∈ todo ++ dn → touches u k = true;
  cl_locks k : k ∈ dn → (row k, ForUpdate) ∈ L;
  cl_all k : must k → has_key k (get d) = true → k ∈ todo ++ dn }.

Lemma clearing_stable t dn L : gstable L (clearing t dn L).
Proof using HBst Hnew.
  intros d d' Hr [Hb Ho Hl Ha]. split; [by eapply HBst|done..|]. intros k Hk Hy. apply Ha; [done|].
  destruct (has_key k (get d)) eqn:Hn; [done|]. by rewrite (Hnew L k d Hb Hk d d' Hr Hn) in Hy.
Qed.
Lemma clearing_more t dn L l d : clearing t dn L d → clearing t dn (l :: L) d.
Proof using HBmore.
  intros [Hb Ho Hl Ha]. split; [by apply HBmore|done| |done]. intros k Hk. by apply list_elem_of_further, Hl.
Qed.
Lemma wp_clear k L w d :
  (∀ d, get (w d) = get d) → B L d →
  (∀ ks dn L d, clearing [] dn L d → gwp (k ks) L (λ d, changed change dn (w d)) d) →
  gwp (query (λ d, select (λ k _, if touches u k then Some k else None) (get d))
         (λ ks, change_rows row ForUpdate (λ k d, has_key k (get d)) change ks k)) L w d.
Proof using HBst HBmore Hmust Hnew Hget.
  intros Hw Hd Hk. apply (wp_query _ B); [done|done|]. intros d1 H1.
  apply (wp_change_rows _ _ _ _ _ clearing _ [] _ _ w); [apply clearing_stable|intros; by apply clearing_more| | |done].
  - intros x todo dn L' d' Hl [Hb Ho Hdn Ha]. rewrite Hget, has_key_foldr_delete, Hw.
    destruct (negb _ && _) eqn:He.
    + split; [done|intros e He'; apply Ho; set_solver|intros e [->|?]%elem_of_cons; auto|].
      intros e Hme Hy. specialize (Ha e Hme Hy). set_solver.
    + split; [done|intros e He'; apply Ho; set_solver|done|]. intros e Hme Hy.
      pose proof (Ha e Hme Hy) as Hin. destruct (decide (e = x)) as [->|Hne]; [|clear -Hin Hne; set_solver].
      apply elem_of_app. right.
      rewrite Hy, andb_true_r in He. by apply negb_false_iff, bool_decide_eq_true in He.
  - rewrite Hw. split; [done| |set_solver|]; intros e; rewrite app_nil_r, elem_of_select.
    + intros (k' & v & _ & He). case_match; by simplify_eq.
    + intros Hme [v Hv]%has_key_true. exists e, v. by rewrite (Hmust _ Hme).
Qed.
End clear.

(** The rows that must go: all follows of the account, and everything when it is quiet. *)
Definition must_edge (k : Uuid * Uuid) : Prop := touches u k = true ∧ (k.2 = u ∨ quiet u).
Definition must_block (k : Uuid * Uuid) : Prop := touches u k = true ∧ quiet u.
Definition logged_out_by (ts : list Uuid) : Locks → Db → Prop := logging_out [] ts.
Definition edges_cleared (ts : list Uuid) (fs : list (Uuid * Uuid)) : Locks → Db → Prop :=
  clearing (λ k, RFollow k.1 k.2) follows must_edge (logged_out_by ts) [] fs.
Definition blocks_cleared (ts : list Uuid) (fs bs : list (Uuid * Uuid)) : Locks → Db → Prop :=
  clearing (λ k, RBlock k.1 k.2) blocks must_block (edges_cleared ts fs) [] bs.

Lemma no_new_edge ts L k d :
  logged_out_by ts L d → must_edge k → gstable L (λ d, has_key k (follows d) = false).
Proof.
  intros [[Hl _] _] [Ht [Hk|Hq]]; [|by eapply stable_no_touch]. destruct k as [a b]. simpl in Hk. subst b.
  by eapply stable_no_edge.
Qed.
Lemma no_new_block ts fs L k d :
  edges_cleared ts fs L d → must_block k → gstable L (λ d, has_key k (blocks d) = false).
Proof. intros _ [Ht Hq]. by eapply stable_no_block. Qed.
Lemma edges_cleared_stable ts fs L : gstable L (edges_cleared ts fs L).
Proof. apply clearing_stable; [intros; apply logging_out_stable|intros; by eapply no_new_edge]. Qed.
Lemma edges_cleared_more ts fs L l d : edges_cleared ts fs L d → edges_cleared ts fs (l :: L) d.
Proof. apply clearing_more. intros. by apply logging_out_more. Qed.
Lemma blocks_cleared_stable ts fs bs L : gstable L (blocks_cleared ts fs bs L).
Proof. apply clearing_stable; [intros; apply edges_cleared_stable|intros; by eapply no_new_block]. Qed.

(** All rows of the account that are there are in the list. *)
Lemma delete_covered (m : gmap (Uuid * Uuid) Time) ks :
  (∀ k, k ∈ ks → touches u k = true) → (∀ k, touches u k = true → has_key k m = true → k ∈ ks) →
  foldr delete m ks = delete_where (λ k _, touches u k) m.
Proof.
  intros Ho Ha. apply map_eq. intros k. destruct (delete_where _ m !! k) as [v|] eqn:Hk.
  - apply lookup_delete_where in Hk as [Hv Hk]. rewrite <-Hv. assert (Hn : k ∉ ks) by (intros ?%Ho; congruence).
    clear -Hn. induction ks as [|x ks IH]; [done|]. simpl. rewrite lookup_delete_ne by set_solver. apply IH. set_solver.
  - rewrite lookup_delete_where_None in Hk. apply has_key_false. rewrite has_key_foldr_delete.
    destruct (has_key k m) eqn:Hm; [|by rewrite andb_false_r]. rewrite bool_decide_true; [done|].
    apply Ha; [|done]. apply has_key_true in Hm as [v Hv]. by eapply Hk.
Qed.

(** What the deletion does when it commits. *)
Lemma deletion_commits clk ts fs bs L d :
  blocks_cleared ts fs bs L d →
  graph_step L (OpDelete u, Ok true) d
    (changed drop_block bs (changed drop_edge fs (changed (revoke_token_row (db_now clk)) ts
      (set_users (alter (soft_deleted (db_now clk)) u) d)))).
Proof.
  intros [[Ht Hfo Hfl Hfa] Hbo Hbl Hba]. simpl in *.
  pose proof (proj1 Ht) as [HL Hact].
  assert (changed (revoke_token_row (db_now clk)) ts (set_users (alter (soft_deleted (db_now clk)) u) d)
    = revoke_all_tokens (db_now clk) u (set_users (alter (soft_deleted (db_now clk)) u) d)) as ->.
  { pose proof (logged_out (db_now clk) ts L d Ht) as He. rewrite changed_tokens in *. unfold revoke_all_tokens, set_refresh_tokens in *.
    injection He as He. simpl. by rewrite He. }
  split; [split; [done|]; split; [done|]; exists clk, fs, bs; split_and!|].
  - apply Forall_app. split; by apply Forall_forall.
  - intros a Ha. apply Hfa; [|done]. split; [|by left]. unfold touches. simpl. by rewrite (bool_decide_true (u = u)), orb_true_r.
  - done.
  - intros Hq. rewrite delete_account_run. unfold is_active in Hact. apply bool_decide_eq_true in Hact as [r ->].
    f_equal. unfold deleted_db. rewrite changed_blocks, changed_edges. unfold set_blocks, set_follows. simpl.
    rewrite (delete_covered (follows d)), (delete_covered (blocks d)); [done|..]; [done| |done|]; intros k Hk;
      [apply Hba|apply Hfa]; split; auto.
  - rewrite changed_blocks, changed_edges. split; intros a b; unfold follows_edge; simpl;
      rewrite has_key_foldr_delete; intros Hab; (case_bool_decide as Hin; [|done]); [by apply (Hfl (a, b))|by apply (Hbl (a, b))].
Qed.

Lemma delete_account_valid clk I : valid graph_step I (delete_account_txn clk u).
Proof.
  intros d _. unfold delete_account_txn, script. unfold mbind at 1. unfold Proc_bind at 1.
  apply (wp_query _ (λ _ _, True)); [by intros ????|done|]. intros d1 _.
  destruct (is_active u d1); simpl negb; cbv iota; [|harmless]. unfold mbind, Proc_bind.
  apply (wp_lock _ (λ _ _, True)); [by intros ????|done|done|]. intros d2 _.
  apply (wp_query _ (λ L _, (RUser u, ForNoKeyUpdate) ∈ L)); [by intros ????|apply list_elem_of_here|]. intros d3 _.
  destruct (is_active u d3) eqn:Ha; simpl negb; cbv iota; [|harmless].
  apply (wp_exec _ closing); [apply closing_stable|split; [apply list_elem_of_here|done]|]. intros d4 H4.
  apply wp_revoke_tokens; [done|done|]. intros _ ts L5 d5 H5.
  apply (wp_clear (λ k, RFollow k.1 k.2) follows drop_edge must_edge (logged_out_by ts));
    [intros; apply logging_out_stable|intros; by apply logging_out_more|by intros k [??]|intros; by eapply no_new_edge
    |intros; by rewrite changed_edges|intros; by rewrite changed_tokens|done|].
  intros _ fs L6 d6 H6.
  apply (wp_clear (λ k, RBlock k.1 k.2) blocks drop_block must_block (edges_cleared ts fs));
    [intros; apply edges_cleared_stable|intros; by apply edges_cleared_more|by intros k [??]|intros; by eapply no_new_block
    |intros; by rewrite changed_blocks|intros; by rewrite changed_edges, changed_tokens|done|].
  intros _ bs L7 d7 H7 d8 Hdr. apply (deletion_commits clk ts).
  by apply (stable_drifts _ _ _ _ _ (blocks_cleared_stable ts fs bs _) Hdr).
Qed.
End delete_account.

(** ** The theorems *)

(** The transactions the service runs on the graph. *)
Inductive graph_request : Txn Answer → Prop :=
| req_follow clk a b : graph_request (follow_txn clk a b)
| req_unfollow a b : graph_request (unfollow_txn a b)
| req_block clk x y : graph_request (block_txn clk x y)
| req_unblock x y : graph_request (unblock_txn x y)
| req_delete clk u : graph_request (delete_account_txn clk u).
(** The request can add a follow by [u] or a block with [u]. *)
Definition stirs (p : Txn Answer) (u : Uuid) : Prop :=
  ∃ clk v, p = follow_txn clk u v ∨ p = block_txn clk u v ∨ p = block_txn clk v u.
Lemma graph_request_valid I p : graph_request p → (∀ u, stirs p u → ¬ quiet u) → valid graph_step I p.
Proof.
  intros [clk a b|a b|clk x y|x y|clk u] Hq;
    [apply follow_valid|apply unfollow_valid|apply block_valid|apply unblock_valid|apply delete_account_valid];
    apply Hq; unfold stirs; eauto.
Qed.

Lemma social_inv_shrink d d' :
  (∀ a b, follows_edge d' a b = true → follows_edge d a b = true) →
  (∀ x y, has_key (x, y) (blocks d') = true → has_key (x, y) (blocks d) = true) →
  (∀ u, (follower_count d' u ≤ follower_count d u)%Z) → social_inv d → social_inv d'.
Proof.
  intros Hf Hb Hc [H1 H2 H3 H4]. split.
  - intros a b Hab%Hf%H1. unfold blocked_pair in *. apply orb_false_iff in Hab as [Hx Hy].
    apply orb_false_iff. split; apply not_true_is_false; intros ?%Hb; congruence.
  - intros a. apply not_true_is_false. intros ?%Hf. by rewrite H2 in *.
  - intros a. apply not_true_is_false. intros ?%Hb. by rewrite H3 in *.
  - intros u. etrans; [apply Hc|apply H4].
Qed.
Lemma graph_step_inv L ans d d' : social_inv d → graph_step L ans d d' → social_inv d'.
Proof.
  intros Hd [He _].
  destruct ans as [[x y|x y|x y|x y|u] [[]|]]; simpl in He; try by subst.
  - destruct He as (_ & _ & clk & Hr). pose proof (follow_preserves clk x y d Hd) as Hp. by rewrite Hr in Hp.
  - pose proof (unfollow_preserves x y d Hd) as Hp. by rewrite He in Hp.
  - destruct He as (_ & _ & _ & _ & clk & Hr). pose proof (block_preserves clk x y d Hd) as Hp. by rewrite Hr in Hp.
  - destruct He as (ks & _ & ->). induction ks as [|[a b] ks IH]; [done|]. by apply social_inv_delete_follow.
  - pose proof (unblock_preserves x y d Hd) as Hp. by rewrite He in Hp.
  - destruct He as (_ & _ & clk & fs & bs & _ & _ & -> & _). rewrite changed_blocks, changed_edges.
    eapply social_inv_shrink; [..|exact Hd]; simpl.
    + intros a b. unfold follows_edge. simpl. rewrite has_key_foldr_delete. by intros [_ ?]%andb_true_iff.
    + intros a b. rewrite has_key_foldr_delete. by intros [_ ?]%andb_true_iff.
    + intros v. apply count_foldr_delete.
Qed.

End commits.

(** No request of the schedule adds a follow by [u] or a block with [u]. *)
Definition keeps_quiet (ms : list (PoolMove Answer)) (u : Uuid) : Prop :=
  ∀ i p, Begin i p ∈ ms → ¬ stirs p u.

(** C2: concurrent requests cannot break the social graph. However the statements of
    any number of follows, unfollows, blocks, unblocks and account deletions
    interleave, wherever they are cut off: no edge crosses a block, nobody follows
    themselves, and no account exceeds the follower cap; and the committed database is
    explained by the answers in the order they were given. A follow, unfollow, block or
    unblock that answered [true] did exactly what it does alone on the database of that
    moment. A deletion that answered [true] closed the account, revoked exactly its live
    sessions and removed every follow of it; it can leave behind only follows by the
    account and blocks with it, and only when such requests are sent in the same
    schedule: otherwise it, too, did exactly what it does alone. A [block] that
    answered [false] removed at most edges of its pair; every other answer changed
    nothing. *)
Theorem concurrent_graph_consistent ms d s :
  social_inv d → (∀ i p, Begin i p ∈ ms → graph_request p) →
  schedule ms (idle_machine d) = Some s →
  social_inv (committed s) ∧ replay (graph_step (keeps_quiet ms)) d (answered s) (committed s).
Proof.
  intros Hd Hms Hs.
  assert (Hr : replay (graph_step (keeps_quiet ms)) d (answered s) (committed s)).
  { eapply (schedule_replay _ social_inv); [apply graph_step_inv|done| |done]. intros i p Hp.
    apply graph_request_valid; [eauto|]. intros u Hu Hq. by eapply Hq. }
  split; [|done]. clear Hs. induction Hr; [done|]. by eapply graph_step_inv.
Qed.

(** ** Alone, every program does what the sequential method does *)

Definition alone_as {E} (op : GraphOp) (p : Txn Answer) (m : M Db E bool) (f : E → SocialError) : Prop :=
  ∀ d, run_alone p d = match m d with (Ok r, d') => ((op, Ok r), d') | (Err e, d') => ((op, Err (f e)), d') end.
Ltac unfold_txn :=
  unfold run_alone, script, query, lock, exec, insert_row, commit, rollback;
  unfold mbind, Proc_bind, mret, Proc_ret; unfold_m; run_step; cbn [alone].

Lemma affected_sweep `{Countable K} {V} (P : V → bool) g (ks : list K) m :
  affected (sweep P g ks m).1 = existsb (λ k, hits P k m) ks.
Proof.
  pose proof (sweep_hits P g ks m) as Hs. destruct (existsb _ ks), (sweep P g ks m).1; try done; naive_solver.
Qed.
Lemma hits_all `{Countable K} {V} (k : K) (m : gmap K V) : has_key k m = hits (λ _, true) k m.
Proof. unfold has_key, hits. by destruct (m !! k). Qed.
(** Deleting listed rows: those that are there. *)
Lemma sweep_delete `{Countable K} {V} (ks : list K) (m : gmap K V) :
  (sweep (λ _, true) (λ _, None) ks m).2 = foldr delete m ks.
Proof.
  apply map_eq. intros k. rewrite lookup_sweep by done. rewrite <-hits_all.
  destruct (decide (k ∈ ks)); [rewrite bool_decide_true by done|rewrite bool_decide_false by done]; simpl.
  - assert (has_key k (foldr delete m ks) = false) as He.
    { by rewrite has_key_foldr_delete, bool_decide_true. }
    apply has_key_false in He as ->. destruct (has_key k m) eqn:Hk; [done|]. by apply has_key_false.
  - symmetry. induction ks as [|x ks IH]; [done|]. simpl. rewrite lookup_delete_ne by set_solver. apply IH. set_solver.
Qed.
Lemma alone_delete_edges ks k w d :
  ∃ dn, affected dn = existsb (λ x, hits (λ _, true) x (follows (w d))) ks ∧
  alone (delete_edges ks k) w d = alone (k dn) (λ _, set_follows (λ m, foldr delete m ks) (w d)) d.
Proof.
  exists (sweep (λ _, true) (λ _, None) ks (follows (w d))).1. split; [apply affected_sweep|].
  unfold delete_edges. rewrite (alone_change_rows (λ _, true) (λ _, None) _ _ _ follows set_follows).
  - apply alone_ext, set_follows_ext. apply sweep_delete.
  - done.
  - by intros [].
  - done.
  - intros. apply hits_all.
Qed.
Lemma alone_delete_blocks ks k w d :
  ∃ dn, affected dn = existsb (λ x, hits (λ _, true) x (blocks (w d))) ks ∧
  alone (delete_blocks ks k) w d = alone (k dn) (λ _, set_blocks (λ m, foldr delete m ks) (w d)) d.
Proof.
  exists (sweep (λ _, true) (λ _, None) ks (blocks (w d))).1. split; [apply affected_sweep|].
  unfold delete_blocks. rewrite (alone_change_rows (λ _, true) (λ _, None) _ _ _ blocks set_blocks).
  - apply alone_ext. unfold set_blocks. f_equal. apply sweep_delete.
  - done.
  - by intros [].
  - done.
  - intros. apply hits_all.
Qed.
Ltac alone_delete dn Hdn :=
  match goal with
  | |- context [alone (delete_edges ?ks ?k) ?w ?d] => destruct (alone_delete_edges ks k w d) as (dn & Hdn & ->)
  | |- context [alone (delete_blocks ?ks ?k) ?w ?d] => destruct (alone_delete_blocks ks k w d) as (dn & Hdn & ->)
  end; cbn [alone].
Lemma user_exists_active d u r : active_user d u = Some r → user_exists d u = true.
Proof. unfold active_user. intros Ha. apply has_key_true. destruct (users d !! u) as [v|]; [by exists v|done]. Qed.
Lemma follow_alone clk a b : alone_as (OpFollow a b) (follow_txn clk a b) (follow clk a b) id.
Proof.
  intros d. unfold follow_txn, follow, is_active. unfold_txn.
  destruct (active_user d b) as [u|] eqn:Ha; [|done].
  rewrite (bool_decide_true (is_Some (Some u))) by done. cbn [negb alone].
  rewrite Ha, (bool_decide_true (is_Some (Some u))) by done. cbn [negb alone].
  rewrite Z.ltb_antisym. destruct (MAX_FOLLOWERS <=? follower_count d b)%Z; [done|]. cbn [negb alone].
  destruct (bool_decide (a ≠ b) && negb (blocked_pair d a b)); cbn [negb alone andb]; [|done].
  destruct (follows_edge d a b); cbn [negb alone]; [done|]. rewrite alone_references.
  change (user_exists (set_follows _ d)) with (user_exists d). destruct (user_exists d a); cbn [negb alone]; [|done].
  rewrite alone_references. change (user_exists (set_follows _ d)) with (user_exists d).
  by rewrite (user_exists_active _ _ _ Ha).
Qed.
Lemma filter_present `{Countable K} {V} (m : gmap K V) ks :
  foldr delete m (filter (λ k, has_key k m = true) ks) = foldr delete m ks.
Proof.
  apply map_eq. intros k. induction ks as [|x ks IH]; [done|]. rewrite filter_cons. case_decide as Hx; simpl.
  - destruct (decide (x = k)) as [->|]; [by rewrite !lookup_delete_eq|by rewrite !lookup_delete_ne].
  - rewrite IH. destruct (decide (x = k)) as [->|]; [|by rewrite !lookup_delete_ne].
    rewrite lookup_delete_eq. apply not_true_is_false in Hx. apply has_key_false. by rewrite has_key_foldr_delete, Hx, andb_false_r.
Qed.
Lemma hits_present `{Countable K} {V} (m : gmap K V) k :
  existsb (λ x, hits (λ _, true) x m) (filter (λ k, has_key k m = true) [k]) = has_key k m.
Proof.
  rewrite filter_cons, filter_nil. case_decide as Hx; simpl; [by rewrite orb_false_r, <-hits_all|].
  symmetry. by apply not_true_is_false.
Qed.
Lemma unfollow_alone a b : alone_as (OpUnfollow a b) (unfollow_txn a b) (unfollow a b) id.
Proof.
  intros d. unfold unfollow_txn, unfollow. unfold_txn. alone_delete dn Hdn.
  rewrite hits_present in Hdn. rewrite Hdn. f_equal. apply set_follows_ext. by rewrite filter_present.
Qed.
Lemma set_blocks_ext f g d : f (blocks d) = g (blocks d) → set_blocks f d = set_blocks g d.
Proof. intros He. unfold set_blocks. by rewrite He. Qed.
Lemma unblock_alone a b : alone_as (OpUnblock a b) (unblock_txn a b) (unblock a b) id.
Proof.
  intros d. unfold unblock_txn, unblock. unfold_txn. alone_delete dn Hdn.
  rewrite hits_present in Hdn. rewrite Hdn. f_equal. apply set_blocks_ext. by rewrite filter_present.
Qed.
Lemma block_alone clk x y : alone_as (OpBlock x y) (block_txn clk x y) (block clk x y) id.
Proof.
  intros d. unfold block_txn, block. unfold_txn.
  destruct (bool_decide (x ≠ y)); cbn [alone andb negb]; [destruct (has_key (x, y) (blocks d)); cbn [alone andb negb]|].
  - alone_delete dn Hdn. f_equal. apply set_follows_ext. by rewrite filter_present.
  - rewrite alone_references. change (user_exists (set_blocks _ d)) with (user_exists d).
    destruct (user_exists d x); cbn [alone andb negb]; [|done]. rewrite alone_references.
    change (user_exists (set_blocks _ d)) with (user_exists d). destruct (user_exists d y); cbn [alone andb negb]; [|done].
    alone_delete dn Hdn. f_equal. apply set_follows_ext. by rewrite filter_present.
  - alone_delete dn Hdn. f_equal. apply set_follows_ext. by rewrite filter_present.
Qed.

(** Deleting, and updating, the rows that were selected. *)
Lemma sweep_selected `{Countable K} {V} (P : V → bool) f (m : gmap K V) :
  (∀ v, P v = true → P (f v) = false) →
  (sweep P (fmap f) (select (λ k v, if P v then Some k else None) m) m).2 = update_where (λ _, P) f m.
Proof.
  intros Hf. apply map_eq. intros k. rewrite lookup_sweep by auto. rewrite lookup_update_where. unfold hits.
  destruct (m !! k) as [v|] eqn:Hk; simpl; [|by rewrite andb_false_r]. destruct (P v) eqn:Hv; [|by rewrite andb_false_r].
  rewrite bool_decide_true; [done|]. apply elem_of_select. exists k, v. by rewrite Hv.
Qed.
Lemma delete_selected `{Countable K} {V} (P : K → bool) (m : gmap K V) :
  foldr delete m (select (λ k _, if P k then Some k else None) m) = delete_where (λ k _, P k) m.
Proof.
  rewrite <-sweep_delete. apply map_eq. intros k. rewrite lookup_sweep by done. unfold hits.
  destruct (m !! k) as [v|] eqn:Hk; [rewrite andb_true_r|rewrite andb_false_r; symmetry; apply lookup_delete_where_None; naive_solver].
  rewrite (bool_decide_ext _ (P k = true)).
  - case_bool_decide as HP; symmetry.
    + apply lookup_delete_where_None. naive_solver.
    + apply lookup_delete_where. split; [done|]. by apply not_true_is_false.
  - rewrite elem_of_select. split; [|intros HP; exists k, v; by rewrite HP].
    intros (k' & v' & _ & Hs). destruct (P k') eqn:HP; by simplify_eq.
Qed.
Lemma alone_revoke_tokens {A} t u (k : list Uuid → Txn A) w d :
  ∃ dn, alone (revoke_tokens t u k) w d = alone (k dn) (λ _, revoke_all_tokens t u (w d)) d.
Proof.
  eexists. unfold revoke_tokens, mbind, Proc_bind, query. cbn [alone]. etrans.
  - apply (alone_change_rows (unrevoked_of u) (fmap (revoked t)) RToken ForNoKeyUpdate _ refresh_tokens set_refresh_tokens);
      [done|by intros []|done|done].
  - apply alone_ext. unfold revoke_all_tokens, set_refresh_tokens. f_equal. apply sweep_selected.
    intros r _. unfold unrevoked_of. simpl. by rewrite andb_false_r.
Qed.
Lemma delete_account_alone clk u : alone_as (OpDelete u) (delete_account_txn clk u) (delete_account clk u) Db_.
Proof.
  intros d. unfold delete_account_txn, delete_account, is_active. unfold_txn.
  destruct (active_user d u) as [r|] eqn:Ha; [|done].
  rewrite (bool_decide_true (is_Some (Some r))) by done. cbn [negb alone].
  rewrite Ha, (bool_decide_true (is_Some (Some r))) by done. cbn [negb alone].
  match goal with |- context [alone (revoke_tokens ?t u ?k) ?w d] =>
    destruct (alone_revoke_tokens t u k w d) as [dn0 ->] end. cbn [alone].
  alone_delete dn Hdn. alone_delete dn' Hdn'. f_equal. rewrite (set_follows_ext _ (delete_where (λ k _, touches u k))).
  - apply set_blocks_ext. apply delete_selected.
  - apply delete_selected.
Qed.

(** On its own, every transaction program is the operation it stands for: follow,
    unfollow, block, unblock and account deletion, run without interference, give the
    answer and leave the database of the sequential methods, on every branch. *)
Theorem graph_programs_alone clk :
  (∀ a b, alone_as (OpFollow a b) (follow_txn clk a b) (follow clk a b) id) ∧
  (∀ a b, alone_as (OpUnfollow a b) (unfollow_txn a b) (unfollow a b) id) ∧
  (∀ a b, alone_as (OpBlock a b) (block_txn clk a b) (block clk a b) id) ∧
  (∀ a b, alone_as (OpUnblock a b) (unblock_txn a b) (unblock a b) id) ∧
  (∀ u, alone_as (OpDelete u) (delete_account_txn clk u) (delete_account clk u) Db_).
Proof. repeat split; intros; auto using follow_alone, unfollow_alone, block_alone, unblock_alone, delete_account_alone. Qed.

(** ** Two users who follow each other at the same moment *)

Ltac one_step := unfold advance; cbn [running committed answered];
  rewrite lookup_insert_eq; cbn [th_prog th_locks th_writes mbind option_bind].

Section prefix.
Context (i : N) (ts : gmap N (Thread Answer)).
(** Nothing stands in the way of a new follow of [b] by [a]. *)
Definition can_follow (d : Db) (a b : Uuid) : Prop :=
  is_active a d = true ∧ is_active b d = true ∧ (follower_count d b < MAX_FOLLOWERS)%Z ∧ a ≠ b ∧
  blocked_pair d a b = false ∧ follows_edge d a b = false.

Lemma user_exists_is_active d u : is_active u d = true → user_exists d u = true.
Proof. unfold is_active. intros [r Hr]%bool_decide_eq_true. by eapply user_exists_active. Qed.

(** Seven steps of [follow]: it holds the followee and the new edge, and is about to
    lock the follower for the foreign key. *)
Lemma follow_prefix clk d a b ans :
  can_follow d a b →
  held_against i ts (RUser b, ForUpdate) = false → held_against i ts (RFollow a b, ForUpdate) = false →
  ∃ k w, schedule (replicate 7 (Step i)) (mkMachine d (<[i := mkThread (follow_txn clk a b) [] (λ d, d)]> ts) ans)
    = Some (mkMachine d (<[i := mkThread (TLock (RUser a) ForKeyShare k)
                               [(RFollow a b, ForUpdate); (RUser b, ForUpdate)] w]> ts) ans).
Proof.
  intros (Ha & Hb & Hc & Hne & Hbl & He) H1 H2. eexists _, _.
  assert (Hstep : ∀ t s', advance i (mkMachine d (<[i := t]> ts) ans) = Some s' →
    ∀ n, schedule (replicate (S n) (Step i)) (mkMachine d (<[i := t]> ts) ans) = schedule (replicate n (Step i)) s').
  { intros t s' Hs n. simpl. by rewrite Hs. }
  unfold follow_txn, script, query, mbind, Proc_bind.
  erewrite Hstep; cycle 1. { one_step. rewrite Hb, insert_insert_eq. cbn [negb]. reflexivity. }
  erewrite Hstep; cycle 1. { unfold lock. one_step. rewrite held_against_own, H1, insert_insert_eq. reflexivity. }
  erewrite Hstep; cycle 1. { one_step. rewrite Hb, insert_insert_eq. cbn [negb]. reflexivity. }
  erewrite Hstep; cycle 1. { one_step. rewrite (proj2 (Z.leb_gt _ _) Hc), insert_insert_eq. reflexivity. }
  erewrite Hstep; cycle 1.
  { one_step. rewrite bool_decide_true, Hbl, insert_insert_eq by done. cbn [negb andb]. reflexivity. }
  erewrite Hstep; cycle 1.
  { unfold insert_row. one_step. rewrite held_against_own, H2, He, insert_insert_eq. cbn [negb]. reflexivity. }
  erewrite Hstep; cycle 1.
  { unfold references, query, mbind, Proc_bind. one_step. change (user_exists (set_follows _ d)) with (user_exists d).
    rewrite (user_exists_is_active _ _ Ha), insert_insert_eq. unfold lock. reflexivity. }
  reflexivity.
Qed.
End prefix.

(** The two requests, interleaved. *)
Definition mutual_follow (clk : Clock) (a b : Uuid) : list (PoolMove Answer) :=
  [Begin 1 (follow_txn clk a b)] ++ replicate 7 (Step 1) ++ [Begin 2 (follow_txn clk b a)] ++ replicate 7 (Step 2).

Lemma lock_waits {A} i j d (ts : gmap N (Thread A)) ans r m k L w u m' :
  ts !! i = Some (mkThread (TLock r m k) L w) → ts !! j = Some u → j ≠ i → (r, m') ∈ th_locks u →
  mode_conflicts m m' = true → waits i (mkMachine d ts ans).
Proof.
  intros Hi Hj Hne Hl Hm. split; [by eexists|]. unfold advance. cbn [running committed].
  rewrite Hi. cbn [mbind option_bind th_prog].
  assert (held_against i ts (r, m) = true) as ->; [|done].
  apply exists_where_true. exists j, u. split; [done|]. rewrite bool_decide_true by done. apply existsb_exists.
  exists (r, m'). split; [by apply list_elem_of_In|]. unfold lock_conflicts. simpl. by rewrite bool_decide_true.
Qed.

(** C34: two users who follow each other at the same moment block each other. Whenever
    each could follow the other, there is an interleaving of the two requests that
    ends with both waiting, each for the user row the other holds, so that no step of
    any transaction is possible any more: only cutting one of them off, which fails
    that request, frees the other. *)
Theorem mutual_follow_deadlock clk a b d :
  can_follow d a b → can_follow d b a →
  ∃ s, schedule (mutual_follow clk a b) (idle_machine d) = Some s ∧ waits 1 s ∧ waits 2 s ∧
       committed s = d ∧ ∀ i, advance i s = None.
Proof.
  intros Hab Hba. unfold mutual_follow, idle_machine. rewrite schedule_begin, schedule_app by done.
  destruct (follow_prefix 1 ∅ clk d a b [] Hab) as (k1 & w1 & ->); [done..|].
  cbn [mbind option_bind]. rewrite schedule_begin by done.
  destruct Hab as (Ha & Hb & _ & Hne & _).
  destruct (follow_prefix 2 (<[1%N := mkThread (TLock (RUser a) ForKeyShare k1)
    [(RFollow a b, ForUpdate); (RUser b, ForUpdate)] w1]> ∅) clk d b a [] Hba) as (k2 & w2 & ->).
  1,2: apply held_against_false; intros j u _ [[<- <-]|[_ ?]]%lookup_insert_Some; [|done];
    simpl; unfold lock_conflicts; simpl; by rewrite !bool_decide_false by congruence.
  eexists. split; [reflexivity|].
  match goal with |- waits 1 ?s ∧ _ => assert (H1 : waits 1 s); [|assert (H2 : waits 2 s)] end.
  - eapply (lock_waits 1 2); [done|done|done|right; left|done].
  - eapply (lock_waits 2 1); [done|done|done|right; left|done].
  - split_and!; [done..|]. intros i. destruct (decide (i = 1%N)) as [->|]; [apply H1|].
    destruct (decide (i = 2%N)) as [->|]; [apply H2|]. unfold advance. cbn [running].
    by rewrite !lookup_insert_ne by done.
Qed.
Lemma mutual_follow_deadlock_witness :
  ∃ s, schedule (mutual_follow (mkClock 1 1) 1 2) (idle_machine two_users) = Some s ∧ waits 1 s ∧ waits 2 s ∧
       committed s = two_users ∧ ∀ i, advance i s = None.
Proof. apply mutual_follow_deadlock; vm_compute; by split_and!. Defined.

(** ** Concrete runs *)

(** A follow and a block of the same pair: the block waits for the foreign key until
    the follow commits, and then removes the edge. *)
Definition follow_meets_block : list (PoolMove Answer) :=
  [Begin 1 (follow_txn (mkClock 1 1) 1 2); Begin 2 (block_txn (mkClock 2 2) 2 1)]
  ++ replicate 4 (Step 1) ++ replicate 2 (Step 2) ++ replicate 9 (Step 1) ++ replicate 10 (Step 2).
Definition after_moves (ms : list (PoolMove Answer)) (d : Db) : Machine Answer :=
  default (idle_machine d) (schedule ms (idle_machine d)).

Lemma concurrent_graph_consistent_witness :
  let s := after_moves follow_meets_block two_users in
  answered s = [(OpBlock 2 1, Ok true); (OpFollow 1 2, Ok true)] ∧
  social_inv (committed s) ∧
  replay (graph_step (keeps_quiet follow_meets_block)) two_users (answered s) (committed s).
Proof.
  intros s. split; [vm_compute; reflexivity|].
  apply (concurrent_graph_consistent follow_meets_block two_users s).
  - by split.
  - intros i p Hp. unfold follow_meets_block in Hp. rewrite !elem_of_app, !elem_of_cons in Hp.
    destruct Hp as [[[= -> ->]|[[= -> ->]|[]%elem_of_nil]]|Hp]; [constructor|constructor|].
    destruct Hp as [Hp|[Hp|[Hp|Hp]]]; by apply elem_of_replicate in Hp as [??].
  - unfold s, after_moves. destruct (schedule _ _) eqn:Hs; [done|]. by vm_compute in Hs.
Defined.

(** A follow by [1] that commits while [1] is being deleted, after the deletion has
    looked at the edges: it survives the deletion that commits after it. *)
Definition follow_meets_deletion : list (PoolMove Answer) :=
  [Begin 1 (delete_account_txn (mkClock 1 1) 1); Begin 2 (follow_txn (mkClock 2 2) 1 2)]
  ++ replicate 6 (Step 1) ++ replicate 13 (Step 2) ++ replicate 2 (Step 1).
Lemma deletion_misses_follow :
  let s := after_moves follow_meets_deletion two_users in
  answered s = [(OpDelete 1, Ok true); (OpFollow 1 2, Ok true)] ∧
  is_active 1 (committed s) = false ∧ follows_edge (committed s) 1 2 = true.
Proof. vm_compute. by split_and!. Qed.
