(* ===== verification/RateLimits.v ===== *)
(** * Rate-limit tables

    [src/config/rate_limits.rs]: trust levels, the quota of every action at
    every level, and the fixed windows the quotas count in. *)

From S2P Require Import Prelude.
From stdpp Require Import options.

Inductive TrustLevel := New | Basic | Trusted | Verified.
Global Instance TrustLevel_eq_dec : EqDecision TrustLevel.
Proof. solve_decision. Defined.

Definition from_i32 (value : Z) : TrustLevel :=
  match value with
  | 0 => New
  | 1 => Basic
  | 2 => Trusted
  | 3 => Verified
  | _ => New
  end%Z.

Definition as_i32 (l : TrustLevel) : Z :=
  match l with New => 0 | Basic => 1 | Trusted => 2 | Verified => 3 end.

Record RateLimits := mkRateLimits {
  posts_per_hour : Z; posts_per_day : Z;
  follows_per_hour : Z; follows_per_day : Z; unfollows_per_day : Z;
  likes_per_hour : Z; comments_per_hour : Z;
  login_attempts_per_hour : Z;
  feed_requests_per_hour : Z; notifications_per_hour : Z; search_requests_per_hour : Z;
  media_read_per_hour : Z; media_upload_per_hour : Z;
  moderation_actions_per_hour : Z }.

Definition for_trust_level (level : TrustLevel) : RateLimits :=
  match level with
  | New => {|
      posts_per_hour := 10; posts_per_day := 30;
      follows_per_hour := 20; follows_per_day := 50; unfollows_per_day := 30;
      likes_per_hour := 100; comments_per_hour := 30;
      login_attempts_per_hour := 20;
      feed_requests_per_hour := 300; notifications_per_hour := 300;
      search_requests_per_hour := 120;
      media_read_per_hour := 1000; media_upload_per_hour := 30;
      moderation_actions_per_hour := 30 |}
  | Basic => {|
      posts_per_hour := 15; posts_per_day := 50;
      follows_per_hour := 40; follows_per_day := 150; unfollows_per_day := 75;
      likes_per_hour := 200; comments_per_hour := 60;
      login_attempts_per_hour := 30;
      feed_requests_per_hour := 600; notifications_per_hour := 600;
      search_requests_per_hour := 300;
      media_read_per_hour := 2000; media_upload_per_hour := 60;
      moderation_actions_per_hour := 50 |}
  | Trusted => {|
      posts_per_hour := 20; posts_per_day := 100;
      follows_per_hour := 100; follows_per_day := 500; unfollows_per_day := 200;
      likes_per_hour := 500; comments_per_hour := 100;
      login_attempts_per_hour := 20;
      feed_requests_per_hour := 1000; notifications_per_hour := 1000;
      search_requests_per_hour := 600;
      media_read_per_hour := 3000; media_upload_per_hour := 100;
      moderation_actions_per_hour := 100 |}
  | Verified => {|
      posts_per_hour := 500; posts_per_day := 2000;
      follows_per_hour := 2000; follows_per_day := 10000; unfollows_per_day := 5000;
      likes_per_hour := 10000; comments_per_hour := 2000;
      login_attempts_per_hour := 300;
      feed_requests_per_hour := 20000; notifications_per_hour := 20000;
      search_requests_per_hour := 12000;
      media_read_per_hour := 10000; media_upload_per_hour := 500;
      moderation_actions_per_hour := 2000 |}
  end%Z.

Inductive RateWindow := Minute | Hour | Day.
Global Instance RateWindow_eq_dec : EqDecision RateWindow.
Proof. solve_decision. Defined.

(** [RateWindow::seconds]. *)
Definition window_secs (w : RateWindow) : Z :=
  match w with Minute => 60 | Hour => 3600 | Day => 86400 end.

Definition limit_for_action (l : RateLimits) (action : string) (window : RateWindow) : option Z :=
  match window with
  | Hour => str_case action [
      ("post", Some (posts_per_hour l)); ("follow", Some (follows_per_hour l));
      ("like", Some (likes_per_hour l)); ("comment", Some (comments_per_hour l));
      ("login", Some (login_attempts_per_hour l)); ("feed", Some (feed_requests_per_hour l));
      ("notifications", Some (notifications_per_hour l));
      ("search", Some (search_requests_per_hour l));
      ("media_read", Some (media_read_per_hour l));
      ("media_upload", Some (media_upload_per_hour l));
      ("moderation", Some (moderation_actions_per_hour l))] None
  | Day => str_case action [
      ("post", Some (posts_per_day l)); ("follow", Some (follows_per_day l));
      ("unfollow", Some (unfollows_per_day l))] None
  | Minute => None
  end.

(** [SystemTime::now().duration_since(UNIX_EPOCH).unwrap_or_default().as_secs()]:
    whole seconds, and 0 for a clock before the epoch. *)
Definition unix_secs (t : Time) : Z := Z.max 0 (t / 1000000).

Definition current_window (now : Time) (window_seconds : Z) : Z := unix_secs now / window_seconds.

Lemma from_i32_as_i32 l : from_i32 (as_i32 l) = l.
Proof. by destruct l. Qed.

Lemma current_window_nonneg now w : (0 < w → 0 ≤ current_window now w)%Z.
Proof. intros Hw. unfold current_window, unix_secs. apply Z.div_pos; lia. Qed.

(** A window is an interval of [w] seconds. *)
Lemma current_window_span now w :
  (0 < w)%Z →
  (current_window now w * w ≤ unix_secs now < (current_window now w + 1) * w)%Z.
Proof.
  intros Hw. unfold current_window.
  pose proof (Z.mul_div_le (unix_secs now) w Hw).
  pose proof (Z.mul_succ_div_gt (unix_secs now) w Hw). lia.
Qed.
