(* ===== verification/Redis.v ===== *)
(** * Redis

    The part of Redis that [src/infra/cache.rs] and its clients rely on: string
    keys with an optional expiry, [GET], [SETEX], [DEL], the [INCR]/[EXPIRE]
    script, and [SCAN] with [MATCH]. [redis_up = false] is an unreachable
    server: every command then fails. *)

From S2P Require Import Prelude.
From Stdlib Require Import Ascii.
From stdpp Require Import options.

(** Counters are kept in Redis's integer encoding, everything else as text. *)
Inductive RVal := RInt (n : Z) | RText (s : string).
Global Instance RVal_eq_dec : EqDecision RVal.
Proof. solve_decision. Defined.

Record Redis := mkRedis {
  redis_up : bool;
  store : gmap string (RVal * option Time) }.

Inductive RedisError := RedisDown | RedisType.
Global Instance RedisError_eq_dec : EqDecision RedisError.
Proof. solve_decision. Defined.

Definition set_store (f : gmap string (RVal * option Time) → gmap string (RVal * option Time))
  (r : Redis) : Redis := mkRedis (redis_up r) (f (store r)).

(** What a command sees at [now]: an entry whose time has come is gone. *)
Definition live (m : gmap string (RVal * option Time)) (now : Time) (k : string) :
    option (RVal * option Time) :=
  match m !! k with
  | Some (v, Some e) => if decide (e ≤ now)%Z then None else Some (v, Some e)
  | x => x
  end.

Definition connected : M Redis RedisError unit :=
  r ← get_db; guard_else (redis_up r) RedisDown.

(** [GET] *)
Definition redis_get (now : Time) (k : string) : M Redis RedisError (option RVal) :=
  _ ← connected; reads (λ r, fst <$> live (store r) now k).

(** [SETEX] *)
Definition redis_set_ex (now : Time) (k : string) (v : RVal) (ttl : Z) : M Redis RedisError unit :=
  _ ← connected; modifies (set_store (<[k := (v, Some (now + seconds ttl)%Z)]>)).

(** [DEL] *)
Definition redis_del (k : string) : M Redis RedisError unit :=
  _ ← connected; modifies (set_store (delete k)).

(** [RedisCache::ping]. *)
Definition ping : M Redis RedisError unit := connected.

Definition i64_max : Z := 9223372036854775807.

(** [INCR]: creates the key without expiry, keeps the expiry of a present one. *)
Definition redis_incr (now : Time) (k : string) : M Redis RedisError Z :=
  r ← get_db;
  match live (store r) now k with
  | None => _ ← modifies (set_store (<[k := (RInt 1, None)]>)); mret 1%Z
  | Some (RInt n, e) =>
      if (n <? i64_max)%Z
      then _ ← modifies (set_store (<[k := (RInt (n + 1), e)]>)); mret (n + 1)%Z
      else throw RedisType
  | Some (RText _, _) => throw RedisType
  end.

(** [EXPIRE] *)
Definition redis_expire (now : Time) (k : string) (ttl : Z) : M Redis RedisError unit :=
  modifies (set_store (alter (λ x, (x.1, Some (now + seconds ttl)%Z)) k)).

(** ** [delete_pattern] *)

(** Glob matching of a [MATCH] pattern: [*] is any run, [?] any one character;
    bracket classes and escapes do not occur in the patterns of the service. *)
Fixpoint glob (p : string) : string → bool :=
  match p with
  | EmptyString => λ s, match s with EmptyString => true | _ => false end
  | String c p' =>
      if decide (c = "*"%char) then
        fix star (s : string) : bool :=
          glob p' s || match s with EmptyString => false | String _ s' => star s' end
      else λ s,
        match s with
        | EmptyString => false
        | String c' s' => (bool_decide (c = "?"%char) || bool_decide (c = c')) && glob p' s'
        end
  end.

(** One round of the loop: the keys a [SCAN] reply carries are deleted. *)
Definition scan_round (keys : list string) : M Redis RedisError unit :=
  _ ← connected;
  match keys with
  | [] => mret tt
  | _ => modifies (set_store (λ m, foldr delete m keys))
  end.

(** [RedisCache::delete_pattern]. The server chooses how the iteration is cut
    into replies: [replies] is the sequence of key lists it sends until the
    cursor returns to 0 (a full iteration). *)
Definition delete_pattern (replies : list (list string)) : M Redis RedisError unit :=
  for_each replies scan_round.

(** What Redis documents of a full iteration: it returns every matching key that
    is present from start to end, and only keys that match. *)
Definition full_iteration (pattern : string) (m : gmap string (RVal * option Time))
    (replies : list (list string)) : Prop :=
  (∀ k, is_Some (m !! k) → glob pattern k = true → k ∈ concat replies) ∧
  (∀ k, k ∈ concat replies → glob pattern k = true).

Lemma lookup_foldr_delete {V} (ks : list string) (m : gmap string V) k :
  foldr delete m ks !! k = if decide (k ∈ ks) then None else m !! k.
Proof.
  induction ks as [|x ks IH]; cbn [foldr]; [by rewrite decide_False by set_solver|].
  rewrite lookup_delete. destruct (decide (x = k)) as [->|Hne].
  - by rewrite decide_True by set_solver.
  - rewrite IH. destruct (decide (k ∈ ks)); [rewrite decide_True by set_solver; done|].
    rewrite decide_False; [done|]. set_solver.
Qed.

Lemma delete_pattern_run replies r :
  redis_up r = true →
  delete_pattern replies r = (Ok tt, set_store (λ m, foldr delete m (concat replies)) r).
Proof.
  intros Hup. unfold delete_pattern. revert r Hup.
  induction replies as [|ks replies IH]; intros [up m] Hup; simpl in Hup; subst up.
  - done.
  - cbn [for_each]. unfold mbind, M_bind.
    assert (Hround : scan_round ks (mkRedis true m)
                     = (Ok tt, mkRedis true (foldr delete m ks))).
    { unfold scan_round, connected. unfold_m. simpl. by destruct ks. }
    rewrite Hround, IH by done. unfold set_store. simpl. do 2 f_equal.
    apply map_eq. intros k. rewrite !lookup_foldr_delete.
    simpl. repeat case_decide; set_solver.
Qed.

(** After [delete_pattern] no entry that matched is left, whatever the cut, and
    nothing else is lost. *)
Lemma delete_pattern_spec pattern replies r k :
  redis_up r = true → full_iteration pattern (store r) replies →
  store (snd (delete_pattern replies r)) !! k
  = if glob pattern k then None else store r !! k.
Proof.
  intros Hup [Hall Honly]. rewrite delete_pattern_run by done. simpl.
  rewrite lookup_foldr_delete. case_decide as Hk.
  - by rewrite (Honly _ Hk).
  - destruct (glob pattern k) eqn:Hg; [|done].
    apply eq_None_not_Some. intros Hs. by apply Hk, Hall.
Qed.

Lemma live_insert_ne m now k k' x :
  k ≠ k' → live (<[k := x]> m) now k' = live m now k'.
Proof. intros Hne. unfold live. by rewrite lookup_insert_ne. Qed.

(** No wildcard in a pattern. *)
Fixpoint literal (p : string) : bool :=
  match p with
  | EmptyString => true
  | String c p' => negb (bool_decide (c = "*"%char)) && negb (bool_decide (c = "?"%char))
                   && literal p'
  end.

(** A literal followed by one star matches the strings that start with it. *)
Lemma glob_prefix p s : literal p = true → glob (p +:+ "*") s = true ↔ ∃ t, s = p +:+ t.
Proof.
  revert s. induction p as [|c p IH]; intros s Hp.
  - split; [by exists s|]. intros _. change ("" +:+ "*") with "*".
    induction s as [|x s IH]; [done|]. simpl in *. exact IH.
  - simpl in Hp. bool_to_prop.
    assert (Hg : glob (String c p +:+ "*") s =
      match s with EmptyString => false
                 | String c' s' => bool_decide (c = c') && glob (p +:+ "*") s' end).
    { change (String c p +:+ "*") with (String c (p +:+ "*")). cbn [glob].
      rewrite decide_False by done. destruct s; [done|]. by rewrite bool_decide_false. }
    rewrite Hg. destruct s as [|c' s]; [split; [done|by intros [? ?]]|].
    rewrite andb_true_iff, bool_decide_eq_true, IH by done. split.
    + intros [-> [t ->]]. by exists t.
    + intros [t Ht]. injection Ht as -> ->. eauto.
Qed.

Lemma literal_app p q : literal (p +:+ q) = literal p && literal q.
Proof.
  induction p as [|c p IH]; [done|]. change (String c p +:+ q) with (String c (p +:+ q)). simpl.
  by rewrite IH, andb_assoc.
Qed.
