(* ===== verification/RateLimiter.v ===== *)
(** * Rate limiter

    [RateLimiter] of [src/app/rate_limiter.rs] over Redis, and its
    specification: every request is judged by how many requests its user made
    for the same action in the current window. A request reads its clocks once:
    [now] is the application's, [rnow] Redis's. *)

From S2P Require Import Prelude Text RateLimits Redis.
From Stdlib Require Import Ascii.
From stdpp Require Import options.

Record RateLimitInfo := mkInfo { limited : bool; limit : Z; remaining : Z }.
Global Instance RateLimitInfo_eq_dec : EqDecision RateLimitInfo.
Proof. solve_decision. Defined.

(** [INCR_WITH_TTL_SCRIPT]: Redis runs the script atomically. *)
Definition incr_script (rnow : Time) (key : string) (ttl_seconds : Z) : M Redis RedisError Z :=
  count ← redis_incr rnow key;
  _ ← (if (count =? 1)%Z then redis_expire rnow key ttl_seconds else mret tt);
  mret count.

(** The reply is decoded as [u32]. *)
Definition incr_with_ttl (rnow : Time) (key : string) (ttl_seconds : Z) : M Redis RedisError Z :=
  _ ← connected;
  count ← incr_script rnow key ttl_seconds;
  _ ← guard_else (count <=? u32_max)%Z RedisType;
  mret count.

Definition window_number (now : Time) (w : RateWindow) : N :=
  Z.to_N (current_window now (window_secs w)).

(** [format!("ratelimit:{}:{}:{}", user_id, action, current_window(..))]. *)
Definition user_key (user_id : Uuid) (action : string) (n : N) : string :=
  "ratelimit:" +:+ uuid_str user_id +:+ ":" +:+ action +:+ ":" +:+ pretty n.
Definition ip_key (ip action : string) (n : N) : string :=
  "ratelimit:ip:" +:+ ip +:+ ":" +:+ action +:+ ":" +:+ pretty n.

(** The [checks] vector; [None] is the early return for unknown actions. *)
Definition checks (limits : RateLimits) (action : string) : option (list (Z * RateWindow)) :=
  str_case action [
    ("post", Some [(posts_per_hour limits, Hour); (posts_per_day limits, Day)]);
    ("follow", Some [(follows_per_hour limits, Hour); (follows_per_day limits, Day)]);
    ("unfollow", Some [(unfollows_per_day limits, Day)]);
    ("like", Some [(likes_per_hour limits, Hour)]);
    ("comment", Some [(comments_per_hour limits, Hour)]);
    ("login", Some [(login_attempts_per_hour limits, Hour)]);
    ("feed", Some [(feed_requests_per_hour limits, Hour)]);
    ("notifications", Some [(notifications_per_hour limits, Hour)]);
    ("search", Some [(search_requests_per_hour limits, Hour)]);
    ("media_read", Some [(media_read_per_hour limits, Hour)]);
    ("media_upload", Some [(media_upload_per_hour limits, Hour)]);
    ("moderation", Some [(moderation_actions_per_hour limits, Hour)])] None.

(** The body of the loop over the checks, on [(min_remaining, effective_limit,
    limited)]. *)
Definition account (acc : Z * Z * bool) (limit count : Z) : Z * Z * bool :=
  let '(min_remaining, effective_limit, lim) := acc in
  let rem := saturating_sub limit count in
  let '(min_remaining, effective_limit) :=
    if (rem <? min_remaining)%Z then (rem, limit) else (min_remaining, effective_limit) in
  (min_remaining, effective_limit, if (limit <? count)%Z then true else lim).

Fixpoint check_loop (now rnow : Time) (user_id : Uuid) (action : string)
    (cs : list (Z * RateWindow)) (acc : Z * Z * bool) : M Redis RedisError (Z * Z * bool) :=
  match cs with
  | [] => mret acc
  | (lim, w) :: cs' =>
      count ← incr_with_ttl rnow (user_key user_id action (window_number now w)) (window_secs w);
      check_loop now rnow user_id action cs' (account acc lim count)
  end.

Definition info_of (acc : Z * Z * bool) : RateLimitInfo :=
  mkInfo acc.2 acc.1.2 acc.1.1.

Definition check_and_increment (now rnow : Time) (user_id : Uuid) (action : string)
    (trust_level : TrustLevel) : M Redis RedisError RateLimitInfo :=
  match checks (for_trust_level trust_level) action with
  | None => mret (mkInfo false 0 0)
  | Some cs =>
      acc ← check_loop now rnow user_id action cs (u32_max, 0, false)%Z;
      mret (info_of acc)
  end.

Definition get_remaining (now rnow : Time) (user_id : Uuid) (action : string)
    (trust_level : TrustLevel) : M Redis RedisError Z :=
  let limits := for_trust_level trust_level in
  let sel := str_case action [
    ("post", Some (posts_per_hour limits)); ("follow", Some (follows_per_hour limits));
    ("like", Some (likes_per_hour limits)); ("comment", Some (comments_per_hour limits));
    ("media_read", Some (media_read_per_hour limits));
    ("media_upload", Some (media_upload_per_hour limits))] None in
  match sel with
  | None => mret 0%Z
  | Some lim =>
      v ← redis_get rnow (user_key user_id action (window_number now Hour));
      match v with
      | None => mret (saturating_sub lim 0)
      | Some (RInt n) =>
          _ ← guard_else (n <=? u32_max)%Z RedisType; mret (saturating_sub lim n)
      | Some (RText _) => throw RedisType
      end
  end.

Definition check_and_increment_ip (now rnow : Time) (ip action : string) (lim : Z)
    (w : RateWindow) : M Redis RedisError bool :=
  count ← incr_with_ttl rnow (ip_key ip action (window_number now w)) (window_secs w);
  mret (lim <? count)%Z.

(** ** Keys *)

Lemma user_key_inj u u' a a' n n' :
  valid_uuid u → valid_uuid u' → lacks ":"%char a = true → lacks ":"%char a' = true →
  user_key u a n = user_key u' a' n' → u = u' ∧ a = a' ∧ n = n'.
Proof.
  intros Hu Hu' Ha Ha' He. unfold user_key in He. apply (inj (String.append _)) in He.
  apply append_inj_length in He as [->%uuid_str_inj He]; [|done..|by rewrite !uuid_str_length].
  apply (inj (String.append _)) in He. apply split_first in He as [-> He]; [|done..].
  by apply (inj pretty) in He as ->.
Qed.

(** The two key families are disjoint: after the common prefix a user key has a
    colon-free [Uuid], an IP key the text [ip] and a colon. *)
Lemma user_key_ne_ip_key u a n ip a' n' : user_key u a n ≠ ip_key ip a' n'.
Proof.
  intros He. unfold user_key, ip_key in He.
  change ("ratelimit:ip:" +:+ ?x) with ("ratelimit:" +:+ "ip:" +:+ x) in He.
  apply (inj (String.append _)) in He.
  pose proof (uuid_str_length u) as Hl. pose proof (uuid_str_lacks_colon u) as Hc.
  destruct (uuid_str u) as [|c1 [|c2 [|c3 s]]]; try done.
  injection He as -> -> -> _. done.
Qed.

Lemma ip_key_inj ip ip' a a' n n' :
  lacks ":"%char a = true → lacks ":"%char a' = true →
  ip_key ip a n = ip_key ip' a' n' → ip = ip' ∧ a = a' ∧ n = n'.
Proof.
  intros Ha Ha' He. unfold ip_key in He. apply (inj (String.append _)) in He.
  assert (Hr : ∀ i b p, i +:+ ":" +:+ b +:+ ":" +:+ p = (i +:+ ":" +:+ b) +:+ String ":" p)
    by (intros i b p; by rewrite !append_assoc).
  rewrite !Hr in He. apply split_last in He as [He Hn]; [|by apply pretty_N_lacks..].
  apply split_last in He as [-> ->]; [|done..]. by apply (inj pretty) in Hn as ->.
Qed.
