(* ===== verification/RateSpec.v ===== *)
(** * Specification of the rate limiter

    The abstract contract, stated on the history of requests and without Redis:
    a request is limited exactly when its user has used up one of the quotas of
    its action in the current window. [serve_refines] shows that the counters
    and expiries the limiter keeps in Redis implement it. *)

From S2P Require Import Prelude Text RateLimits Redis RateLimiter.
From Stdlib Require Import Ascii.
From stdpp Require Import options.

#[local] Open Scope Z_scope.

Record Call := mkCall {
  call_at : Time; call_user : Uuid; call_action : string; call_level : TrustLevel }.

(** ** The implementation on a sequence of requests *)

(** Redis's clock runs [δ] ahead of the application's. *)
Definition serve (δ : Z) (c : Call) : M Redis RedisError RateLimitInfo :=
  check_and_increment (call_at c) (call_at c + δ) (call_user c) (call_action c) (call_level c).

Fixpoint serve_all (δ : Z) (calls : list Call) (r : Redis) :
    list (Result RedisError RateLimitInfo) * Redis :=
  match calls with
  | [] => ([], r)
  | c :: cs =>
      let '(o, r1) := serve δ c r in
      let '(os, r2) := serve_all δ cs r1 in (o :: os, r2)
  end.

(** ** The specification *)

Definition in_window (u : Uuid) (a : string) (w : RateWindow) (n : N) (c : Call) : Prop :=
  call_user c = u ∧ call_action c = a ∧ window_number (call_at c) w = n.
Global Instance in_window_dec u a w n c : Decision (in_window u a w n c).
Proof. unfold in_window. apply _. Defined.

(** Requests of [u] for [a] in window [n]. *)
Definition used (h : list Call) (u : Uuid) (a : string) (w : RateWindow) (n : N) : Z :=
  Z.of_nat (length (filter (in_window u a w n) h)).

(** The requests the window of [c] has seen when [c] is counted too. *)
Definition used_with (h : list Call) (c : Call) (w : RateWindow) : Z :=
  used h (call_user c) (call_action c) w (window_number (call_at c) w) + 1.

Definition quotas (c : Call) : list (Z * RateWindow) :=
  default [] (checks (for_trust_level (call_level c)) (call_action c)).

(** Over quota in at least one window. *)
Definition over_quota (h : list Call) (c : Call) : bool :=
  existsb (λ q, q.1 <? used_with h c q.2) (quotas c).

(** What is left in the tightest window. *)
Definition left_over (h : list Call) (c : Call) : Z :=
  foldr (λ q m, Z.min (saturating_sub q.1 (used_with h c q.2)) m) u32_max (quotas c).

(** The answer [o] to [c] after the history [h]. *)
Definition answers (h : list Call) (c : Call) (o : Result RedisError RateLimitInfo) : Prop :=
  ∃ info, o = Ok info ∧ limited info = over_quota h c ∧
    (quotas c ≠ [] →
       remaining info = left_over h c ∧
       ∃ w, (limit info, w) ∈ quotas c ∧
            remaining info = saturating_sub (limit info) (used_with h c w)).

(** ** Facts about the tables *)

Ltac arms := repeat (apply Forall_cons_2; [simpl|]); try apply Forall_nil_2.

Definition windows (a : string) : list RateWindow :=
  str_case a [("post", [Hour; Day]); ("follow", [Hour; Day]); ("unfollow", [Day]);
    ("like", [Hour]); ("comment", [Hour]); ("login", [Hour]); ("feed", [Hour]);
    ("notifications", [Hour]); ("search", [Hour]); ("media_read", [Hour]);
    ("media_upload", [Hour]); ("moderation", [Hour])] [].

Lemma quotas_windows c : (quotas c).*2 = windows (call_action c).
Proof.
  unfold quotas, checks, windows.
  rewrite (str_case_map (λ o, (default [] o).*2) (call_action c)). done.
Qed.

Lemma windows_cases a w : w ∈ windows a → w = Hour ∨ w = Day.
Proof.
  revert w. apply (str_case_ind (λ _ ws, ∀ w, w ∈ ws → w = Hour ∨ w = Day));
    [arms|]; set_solver.
Qed.

Lemma windows_lacks_colon a w : w ∈ windows a → lacks ":"%char a = true.
Proof.
  revert w. apply (str_case_ind (λ a ws, ∀ w, w ∈ ws → lacks ":"%char a = true));
    [arms; done|set_solver].
Qed.

Lemma windows_NoDup a : NoDup (windows a).
Proof.
  apply (str_case_ind (λ _ ws, NoDup ws)); [arms|]; repeat constructor; set_solver.
Qed.

(** ** Windows *)

Lemma window_secs_pos w : 0 < window_secs w.
Proof. by destruct w. Qed.

Lemma window_number_eq t t' w :
  window_number t w = window_number t' w ↔
  current_window t (window_secs w) = current_window t' (window_secs w).
Proof.
  unfold window_number. pose proof (window_secs_pos w).
  pose proof (current_window_nonneg t (window_secs w)).
  pose proof (current_window_nonneg t' (window_secs w)). lia.
Qed.

(** Two instants of one window are less than its length apart. *)
Lemma window_short t t' w :
  0 ≤ t → t ≤ t' → window_number t' w = window_number t w →
  t' < t + seconds (window_secs w).
Proof.
  intros Ht Htt' Hw%window_number_eq. pose proof (window_secs_pos w) as Hp.
  pose proof (current_window_span t _ Hp). pose proof (current_window_span t' _ Hp).
  unfold unix_secs, seconds in *. rewrite Hw in *.
  pose proof (Z.mul_div_le t 1000000). pose proof (Z.mul_succ_div_gt t' 1000000). lia.
Qed.

(** From the second day on, the hour and the day windows of one instant, or of a
    later hour, have different numbers. *)
Lemma hour_day_distinct t t' :
  days 1 ≤ t → t ≤ t' → window_number t' Hour ≠ window_number t Day.
Proof.
  intros Ht Htt' He. unfold window_number, current_window, unix_secs, window_secs, days, seconds in *.
  assert (86400 ≤ t / 1000000) by (apply Z.div_le_lower_bound; lia).
  assert (t / 1000000 ≤ t' / 1000000) by (apply Z.div_le_mono; lia).
  rewrite !Z.max_r in He by lia.
  revert He. generalize dependent (t / 1000000). generalize (t' / 1000000).
  intros s' s Hs Hss'. intros He.
  assert (1 ≤ s / 86400) by (apply Z.div_le_lower_bound; lia).
  assert (s / 3600 ≤ s' / 3600) by (apply Z.div_le_mono; lia).
  assert (24 * (s / 86400) ≤ s / 3600).
  { apply Z.div_le_lower_bound; [lia|]. pose proof (Z.mul_div_le s 86400). lia. }
  lia.
Qed.

(** A later day window with the number of an hour window starts after that hour
    window's counters have expired. *)
Lemma day_after_hour t t' :
  days 1 ≤ t → window_number t' Day = window_number t Hour →
  t + seconds (window_secs Hour) ≤ t'.
Proof.
  intros Ht He. unfold window_number, current_window, unix_secs, window_secs, days, seconds in *.
  assert (86400 ≤ t / 1000000) by (apply Z.div_le_lower_bound; lia).
  rewrite (Z.max_r 0 (t / 1000000)) in He by lia.
  assert (24 ≤ t / 1000000 / 3600) by (apply Z.div_le_lower_bound; lia).
  assert (Hpos : 0 ≤ Z.max 0 (t' / 1000000) / 86400) by (apply Z.div_pos; lia).
  apply Z2N.inj in He; [|lia..].
  assert (0 < t' / 1000000).
  { destruct (Z.le_gt_cases (t' / 1000000) 0); [|lia].
    rewrite Z.max_l in He by lia. rewrite Z.div_0_l in He; lia. }
  rewrite Z.max_r in He by lia.
  pose proof (Z.mul_div_le (t' / 1000000) 86400).
  pose proof (Z.mul_succ_div_gt (t / 1000000) 3600).
  pose proof (Z.mul_div_le t' 1000000). pose proof (Z.mul_succ_div_gt t 1000000). lia.
Qed.

(** ** Counters *)

(** At [now] the key [k] holds the positive counter [n], or nothing if [n = 0]. *)
Definition counter (m : gmap string (RVal * option Time)) (now : Time) (k : string) (n : Z) : Prop :=
  match live m now k with
  | None => n = 0
  | Some (RInt z, Some _) => z = n ∧ 0 < n
  | _ => False
  end.

Lemma counter_lookup m m' now k n :
  m' !! k = m !! k → counter m now k n → counter m' now k n.
Proof. unfold counter, live. by intros ->. Qed.

Lemma counter_pos m now k n :
  counter m now k n → 0 < n → ∃ e, m !! k = Some (RInt n, Some e) ∧ now < e.
Proof.
  unfold counter, live. intros Hc Hn.
  destruct (m !! k) as [[[z|s] [e|]]|]; simpl in *; try lia; try done;
    case_decide; try lia; try done.
  destruct Hc as [-> _]. eauto with lia.
Qed.

Lemma counter_zero m now k : counter m now k 0 → live m now k = None.
Proof.
  unfold counter. destruct (live m now k) as [[[z|s] [e|]]|]; try done. lia.
Qed.

(** One run of the script: the counter goes up by one; the first increment sets
    the expiry, later ones keep it. *)
Lemma incr_with_ttl_spec rnow k ttl r n :
  redis_up r = true → counter (store r) rnow k n → 0 ≤ n < u32_max →
  ∃ e, incr_with_ttl rnow k ttl r
       = (Ok (n + 1), set_store (<[k := (RInt (n + 1), Some e)]>) r) ∧
    (n = 0 → e = rnow + seconds ttl) ∧ (0 < n → store r !! k = Some (RInt n, Some e)).
Proof.
  intros Hup Hc Hn. unfold incr_with_ttl, connected, incr_script, redis_incr.
  destruct (decide (n = 0)) as [->|Hnz].
  - apply counter_zero in Hc. exists (rnow + seconds ttl). split; [|split; [done|lia]].
    unfold_m. rewrite Hup. cbv beta iota zeta. rewrite Hc. simpl.
    unfold redis_expire, set_store, modifies. simpl.
    by rewrite alter_insert_eq.
  - destruct (counter_pos _ _ _ _ Hc) as (e & He & Hlt); [lia|]. exists e.
    split; [|split; [lia|done]]. unfold_m. rewrite Hup. cbv beta iota zeta.
    unfold live. rewrite He, decide_False by lia.
    rewrite (proj2 (Z.ltb_lt n i64_max)) by (unfold i64_max, u32_max in *; lia).
    cbv beta iota. rewrite (proj2 (Z.eqb_neq (n + 1) 1)) by lia. cbv beta iota.
    by rewrite (proj2 (Z.leb_le (n + 1) u32_max)) by lia.
Qed.

Section request.
Context (now rnow : Time) (u : Uuid) (a : string).
Let key (w : RateWindow) : string := user_key u a (window_number now w).

(** The effect of one request on the store: the keys in [ws] are bumped. *)
Definition bumped (f : RateWindow → Z) (ws : list RateWindow) (r r' : Redis) : Prop :=
  redis_up r' = true ∧
  (∀ k, (∀ w, w ∈ ws → k ≠ key w) → store r' !! k = store r !! k) ∧
  (∀ w, w ∈ ws → ∃ e, store r' !! key w = Some (RInt (f w + 1), Some e) ∧
     (f w = 0 → e = rnow + seconds (window_secs w)) ∧
     (0 < f w → store r !! key w = Some (RInt (f w), Some e))).

Lemma check_loop_spec (f : RateWindow → Z) cs acc r :
  redis_up r = true →
  (∀ w w', w ∈ cs.*2 → w' ∈ cs.*2 → key w = key w' → w = w') → NoDup cs.*2 →
  (∀ w, w ∈ cs.*2 → counter (store r) rnow (key w) (f w) ∧ 0 ≤ f w < u32_max) →
  ∃ r', check_loop now rnow u a cs acc r
        = (Ok (foldl (λ acc q, account acc q.1 (f q.2 + 1)) acc cs), r') ∧
    bumped f cs.*2 r r'.
Proof.
  revert acc r. induction cs as [|[lim w] cs IH]; intros acc r Hup Hinj Hnd Hf.
  { exists r. split; [done|]. split_and!; set_solver. }
  cbn [fmap list_fmap] in *. destruct (Hf w) as [Hc Hn]; [left|].
  destruct (incr_with_ttl_spec _ _ (window_secs w) _ _ Hup Hc Hn) as (e & Hi & He0 & He1).
  assert (Hother : ∀ w', w' ∈ cs.*2 → key w ≠ key w').
  { intros w' Hw' Hk. apply Hinj in Hk; [|set_solver..]. subst w'.
    by apply NoDup_cons in Hnd as [? _]. }
  set (r1 := set_store (<[key w := (RInt (f w + 1), Some e)]>) r) in *.
  destruct (IH (account acc lim (f w + 1)) r1) as (r' & Hr' & Hup' & Hrest & Hkeys).
  - done.
  - intros; apply Hinj; set_solver.
  - by apply NoDup_cons in Hnd as [_ ?].
  - intros w' Hw'. destruct (Hf w') as [Hc' Hn']; [set_solver|]. split; [|done].
    eapply counter_lookup; [|exact Hc']. simpl. rewrite lookup_insert_ne; auto.
  - exists r'. split.
    { cbn [check_loop foldl fst snd]. unfold mbind, M_bind. fold (key w). by rewrite Hi. }
    split_and!; [done| |].
    + intros k Hk. rewrite Hrest by set_solver. simpl.
      rewrite lookup_insert_ne; [done|]. intros <-. by apply (Hk w); [left|].
    + intros w' [->|Hw']%elem_of_cons.
      * exists e. split_and!; try done. rewrite Hrest by auto. apply lookup_insert_eq.
      * destruct (Hkeys w' Hw') as (e' & Hs & H0 & H1). exists e'. split_and!; [done..|].
        intros Hp. rewrite <-(H1 Hp). simpl. rewrite lookup_insert_ne; auto.
Qed.
End request.

(** ** The loop's accumulator *)

Lemma account_fold (f : RateWindow → Z) cs m l b :
  m ≤ u32_max →
  let acc := foldl (λ acc q, account acc q.1 (f q.2)) (m, l, b) cs in
  acc.2 = b || existsb (λ q, q.1 <? f q.2) cs ∧
  acc.1.1 = Z.min m (foldr (λ q x, Z.min (saturating_sub q.1 (f q.2)) x) u32_max cs) ∧
  ((acc.1.1 = m ∧ acc.1.2 = l) ∨
   ∃ w, (acc.1.2, w) ∈ cs ∧ acc.1.1 = saturating_sub acc.1.2 (f w)).
Proof.
  revert m l b. induction cs as [|[lim w] cs IH]; intros m l b Hm.
  - simpl. rewrite orb_false_r. split_and!; [done|lia|by left].
  - cbn [foldl fst snd existsb foldr account].
    set (rem := saturating_sub lim (f w)).
    destruct (rem <? m) eqn:Hlt.
    + apply Z.ltb_lt in Hlt.
      destruct (IH rem lim (if lim <? f w then true else b)) as (Hb & Hmin & Hl); [lia|].
      cbv zeta. split_and!.
      * rewrite Hb. destruct (lim <? f w), b; simpl; rewrite ?orb_true_r; done.
      * rewrite Hmin. lia.
      * right. destruct Hl as [[-> ->]|(w' & Hin & He)].
        -- exists w. split; [left|done].
        -- exists w'. split; [by right|done].
    + apply Z.ltb_ge in Hlt.
      destruct (IH m l (if lim <? f w then true else b)) as (Hb & Hmin & Hl); [lia|].
      cbv zeta. split_and!.
      * rewrite Hb. destruct (lim <? f w), b; simpl; rewrite ?orb_true_r; done.
      * rewrite Hmin. lia.
      * destruct Hl as [Hl|(w' & Hin & He)]; [by left|]. right. exists w'. split; [by right|done].
Qed.

Lemma quotas_small c : Forall (λ q, 0 < q.1 < u32_max) (quotas c).
Proof.
  unfold quotas, checks. pose proof (eq_refl : u32_max = 4294967295) as ->.
  apply (str_case_ind (λ _ o, Forall (λ q : Z * RateWindow, 0 < q.1 < _) (default [] o)));
    [|constructor].
  destruct (call_level c); arms; lia.
Qed.

Lemma used_app h c u a w n :
  used (h ++ [c]) u a w n = used h u a w n + if decide (in_window u a w n c) then 1 else 0.
Proof.
  unfold used. rewrite filter_app, length_app, filter_cons, filter_nil.
  case_decide; simpl; lia.
Qed.

Lemma used_bounds h u a w n : 0 ≤ used h u a w n ≤ Z.of_nat (length h).
Proof.
  unfold used. pose proof (length_filter (in_window u a w n) h). lia.
Qed.

(** The accumulated verdict is the specified one. *)
Lemma fold_answers h c :
  answers h c (Ok (info_of (foldl (λ acc q, account acc q.1 (used_with h c q.2))
                             (u32_max, 0, false) (quotas c)))).
Proof.
  destruct (account_fold (used_with h c) (quotas c) u32_max 0 false) as (Hb & Hm & Hl); [lia|].
  set (acc := foldl _ _ _) in *. exists (info_of acc).
  split_and!; [done|exact Hb|]. intros Hne. simpl.
  assert (Hlt : left_over h c < u32_max).
  { unfold left_over. pose proof (quotas_small c) as Hs.
    destruct (quotas c) as [|[l w] cs]; [done|]. simpl.
    apply Forall_cons_1 in Hs as [[? ?] _]. simpl in *.
    unfold saturating_sub, used_with.
    pose proof (used_bounds h (call_user c) (call_action c) w (window_number (call_at c) w)). lia. }
  fold (left_over h c) in Hm. split; [lia|].
  destruct Hl as [[He _]|Hl]; [lia|exact Hl].
Qed.

(** ** The refinement *)

Section refinement.
Context (δ : Z).

(** The counters of every window that is or will be current agree with the
    history. *)
Record rate_inv (h : list Call) (t : Time) (r : Redis) : Prop := {
  rinv_up : redis_up r = true;
  rinv_past : Forall (λ c, call_at c ≤ t) h;
  rinv_counter u a w t' : valid_uuid u → w ∈ windows a → t ≤ t' →
    counter (store r) (t' + δ) (user_key u a (window_number t' w))
            (used h u a w (window_number t' w)) }.

(** No request of the past falls into the day window that carries the number
    of the current hour. *)
Lemma day_unused h t c t' :
  Forall (λ c, call_at c ≤ t) h → t ≤ call_at c → days 1 ≤ call_at c →
  window_number t' Day = window_number (call_at c) Hour →
  used h (call_user c) (call_action c) Day (window_number t' Day) = 0.
Proof.
  intros Hpast Ht Hday Hn. unfold used. rewrite filter_none; [done|].
  intros c' Hc' (_ & _ & He). rewrite Hn in He.
  apply day_after_hour in He; [|done]. rewrite Forall_forall in Hpast.
  specialize (Hpast _ Hc'). simpl in Hpast. unfold seconds, window_secs in He. lia.
Qed.

(** A bumped counter, seen from any later instant of any window that shares
    its key. *)
Lemma bumped_counter h t c r r' w w' t' :
  let f w := used h (call_user c) (call_action c) w (window_number (call_at c) w) in
  rate_inv h t r → t ≤ call_at c → days 1 ≤ call_at c → call_at c ≤ t' →
  valid_uuid (call_user c) →
  w ∈ windows (call_action c) → w' ∈ windows (call_action c) →
  window_number t' w = window_number (call_at c) w' →
  bumped (call_at c) (call_at c + δ) (call_user c) (call_action c) f
    (windows (call_action c)) r r' →
  counter (store r') (t' + δ) (user_key (call_user c) (call_action c) (window_number t' w))
    (used (h ++ [c]) (call_user c) (call_action c) w (window_number t' w)).
Proof.
  intros f Hinv Ht Hday Ht' Hu Hw Hw' Hn (_ & _ & Hb).
  destruct (Hb w' Hw') as (e & Hs & He0 & He1). rewrite <-Hn in Hs, He1.
  pose proof (rinv_counter _ _ _ Hinv _ _ w t' Hu Hw ltac:(lia)) as Hc'.
  pose proof (used_bounds h (call_user c) (call_action c) w' (window_number (call_at c) w')).
  assert (0 ≤ call_at c) by (unfold days, seconds in Hday; lia).
  rewrite used_app. destruct (decide (w = w')) as [<-|Hne].
  - rewrite decide_True by (split_and!; auto). rewrite Hn in *.
    unfold counter, live. rewrite Hs.
    assert (t' + δ < e).
    { destruct (decide (f w = 0)) as [Hz|].
      - rewrite (He0 Hz). pose proof (window_short (call_at c) t' w ltac:(lia) Ht' Hn). lia.
      - destruct (counter_pos _ _ _ _ Hc') as (e' & He' & Hlt); [unfold f in *; lia|].
        rewrite He1 in He' by (unfold f in *; lia). by simplify_eq. }
    rewrite decide_False by lia. unfold f. lia.
  - destruct (windows_cases _ _ Hw) as [->| ->], (windows_cases _ _ Hw') as [->| ->]; try done.
    { exfalso. by eapply hour_day_distinct. }
    pose proof (day_after_hour _ _ Hday Hn) as Hlate.
    rewrite decide_False.
    2:{ intros (_ & _ & He). rewrite Hn in He.
        by apply (hour_day_distinct (call_at c) (call_at c) Hday (Z.le_refl _)). }
    rewrite (day_unused h t c t') in * by (try done; apply Hinv).
    unfold counter, live. rewrite Hs, decide_True; [done|].
    destruct (decide (f Hour = 0)) as [Hz|Hz]; [rewrite (He0 Hz); lia|].
    apply counter_zero in Hc'. unfold live in Hc'.
    rewrite He1 in Hc' by (unfold f in *; lia). by case_decide.
Qed.

(** Distinct windows of one request have distinct keys. *)
Lemma request_keys c w w' :
  days 1 ≤ call_at c → valid_uuid (call_user c) →
  w ∈ windows (call_action c) → w' ∈ windows (call_action c) →
  user_key (call_user c) (call_action c) (window_number (call_at c) w)
  = user_key (call_user c) (call_action c) (window_number (call_at c) w') → w = w'.
Proof.
  intros Hday Hu Hw Hw' Hk. pose proof (windows_lacks_colon _ _ Hw) as Ha.
  apply user_key_inj in Hk as (_ & _ & Hn); [|done..].
  pose proof (hour_day_distinct (call_at c) (call_at c) Hday (Z.le_refl _)).
  destruct (windows_cases _ _ Hw) as [->| ->], (windows_cases _ _ Hw') as [->| ->]; congruence.
Qed.

Lemma serve_quotas c r :
  serve δ c r =
  match check_loop (call_at c) (call_at c + δ) (call_user c) (call_action c) (quotas c)
          (u32_max, 0, false) r with
  | (Ok acc, r') =>
      (Ok (if checks (for_trust_level (call_level c)) (call_action c)
           then info_of acc else mkInfo false 0 0), r')
  | (Err e, r') => (Err e, r')
  end.
Proof.
  unfold serve, check_and_increment, quotas.
  destruct (checks _ _) as [cs|]; [|done]. by unfold_m.
Qed.

(** One request: the answer is the specified one and the counters keep up. *)
Lemma serve_step h t c r :
  rate_inv h t r → t ≤ call_at c → days 1 ≤ call_at c → valid_uuid (call_user c) →
  Z.of_nat (length h) < u32_max →
  ∃ o r', serve δ c r = (o, r') ∧ answers h c o ∧ rate_inv (h ++ [c]) (call_at c) r'.
Proof.
  intros Hinv Ht Hday Hu Hlen.
  set (f w := used h (call_user c) (call_action c) w (window_number (call_at c) w)).
  destruct (check_loop_spec (call_at c) (call_at c + δ) (call_user c) (call_action c) f
              (quotas c) (u32_max, 0, false) r) as (r' & Hrun & Hb);
    rewrite ?quotas_windows in *; try (by apply Hinv || by apply windows_NoDup).
  { intros w w'. by apply request_keys. }
  { intros w Hw. split; [by apply Hinv|].
    pose proof (used_bounds h (call_user c) (call_action c) w (window_number (call_at c) w)).
    unfold f. lia. }
  eexists _, r'. split; [rewrite serve_quotas, Hrun; reflexivity|]. split.
  - pose proof (fold_answers h c) as Hans. unfold quotas in *.
    destruct (checks _ _) as [cs|] eqn:Hcs; [exact Hans|].
    exists (mkInfo false 0 0). unfold over_quota, quotas. rewrite Hcs. simpl.
    split_and!; done.
  - pose proof Hb as (Hup & Hrest & _). split; [done| |].
    + apply Forall_app. split; [|by constructor; [lia|]].
      eapply Forall_impl; [apply Hinv|]. simpl. intros; lia.
    + intros u a w t' Hu' Hw Ht'.
      destruct (decide (user_key u a (window_number t' w) ∈
        (λ w', user_key (call_user c) (call_action c) (window_number (call_at c) w'))
          <$> windows (call_action c))) as [Hin|Hfree].
      * apply list_elem_of_fmap in Hin as (w' & Hk & Hw').
        apply user_key_inj in Hk as (-> & -> & Hn); [|eauto using windows_lacks_colon..].
        eapply bumped_counter; eauto.
      * rewrite used_app, decide_False, Z.add_0_r.
        -- eapply counter_lookup; [|apply Hinv; [done..|lia]]. apply Hrest.
           intros w' Hw' Hk. apply Hfree. rewrite Hk. apply list_elem_of_fmap. eauto.
        -- intros (<- & <- & Hn). apply Hfree. rewrite <-Hn. apply list_elem_of_fmap. eauto.
Qed.

(** A sequence of requests against the specification. *)
Fixpoint all_answered (h calls : list Call) (os : list (Result RedisError RateLimitInfo)) : Prop :=
  match calls, os with
  | [], [] => True
  | c :: calls', o :: os' => answers h c o ∧ all_answered (h ++ [c]) calls' os'
  | _, _ => False
  end.

Lemma serve_refines h t calls r :
  rate_inv h t r → Sorted Z.le (t :: (call_at <$> calls)) →
  Forall (λ c, days 1 ≤ call_at c ∧ valid_uuid (call_user c)) calls →
  Z.of_nat (length h + length calls) ≤ u32_max →
  all_answered h calls (fst (serve_all δ calls r)).
Proof.
  revert h t r. induction calls as [|c calls IH]; intros h t r Hinv Hs Hv Hl; [done|].
  apply Forall_cons_1 in Hv as [[Hday Hu] Hv]. simpl in Hl.
  apply Sorted_inv in Hs as [Hs Ht]. apply HdRel_inv in Ht.
  destruct (serve_step h t c r) as (o & r' & Hrun & Ha & Hinv'); [done..|lia|].
  cbn [serve_all]. rewrite Hrun.
  specialize (IH (h ++ [c]) (call_at c) r' Hinv' Hs Hv).
  destruct (serve_all δ calls r') as [os r2]. cbn [fst all_answered]. split; [done|].
  apply IH. rewrite length_app. simpl. lia.
Qed.
End refinement.

(** A store that holds no counters yet. *)
Definition no_counters (r : Redis) : Prop :=
  redis_up r = true ∧ ∀ u a n, store r !! user_key u a n = None.

(** C10: served by a reachable Redis that holds no counters yet, every sequence of
    requests (of any users, for any actions, at any trust levels, in the order of
    their clock readings, fewer than 2^32 of them) is answered as the abstract
    specification says: a request is limited exactly when its user's requests for
    that action in the current hour or day, itself included, exceed the quota of
    its level, the reported [remaining] is what is left in the tightest window and
    [limit] is the quota of such a window. Counters of different users, actions
    and windows never mix, and none expires before its window ends, whatever the
    offset between the two clocks. *)
Theorem rate_limiter_refines_spec δ calls r :
  no_counters r → Sorted Z.le (call_at <$> calls) →
  Forall (λ c, days 1 ≤ call_at c ∧ valid_uuid (call_user c)) calls →
  Z.of_nat (length calls) ≤ u32_max →
  all_answered [] calls (fst (serve_all δ calls r)).
Proof.
  intros [Hup Hno] Hs Hv Hl. destruct calls as [|c calls]; [done|].
  apply (serve_refines δ [] (call_at c)); [|by constructor; [|constructor]|done..].
  split; [done|constructor|]. intros u a w t' _ _ _. unfold counter, live. by rewrite Hno.
Qed.

Lemma rate_limiter_refines_spec_witness :
  let c := mkCall (days 20000) 7%N "unfollow" New in
  let calls := replicate 31 c in
  limited <$> (match last (fst (serve_all 0 calls (mkRedis true ∅))) with
               | Some (Ok i) => Some i | _ => None end) = Some true ∧
  all_answered [] calls (fst (serve_all 0 calls (mkRedis true ∅))).
Proof.
  split; [vm_compute; reflexivity|].
  apply (rate_limiter_refines_spec 0 _ (mkRedis true ∅)).
  - split; [done|]. intros. apply lookup_empty.
  - rewrite fmap_replicate. simpl. repeat constructor; simpl; lia.
  - apply Forall_replicate. split; [unfold days, seconds; simpl; lia|].
    unfold valid_uuid. simpl. lia.
  - simpl. unfold u32_max. lia.
Defined.
