(* ===== verification/Trust.v ===== *)
(** * Trust scores

    [TrustService] of [src/app/trust.rs]: points, flags, strikes, bans and the
    trust level they decide. Columns are [INT4]: an update that leaves the range
    raises instead of wrapping. *)

From S2P Require Import Prelude Sql Domain Schema RateLimits.
From stdpp Require Import options.

#[local] Open Scope Z_scope.

(** [TrustScore]: the row with the level decoded. *)
Record TrustScore := mkTrustScore {
  score_user_id : Uuid; score_level : TrustLevel; score_row : TrustRow }.

Definition fresh_trust (t : Time) : TrustRow := mkTrustRow 0 0 0 0 0 0 0 0 0 None t t t 0 0.

(** [initialize_user] and [initialize_user_with_tx]: the same statement. *)
Definition initialize_user (clk : Clock) (user_id : Uuid) : M Db DbError unit :=
  d ← get_db;
  if has_key user_id (user_trust_scores d) then mret tt
  else
    _ ← guard_else (user_exists d user_id) (ForeignKeyViolation "user_trust_scores_user_id_fkey");
    modifies (set_user_trust_scores (<[user_id := fresh_trust (db_now clk)]>)).

Definition get_trust_score (user_id : Uuid) : M Db DbError (option TrustScore) :=
  reads (λ d, (λ r, mkTrustScore user_id (from_i32 (ts_trust_level r)) r)
              <$> user_trust_scores d !! user_id).

(** [UPDATE user_trust_scores SET .. WHERE user_id = $1], the new row computed by
    [f], which may overflow a column; no row, no effect. *)
Definition update_trust (user_id : Uuid) (f : TrustRow → Result DbError TrustRow) :
    M Db DbError (option TrustRow) :=
  d ← get_db;
  match user_trust_scores d !! user_id with
  | None => mret None
  | Some r =>
      match f r with
      | Ok r' => _ ← modifies (set_user_trust_scores (<[user_id := r']>)); mret (Some r')
      | Err e => throw e
      end
  end.

(** The new row is stored when every assigned column is in range. *)
Definition in_range (zs : list Z) (r : TrustRow) : Result DbError TrustRow :=
  if forallb in_i32 zs then Ok r else Err NumericOutOfRange.

Definition level_points_counts (l p posts comments likes followers : Z) (fl st : Z)
    (ban : option Time) (upd act : Time) (r : TrustRow) : TrustRow :=
  mkTrustRow l p (ts_account_age_days r) posts comments likes followers fl st ban
    (ts_created_at r) upd act (ts_invites_sent r) (ts_successful_invites r).

Inductive Counter := PostsCount | CommentsCount | LikesReceivedCount | FollowersCount.
Global Instance Counter_eq_dec : EqDecision Counter.
Proof. solve_decision. Defined.

(** [(points_delta, field_to_increment)]. *)
Definition activity (activity_type : string) : Z * option Counter :=
  str_case activity_type [
    ("post_created", (5, Some PostsCount)); ("comment_created", (2, Some CommentsCount));
    ("like_received", (1, Some LikesReceivedCount)); ("follower_gained", (3, Some FollowersCount));
    ("follower_lost", (-1, None)); ("flag_received", (-10, None));
    ("content_removed", (-25, None))] (0, None).

Definition bump (c : Counter) (field : option Counter) (n : Z) : Z :=
  if decide (field = Some c) then n + 1 else n.

(** The [UPDATE] that [record_activity] assembles. *)
Definition apply_activity (t : Time) (delta : Z) (field : option Counter) (r : TrustRow) :
    Result DbError TrustRow :=
  let posts := bump PostsCount field (ts_posts_count r) in
  let comments := bump CommentsCount field (ts_comments_count r) in
  let likes := bump LikesReceivedCount field (ts_likes_received_count r) in
  let followers := bump FollowersCount field (ts_followers_count r) in
  in_range [ts_trust_points r + delta; posts; comments; likes; followers]
    (level_points_counts (ts_trust_level r) (Z.max 0 (ts_trust_points r + delta))
       posts comments likes followers (ts_flags_received r) (ts_strikes r)
       (ts_banned_until r) t t r).

(** The decision of [recalculate_trust_level_with_tx]. *)
Definition trust_level_for (age_days posts points flags strikes : Z) : TrustLevel :=
  if 3 <=? strikes then New
  else if (90 <=? age_days) && (50 <=? posts) && (200 <=? points) && (flags <? 3) then Trusted
  else if (7 <=? age_days) && (5 <=? posts) && (20 <=? points) && (flags <? 5) then Basic
  else New.

Definition computed_level (r : TrustRow) : TrustLevel :=
  trust_level_for (ts_account_age_days r) (ts_posts_count r) (ts_trust_points r)
    (ts_flags_received r) (ts_strikes r).

Definition with_level (t : Time) (l : Z) (r : TrustRow) : TrustRow :=
  mkTrustRow l (ts_trust_points r) (ts_account_age_days r) (ts_posts_count r)
    (ts_comments_count r) (ts_likes_received_count r) (ts_followers_count r)
    (ts_flags_received r) (ts_strikes r) (ts_banned_until r) (ts_created_at r) t
    (ts_last_activity_at r) (ts_invites_sent r) (ts_successful_invites r).

Definition recalculate_trust_level_with_tx (clk : Clock) (user_id : Uuid) : M Db DbError unit :=
  d ← get_db;
  r ← ok_or (user_trust_scores d !! user_id) RowNotFound;
  _ ← update_trust user_id (λ r', Ok (with_level (db_now clk) (as_i32 (computed_level r)) r'));
  mret tt.

Definition recalculate_trust_level (clk : Clock) (user_id : Uuid) : M Db DbError unit :=
  transaction (_ ← recalculate_trust_level_with_tx clk user_id; mret (Commit tt)).

Definition record_activity (clk : Clock) (user_id : Uuid) (activity_type : string) :
    M Db DbError unit :=
  let '(points_delta, field) := activity activity_type in
  _ ← update_trust user_id (apply_activity (db_now clk) points_delta field);
  if 5 <=? Z.abs points_delta then recalculate_trust_level clk user_id else mret tt.

Definition is_banned (clk : Clock) (user_id : Uuid) : M Db DbError bool :=
  reads (λ d, match user_trust_scores d !! user_id with
              | Some r => match ts_banned_until r with
                          | Some t => app_now clk <? t
                          | None => false
                          end
              | None => false
              end).

Definition ban_duration_days (strikes : Z) : Z :=
  if strikes =? 3 then 7 else if strikes =? 4 then 30 else 365.

(** The first statement of [add_strike_with_tx]. *)
Definition apply_strike (t : Time) (r : TrustRow) : Result DbError TrustRow :=
  let strikes := ts_strikes r + 1 in
  let flags := ts_flags_received r + 1 in
  in_range [strikes; flags; ts_trust_points r - 50]
    (level_points_counts (ts_trust_level r) (Z.max 0 (ts_trust_points r - 50))
       (ts_posts_count r) (ts_comments_count r) (ts_likes_received_count r)
       (ts_followers_count r) flags strikes (ts_banned_until r) t (ts_last_activity_at r) r).

Definition apply_ban (t until : Time) (r : TrustRow) : TrustRow :=
  level_points_counts 0 (ts_trust_points r) (ts_posts_count r) (ts_comments_count r)
    (ts_likes_received_count r) (ts_followers_count r) (ts_flags_received r) (ts_strikes r)
    (Some until) t (ts_last_activity_at r) r.

Definition add_strike_with_tx (clk : Clock) (user_id : Uuid) : M Db DbError Z :=
  o ← update_trust user_id (apply_strike (db_now clk));
  r ← ok_or o RowNotFound;
  let strikes := ts_strikes r in
  _ ← (if 3 <=? strikes
       then
         _ ← update_trust user_id
               (λ r, Ok (apply_ban (db_now clk) (app_now clk + days (ban_duration_days strikes)) r));
         mret tt
       else mret tt);
  _ ← recalculate_trust_level_with_tx clk user_id;
  mret strikes.

Definition add_strike (clk : Clock) (user_id : Uuid) : M Db DbError Z :=
  transaction (s ← add_strike_with_tx clk user_id; mret (Commit s)).

Definition apply_flag (t : Time) (r : TrustRow) : Result DbError TrustRow :=
  let flags := ts_flags_received r + 1 in
  in_range [flags; ts_trust_points r - 10]
    (level_points_counts (ts_trust_level r) (Z.max 0 (ts_trust_points r - 10))
       (ts_posts_count r) (ts_comments_count r) (ts_likes_received_count r)
       (ts_followers_count r) flags (ts_strikes r) (ts_banned_until r) t
       (ts_last_activity_at r) r).

Definition record_flag (clk : Clock) (user_id : Uuid) : M Db DbError unit :=
  transaction (
    o ← update_trust user_id (apply_flag (db_now clk));
    r ← ok_or o RowNotFound;
    let flags := ts_flags_received r in
    _ ← (if (10 <=? flags) && (Z.rem flags 10 =? 0)
         then _ ← add_strike_with_tx clk user_id; mret tt
         else recalculate_trust_level_with_tx clk user_id);
    mret (Commit tt)).

Definition set_trust_level (clk : Clock) (user_id : Uuid) (level : TrustLevel) : M Db DbError unit :=
  _ ← update_trust user_id (λ r, Ok (with_level (db_now clk) (as_i32 level) r)); mret tt.

(** [GROUP BY trust_level ORDER BY trust_level], over the levels that occur. *)
Definition get_trust_level_stats : M Db DbError (list (TrustLevel * Z)) :=
  reads (λ d,
    let levels := merge_sort (≤)%Z (remove_dups (select (λ _ r, Some (ts_trust_level r))
                                                 (user_trust_scores d))) in
    (λ l, (from_i32 l, count_where (λ _ r, bool_decide (ts_trust_level r = l))
                         (user_trust_scores d))) <$> levels).

(** ** The operations as functions on the row *)

Definition put_trust (u : Uuid) (r : TrustRow) (d : Db) : Db :=
  set_user_trust_scores (<[u := r]>) d.

Lemma put_trust_lookup u r d : user_trust_scores (put_trust u r d) !! u = Some r.
Proof. apply lookup_insert_eq. Qed.
Lemma put_trust_twice u r r' d : put_trust u r' (put_trust u r d) = put_trust u r' d.
Proof. unfold put_trust, set_user_trust_scores. simpl. by rewrite insert_insert_eq. Qed.

Lemma update_trust_run u f d :
  update_trust u f d =
  match user_trust_scores d !! u with
  | None => (Ok None, d)
  | Some r => match f r with
              | Ok r' => (Ok (Some r'), put_trust u r' d)
              | Err e => (Err e, d)
              end
  end.
Proof. unfold update_trust. unfold_m. run_step. by repeat case_match. Qed.

Definition strike_row (clk : Clock) (r : TrustRow) : Result DbError TrustRow :=
  match apply_strike (db_now clk) r with
  | Err e => Err e
  | Ok r1 =>
      let r2 := if 3 <=? ts_strikes r1
                then apply_ban (db_now clk)
                       (app_now clk + days (ban_duration_days (ts_strikes r1))) r1
                else r1 in
      Ok (with_level (db_now clk) (as_i32 (computed_level r2)) r2)
  end.

Definition flag_row (clk : Clock) (r : TrustRow) : Result DbError TrustRow :=
  match apply_flag (db_now clk) r with
  | Err e => Err e
  | Ok r1 =>
      if (10 <=? ts_flags_received r1) && (Z.rem (ts_flags_received r1) 10 =? 0)
      then strike_row clk r1
      else Ok (with_level (db_now clk) (as_i32 (computed_level r1)) r1)
  end.

Definition activity_row (clk : Clock) (activity_type : string) (r : TrustRow) :
    Result DbError TrustRow :=
  let '(delta, field) := activity activity_type in
  match apply_activity (db_now clk) delta field r with
  | Err e => Err e
  | Ok r1 => Ok (if 5 <=? Z.abs delta
                 then with_level (db_now clk) (as_i32 (computed_level r1)) r1 else r1)
  end.

Lemma recalculate_with_tx_run clk u r d :
  user_trust_scores d !! u = Some r →
  recalculate_trust_level_with_tx clk u d
  = (Ok tt, put_trust u (with_level (db_now clk) (as_i32 (computed_level r)) r) d).
Proof.
  intros Hr. unfold recalculate_trust_level_with_tx. unfold_m. cbv beta.
  rewrite Hr. cbv beta iota. rewrite update_trust_run, Hr. done.
Qed.

Lemma add_strike_with_tx_run clk u r d :
  user_trust_scores d !! u = Some r →
  match strike_row clk r with
  | Ok r' => add_strike_with_tx clk u d = (Ok (ts_strikes r'), put_trust u r' d)
  | Err e => fst (add_strike_with_tx clk u d) = Err e
  end.
Proof.
  intros Hr. unfold strike_row, add_strike_with_tx. unfold_m. cbv beta.
  rewrite update_trust_run, Hr. destruct (apply_strike _ r) as [r1|e]; [|done].
  cbv beta iota zeta. destruct (3 <=? ts_strikes r1) eqn:H3.
  - rewrite update_trust_run, put_trust_lookup. cbv beta iota.
    rewrite (recalculate_with_tx_run _ _ _ _ (put_trust_lookup _ _ _)).
    by rewrite !put_trust_twice.
  - cbv beta iota.
    rewrite (recalculate_with_tx_run _ _ _ _ (put_trust_lookup _ _ _)).
    by rewrite put_trust_twice.
Qed.

(** [record_flag], [add_strike] and [record_activity] replace the user's row by
    the computed one, or fail and change nothing. *)
Lemma record_flag_run clk u d :
  record_flag clk u d =
  match user_trust_scores d !! u with
  | None => (Err RowNotFound, d)
  | Some r => match flag_row clk r with
              | Ok r' => (Ok tt, put_trust u r' d)
              | Err e => (Err e, d)
              end
  end.
Proof.
  unfold record_flag, flag_row. unfold_m. cbv beta. rewrite update_trust_run.
  destruct (user_trust_scores d !! u) as [r|] eqn:Hr; [|done].
  destruct (apply_flag _ r) as [r1|e]; [|done]. cbv beta iota zeta.
  destruct (_ && _).
  - pose proof (add_strike_with_tx_run clk u r1 _ (put_trust_lookup u r1 d)) as Hs.
    destruct (strike_row clk r1) as [r2|e].
    + rewrite Hs. cbv beta iota. by rewrite put_trust_twice.
    + by destruct (add_strike_with_tx clk u _) as [[] ?]; simplify_eq/=.
  - rewrite (recalculate_with_tx_run _ _ _ _ (put_trust_lookup _ _ _)).
    cbv beta iota. by rewrite put_trust_twice.
Qed.

Lemma add_strike_run clk u d :
  add_strike clk u d =
  match user_trust_scores d !! u with
  | None => (Err RowNotFound, d)
  | Some r => match strike_row clk r with
              | Ok r' => (Ok (ts_strikes r'), put_trust u r' d)
              | Err e => (Err e, d)
              end
  end.
Proof.
  unfold add_strike. unfold_m. cbv beta.
  destruct (user_trust_scores d !! u) as [r|] eqn:Hr.
  - pose proof (add_strike_with_tx_run clk u r d Hr) as Hs.
    destruct (strike_row clk r) as [r2|e]; [by rewrite Hs|].
    by destruct (add_strike_with_tx clk u _) as [[] ?]; simplify_eq/=.
  - unfold add_strike_with_tx. unfold_m. cbv beta. by rewrite update_trust_run, Hr.
Qed.

Lemma record_activity_run clk u a r d :
  user_trust_scores d !! u = Some r →
  record_activity clk u a d =
  match activity_row clk a r with
  | Ok r' => (Ok tt, put_trust u r' d)
  | Err e => (Err e, d)
  end.
Proof.
  intros Hr. unfold record_activity, activity_row. destruct (activity a) as [delta field].
  unfold_m. cbv beta. rewrite update_trust_run, Hr.
  destruct (apply_activity _ _ _ r) as [r1|e]; [|done]. cbv beta iota zeta.
  destruct (5 <=? Z.abs delta); [|done].
  unfold recalculate_trust_level. unfold_m. cbv beta.
  rewrite (recalculate_with_tx_run _ _ _ _ (put_trust_lookup _ _ _)).
  cbv beta iota. by rewrite put_trust_twice.
Qed.

(** ** Invariant *)

(** Points never go negative; three strikes mean level New and a ban on record. *)
Record trust_ok (r : TrustRow) : Prop := {
  ok_points : 0 ≤ ts_trust_points r;
  ok_struck : 3 ≤ ts_strikes r → ts_trust_level r = 0 ∧ ts_banned_until r ≠ None }.

Definition trust_inv (d : Db) : Prop :=
  ∀ u r, user_trust_scores d !! u = Some r → trust_ok r.

Lemma trust_inv_put u r d : trust_inv d → trust_ok r → trust_inv (put_trust u r d).
Proof.
  intros Hd Hr u' r'. unfold put_trust. simpl. rewrite lookup_insert_Some.
  intros [[_ <-]|[_ Hl]]; [done|by eapply Hd].
Qed.

Lemma computed_level_struck r : 3 ≤ ts_strikes r → computed_level r = New.
Proof.
  intros H. unfold computed_level, trust_level_for. by rewrite (proj2 (Z.leb_le _ _) H).
Qed.

Lemma with_level_ok t r :
  trust_ok r → trust_ok (with_level t (as_i32 (computed_level r)) r).
Proof.
  intros [Hp Hs]. split; simpl; [done|]. intros H3.
  rewrite computed_level_struck by done. by split; [|apply Hs].
Qed.

Lemma in_range_Ok zs r r' : in_range zs r = Ok r' → r' = r ∧ Forall (λ z, in_i32 z = true) zs.
Proof.
  unfold in_range. destruct (forallb in_i32 zs) eqn:Hf; intros [=]; subst.
  split; [done|]. rewrite forallb_forall in Hf. apply Forall_forall.
  intros z Hz%list_elem_of_In. auto.
Qed.

Lemma strike_row_ok clk r r' :
  trust_ok r → strike_row clk r = Ok r' → trust_ok r' ∧ ts_strikes r' = ts_strikes r + 1.
Proof.
  intros [Hp Hs]. unfold strike_row.
  destruct (apply_strike _ r) as [r1|] eqn:Ha; [|done]. intros [= <-].
  apply in_range_Ok in Ha as [-> _]. cbn [ts_strikes level_points_counts].
  destruct (3 <=? ts_strikes r + 1) eqn:H3; (split; [|done]); apply with_level_ok.
  - split; simpl; [lia|]. done.
  - apply Z.leb_gt in H3. split; simpl; [lia|]. lia.
Qed.

Lemma strike_row_bans clk r r' :
  strike_row clk r = Ok r' → 3 ≤ ts_strikes r' →
  ts_banned_until r' = Some (app_now clk + days (ban_duration_days (ts_strikes r'))).
Proof.
  unfold strike_row. destruct (apply_strike _ r) as [r1|]; [|done]. intros [= <-].
  destruct (3 <=? ts_strikes r1) eqn:H3; [done|]. apply Z.leb_gt in H3. simpl. lia.
Qed.

Lemma flag_row_ok clk r r' : trust_ok r → flag_row clk r = Ok r' → trust_ok r'.
Proof.
  intros [Hp Hs]. unfold flag_row.
  destruct (apply_flag _ r) as [r1|] eqn:Ha; [|done].
  apply in_range_Ok in Ha as [-> _].
  match goal with |- context [level_points_counts ?a ?b ?c ?d ?e ?f ?g ?h ?i ?j ?k ?l] =>
    assert (Hr1 : trust_ok (level_points_counts a b c d e f g h i j k l))
      by (split; simpl; [lia|done]) end.
  destruct (_ && _).
  - intros Hr. by apply strike_row_ok in Hr as [? _].
  - intros [= <-]. by apply with_level_ok.
Qed.

Lemma activity_row_ok clk a r r' : trust_ok r → activity_row clk a r = Ok r' → trust_ok r'.
Proof.
  intros [Hp Hs]. unfold activity_row. destruct (activity a) as [delta field].
  destruct (apply_activity _ _ _ r) as [r1|] eqn:Ha; [|done]. intros [= <-].
  apply in_range_Ok in Ha as [-> _].
  match goal with |- context [level_points_counts ?a ?b ?c ?d ?e ?f ?g ?h ?i ?j ?k ?l] =>
    assert (Hr1 : trust_ok (level_points_counts a b c d e f g h i j k l))
      by (split; simpl; [lia|done]) end.
  destruct (5 <=? _); [by apply with_level_ok|done].
Qed.

Lemma record_flag_preserves clk u : preserves trust_inv (record_flag clk u).
Proof.
  intros d Hd. rewrite record_flag_run. destruct (user_trust_scores d !! u) as [r|] eqn:Hr; [|done].
  destruct (flag_row clk r) eqn:Hf; [|done]. apply trust_inv_put; eauto using flag_row_ok.
Qed.

Lemma add_strike_preserves clk u : preserves trust_inv (add_strike clk u).
Proof.
  intros d Hd. rewrite add_strike_run. destruct (user_trust_scores d !! u) as [r|] eqn:Hr; [|done].
  destruct (strike_row clk r) eqn:Hf; [|done]. apply trust_inv_put; [done|].
  eapply strike_row_ok; eauto.
Qed.

Lemma recalculate_preserves clk u : preserves trust_inv (recalculate_trust_level clk u).
Proof.
  intros d Hd. unfold recalculate_trust_level. unfold_m. cbv beta.
  destruct (user_trust_scores d !! u) as [r|] eqn:Hr.
  - rewrite (recalculate_with_tx_run _ _ _ _ Hr). cbn [snd].
    apply trust_inv_put; eauto using with_level_ok.
  - unfold recalculate_trust_level_with_tx. unfold_m. cbv beta. by rewrite Hr.
Qed.

Lemma record_activity_preserves clk u a : preserves trust_inv (record_activity clk u a).
Proof.
  intros d Hd. destruct (user_trust_scores d !! u) as [r|] eqn:Hr.
  - rewrite (record_activity_run _ _ _ _ _ Hr). destruct (activity_row clk a r) eqn:Hf; [|done].
    apply trust_inv_put; eauto using activity_row_ok.
  - unfold record_activity. destruct (activity a) as [delta field]. unfold_m. cbv beta.
    rewrite update_trust_run, Hr. cbv beta iota zeta.
    destruct (5 <=? _); [by apply recalculate_preserves|done].
Qed.

Lemma initialize_user_preserves clk u : preserves trust_inv (initialize_user clk u).
Proof.
  intros d Hd. unfold initialize_user. run; try done. by apply trust_inv_put.
Qed.

#[export] Hint Resolve record_flag_preserves add_strike_preserves recalculate_preserves
  record_activity_preserves initialize_user_preserves : ciel.

(** ** The strike ladder *)

(** Strikes after [n] reports. *)
Definition ladder (n : Z) : Z := if n <? 10 then 0 else (n - 10) / 9 + 1.

Lemma ladder_step n :
  0 ≤ n →
  ladder (n + 1) = ladder n + (if (10 <=? n + ladder n + 1) && (Z.rem (n + ladder n + 1) 10 =? 0)
                               then 1 else 0).
Proof.
  intros Hn. unfold ladder. destruct (Z.ltb_spec n 10), (Z.ltb_spec (n + 1) 10); try lia.
  - rewrite (proj2 (Z.leb_gt _ _)) by lia. done.
  - assert (n = 9) as -> by lia. done.
  - set (q := (n - 10) / 9). set (m := (n - 10) mod 9).
    assert (Hqm : n = 10 + 9 * q + m) by (pose proof (Z.div_mod (n - 10) 9); lia).
    assert (Hm : 0 ≤ m < 9) by (apply Z.mod_pos_bound; lia).
    assert (0 ≤ q) by (apply Z.div_pos; lia).
    rewrite Z.rem_mod_nonneg by lia. rewrite (proj2 (Z.leb_le _ _)) by lia. simpl.
    replace (n + (q + 1) + 1) with ((m + 2) + (1 + q) * 10) by lia.
    rewrite Z.mod_add by lia.
    destruct (decide (m = 8)) as [Hm8|Hm8].
    + rewrite Hm8. change ((8 + 2) mod 10 =? 0) with true.
      replace (n + 1 - 10) with (0 + (q + 1) * 9) by lia.
      rewrite Z.div_add, Z.div_0_l by lia. lia.
    + rewrite Z.mod_small by lia. rewrite (proj2 (Z.eqb_neq _ _)) by lia.
      replace (n + 1 - 10) with ((m + 1) + q * 9) by lia.
      rewrite Z.div_add, Z.div_small by lia. lia.
Qed.

(** [n] reports against one user, at the given clocks. *)
Definition reports (u : Uuid) (clks : list Clock) (d : Db) : Db :=
  foldl (λ d clk, snd (record_flag clk u d)) d clks.

Definition on_ladder (n : Z) (r : TrustRow) : Prop :=
  ts_strikes r = ladder n ∧ ts_flags_received r = n + ladder n ∧
  0 ≤ ts_trust_points r ≤ i32_max.

Lemma in_i32_true z : i32_min ≤ z ≤ i32_max → in_i32 z = true.
Proof. intros [??]. unfold in_i32. apply andb_true_iff. rewrite !Z.leb_le. done. Qed.

Lemma flag_row_ladder clk n r :
  0 ≤ n ≤ 1000000000 → on_ladder n r →
  ∃ r', flag_row clk r = Ok r' ∧ on_ladder (n + 1) r'.
Proof.
  intros Hn (Hs & Hf & Hp).
  assert (Hl : 0 ≤ ladder n ≤ n).
  { unfold ladder. destruct (Z.ltb_spec n 10); [lia|].
    pose proof (Z.div_pos (n - 10) 9). pose proof (Z.mul_div_le (n - 10) 9). lia. }
  unfold flag_row, apply_flag, in_range, forallb.
  rewrite !in_i32_true by (unfold i32_min, i32_max in *; lia). cbn [andb].
  cbn [ts_flags_received level_points_counts]. rewrite Hf.
  pose proof (ladder_step n ltac:(lia)) as Hstep. unfold on_ladder.
  destruct (_ && _); rewrite Hstep.
  - unfold strike_row, apply_strike, in_range, forallb.
    cbn [ts_flags_received ts_strikes ts_trust_points level_points_counts].
    rewrite !in_i32_true by (unfold i32_min, i32_max in *; lia). cbn [andb ts_strikes level_points_counts].
    eexists. split; [done|]. destruct (3 <=? _); cbn; split_and!; lia.
  - eexists. split; [done|]. cbn. split_and!; lia.
Qed.

Lemma reports_ladder u clks d r :
  Z.of_nat (length clks) ≤ 1000000000 →
  user_trust_scores d !! u = Some r → on_ladder 0 r →
  ∃ r', user_trust_scores (reports u clks d) !! u = Some r' ∧
        on_ladder (Z.of_nat (length clks)) r'.
Proof.
  induction clks as [|clk clks IH] using rev_ind; intros Hl Hr Ho; [by exists r|].
  rewrite length_app in Hl |- *. simpl in *.
  destruct IH as (r1 & Hr1 & Ho1); [lia|done..|].
  destruct (flag_row_ladder clk (Z.of_nat (length clks)) r1) as (r2 & Hf & Ho2); [lia|done|].
  exists r2. unfold reports in *. rewrite foldl_app. simpl.
  rewrite record_flag_run, Hr1, Hf. cbn [snd]. rewrite put_trust_lookup. split; [done|].
  by replace (Z.of_nat (length clks + 1)) with (Z.of_nat (length clks) + 1) by lia.
Qed.

(** [n] reports against a user whose record is clean leave
    [ladder n] strikes and [n + ladder n] flags: the first strike comes with the
    tenth report and, because the strike itself raises [flags_received], every
    further one with the ninth report after it. *)
Theorem report_ladder u clks d r :
  Z.of_nat (length clks) ≤ 1000000000 →
  user_trust_scores d !! u = Some r →
  ts_strikes r = 0 → ts_flags_received r = 0 → 0 ≤ ts_trust_points r ≤ i32_max →
  ∃ r', user_trust_scores (reports u clks d) !! u = Some r' ∧
        ts_strikes r' = ladder (Z.of_nat (length clks)) ∧
        ts_flags_received r' = Z.of_nat (length clks) + ladder (Z.of_nat (length clks)).
Proof.
  intros Hl Hr Hs Hf Hp.
  destruct (reports_ladder u clks d r Hl Hr) as (r' & Hr' & Hs' & Hf' & _);
    [by unfold on_ladder; rewrite Hs, Hf|eauto].
Qed.

Lemma report_ladder_witness :
  let clk := mkClock 0 0 in
  let d := put_trust 1%N (fresh_trust 0) empty_db in
  ts_strikes <$> user_trust_scores (reports 1%N (replicate 19 clk) d) !! 1%N = Some 2 ∧
  ∃ r', user_trust_scores (reports 1%N (replicate 19 clk) d) !! 1%N = Some r' ∧
        ts_strikes r' = ladder 19 ∧ ts_flags_received r' = 19 + ladder 19.
Proof.
  split; [vm_compute; reflexivity|].
  apply (report_ladder 1%N (replicate 19 (mkClock 0 0)) _ (fresh_trust 0));
    [simpl; lia|reflexivity..|unfold i32_max; simpl; lia].
Defined.

(** A strike is recorded or the call fails without a trace; the third strike
    bans for 7 days, the fourth for 30, every later one for 365, counted from the
    application's clock: the user is banned at every earlier instant and no
    longer from then on, and is at level New. *)
Theorem strike_bans clk u d s d' :
  trust_inv d → add_strike clk u d = (Ok s, d') →
  ∃ r r', user_trust_scores d !! u = Some r ∧ user_trust_scores d' !! u = Some r' ∧
    s = ts_strikes r + 1 ∧ ts_strikes r' = s ∧
    (3 ≤ s →
       from_i32 (ts_trust_level r') = New ∧
       let until := app_now clk + days (if s =? 3 then 7 else if s =? 4 then 30 else 365) in
       ∀ clk', is_banned clk' u d' = (Ok (app_now clk' <? until), d')).
Proof.
  intros Hd. rewrite add_strike_run.
  destruct (user_trust_scores d !! u) as [r|] eqn:Hr; [|done].
  destruct (strike_row clk r) as [r'|] eqn:Hs; [|done]. intros [= <- <-].
  destruct (strike_row_ok _ _ _ (Hd _ _ Hr) Hs) as [Hok Hst].
  exists r, r'. rewrite put_trust_lookup. split_and!; [done..|]. intros H3.
  split; [by rewrite (proj1 (ok_struck _ Hok H3))|]. intros until clk'.
  unfold is_banned, reads. rewrite put_trust_lookup. do 2 f_equal.
  by rewrite (strike_row_bans _ _ _ Hs H3).
Qed.

Lemma strike_bans_witness :
  let clk := mkClock 0 0 in
  let row := mkTrustRow 2 500 100 60 0 0 0 0 2 None 0 0 0 0 0 in
  let d := put_trust 1%N row empty_db in
  ∃ r r', user_trust_scores d !! 1%N = Some r ∧
    user_trust_scores (snd (add_strike clk 1%N d)) !! 1%N = Some r' ∧
    3 = ts_strikes r + 1 ∧ ts_strikes r' = 3 ∧
    (3 ≤ 3 →
       from_i32 (ts_trust_level r') = New ∧
       ∀ clk', is_banned clk' 1%N (snd (add_strike clk 1%N d))
               = (Ok (app_now clk' <? 0 + days 7), snd (add_strike clk 1%N d))).
Proof.
  apply (strike_bans (mkClock 0 0) 1%N
    (put_trust 1%N (mkTrustRow 2 500 100 60 0 0 0 0 2 None 0 0 0 0 0) empty_db) 3).
  - intros u r. unfold put_trust. simpl. rewrite lookup_insert_Some, lookup_empty.
    intros [[_ <-]|[_ [=]]]. split; simpl; lia.
  - vm_compute. reflexivity.
Defined.

(** Whatever a recalculation finds, it stores the level the metrics call for
    and leaves the metrics alone; it never stores Verified, so a verified user is
    demoted by the first report or the first post. *)
Theorem recalculation_forgets_verified clk u d r :
  user_trust_scores d !! u = Some r →
  ∃ r', recalculate_trust_level clk u d = (Ok tt, put_trust u r' d) ∧
    r' = with_level (db_now clk) (ts_trust_level r') r ∧
    from_i32 (ts_trust_level r') = computed_level r ∧
    from_i32 (ts_trust_level r') ≠ Verified.
Proof.
  intros Hr. exists (with_level (db_now clk) (as_i32 (computed_level r)) r).
  unfold recalculate_trust_level. unfold_m. cbv beta.
  rewrite (recalculate_with_tx_run _ _ _ _ Hr). simpl. rewrite from_i32_as_i32.
  split_and!; try done. unfold computed_level, trust_level_for. by repeat case_match.
Qed.

Lemma recalculation_forgets_verified_witness :
  let row := mkTrustRow 3 1000 400 200 0 0 0 0 0 None 0 0 0 0 0 in
  ∃ r', recalculate_trust_level (mkClock 0 0) 1%N (put_trust 1%N row empty_db)
        = (Ok tt, put_trust 1%N r' (put_trust 1%N row empty_db)) ∧
    r' = with_level 0 (ts_trust_level r') row ∧
    from_i32 (ts_trust_level r') = computed_level row ∧
    from_i32 (ts_trust_level r') ≠ Verified.
Proof.
  apply (recalculation_forgets_verified (mkClock 0 0) 1%N
    (put_trust 1%N (mkTrustRow 3 1000 400 200 0 0 0 0 0 None 0 0 0 0 0) empty_db)).
  reflexivity.
Defined.
