(* ===== verification/Invites.v ===== *)
(** * Invites

    [InviteService] of [src/app/invites.rs]: codes, their quota, their
    consumption during signup, and the invite tree. The random generator is the
    argument [draw]: [draw i] is the [i]-th sample of twelve alphanumeric
    characters. *)

From S2P Require Import Prelude Sql Keyset Domain Schema RateLimits Trust.
From Stdlib Require Import Ascii.
From stdpp Require Import options.

#[local] Open Scope Z_scope.

Inductive InviteError :=
| TrustScoreNotFound
| InviteLimitReached (max : Z)
| CodeGenerationFailed
| InviteDb (e : DbError).

(** The [anyhow!] messages of [consume_invite_with_tx]. *)
Inductive ConsumeError :=
| InvalidCode | CodeRevoked | CodeExpired | CodeFullyUsed
| ConsumeDb (e : DbError).

Record InviteCode := mkInviteCode { code_text : string; code_row : InviteRow }.

Record InviteStats := mkInviteStats {
  stats_invites_sent : Z; stats_successful_invites : Z; remaining_invites : Z; max_invites : Z }.

Record InviteRelationship := mkInviteRelationship {
  rel_inviter_id : Uuid; rel_invitee_id : Uuid; rel_invite_code : string; rel_invited_at : Time }.

(** The [match trust_level] of [create_invite] and [get_invite_stats]. *)
Definition max_invites_for (trust_level : Z) : Z :=
  match trust_level with 0 => 3 | 1 => 10 | 2 => 50 | 3 => 200 | _ => 3 end.

(** [str::to_uppercase] on the alphanumeric alphabet. *)
Definition upper_char (c : ascii) : ascii :=
  let n := N_of_ascii c in
  if ((97 <=? n) && (n <=? 122))%N then ascii_of_N (n - 32) else c.
Fixpoint to_uppercase (s : string) : string :=
  match s with EmptyString => EmptyString | String c s' => String (upper_char c) (to_uppercase s') end.

(** The first of [fuel] candidates that is not taken. *)
Fixpoint first_free (d : Db) (draw : nat → string) (i fuel : nat) : option string :=
  match fuel with
  | O => None
  | S fuel' =>
      let candidate := to_uppercase (draw i) in
      if has_key candidate (invite_codes d) then first_free d draw (S i) fuel' else Some candidate
  end.

Definition generate_unique_code (draw : nat → string) : M Db InviteError string :=
  d ← get_db; ok_or (first_free d draw 0 10) CodeGenerationFailed.

Definition bump_invites (dsent dsucc dpoints : Z) (r : TrustRow) : Result DbError TrustRow :=
  let sent := ts_invites_sent r + dsent in
  let succ := ts_successful_invites r + dsucc in
  let points := ts_trust_points r + dpoints in
  in_range [sent; succ; points]
    (mkTrustRow (ts_trust_level r) points (ts_account_age_days r) (ts_posts_count r)
       (ts_comments_count r) (ts_likes_received_count r) (ts_followers_count r)
       (ts_flags_received r) (ts_strikes r) (ts_banned_until r) (ts_created_at r)
       (ts_updated_at r) (ts_last_activity_at r) sent succ).

(** The row both [INSERT]s write, with the column defaults. *)
Definition fresh_invite (t : Time) (creator : option Uuid) (expires_at : Time) (kind : string) :
    InviteRow := mkInviteRow creator None t None expires_at true kind 1 0.

Definition insert_invite (code : string) (row : InviteRow) : M Db DbError unit :=
  d ← get_db;
  _ ← guard_else (Nat.leb (String.length code) 16) StringTooLong;
  _ ← guard_else (negb (has_key code (invite_codes d))) (UniqueViolation "invite_codes_pkey");
  _ ← guard_else (match ic_created_by row with Some u => user_exists d u | None => true end)
        (ForeignKeyViolation "invite_codes_created_by_fkey");
  modifies (set_invite_codes (<[code := row]>)).

Definition create_invite (clk : Clock) (draw : nat → string) (user_id : Uuid) (days_valid : Z) :
    M Db InviteError InviteCode :=
  transaction (
    d ← get_db;
    r ← ok_or (user_trust_scores d !! user_id) TrustScoreNotFound;
    let max := max_invites_for (ts_trust_level r) in
    _ ← guard_else (ts_invites_sent r <? max) (InviteLimitReached max);
    code ← generate_unique_code draw;
    let expires_at := app_now clk + days days_valid in
    _ ← map_err InviteDb
          (insert_invite code (fresh_invite (db_now clk) (Some user_id) expires_at "standard"));
    _ ← map_err InviteDb (update_trust user_id (bump_invites 1 0 0));
    mret (Commit (mkInviteCode code
      (fresh_invite (app_now clk) (Some user_id) expires_at "standard")))).

Definition create_admin_invite (clk : Clock) (draw : nat → string) (days_valid : Z) :
    M Db InviteError InviteCode :=
  code ← generate_unique_code draw;
  let expires_at := app_now clk + days days_valid in
  _ ← map_err InviteDb (insert_invite code (fresh_invite (db_now clk) None expires_at "admin"));
  mret (mkInviteCode code (fresh_invite (app_now clk) None expires_at "admin")).

Definition mark_used (t : Time) (new_user_id : Uuid) (still_valid : bool) (r : InviteRow) : InviteRow :=
  mkInviteRow (ic_created_by r) (Some new_user_id) (ic_created_at r) (Some t) (ic_expires_at r)
    still_valid (ic_invite_type r) (ic_max_uses r) (ic_use_count r + 1).

Definition consume_invite_with_tx (clk : Clock) (code : string) (new_user_id : Uuid) :
    M Db ConsumeError (option Uuid) :=
  d ← get_db;
  row ← ok_or (invite_codes d !! code) InvalidCode;
  _ ← guard_else (ic_is_valid row) CodeRevoked;
  _ ← guard_else (negb (ic_expires_at row <? app_now clk)) CodeExpired;
  _ ← guard_else (ic_use_count row <? ic_max_uses row) CodeFullyUsed;
  let is_fully_used := ic_max_uses row <=? ic_use_count row + 1 in
  _ ← guard_else (user_exists d new_user_id)
        (ConsumeDb (ForeignKeyViolation "invite_codes_used_by_fkey"));
  _ ← modifies (set_invite_codes (<[code := mark_used (db_now clk) new_user_id (negb is_fully_used) row]>));
  _ ← match ic_created_by row with
      | None => mret tt
      | Some inviter_id =>
          _ ← guard_else (negb (has_key (inviter_id, new_user_id) (invite_relationships d)))
                (ConsumeDb (UniqueViolation "invite_relationships_pkey"));
          _ ← modifies (set_invite_relationships
                (<[(inviter_id, new_user_id) := mkInviteRelRow code (db_now clk)]>));
          _ ← map_err ConsumeDb (update_trust inviter_id (bump_invites 0 1 10));
          mret tt
      end;
  mret (ic_created_by row).

Definition consume_invite (clk : Clock) (code : string) (new_user_id : Uuid) :
    M Db ConsumeError (option Uuid) :=
  transaction (o ← consume_invite_with_tx clk code new_user_id; mret (Commit o)).

Definition list_user_invites (user_id : Uuid) : M Db DbError (list InviteCode) :=
  reads (λ d, take 50 (order_by (λ i, (ic_created_at (code_row i), 0%N)) Desc
    (select (λ c r, if decide (ic_created_by r = Some user_id) then Some (mkInviteCode c r) else None)
       (invite_codes d)))).

Definition get_invite_stats (user_id : Uuid) : M Db DbError InviteStats :=
  d ← get_db;
  r ← ok_or (user_trust_scores d !! user_id) RowNotFound;
  let max := max_invites_for (ts_trust_level r) in
  mret (mkInviteStats (ts_invites_sent r) (ts_successful_invites r)
          (Z.max 0 (max - ts_invites_sent r)) max).

Definition validate_invite (clk : Clock) (code : string) : M Db DbError bool :=
  reads (λ d, match invite_codes d !! code with
              | None => false
              | Some r => ic_is_valid r && (app_now clk <? ic_expires_at r)
                          && (ic_use_count r <? ic_max_uses r)
              end).

Definition invalidate (r : InviteRow) : InviteRow :=
  mkInviteRow (ic_created_by r) (ic_used_by r) (ic_created_at r) (ic_used_at r)
    (ic_expires_at r) false (ic_invite_type r) (ic_max_uses r) (ic_use_count r).

Definition revoke_invite (code : string) (user_id : Uuid) : M Db DbError bool :=
  d ← get_db;
  match invite_codes d !! code with
  | Some r =>
      if bool_decide (ic_created_by r = Some user_id) && ic_is_valid r
      then _ ← modifies (set_invite_codes (<[code := invalidate r]>)); mret true
      else mret false
  | None => mret false
  end.

(** [SELECT .. FROM invite_relationships WHERE inviter_id = $1]. *)
Definition invitees (d : Db) (user_id : Uuid) : list InviteRelationship :=
  select (λ k r, if decide (k.1 = user_id)
                 then Some (mkInviteRelationship k.1 k.2 (ir_invite_code r) (ir_invited_at r))
                 else None) (invite_relationships d).

(** [get_invite_tree_recursive]: depth-first, [depth] an [i32]. *)
Fixpoint invite_tree (d : Db) (depth : nat) (user_id : Uuid) : list InviteRelationship :=
  match depth with
  | O => []
  | S depth' =>
      concat ((λ rel, rel :: invite_tree d depth' (rel_invitee_id rel)) <$> invitees d user_id)
  end.

Definition get_invite_tree (user_id : Uuid) (depth : Z) : M Db DbError (list InviteRelationship) :=
  reads (λ d, invite_tree d (Z.to_nat depth) user_id).

(** ** Codes *)

(** A code is never used more often than it allows, and a code that is marked
    valid has a use left. *)
Record invite_ok (r : InviteRow) : Prop := {
  use_nonneg : 0 ≤ ic_use_count r;
  use_bounded : ic_use_count r ≤ ic_max_uses r;
  valid_has_use : ic_is_valid r = true → ic_use_count r < ic_max_uses r }.

Definition invite_inv (d : Db) : Prop := ∀ c r, invite_codes d !! c = Some r → invite_ok r.

Lemma first_free_spec d draw i fuel c :
  first_free d draw i fuel = Some c → invite_codes d !! c = None.
Proof.
  revert i. induction fuel as [|fuel IH]; intros i; simpl; [done|].
  destruct (has_key _ _) eqn:Hk; [by apply IH|]. intros [= <-]. by apply has_key_false.
Qed.

(** What a successful [create_*] leaves in [invite_codes]. *)
Lemma create_invite_ok clk draw u days_valid d i d' :
  create_invite clk draw u days_valid d = (Ok i, d') →
  ∃ r r', user_trust_scores d !! u = Some r ∧
    invite_codes d !! code_text i = None ∧
    invite_codes d' = <[code_text i := fresh_invite (db_now clk) (Some u)
                          (ic_expires_at (code_row i)) "standard"]> (invite_codes d) ∧
    bump_invites 1 0 0 r = Ok r' ∧
    user_trust_scores d' = <[u := r']> (user_trust_scores d) ∧
    ts_invites_sent r < max_invites_for (ts_trust_level r).
Proof.
  unfold create_invite, generate_unique_code, insert_invite, update_trust.
  intros Hrun. run; bool_to_prop; simplify_eq.
  all: match goal with H : first_free _ _ _ _ = Some _ |- _ => apply first_free_spec in H end.
  all: match goal with H : _ = Some ?r |- context [ts_invites_sent _ < _] =>
         exists r end.
  all: simpl in *; simplify_eq; eexists; split_and!; eauto; by apply Z.ltb_lt.
Qed.

Lemma create_admin_invite_ok clk draw days_valid d i d' :
  create_admin_invite clk draw days_valid d = (Ok i, d') →
  invite_codes d !! code_text i = None ∧
  invite_codes d' = <[code_text i := fresh_invite (db_now clk) None
                        (ic_expires_at (code_row i)) "admin"]> (invite_codes d) ∧
  user_trust_scores d' = user_trust_scores d.
Proof.
  unfold create_admin_invite, generate_unique_code, insert_invite.
  intros Hrun. run; bool_to_prop; simplify_eq.
  match goal with H : first_free _ _ _ _ = Some _ |- _ => apply first_free_spec in H end.
  done.
Qed.

Lemma create_admin_invite_err clk draw days_valid d e d' :
  create_admin_invite clk draw days_valid d = (Err e, d') → d' = d.
Proof.
  unfold create_admin_invite, generate_unique_code, insert_invite. intros Hrun.
  run; by simplify_eq.
Qed.

Lemma consume_with_tx_ok clk code u d o d' :
  consume_invite_with_tx clk code u d = (Ok o, d') →
  ∃ r, invite_codes d !! code = Some r ∧ o = ic_created_by r ∧
    ic_is_valid r = true ∧ app_now clk ≤ ic_expires_at r ∧ ic_use_count r < ic_max_uses r ∧
    invite_codes d' = <[code := mark_used (db_now clk) u
       (negb (ic_max_uses r <=? ic_use_count r + 1)) r]> (invite_codes d) ∧
    users d' = users d ∧
    (∀ v, ic_created_by r = Some v →
       invite_relationships d' !! (v, u) = Some (mkInviteRelRow code (db_now clk))) ∧
    (∀ v, ic_created_by r ≠ Some v → user_trust_scores d' !! v = user_trust_scores d !! v).
Proof.
  unfold consume_invite_with_tx, update_trust. intros Hrun.
  run; bool_to_prop; simplify_eq.
  all: eexists; split_and!; eauto.
  all: try by apply Z.ltb_lt.
  all: try by apply Z.ltb_ge.
  all: simpl; try congruence.
  all: try (intros v Hv; simplify_eq; apply lookup_insert_eq).
  all: intros v Hv; rewrite lookup_insert_ne; [done|congruence].
Qed.

Lemma consume_invite_ok clk code u d o d' :
  consume_invite clk code u d = (Ok o, d') → consume_invite_with_tx clk code u d = (Ok o, d').
Proof.
  unfold consume_invite. unfold_m. cbv beta.
  destruct (consume_invite_with_tx clk code u d) as [[]]; naive_solver.
Qed.

Lemma revoke_invite_codes code u d :
  invite_codes (snd (revoke_invite code u d)) = invite_codes d ∨
  ∃ r, invite_codes d !! code = Some r ∧
       invite_codes (snd (revoke_invite code u d)) = <[code := invalidate r]> (invite_codes d).
Proof. unfold revoke_invite. run; eauto. Qed.

(** ** Histories of a code *)

Inductive InviteEvent :=
| EvCreate (clk : Clock) (draw : nat → string) (u : Uuid) (days_valid : Z)
| EvAdmin (clk : Clock) (draw : nat → string) (days_valid : Z)
| EvConsume (clk : Clock) (code : string) (u : Uuid)
| EvRevoke (code : string) (u : Uuid).

(** Runs an event; the flag tells whether it admitted a user through [code]. *)
Definition invite_event (code : string) (e : InviteEvent) (d : Db) : bool * Db :=
  match e with
  | EvCreate clk draw u n => (false, snd (create_invite clk draw u n d))
  | EvAdmin clk draw n => (false, snd (create_admin_invite clk draw n d))
  | EvConsume clk c u =>
      let '(o, d') := consume_invite clk c u d in (is_ok o && bool_decide (c = code), d')
  | EvRevoke c u => (false, snd (revoke_invite c u d))
  end.

(** How many users the events admit through [code]. *)
Fixpoint admissions (code : string) (es : list InviteEvent) (d : Db) : Z :=
  match es with
  | [] => 0
  | e :: es' =>
      let '(b, d') := invite_event code e d in (if b then 1 else 0) + admissions code es' d'
  end.

Lemma fresh_invite_ok t u x k : invite_ok (fresh_invite t u x k).
Proof. split; simpl; lia. Qed.
Lemma invalidate_ok r : invite_ok r → invite_ok (invalidate r).
Proof. intros []. by split. Qed.
Lemma mark_used_ok t u r :
  invite_ok r → ic_use_count r < ic_max_uses r →
  invite_ok (mark_used t u (negb (ic_max_uses r <=? ic_use_count r + 1)) r).
Proof.
  intros [] Hlt. split; simpl; [lia..|]. intros Hv%negb_true_iff%Z.leb_gt. lia.
Qed.

Lemma invite_inv_insert d d' c r :
  invite_codes d' = <[c := r]> (invite_codes d) → invite_ok r → invite_inv d → invite_inv d'.
Proof.
  intros He Hr Hd c' r'. rewrite He, lookup_insert_Some.
  intros [[_ <-]|[_ Hl]]; [done|by eapply Hd].
Qed.

(** One event: the invariant is kept, and a present code keeps its [max_uses]
    while its [use_count] rises by the number of admissions. *)
Lemma invite_event_step code e d r :
  invite_inv d → invite_codes d !! code = Some r →
  let '(b, d') := invite_event code e d in
  invite_inv d' ∧
  ∃ r', invite_codes d' !! code = Some r' ∧ ic_max_uses r' = ic_max_uses r ∧
        ic_use_count r' = ic_use_count r + if b then 1 else 0.
Proof.
  intros Hd Hr.
  assert (Hsame : ∀ d', invite_codes d' = invite_codes d → invite_inv d' ∧
    ∃ r', invite_codes d' !! code = Some r' ∧ ic_max_uses r' = ic_max_uses r ∧
          ic_use_count r' = ic_use_count r + 0).
  { intros d' He. unfold invite_inv. rewrite He. split; [done|]. eauto with lia. }
  assert (Hput : ∀ d' c x n, invite_codes d' = <[c := x]> (invite_codes d) → invite_ok x →
    (if decide (c = code) then ic_max_uses x = ic_max_uses r ∧ ic_use_count x = ic_use_count r + n
     else n = 0) →
    invite_inv d' ∧ ∃ r', invite_codes d' !! code = Some r' ∧ ic_max_uses r' = ic_max_uses r ∧
                          ic_use_count r' = ic_use_count r + n).
  { intros d' c x n He Hx Hn. split; [by eapply invite_inv_insert|]. rewrite He.
    destruct (decide (c = code)) as [->|].
    - exists x. rewrite lookup_insert_eq. naive_solver.
    - exists r. rewrite lookup_insert_ne by done. naive_solver lia. }
  destruct e as [clk draw u n|clk draw n|clk c u|c u]; cbn [invite_event].
  - destruct (create_invite clk draw u n d) as [[i|e] d'] eqn:Hc.
    + apply create_invite_ok in Hc as (? & ? & _ & Hfree & He & _).
      eapply Hput; [exact He|apply fresh_invite_ok|]. case_decide; [congruence|done].
    + apply transaction_err in Hc as ->. by apply Hsame.
  - destruct (create_admin_invite clk draw n d) as [[i|e] d'] eqn:Hc.
    + apply create_admin_invite_ok in Hc as (Hfree & He & _).
      eapply Hput; [exact He|apply fresh_invite_ok|]. case_decide; [congruence|done].
    + apply create_admin_invite_err in Hc as ->. by apply Hsame.
  - destruct (consume_invite clk c u d) as [[o|e] d'] eqn:Hc.
    + apply consume_invite_ok, consume_with_tx_ok in Hc as (x & Hx & _ & _ & _ & Hlt & He & _). simpl.
      eapply Hput; [exact He|by apply mark_used_ok; [eapply Hd|]|].
      case_bool_decide; case_decide; try done. simplify_eq. done.
    + apply transaction_err in Hc as ->. by apply Hsame.
  - destruct (revoke_invite_codes c u d) as [He|(x & Hx & He)]; [by apply Hsame|].
    eapply Hput; [exact He|by apply invalidate_ok; eapply Hd|].
    case_decide; [|done]. simplify_eq. simpl. lia.
Qed.

(** Whatever sequence of create, revoke and consume requests runs, in whatever
    order, a code admits at most as many users as it has uses left; a standard or
    admin code ([max_uses = 1]) admits one. *)
Theorem invite_admissions_bounded code es d r :
  invite_inv d → invite_codes d !! code = Some r →
  admissions code es d ≤ ic_max_uses r - ic_use_count r.
Proof.
  revert d r. induction es as [|e es IH]; intros d r Hd Hr; simpl.
  - destruct (Hd _ _ Hr). lia.
  - pose proof (invite_event_step code e d r Hd Hr) as Hstep.
    destruct (invite_event code e d) as [b d']. destruct Hstep as (Hd' & r' & Hr' & Hm & Hu).
    specialize (IH d' r' Hd' Hr'). destruct b; lia.
Qed.

Lemma invite_admissions_bounded_witness :
  let d := set_users (λ _, {[ 5%N := mkUserRow "a" "a@x" "A" None None 0 "" None;
                              6%N := mkUserRow "b" "b@x" "B" None None 0 "" None ]})
           (set_invite_codes (λ _, {[ "CODE" := fresh_invite 0 None 100 "admin" ]}) empty_db) in
  let es := [EvConsume (mkClock 1 1) "CODE" 5%N; EvConsume (mkClock 2 2) "CODE" 6%N] in
  admissions "CODE" es d = 1 ∧ admissions "CODE" es d ≤ 1 - 0.
Proof.
  split; [vm_compute; reflexivity|].
  apply (invite_admissions_bounded "CODE" _ _ (fresh_invite 0 None 100 "admin")); [|reflexivity].
  intros c r. simpl. rewrite lookup_singleton_Some. intros [_ <-]. apply fresh_invite_ok.
Defined.

(** [create_invite] either fails and changes nothing, or hands out a code that
    was not in use, stores it as valid, unused and expiring after [days_valid]
    days, and counts it; it does so only while the user is below the quota of the
    trust level (3, 10, 50, 200). *)
Theorem create_invite_quota clk draw u days_valid d o d' :
  create_invite clk draw u days_valid d = (o, d') →
  match o with
  | Err _ => d' = d
  | Ok i =>
      invite_codes d !! code_text i = None ∧
      invite_codes d' !! code_text i
        = Some (fresh_invite (db_now clk) (Some u) (app_now clk + days days_valid) "standard") ∧
      ∃ r r', user_trust_scores d !! u = Some r ∧ user_trust_scores d' !! u = Some r' ∧
        ts_invites_sent r < max_invites_for (ts_trust_level r) ∧
        ts_invites_sent r' = ts_invites_sent r + 1
  end.
Proof.
  intros Hrun. destruct o as [i|e]; [|by eapply transaction_err].
  assert (Hexp : ic_expires_at (code_row i) = app_now clk + days days_valid).
  { unfold create_invite, generate_unique_code, insert_invite, update_trust in Hrun.
    run; by simplify_eq. }
  apply create_invite_ok in Hrun as (r & r' & Hr & Hfree & He & Hb & Ht & Hq).
  split_and!; [done|by rewrite He, lookup_insert_eq, Hexp|].
  exists r, r'. rewrite Ht, lookup_insert_eq. split_and!; try done.
  by apply in_range_Ok in Hb as [-> _].
Qed.

Lemma create_invite_quota_witness :
  let row := mkTrustRow 0 0 0 0 0 0 0 0 0 None 0 0 0 2 0 in
  let d := set_users (λ _, {[ 5%N := mkUserRow "a" "a@x" "A" None None 0 "" None ]})
             (put_trust 5%N row empty_db) in
  let d' := snd (create_invite (mkClock 0 0) (λ _, "abc123abc123") 5%N 7 d) in
  invite_codes d !! "ABC123ABC123" = None ∧
  invite_codes d' !! "ABC123ABC123" = Some (fresh_invite 0 (Some 5%N) (0 + days 7) "standard") ∧
  ∃ r r', user_trust_scores d !! 5%N = Some r ∧ user_trust_scores d' !! 5%N = Some r' ∧
    ts_invites_sent r < max_invites_for (ts_trust_level r) ∧
    ts_invites_sent r' = ts_invites_sent r + 1.
Proof.
  apply (create_invite_quota (mkClock 0 0) (λ _, "abc123abc123") 5%N 7
    (set_users (λ _, {[ 5%N := mkUserRow "a" "a@x" "A" None None 0 "" None ]})
       (put_trust 5%N (mkTrustRow 0 0 0 0 0 0 0 0 0 None 0 0 0 2 0) empty_db))
    (Ok (mkInviteCode "ABC123ABC123" (fresh_invite 0 (Some 5%N) (0 + days 7) "standard")))).
  vm_compute. reflexivity.
Defined.

(** The pre-check and the consumption agree except at one instant: a code that
    can be consumed validates, unless the clock reads exactly its expiry, when
    [consume_invite] still accepts it and [validate_invite] already refuses. *)
Theorem validate_agrees_with_consume clk code u d o d' r :
  invite_codes d !! code = Some r → consume_invite clk code u d = (Ok o, d') →
  fst (validate_invite clk code d) = Ok (negb (app_now clk =? ic_expires_at r)).
Proof.
  intros Hr Hc. apply consume_invite_ok, consume_with_tx_ok in Hc as (r0 & Hr0 & _ & Hv & He & Hu & _).
  simplify_eq. unfold validate_invite. unfold_m. simpl. rewrite Hr, Hv.
  rewrite (proj2 (Z.ltb_lt _ _) Hu), andb_true_r. simpl. f_equal.
  destruct (Z.eqb_spec (app_now clk) (ic_expires_at r)); simpl.
  - apply Z.ltb_ge. lia.
  - apply Z.ltb_lt. lia.
Qed.

Lemma validate_agrees_with_consume_witness :
  let row := fresh_invite 0 None 100 "admin" in
  let d := set_users (λ _, {[ 5%N := mkUserRow "a" "a@x" "A" None None 0 "" None ]})
             (set_invite_codes (λ _, {[ "CODE" := row ]}) empty_db) in
  fst (validate_invite (mkClock 100 100) "CODE" d) = Ok (negb (100 =? 100)).
Proof.
  eapply (validate_agrees_with_consume (mkClock 100 100) "CODE" 5%N
    (set_users (λ _, {[ 5%N := mkUserRow "a" "a@x" "A" None None 0 "" None ]})
       (set_invite_codes (λ _, {[ "CODE" := fresh_invite 0 None 100 "admin" ]}) empty_db))
    None _ (fresh_invite 0 None 100 "admin")); [reflexivity|].
  vm_compute. reflexivity.
Defined.
