(* ===== verification/Crypto.v ===== *)
(** * Cryptographic interface

    What [src/app/auth.rs] calls of argon2, PASETO v4.local ([pasetors]),
    SHA-256 and [Uuid::parse_str], as an interface: the operations are arguments
    of the authentication service, the laws are the documented behaviour it
    relies on. A toy instance shows the laws are consistent. *)

From S2P Require Import Prelude Text.
From Stdlib Require Import Ascii.
From stdpp Require Import options countable.

(** [pasetors::claims::Claims], the entries the service reads and writes. *)
Record Claims := mkClaims {
  cl_iss : string; cl_aud : string; cl_sub : option string; cl_jti : option string;
  cl_typ : option string; cl_iat : Time; cl_nbf : Time; cl_exp : Time }.

Class Crypto := {
  (** [Argon2::hash_password] with a generated salt; [None] on failure. *)
  argon2_hash : string → string → option string;
  (** [PasswordHash::new] and [verify_password]; [None] for a malformed hash. *)
  argon2_verify : string → string → option bool;
  (** [local::encrypt] under a key, with its nonce. *)
  paseto_encrypt : string → string → Claims → string;
  (** [UntrustedToken::try_from] and [local::decrypt] with the validation rules
      of [decrypt_claims] (issuer and audience "ciel", plus the default checks of
      the time claims) at an instant. *)
  paseto_decrypt : string → Time → string → option Claims;
  sha256_hex : string → string;
  uuid_parse : string → option Uuid }.

(** The claims pass the validation rules at [now]. *)
Definition claims_valid (now : Time) (c : Claims) : Prop :=
  cl_iss c = "ciel" ∧ cl_aud c = "ciel" ∧
  (cl_iat c ≤ now)%Z ∧ (cl_nbf c ≤ now)%Z ∧ (now < cl_exp c)%Z.

Global Instance claims_valid_dec now c : Decision (claims_valid now c).
Proof. unfold claims_valid. apply _. Defined.

Class CryptoLaws `{Crypto} : Prop := {
  (** What was encrypted under a key decrypts under it, as long as it is valid. *)
  paseto_roundtrip key nonce now c :
    claims_valid now c → paseto_decrypt key now (paseto_encrypt key nonce c) = Some c;
  (** Decryption only returns claims that pass the rules. *)
  paseto_validates key now t c : paseto_decrypt key now t = Some c → claims_valid now c;
  (** The hyphenated form of a uuid parses back. *)
  uuid_parse_str u : valid_uuid u → uuid_parse (uuid_str u) = Some u;
  (** A password verifies against a hash made from it. *)
  argon2_roundtrip salt p h : argon2_hash salt p = Some h → argon2_verify p h = Some true }.

(** ** A toy instance *)

Module Toy.

(** Positive numbers as strings of binary digits. *)
Fixpoint bits (p : positive) : string :=
  match p with
  | xH => ""
  | xO p' => String "0" (bits p')
  | xI p' => String "1" (bits p')
  end.
Fixpoint unbits (s : string) : positive :=
  match s with
  | EmptyString => xH
  | String c s' => if decide (c = "0"%char) then xO (unbits s') else xI (unbits s')
  end.

Lemma unbits_bits p : unbits (bits p) = p.
Proof. induction p as [p IH|p IH|]; simpl; by rewrite ?IH. Qed.

(** A string, quoted so that the end can be found. *)
Fixpoint quote (s rest : string) : string :=
  match s with
  | EmptyString => String "." rest
  | String c s' => String "c" (String c (quote s' rest))
  end.
Fixpoint unquote (s : string) : option (string * string) :=
  match s with
  | EmptyString => None
  | String x s' =>
      if decide (x = "."%char) then Some ("", s')
      else match s' with
           | EmptyString => None
           | String c s'' => '(l, rest) ← unquote s''; Some (String c l, rest)
           end
  end.

Lemma unquote_quote s rest : unquote (quote s rest) = Some (s, rest).
Proof. induction s as [|c s IH]; simpl; [done|]. by rewrite IH. Qed.

Definition of_opt (o : option string) : string :=
  match o with None => "" | Some s => String "s" s end.
Definition to_opt (s : string) : option string :=
  match s with EmptyString => None | String _ s' => Some s' end.
Definition of_Z (z : Z) : string := bits (encode z).
Definition to_Z (s : string) : Z := default 0%Z (decode (unbits s)).

Definition toy_encrypt (key nonce : string) (c : Claims) : string :=
  quote key (quote (cl_iss c) (quote (cl_aud c) (quote (of_opt (cl_sub c))
  (quote (of_opt (cl_jti c)) (quote (of_opt (cl_typ c)) (quote (of_Z (cl_iat c))
  (quote (of_Z (cl_nbf c)) (quote (of_Z (cl_exp c)) "")))))))).

Definition toy_decrypt (key : string) (now : Time) (t : string) : option Claims :=
  '(k, t) ← unquote t; '(iss, t) ← unquote t; '(aud, t) ← unquote t; '(sub, t) ← unquote t;
  '(jti, t) ← unquote t; '(typ, t) ← unquote t; '(iat, t) ← unquote t; '(nbf, t) ← unquote t;
  '(exp, t) ← unquote t;
  let c := mkClaims iss aud (to_opt sub) (to_opt jti) (to_opt typ) (to_Z iat) (to_Z nbf) (to_Z exp) in
  if decide (k = key ∧ claims_valid now c) then Some c else None.

Lemma to_opt_of o : to_opt (of_opt o) = o.
Proof. by destruct o. Qed.
Lemma to_Z_of z : to_Z (of_Z z) = z.
Proof. unfold to_Z, of_Z. by rewrite unbits_bits, decode_encode. Qed.
End Toy.

Definition toy_crypto : Crypto := {|
  argon2_hash salt p := Some (salt +:+ p);
  argon2_verify p h := Some (bool_decide (String.substring (String.length h - String.length p)
                                            (String.length p) h = p));
  paseto_encrypt := Toy.toy_encrypt;
  paseto_decrypt := Toy.toy_decrypt;
  sha256_hex := id;
  uuid_parse s := Some (uuid_of_str s) |}.

Lemma substring_app s p :
  String.substring (String.length s) (String.length p) (s +:+ p) = p.
Proof.
  induction s as [|c s IH]; [|done].
  change ("" +:+ p) with p. simpl. induction p as [|c p IH]; simpl; by rewrite ?IH.
Qed.

Lemma toy_crypto_laws : @CryptoLaws toy_crypto.
Proof.
  split.
  - intros key nonce now c Hv. simpl. unfold Toy.toy_decrypt, Toy.toy_encrypt.
    repeat (rewrite Toy.unquote_quote; simpl).
    rewrite !Toy.to_opt_of, !Toy.to_Z_of. destruct c. simpl in *. by rewrite decide_True.
  - intros key now t c. simpl. unfold Toy.toy_decrypt. intros Hd.
    repeat (apply bind_Some in Hd as ([? ?] & _ & Hd)).
    case_decide; [|done]. injection Hd as <-. naive_solver.
  - intros u Hu. simpl. by rewrite uuid_of_str_spec.
  - intros salt p h [= <-]. simpl. rewrite append_length.
    replace (String.length salt + String.length p - String.length p)
      with (String.length salt) by lia.
    by rewrite substring_app, bool_decide_true.
Qed.
