(* ===== verification/Auth.v ===== *)
(** * Authentication

    [AuthService] of [src/app/auth.rs]: signup, login, access tokens, and the
    rotation of refresh tokens with reuse detection. The cryptography is the
    interface of [Crypto]; the salt, the nonces and the generated ids of a call
    are its arguments. *)

From S2P Require Import Prelude Text Sql Domain Schema Social Users RateLimits Trust Invites Crypto.
From stdpp Require Import options.

#[local] Open Scope Z_scope.

Inductive AuthError :=
| AuthDb (e : DbError)
| AuthInvite (e : ConsumeError)   (* the message of the invite error *)
| Banned
| Internal.                       (* any other [anyhow::Error] *)

Record AuthSession := mkSession { session_user_id : Uuid }.

Record TokenPair := mkTokenPair {
  access_token : string; refresh_token : string;
  access_expires_at : Time; refresh_expires_at : Time }.

(** The fields of [AuthService]. *)
Record AuthConfig := mkAuthConfig {
  access_key : string; refresh_key : string; access_ttl_minutes : Z; refresh_ttl_days : Z }.

(** What a call that issues a token pair draws: [Uuid::new_v4] and the nonces. *)
Record Draws := mkDraws { new_refresh_id : Uuid; access_nonce : string; refresh_nonce : string }.

Section auth.
Context `{Crypto} (cfg : AuthConfig).

Definition hash_token (token : string) : string := sha256_hex token.

Definition hash_password (salt password : string) : M Db AuthError string :=
  ok_or (argon2_hash salt password) Internal.

(** A malformed hash counts as a wrong password. *)
Definition verify_password (password hash : string) : bool :=
  match argon2_verify password hash with Some b => b | None => false end.

Definition has_token_type (c : Claims) (expected : string) : bool :=
  match cl_typ c with Some v => bool_decide (v = expected) | None => false end.

(** [claim_uuid]: the claim is missing or is not a uuid. *)
Definition claim_uuid (claim : option string) : option Uuid := claim ≫= uuid_parse.

Definition decrypt_claims (now : Time) (token key : string) : option Claims :=
  paseto_decrypt key now token.

Definition build_access_claims (now : Time) (user_id : Uuid) : Claims * Time :=
  let exp := now + seconds (access_ttl_minutes cfg * 60) in
  (mkClaims "ciel" "ciel" (Some (uuid_str user_id)) None (Some "access") now now exp, exp).

Definition build_refresh_claims (now : Time) (user_id refresh_id : Uuid) : Claims * Time :=
  let exp := now + days (refresh_ttl_days cfg) in
  (mkClaims "ciel" "ciel" (Some (uuid_str user_id)) (Some (uuid_str refresh_id))
     (Some "refresh") now now exp, exp).

(** [INSERT INTO refresh_tokens (..)]. *)
Definition insert_refresh_token (id : Uuid) (row : RefreshRow) : M Db DbError unit :=
  d ← get_db;
  _ ← guard_else (negb (has_key id (refresh_tokens d))) (UniqueViolation "refresh_tokens_pkey");
  _ ← guard_else (negb (exists_where (λ _ r, bool_decide (rt_token_hash r = rt_token_hash row))
                          (refresh_tokens d)))
        (UniqueViolation "refresh_tokens_token_hash_key");
  _ ← guard_else (user_exists d (rt_user_id row))
        (ForeignKeyViolation "refresh_tokens_user_id_fkey");
  modifies (set_refresh_tokens (<[id := row]>)).

Definition issue_token_pair_with_tx (clk : Clock) (dr : Draws) (user_id : Uuid) :
    M Db AuthError (Uuid * TokenPair) :=
  let '(access_claims, access_exp) := build_access_claims (app_now clk) user_id in
  let access := paseto_encrypt (access_key cfg) (access_nonce dr) access_claims in
  let refresh_id := new_refresh_id dr in
  let '(refresh_claims, refresh_exp) := build_refresh_claims (app_now clk) user_id refresh_id in
  let refresh := paseto_encrypt (refresh_key cfg) (refresh_nonce dr) refresh_claims in
  _ ← map_err (λ _, Internal)
        (insert_refresh_token refresh_id
           (mkRefreshRow user_id (hash_token refresh) (db_now clk) refresh_exp None None));
  mret (refresh_id, mkTokenPair access refresh access_exp refresh_exp).

Definition issue_token_pair (clk : Clock) (dr : Draws) (user_id : Uuid) : M Db AuthError TokenPair :=
  transaction (t ← issue_token_pair_with_tx clk dr user_id; mret (Commit t.2)).

(** [INSERT INTO users (..) RETURNING ..]. *)
Definition insert_user (id : Uuid) (row : UserRow) : M Db DbError unit :=
  d ← get_db;
  _ ← guard_else (negb (has_key id (users d))) (UniqueViolation "users_pkey");
  _ ← guard_else (negb (exists_where (λ _ r, bool_decide (u_handle r = u_handle row)) (users d)))
        (UniqueViolation "users_handle_key");
  _ ← guard_else (negb (exists_where (λ _ r, bool_decide (u_email r = u_email row)) (users d)))
        (UniqueViolation "users_email_key");
  modifies (set_users (<[id := row]>)).

Definition signup (clk : Clock) (salt : string) (new_id : Uuid)
    (handle email display_name : string) (bio avatar_key : option string)
    (password invite_code : string) : M Db AuthError User :=
  password_hash ← hash_password salt password;
  transaction (
    let row := mkUserRow handle email display_name bio avatar_key (db_now clk) password_hash None in
    _ ← map_err AuthDb (insert_user new_id row);
    _ ← map_err (λ _, Internal) (initialize_user clk new_id);
    _ ← map_err AuthInvite (consume_invite_with_tx clk invite_code new_id);
    mret (Commit (row_to_user new_id row))).

(** The [LEFT JOIN] on [user_trust_scores]. *)
Definition banned_until_of (d : Db) (u : Uuid) : option Time :=
  user_trust_scores d !! u ≫= ts_banned_until.
Definition banned_at (now : Time) (until : option Time) : bool :=
  match until with Some t => now <? t | None => false end.

(** The accounts an identifier names; the query takes the first it meets. *)
Definition login_rows (d : Db) (identifier : string) : list (Uuid * UserRow) :=
  select (λ k r, if (bool_decide (u_email r = identifier) || bool_decide (u_handle r = identifier))
                     && bool_decide (u_deleted_at r = None)
                 then Some (k, r) else None) (users d).

Definition login (clk : Clock) (dr : Draws) (identifier password : string) :
    M Db AuthError (option TokenPair) :=
  d ← get_db;
  match login_rows d identifier with
  | [] => mret None
  | (user_id, r) :: _ =>
      if bool_decide (u_password_hash r = "") then mret None
      else if negb (verify_password password (u_password_hash r)) then mret None
      else if banned_at (app_now clk) (banned_until_of d user_id) then throw Banned
      else tokens ← issue_token_pair clk dr user_id; mret (Some tokens)
  end.

Definition verify_refresh_token (now : Time) (token : string) : option (Uuid * Uuid) :=
  c ← decrypt_claims now token (refresh_key cfg);
  if has_token_type c "refresh"
  then u ← claim_uuid (cl_sub c); r ← claim_uuid (cl_jti c); Some (u, r)
  else None.

(** The row [refresh] locks: the token's own row, unexpired, with the owner. *)
Definition refresh_row (clk : Clock) (d : Db) (user_id refresh_id : Uuid) (token_hash : string) :
    option (RefreshRow * UserRow) :=
  match refresh_tokens d !! refresh_id with
  | Some r =>
      if bool_decide (rt_user_id r = user_id) && bool_decide (rt_token_hash r = token_hash)
         && (db_now clk <? rt_expires_at r)
      then pair r <$> users d !! user_id
      else None
  | None => None
  end.

Definition replaced (t : Time) (by_id : Uuid) (r : RefreshRow) : RefreshRow :=
  mkRefreshRow (rt_user_id r) (rt_token_hash r) (rt_created_at r) (rt_expires_at r)
    (Some t) (Some by_id).

Definition refresh (clk : Clock) (dr : Draws) (token : string) :
    M Db AuthError (option TokenPair) :=
  match verify_refresh_token (app_now clk) token with
  | None => mret None
  | Some (user_id, refresh_id) =>
      transaction (
        d ← get_db;
        match refresh_row clk d user_id refresh_id (hash_token token) with
        | None => mret (Rollback None)
        | Some (r, owner) =>
            if bool_decide (rt_revoked_at r ≠ None) then
              _ ← modifies (revoke_all_tokens (db_now clk) user_id);
              mret (Commit None)
            else if bool_decide (u_deleted_at owner ≠ None) then mret (Rollback None)
            else if banned_at (app_now clk) (banned_until_of d user_id) then throw Banned
            else
              t ← issue_token_pair_with_tx clk dr user_id;
              _ ← modifies (set_refresh_tokens (update_where
                    (λ k r, bool_decide (k = refresh_id) && bool_decide (rt_revoked_at r = None))
                    (replaced (db_now clk) t.1)));
              mret (Commit (Some t.2))
        end)
  end.

Definition revoke_refresh_token (clk : Clock) (token : string) : M Db AuthError bool :=
  match verify_refresh_token (app_now clk) token with
  | None => mret false
  | Some (user_id, refresh_id) =>
      d ← get_db;
      match refresh_tokens d !! refresh_id with
      | Some r =>
          if bool_decide (rt_user_id r = user_id)
             && bool_decide (rt_token_hash r = hash_token token)
             && bool_decide (rt_revoked_at r = None)
          then _ ← modifies (set_refresh_tokens (<[refresh_id := revoked (db_now clk) r]>)); mret true
          else mret false
      | None => mret false
      end
  end.

(** [u.deleted_at IS NULL AND (banned_until IS NULL OR banned_until <= now())]. *)
Definition account_active (clk : Clock) (d : Db) (u : Uuid) : bool :=
  match active_user d u with
  | Some _ => negb (banned_at (db_now clk) (banned_until_of d u))
  | None => false
  end.

Definition authenticate_access_token (clk : Clock) (token : string) :
    M Db AuthError (option AuthSession) :=
  match decrypt_claims (app_now clk) token (access_key cfg) with
  | None => mret None
  | Some c =>
      if has_token_type c "access" then
        user_id ← ok_or (claim_uuid (cl_sub c)) Internal;
        d ← get_db;
        if account_active clk d user_id then mret (Some (mkSession user_id)) else mret None
      else mret None
  end.

Definition get_current_user (user_id : Uuid) : M Db AuthError (option User) :=
  reads (λ d, row_to_user user_id <$> active_user d user_id).

(** ** Issuing *)

(** The pair a call issues, and the row it stores for it. *)
Definition issued_pair (clk : Clock) (dr : Draws) (u : Uuid) : TokenPair :=
  mkTokenPair
    (paseto_encrypt (access_key cfg) (access_nonce dr) (build_access_claims (app_now clk) u).1)
    (paseto_encrypt (refresh_key cfg) (refresh_nonce dr)
       (build_refresh_claims (app_now clk) u (new_refresh_id dr)).1)
    (app_now clk + seconds (access_ttl_minutes cfg * 60))
    (app_now clk + days (refresh_ttl_days cfg)).
Definition issued_row (clk : Clock) (dr : Draws) (u : Uuid) : RefreshRow :=
  mkRefreshRow u (hash_token (refresh_token (issued_pair clk dr u))) (db_now clk)
    (app_now clk + days (refresh_ttl_days cfg)) None None.

Lemma issue_with_tx_ok clk dr u d t d' :
  issue_token_pair_with_tx clk dr u d = (Ok t, d') →
  t = (new_refresh_id dr, issued_pair clk dr u) ∧
  refresh_tokens d !! new_refresh_id dr = None ∧ user_exists d u = true ∧
  d' = set_refresh_tokens (<[new_refresh_id dr := issued_row clk dr u]>) d.
Proof.
  unfold issue_token_pair_with_tx, insert_refresh_token, build_access_claims,
    build_refresh_claims. intros Hrun.
  run; bool_to_prop; simplify_eq. split_and!; try done. by apply has_key_false.
Qed.

Lemma issue_ok clk dr u d p d' :
  issue_token_pair clk dr u d = (Ok p, d') →
  p = issued_pair clk dr u ∧ refresh_tokens d !! new_refresh_id dr = None ∧
  d' = set_refresh_tokens (<[new_refresh_id dr := issued_row clk dr u]>) d.
Proof.
  unfold issue_token_pair. unfold_m. cbv beta.
  destruct (issue_token_pair_with_tx clk dr u d) as [[t|e] d1] eqn:Hi; [|done].
  apply issue_with_tx_ok in Hi as (-> & Hf & _ & ->). intros [= <- <-]. done.
Qed.

(** ** Login *)

(** What a successful login knew about the account. *)
Lemma login_ok clk dr identifier password d p d' :
  login clk dr identifier password d = (Ok (Some p), d') →
  ∃ u r, users d !! u = Some r ∧ (u_email r = identifier ∨ u_handle r = identifier) ∧
    u_deleted_at r = None ∧ verify_password password (u_password_hash r) = true ∧
    banned_at (app_now clk) (banned_until_of d u) = false ∧
    p = issued_pair clk dr u ∧ refresh_tokens d !! new_refresh_id dr = None ∧
    d' = set_refresh_tokens (<[new_refresh_id dr := issued_row clk dr u]>) d.
Proof.
  unfold login. unfold_m. cbv beta.
  destruct (login_rows d identifier) as [|[u r] l] eqn:Hl; [done|].
  assert (Hin : (u, r) ∈ login_rows d identifier) by (rewrite Hl; left).
  unfold login_rows in Hin. apply elem_of_select in Hin as (k & v & Hk & Hc).
  destruct (_ && _) eqn:Hb in Hc; [|done]. injection Hc as -> ->.
  apply andb_true_iff in Hb as [Hb Hd]. apply orb_true_iff in Hb.
  rewrite !bool_decide_eq_true in Hb. apply bool_decide_eq_true in Hd.
  case_bool_decide; [done|]. destruct (negb _) eqn:Hv; [done|].
  apply negb_false_iff in Hv. destruct (banned_at _ _) eqn:Hban; [done|].
  destruct (issue_token_pair clk dr u d) as [[p'|e] d1] eqn:Hi; [|done].
  intros [= <- <-]. apply issue_ok in Hi as (-> & Hf & ->). naive_solver.
Qed.

(** ** Refresh *)

Lemma verify_refresh_issued `{!CryptoLaws} clk dr u now :
  valid_uuid u → valid_uuid (new_refresh_id dr) →
  app_now clk ≤ now < app_now clk + days (refresh_ttl_days cfg) →
  verify_refresh_token now (refresh_token (issued_pair clk dr u)) = Some (u, new_refresh_id dr).
Proof.
  intros Hu Hr Hnow. unfold verify_refresh_token, decrypt_claims. simpl.
  rewrite paseto_roundtrip; [|split_and!; simpl; try done; lia].
  simpl. unfold claim_uuid. simpl. by rewrite !uuid_parse_str by done.
Qed.

(** Presenting a revoked token. *)
Lemma refresh_reused clk dr token d u id r owner :
  verify_refresh_token (app_now clk) token = Some (u, id) →
  refresh_tokens d !! id = Some r → rt_user_id r = u → rt_token_hash r = hash_token token →
  rt_revoked_at r ≠ None → users d !! u = Some owner →
  refresh clk dr token d
  = (Ok None, if db_now clk <? rt_expires_at r
              then revoke_all_tokens (db_now clk) u d else d).
Proof.
  intros Hv Hr Hu Hh Hrev Ho. unfold refresh. rewrite Hv. unfold_m. cbv beta.
  unfold refresh_row. rewrite Hr, (bool_decide_true (rt_user_id r = u)),
    (bool_decide_true (rt_token_hash r = _)) by done.
  simpl. destruct (_ <? _); [|done]. rewrite Ho. simpl. by rewrite bool_decide_true.
Qed.

(** A successful rotation: what it found and what it left. *)
Lemma refresh_ok clk dr token d p d' :
  refresh clk dr token d = (Ok (Some p), d') →
  ∃ u id r owner, verify_refresh_token (app_now clk) token = Some (u, id) ∧
    refresh_tokens d !! id = Some r ∧ rt_user_id r = u ∧ rt_token_hash r = hash_token token ∧
    db_now clk < rt_expires_at r ∧ rt_revoked_at r = None ∧
    users d !! u = Some owner ∧ u_deleted_at owner = None ∧
    banned_at (app_now clk) (banned_until_of d u) = false ∧
    p = issued_pair clk dr u ∧ new_refresh_id dr ≠ id ∧
    refresh_tokens d !! new_refresh_id dr = None ∧
    d' = set_refresh_tokens (λ m, <[id := replaced (db_now clk) (new_refresh_id dr) r]>
                                  (<[new_refresh_id dr := issued_row clk dr u]> m)) d.
Proof.
  unfold refresh. destruct (verify_refresh_token _ _) as [[u id]|] eqn:Hv; [|done].
  unfold_m. cbv beta. unfold refresh_row.
  destruct (refresh_tokens d !! id) as [r|] eqn:Hr; [|done].
  destruct (_ && _) eqn:Hc; [|done].
  apply andb_true_iff in Hc as [[Hu Hh]%andb_true_iff He].
  apply bool_decide_eq_true in Hu, Hh. apply Z.ltb_lt in He.
  destruct (users d !! u) as [owner|] eqn:Ho; simpl; [|done].
  case_bool_decide as Hrev; [done|].
  case_bool_decide as Hdel; [done|].
  destruct (banned_at _ _) eqn:Hban; [done|].
  destruct (issue_token_pair_with_tx clk dr u d) as [[t|e] d1] eqn:Hi; [|done].
  apply issue_with_tx_ok in Hi as (-> & Hf & _ & ->). simpl. intros [= <- <-].
  assert (new_refresh_id dr ≠ id) by congruence.
  exists u, id, r, owner. split_and!; try done.
  unfold set_refresh_tokens. simpl. f_equal. apply map_eq. intros k.
  rewrite lookup_update_where. destruct (decide (k = id)) as [->|Hne].
  - rewrite lookup_insert_eq, lookup_insert_ne, Hr by done. simpl.
    by rewrite !bool_decide_true.
  - rewrite (lookup_insert_ne _ id) by done.
    destruct (<[new_refresh_id dr := _]> (refresh_tokens d) !! k); simpl; [|done].
    by rewrite bool_decide_false.
Qed.
End auth.

(** ** Sessions *)

(** A refresh token that can still be rotated, as far as revocation goes. *)
Definition live_token (u : Uuid) (_ : Uuid) (r : RefreshRow) : bool :=
  bool_decide (rt_user_id r = u) && bool_decide (rt_revoked_at r = None).
Definition sessions (d : Db) (u : Uuid) : Z := count_where (live_token u) (refresh_tokens d).

(** The account cannot act: deleted, or banned on both clocks. *)
Definition locked (clk : Clock) (d : Db) (u : Uuid) : Prop :=
  active_user d u = None ∨
  ∃ t, banned_until_of d u = Some t ∧ db_now clk < t ∧ app_now clk < t.

Section properties.
Context `{!Crypto, !CryptoLaws} (cfg : AuthConfig).

(** C28: a login hands out tokens only to an account that exists under that e-mail
    or handle, is not deleted, has the password and is not banned; the access
    token it returns then authenticates exactly that account for as long as the
    token lives and the account stays active, whatever else happens to the
    database in between. *)
Theorem login_then_authenticate clk dr identifier password d p d1 clk' d' :
  login cfg clk dr identifier password d = (Ok (Some p), d1) →
  ∃ u r, users d !! u = Some r ∧ (u_email r = identifier ∨ u_handle r = identifier) ∧
    u_deleted_at r = None ∧ verify_password password (u_password_hash r) = true ∧
    banned_at (app_now clk) (banned_until_of d u) = false ∧
    sessions d1 u = sessions d u + 1 ∧
    (valid_uuid u →
     app_now clk ≤ app_now clk' < app_now clk + seconds (access_ttl_minutes cfg * 60) →
     authenticate_access_token cfg clk' (access_token p) d'
     = (Ok (if account_active clk' d' u then Some (mkSession u) else None), d')).
Proof using All.
  intros (u & r & Hu & Hid & Hdel & Hpw & Hban & -> & Hf & ->)%login_ok.
  exists u, r. split_and!; try done.
  - unfold sessions. simpl. rewrite count_where_insert_fresh by done.
    unfold live_token. simpl. by rewrite !bool_decide_true.
  - intros Hval Hnow. unfold authenticate_access_token, decrypt_claims. simpl.
    rewrite paseto_roundtrip; [|split_and!; simpl; try done; lia].
    simpl. unfold claim_uuid. simpl. rewrite uuid_parse_str by done.
    unfold_m. simpl. by destruct (account_active clk' d' u).
Qed.

(** Revoking all tokens of a user ends all their sessions. *)
Lemma revoke_all_sessions t u d : sessions (revoke_all_tokens t u d) u = 0.
Proof using Type.
  unfold sessions, revoke_all_tokens. apply count_where_zero. intros k x. simpl.
  rewrite lookup_update_where. destruct (_ !! k) as [y|]; simpl; [|done].
  intros [= <-]. unfold live_token. case_match; simpl; [by rewrite andb_false_r|done].
Qed.

(** Rotation conserves sessions: a successful refresh needs an unexpired,
    unrevoked row of an account that is neither deleted nor banned; it revokes
    that row, names its successor in it, stores the successor, and leaves every
    other row and the number of live sessions of every user as they were. *)
Theorem refresh_rotates clk dr token d p d1 :
  refresh cfg clk dr token d = (Ok (Some p), d1) →
  ∃ u id r, verify_refresh_token cfg (app_now clk) token = Some (u, id) ∧
    refresh_tokens d !! id = Some r ∧ rt_revoked_at r = None ∧ db_now clk < rt_expires_at r ∧
    active_user d u ≠ None ∧ banned_at (app_now clk) (banned_until_of d u) = false ∧
    refresh_tokens d1 !! id = Some (replaced (db_now clk) (new_refresh_id dr) r) ∧
    refresh_tokens d1 !! new_refresh_id dr = Some (issued_row cfg clk dr u) ∧
    (∀ k, k ≠ id → k ≠ new_refresh_id dr → refresh_tokens d1 !! k = refresh_tokens d !! k) ∧
    (∀ v, sessions d1 v = sessions d v).
Proof.
  intros (u & id & r & owner & Hv & Hrow & Hru & Hh & He & Hrev & Ho & Hdel & Hban & _ & Hne
          & Hf & ->)%refresh_ok.
  exists u, id, r. simpl. split_and!; try done.
  - unfold active_user. by rewrite Ho, decide_True.
  - apply lookup_insert_eq.
  - by rewrite lookup_insert_ne, lookup_insert_eq.
  - intros k Hk Hk'. by rewrite !lookup_insert_ne.
  - intros v. unfold sessions. simpl.
    rewrite (count_where_replace _ _ id r) by (by rewrite lookup_insert_ne).
    rewrite count_where_insert_fresh by done. unfold live_token. simpl.
    rewrite Hru, Hrev. simpl. rewrite !andb_false_r, !andb_true_r. case_bool_decide; lia.
Qed.

(** C27: a locked account (deleted, or banned at both clocks) is locked out: no
    access token authenticates it, no refresh token of it is rotated, and no login
    hands out tokens for it. *)
Theorem locked_account_locked_out clk u d :
  locked clk d u →
  (∀ token, fst (authenticate_access_token cfg clk token d) ≠ Ok (Some (mkSession u))) ∧
  (∀ dr token p d1 id, verify_refresh_token cfg (app_now clk) token = Some (u, id) →
     refresh cfg clk dr token d ≠ (Ok (Some p), d1)) ∧
  (∀ dr identifier password p d1, login cfg clk dr identifier password d = (Ok (Some p), d1) →
     sessions d1 u = sessions d u).
Proof.
  intros Hlock.
  assert (Hno : active_user d u ≠ None → banned_at (app_now clk) (banned_until_of d u) = true).
  { destruct Hlock as [Hl|(t & Ht & _ & Hlt)]; [done|]. intros _. rewrite Ht. by apply Z.ltb_lt. }
  split_and!.
  - intros token. unfold authenticate_access_token. run; try done.
    intros [= ->]. unfold account_active in *. destruct Hlock as [Hl|(t & Ht & Hlt & _)].
    + rewrite Hl in *. done.
    + rewrite Ht in *. simpl in *. rewrite (proj2 (Z.ltb_lt _ _) Hlt) in *.
      by destruct (active_user d u).
  - intros dr token p d1 id Hv Hr.
    apply refresh_ok in Hr as (u' & id' & r & owner & Hv' & _ & _ & _ & _ & _ & Ho & Hdel & Hban & _).
    rewrite Hv in Hv'. injection Hv' as <- <-. rewrite Hno in Hban; [done|].
    unfold active_user. by rewrite Ho, decide_True.
  - intros dr identifier password p d1
      (v & r & Hv & _ & Hdel & _ & Hban & _ & Hf & ->)%login_ok.
    assert (v ≠ u).
    { intros ->. rewrite Hno in Hban; [done|]. unfold active_user. by rewrite Hv, decide_True. }
    unfold sessions. simpl. rewrite count_where_insert_fresh by done.
    unfold live_token. simpl. rewrite bool_decide_false by done. simpl. lia.
Qed.
End properties.

(** The steps of a successful signup. *)
Lemma insert_user_ok id row d d' :
  insert_user id row d = (Ok tt, d') →
  (∀ k r, users d !! k = Some r → k ≠ id ∧ u_handle r ≠ u_handle row ∧ u_email r ≠ u_email row) ∧
  d' = set_users (<[id := row]>) d.
Proof.
  unfold insert_user. intros Hrun. run; bool_to_prop; simplify_eq. split; [|done].
  intros k r Hk. repeat match goal with
  | Hx : exists_where _ _ = false |- _ =>
      rewrite exists_where_false in Hx; specialize (Hx _ _ Hk); apply bool_decide_eq_false in Hx
  | Hx : has_key _ _ = false |- _ => apply has_key_false in Hx
  end.
  split_and!; [congruence|done..].
Qed.

Lemma initialize_user_ok clk u d d' :
  initialize_user clk u d = (Ok tt, d') →
  user_trust_scores d' !! u
    = Some (default (fresh_trust (db_now clk)) (user_trust_scores d !! u)) ∧
  users d' = users d ∧ invite_codes d' = invite_codes d.
Proof.
  unfold initialize_user. intros Hrun. run; simplify_eq; bool_to_prop.
  - match goal with Hk : has_key _ _ = true |- _ => apply has_key_true in Hk as [x Hx] end.
    by rewrite Hx.
  - match goal with Hk : has_key _ _ = false |- _ => apply has_key_false in Hk as Hx end.
    simpl. by rewrite Hx, lookup_insert_eq.
Qed.

Lemma signup_ok `{Crypto} clk salt new_id handle email display_name bio avatar password code
    d user d' :
  signup clk salt new_id handle email display_name bio avatar password code d = (Ok user, d') →
  ∃ h d1 d2 c,
    let row := mkUserRow handle email display_name bio avatar (db_now clk) h None in
    argon2_hash salt password = Some h ∧ insert_user new_id row d = (Ok tt, d1) ∧
    initialize_user clk new_id d1 = (Ok tt, d2) ∧
    consume_invite_with_tx clk code new_id d2 = (Ok c, d') ∧ user = row_to_user new_id row.
Proof.
  unfold signup, hash_password. unfold_m. cbv beta.
  destruct (argon2_hash salt password) as [h|]; [|done]. cbv beta iota zeta.
  destruct (insert_user _ _ d) as [[[]|] d1] eqn:H1; [|done].
  destruct (initialize_user clk new_id d1) as [[[]|] d2] eqn:H2; [|done].
  destruct (consume_invite_with_tx clk code new_id d2) as [[c|] d3] eqn:H3; [|done].
  intros [= <- <-]. exists h, d1, d2, c. done.
Qed.

(** C26: signup is all or nothing. If it fails (taken handle or e-mail, bad invite,
    anything else) the database is as before; if it succeeds the account exists,
    is active, starts with a clean trust record, can only have come in through an
    invite that was valid and unexpired and had a use left, and that use is
    gone. *)
Theorem signup_atomic `{Crypto} clk salt new_id handle email display_name bio avatar password code
    d o d' :
  signup clk salt new_id handle email display_name bio avatar password code d = (o, d') →
  match o with
  | Err _ => d' = d
  | Ok user =>
      (∀ k r, users d !! k = Some r → k ≠ new_id ∧ u_handle r ≠ handle ∧ u_email r ≠ email) ∧
      (∃ h, argon2_hash salt password = Some h ∧
        users d' = <[new_id := mkUserRow handle email display_name bio avatar (db_now clk) h None]>
                     (users d)) ∧
      user = mkUser new_id handle email display_name bio avatar None (db_now clk) ∧
      (user_trust_scores d !! new_id = None →
       (∀ r, invite_codes d !! code = Some r → ic_created_by r ≠ Some new_id) →
       user_trust_scores d' !! new_id = Some (fresh_trust (db_now clk))) ∧
      ∃ r, invite_codes d !! code = Some r ∧ ic_is_valid r = true ∧
        app_now clk ≤ ic_expires_at r ∧ ic_use_count r < ic_max_uses r ∧
        ic_use_count <$> invite_codes d' !! code = Some (ic_use_count r + 1)
  end.
Proof.
  destruct o as [user|e].
  2:{ unfold signup, hash_password. unfold mbind at 1, M_bind at 1.
      destruct (argon2_hash salt password); cbn; [|by intros [= <- <-]].
      intros Hr. by apply transaction_err in Hr. }
  intros (h & d1 & d2 & c & Hh & Hi & Ht & Hc & ->)%signup_ok.
  apply insert_user_ok in Hi as (Hfresh & ->).
  apply initialize_user_ok in Ht as (Hts & Hu2 & Hi2).
  apply consume_with_tx_ok in Hc as (r & Hr & _ & Hv & He & Hlt & Hcodes & Hu & _ & Htrust).
  rewrite Hi2 in Hr, Hcodes. simpl in *. split_and!; [exact Hfresh| |done| |].
  - exists h. rewrite Hu, Hu2. done.
  - intros Hno Hinv. rewrite Htrust by eauto. rewrite Hts, Hno. done.
  - exists r. rewrite Hcodes, lookup_insert_eq. done.
Qed.

(** ** Concrete runs *)

Definition sample_cfg : AuthConfig := mkAuthConfig "ka" "kr" 15 30.
Definition sample_db : Db :=
  set_invite_codes (λ _, {[ "CODE" := fresh_invite 0 None (days 7) "admin" ]})
  (set_users (λ _, {[ 5%N := mkUserRow "ann" "ann@x" "Ann" None None 0 "s1pw" None ]}) empty_db).
Definition clk_at (t : Z) : Clock := mkClock (seconds t) (seconds t).
Definition sample_pair : TokenPair :=
  @issued_pair toy_crypto sample_cfg (clk_at 10) (mkDraws 7 "n" "m") 5.
(** The state after [ann] logged in, and after she rotated her token. *)
Definition logged_in : Db :=
  snd (@login toy_crypto sample_cfg (clk_at 10) (mkDraws 7 "n" "m") "ann" "pw" sample_db).
Definition rotated : Db :=
  snd (@refresh toy_crypto sample_cfg (clk_at 20) (mkDraws 8 "n" "m")
         (refresh_token sample_pair) logged_in).

Lemma login_then_authenticate_witness :
  ∃ u r, users sample_db !! u = Some r ∧ (u_email r = "ann" ∨ u_handle r = "ann") ∧
    u_deleted_at r = None ∧ @verify_password toy_crypto "pw" (u_password_hash r) = true ∧
    banned_at (seconds 10) (banned_until_of sample_db u) = false ∧
    sessions logged_in u = sessions sample_db u + 1 ∧
    (valid_uuid u → seconds 10 ≤ seconds 60 < seconds 10 + seconds (15 * 60) →
     @authenticate_access_token toy_crypto sample_cfg (clk_at 60) (access_token sample_pair) logged_in
     = (Ok (if account_active (clk_at 60) logged_in u then Some (mkSession u) else None), logged_in)).
Proof.
  apply (@login_then_authenticate toy_crypto toy_crypto_laws sample_cfg (clk_at 10)
           (mkDraws 7 "n" "m") "ann" "pw" sample_db sample_pair logged_in (clk_at 60) logged_in).
  vm_compute. reflexivity.
Defined.

Lemma refresh_rotates_witness :
  ∃ u id r, @verify_refresh_token toy_crypto sample_cfg (seconds 20) (refresh_token sample_pair)
            = Some (u, id) ∧
    refresh_tokens logged_in !! id = Some r ∧ rt_revoked_at r = None ∧
    seconds 20 < rt_expires_at r ∧ active_user logged_in u ≠ None ∧
    banned_at (seconds 20) (banned_until_of logged_in u) = false ∧
    refresh_tokens rotated !! id = Some (replaced (seconds 20) 8 r) ∧
    refresh_tokens rotated !! 8%N
      = Some (@issued_row toy_crypto sample_cfg (clk_at 20) (mkDraws 8 "n" "m") u) ∧
    (∀ k, k ≠ id → k ≠ 8%N → refresh_tokens rotated !! k = refresh_tokens logged_in !! k) ∧
    (∀ v, sessions rotated v = sessions logged_in v).
Proof.
  eapply (@refresh_rotates toy_crypto sample_cfg (clk_at 20) (mkDraws 8 "n" "m")
    (refresh_token sample_pair) logged_in _ rotated). vm_compute. reflexivity.
Defined.

Lemma locked_account_locked_out_witness :
  let d := snd (delete_account (clk_at 40) 5%N logged_in) in
  active_user logged_in 5%N ≠ None ∧
  (∀ token, fst (@authenticate_access_token toy_crypto sample_cfg (clk_at 50) token d)
            ≠ Ok (Some (mkSession 5))) ∧
  (∀ dr token p d1 id,
     @verify_refresh_token toy_crypto sample_cfg (seconds 50) token = Some (5%N, id) →
     @refresh toy_crypto sample_cfg (clk_at 50) dr token d ≠ (Ok (Some p), d1)) ∧
  (∀ dr identifier password p d1,
     @login toy_crypto sample_cfg (clk_at 50) dr identifier password d = (Ok (Some p), d1) →
     sessions d1 5 = sessions d 5).
Proof.
  split; [vm_compute; congruence|].
  apply (@locked_account_locked_out toy_crypto sample_cfg (clk_at 50) 5).
  left. vm_compute. reflexivity.
Defined.

Lemma signup_atomic_witness :
  let d := sample_db in
  let d' := snd (@signup toy_crypto (clk_at 5) "s2" 6 "bob" "bob@x" "Bob" None None "pw2" "CODE" d) in
  (∀ k r, users d !! k = Some r → k ≠ 6%N ∧ u_handle r ≠ "bob" ∧ u_email r ≠ "bob@x") ∧
  (∃ h, @argon2_hash toy_crypto "s2" "pw2" = Some h ∧
     users d' = <[6%N := mkUserRow "bob" "bob@x" "Bob" None None (seconds 5) h None]> (users d)) ∧
  mkUser 6 "bob" "bob@x" "Bob" None None None (seconds 5)
    = mkUser 6 "bob" "bob@x" "Bob" None None None (seconds 5) ∧
  (user_trust_scores d !! 6%N = None →
   (∀ r, invite_codes d !! "CODE" = Some r → ic_created_by r ≠ Some 6%N) →
   user_trust_scores d' !! 6%N = Some (fresh_trust (seconds 5))) ∧
  ∃ r, invite_codes d !! "CODE" = Some r ∧ ic_is_valid r = true ∧
    seconds 5 ≤ ic_expires_at r ∧ ic_use_count r < ic_max_uses r ∧
    ic_use_count <$> invite_codes d' !! "CODE" = Some (ic_use_count r + 1).
Proof.
  apply (@signup_atomic toy_crypto (clk_at 5) "s2" 6 "bob" "bob@x" "Bob" None None "pw2" "CODE"
    sample_db (Ok (mkUser 6 "bob" "bob@x" "Bob" None None None (seconds 5)))).
  vm_compute. reflexivity.
Defined.
