(* ===== verification/SessionRaces.v ===== *)
(** * Sessions under concurrent requests

    [login], [refresh] and [revoke_refresh_token] of [src/app/auth.rs] as transaction
    programs, and what every interleaving of them does. [Auth] takes each of these
    methods as one step. The row lock of [refresh] makes that right for one token:
    however many requests present it, it is rotated at most once, and refreshing never
    multiplies sessions. It does not make it right for a user: the revocation of the
    whole family after a reuse misses a token that a concurrent refresh issues. *)

From S2P Require Import Prelude Text Sql Domain Schema Isolation Users GraphRaces Crypto Auth.
From stdpp Require Import options.

#[local] Open Scope Z_scope.

(** ** The transactions *)

(** How a request ended. *)
Inductive SessionAnswer :=
| Rotated (id by_id : Uuid) (p : TokenPair)      (* [refresh]: a new pair *)
| FamilyRevoked (u : Uuid)                       (* [refresh]: the token had been used before *)
| Issued (u by_id : Uuid) (p : TokenPair)        (* [login] *)
| LoggedOut (id : Uuid)                          (* [revoke_refresh_token] *)
| Refused
| Failed (e : AuthError).

(** What the caller of [login] or [refresh] gets. *)
Definition pair_result (a : SessionAnswer) : Result AuthError (option TokenPair) :=
  match a with
  | Rotated _ _ p | Issued _ _ p => Ok (Some p)
  | FamilyRevoked _ | Refused | LoggedOut _ => Ok None
  | Failed e => Err e
  end.
(** What the caller of [revoke_refresh_token] gets. *)
Definition revoke_result (a : SessionAnswer) : Result AuthError bool :=
  match a with LoggedOut _ => Ok true | Failed e => Err e | _ => Ok false end.

Section programs.
Context `{Crypto} (cfg : AuthConfig).

(** The row a request names, unexpired. *)
Definition token_row (clk : Clock) (u id : Uuid) (h : string) (d : Db) : option RefreshRow :=
  match refresh_tokens d !! id with
  | Some r =>
      if bool_decide (rt_user_id r = u) && bool_decide (rt_token_hash r = h) && (db_now clk <? rt_expires_at r)
      then Some r else None
  | None => None
  end.

(** [INSERT INTO refresh_tokens]: both unique indexes, then the foreign key. *)
Definition insert_token (failed : SessionAnswer) (id : Uuid) (row : RefreshRow) : Proc SessionAnswer unit :=
  inserted ← insert_row (RToken id) (λ d, has_key id (refresh_tokens d)) (set_refresh_tokens (<[id := row]>));
  if negb inserted then rollback failed else
  unused ← insert_row (RTokenHash (rt_token_hash row))
             (λ d, exists_where (λ k r, bool_decide (k ≠ id) && bool_decide (rt_token_hash r = rt_token_hash row))
                     (refresh_tokens d)) (λ d, d);
  if negb unused then rollback failed else
  owner ← references (RUser (rt_user_id row)) (λ d, user_exists d (rt_user_id row));
  if negb owner then rollback failed else mret tt.

(** [UPDATE refresh_tokens SET .. WHERE id = $2 AND .. AND revoked_at IS NULL]. *)
Definition update_token (matches : RefreshRow → bool) (change : RefreshRow → RefreshRow) (id : Uuid) :
    Proc SessionAnswer (list Uuid) :=
  let hit k d := match refresh_tokens d !! k with Some r => matches r && bool_decide (rt_revoked_at r = None) | None => false end in
  ks ← query (λ d, if hit id d then [id] else []);
  change_rows RToken ForNoKeyUpdate hit (λ k, set_refresh_tokens (alter change k)) ks.

Definition refresh_txn (clk : Clock) (dr : Draws) (token : string) : Txn SessionAnswer :=
  match verify_refresh_token cfg (app_now clk) token with
  | None => TRollback Refused
  | Some (u, id) => script (
      (* SELECT .. FOR UPDATE OF rt: the owner and the ban as of the snapshot, the
         token in its latest version *)
      seen ← query (λ d, (refresh_row clk d u id (hash_token token), banned_until_of d u));
      match seen with
      | (None, _) => rollback Refused
      | (Some (_, owner), banned_until) =>
          _ ← lock (RToken id) ForUpdate;
          row ← query (token_row clk u id (hash_token token));
          match row with
          | None => rollback Refused
          | Some r =>
              if bool_decide (rt_revoked_at r ≠ None) then
                _ ← revoke_tokens (db_now clk) u;
                mret (FamilyRevoked u)
              else if bool_decide (u_deleted_at owner ≠ None) then rollback Refused
              else if banned_at (app_now clk) banned_until then rollback (Failed Banned)
              else
                let by_id := new_refresh_id dr in
                _ ← insert_token (Failed Internal) by_id (issued_row cfg clk dr u);
                _ ← update_token (λ _, true) (replaced (db_now clk) by_id) id;
                mret (Rotated id by_id (issued_pair cfg clk dr u))
          end
      end)
  end.

Definition login_txn (clk : Clock) (dr : Draws) (identifier password : string) : Txn SessionAnswer := script (
  found ← query (λ d, (λ ur, (ur, banned_until_of d ur.1)) <$> head (login_rows d identifier));
  match found with
  | None => rollback Refused
  | Some ((u, r), banned_until) =>
      if bool_decide (u_password_hash r = "") then rollback Refused
      else if negb (verify_password password (u_password_hash r)) then rollback Refused
      else if banned_at (app_now clk) banned_until then rollback (Failed Banned)
      else
        _ ← insert_token (Failed Internal) (new_refresh_id dr) (issued_row cfg clk dr u);
        mret (Issued u (new_refresh_id dr) (issued_pair cfg clk dr u))
  end).

Definition logout_txn (clk : Clock) (token : string) : Txn SessionAnswer :=
  match verify_refresh_token cfg (app_now clk) token with
  | None => TRollback Refused
  | Some (u, id) => script (
      rows ← update_token (λ r, bool_decide (rt_user_id r = u) && bool_decide (rt_token_hash r = hash_token token))
               (revoked (db_now clk)) id;
      mret (if affected rows then LoggedOut id else Refused))
  end.
End programs.

(** ** What a commit does *)

Global Instance RefreshRow_eq_dec : EqDecision RefreshRow.
Proof. solve_decision. Defined.
Definition unrevoked (r : RefreshRow) : Prop := rt_revoked_at r = None.

Definition session_effect (ans : SessionAnswer) (d d' : Db) : Prop :=
  match ans with
  | Rotated id by_id _ => ∃ t r row,
      refresh_tokens d !! id = Some r ∧ unrevoked r ∧ refresh_tokens d !! by_id = None ∧
      rt_user_id row = rt_user_id r ∧ unrevoked row ∧
      d' = set_refresh_tokens (λ m, <[id := replaced t by_id r]> (<[by_id := row]> m)) d
  | FamilyRevoked u => ∃ t ks,
      NoDup ks ∧ (∀ k, k ∈ ks → ∃ r, refresh_tokens d !! k = Some r ∧ unrevoked_of u r = true) ∧
      d' = changed (revoke_token_row t) ks d
  | Issued u by_id _ => ∃ row,
      refresh_tokens d !! by_id = None ∧ rt_user_id row = u ∧ unrevoked row ∧
      d' = set_refresh_tokens (<[by_id := row]>) d
  | LoggedOut id => ∃ t r,
      refresh_tokens d !! id = Some r ∧ unrevoked r ∧ d' = set_refresh_tokens (<[id := revoked t r]>) d
  | Refused | Failed _ => d' = d
  end.
(** Token rows change under their locks. *)
Definition session_step (L : Locks) (ans : SessionAnswer) (d d' : Db) : Prop :=
  session_effect ans d d' ∧ ∀ k, refresh_tokens d !! k ≠ refresh_tokens d' !! k → exclusive L (RToken k).

Notation swp := (wp session_step).
Notation sstable := (stable session_step).

(** Under an exclusive lock the row of a token stays as it is. *)
Lemma stable_token L k v : exclusive L (RToken k) → sstable L (λ d, refresh_tokens d !! k = v).
Proof. apply (stable_row session_step RToken refresh_tokens). by intros ???? [_ ?]. Qed.

Definition quiet (ans : SessionAnswer) : Prop := ans = Refused ∨ ∃ e, ans = Failed e.
Lemma session_same ans L d : quiet ans → session_step L ans d d.
Proof. intros [->|[e ->]]; by split. Qed.
Lemma wp_quiet ans L w d : quiet ans → swp (TRollback ans) L w d.
Proof. intros Ha d' _. by apply session_same. Qed.
#[local] Hint Extern 0 (quiet _) => (by left) || (by right; eexists) : core.
#[local] Hint Resolve wp_quiet exclusive_more : core.

(** A transaction that has claimed the id of a new token. *)
Definition claimed (id : Uuid) (L : Locks) (d : Db) : Prop :=
  (RToken id, ForUpdate) ∈ L ∧ refresh_tokens d !! id = None.
Lemma claimed_stable id L : sstable L (claimed id L).
Proof. intros d d' Hr [Hl Hd]. split; [done|]. eapply (stable_token L id None); [by left|done..]. Qed.
Lemma claimed_more id L l d : claimed id L d → claimed id (l :: L) d.
Proof. intros [Hl Hd]. split; [by apply list_elem_of_further|done]. Qed.
#[local] Hint Resolve claimed_stable claimed_more : core.

Section insert.
Context (P : Locks → Db → Prop) (Hs : ∀ L, sstable L (P L)) (Hm : ∀ L l d, P L d → P (l :: L) d).
Lemma wp_insert_token failed id row k L d :
  quiet failed → P L d →
  (∀ L' d', P L' d' → claimed id L' d' → swp (k tt) L' (set_refresh_tokens (<[id := row]>)) d') →
  swp (insert_token failed id row k) L (λ d, d) d.
Proof using Hs Hm.
  intros Hf Hd Hk. set (Q L d := P L d ∧ claimed id L d).
  assert (HQ : ∀ L, sstable L (Q L)) by (intros ??? Hr [??]; split; [by eapply Hs|by eapply claimed_stable]).
  assert (HQm : ∀ L l d, Q L d → Q (l :: L) d) by (intros ??? [??]; split; auto).
  unfold insert_token, mbind, Proc_bind, mret, Proc_ret.
  apply (wp_insert _ P Hs); [done|intros; by apply wp_quiet|]. intros d1 H1 Hn. simpl negb. cbv iota.
  assert (H1' : Q ((RToken id, ForUpdate) :: L) d1).
  { split; [auto|]. split; [left|]. by apply has_key_false. }
  apply (wp_insert _ Q HQ); [done|intros; by apply wp_quiet|]. intros d2 H2 _. simpl negb. cbv iota.
  apply (wp_references _ Q Q); [done|done|done|done|by apply HQm|intros; by apply wp_quiet|].
  intros d3 [H3 H3']. simpl negb. cbv iota. by apply Hk.
Qed.
End insert.

(** [refresh] after it has found the token usable. *)
Definition holding (id : Uuid) (r : RefreshRow) (L : Locks) (d : Db) : Prop :=
  (RToken id, ForUpdate) ∈ L ∧ refresh_tokens d !! id = Some r.
Lemma holding_stable id r L : sstable L (holding id r L).
Proof. intros d d' Hr [Hl Hd]. split; [done|]. eapply (stable_token L id (Some r)); [by left|done..]. Qed.
Lemma holding_more id r L l d : holding id r L d → holding id r (l :: L) d.
Proof. intros [Hl Hd]. split; [by apply list_elem_of_further|done]. Qed.
#[local] Hint Resolve holding_stable holding_more : core.

Lemma wp_rotate t id by_id r row p L d :
  unrevoked r → unrevoked row → rt_user_id row = rt_user_id r →
  holding id r L d → claimed by_id L d →
  swp (update_token (λ _, true) (replaced t by_id) id (λ _, TCommit (Rotated id by_id p))) L
    (set_refresh_tokens (<[by_id := row]>)) d.
Proof.
  intros Hr Hrow Hu Hh Hc. set (P L d := holding id r L d ∧ claimed by_id L d).
  assert (HP : ∀ L, sstable L (P L)) by (intros ??? Hx [??]; split; [by eapply holding_stable|by eapply claimed_stable]).
  assert (HPm : ∀ L l d, P L d → P (l :: L) d) by (intros ??? [??]; split; auto).
  assert (Hlook : ∀ L d, P L d → refresh_tokens (set_refresh_tokens (<[by_id := row]>) d) !! id = Some r).
  { intros L' d' [[_ Hi] [_ Hb]]. simpl. rewrite lookup_insert_ne; [done|]. congruence. }
  assert (Hhit : ∀ L d, P L d → (match refresh_tokens (set_refresh_tokens (<[by_id := row]>) d) !! id with
    | Some r => true && bool_decide (rt_revoked_at r = None) | None => false end) = true).
  { intros L' d' HP'. rewrite (Hlook L' d' HP'). by rewrite bool_decide_true. }
  unfold update_token, mbind, Proc_bind. apply (wp_query _ P HP); [done|]. intros d1 H1. rewrite (Hhit L d1 H1).
  cbn [change_rows]. unfold mbind, Proc_bind, mret, Proc_ret.
  apply (wp_lock _ P HP HPm); [done|]. intros d2 H2. apply (wp_query _ P HP); [done|]. intros d3 H3.
  rewrite (Hhit _ d3 H3). apply (wp_exec _ P HP); [done|]. intros d4 H4 d5 Hdr.
  destruct (stable_drifts _ _ _ _ _ (HP _) Hdr H4) as [[Hl5 Hi5] [Hl5' Hb5]]. split.
  - exists t, r, row. split_and!; try done. unfold set_refresh_tokens. simpl. f_equal.
    rewrite <-(insert_id (<[by_id:=row]> (refresh_tokens d5)) id r) at 1 by (rewrite lookup_insert_ne; congruence).
    by rewrite alter_insert_eq.
  - intros k Hk. simpl in Hk. destruct (decide (k = id)) as [->|]; [by left|].
    destruct (decide (k = by_id)) as [->|]; [by left|]. by rewrite lookup_alter_ne, lookup_insert_ne in Hk.
Qed.

(** The rows of [u] that a revocation has changed so far. *)
Definition revoking (u : Uuid) (dn : list Uuid) (L : Locks) (d : Db) : Prop :=
  NoDup dn ∧ ∀ k, k ∈ dn → exclusive L (RToken k) ∧ ∃ r, refresh_tokens d !! k = Some r ∧ unrevoked_of u r = true.
Lemma revoking_stable u dn L : sstable L (revoking u dn L).
Proof.
  intros d d' Hr [Hnd Hk]. split; [done|]. intros k Hin. destruct (Hk k Hin) as (Hl & r & Hd & Hu). split; [done|].
  exists r. split; [|done]. by eapply (stable_token L k (Some r)).
Qed.
Lemma revoking_more u dn L l d : revoking u dn L d → revoking u dn (l :: L) d.
Proof. intros [Hnd Hk]. split; [done|]. intros k Hin. destruct (Hk k Hin). auto. Qed.
Lemma lookup_changed_tokens t ks d k :
  NoDup ks → refresh_tokens (changed (revoke_token_row t) ks d) !! k
    = (if bool_decide (k ∈ ks) then revoked t else id) <$> refresh_tokens d !! k.
Proof.
  induction ks as [|x ks IH]; intros Hnd.
  { rewrite bool_decide_false by apply not_elem_of_nil. by rewrite option_fmap_id. }
  apply NoDup_cons in Hnd as [Hx Hnd]. specialize (IH Hnd). simpl. rewrite lookup_alter. destruct (decide (x = k)) as [<-|Hxk].
  - rewrite IH, (bool_decide_false (x ∈ ks)), (bool_decide_true (x ∈ x :: ks)), option_fmap_id by (done || left). done.
  - rewrite IH, (bool_decide_ext (k ∈ x :: ks) (k ∈ ks)) by set_solver. done.
Qed.
Lemma wp_revoke_family t u L d :
  swp (revoke_tokens t u (λ _, TCommit (FamilyRevoked u))) L (λ d, d) d.
Proof.
  unfold revoke_tokens, mbind, Proc_bind. apply (wp_query _ (λ _ _, True)); [by intros ????|done|]. intros d1 _.
  apply (wp_change_rows _ _ _ _ _ (λ _, revoking u) _ [] _ _ (λ d, d)).
  - intros. apply revoking_stable.
  - intros. by apply revoking_more.
  - intros x _ dn L' d' Hl [Hnd Hk].
    destruct (refresh_tokens (changed _ dn d') !! x) as [r|] eqn:Hx; [|done]. destruct (unrevoked_of u r) eqn:Hu; [|done].
    change (refresh_tokens (changed (revoke_token_row t) dn d') !! x = Some r) in Hx.
    rewrite lookup_changed_tokens in Hx by done. destruct (refresh_tokens d' !! x) as [r'|] eqn:Hx'; [|done].
    case_bool_decide as Hin; simplify_eq/=.
    + unfold unrevoked_of in Hu. simpl in Hu. by rewrite andb_false_r in Hu.
    + split; [by apply NoDup_cons|]. intros k [->|Hin']%elem_of_cons; [|by apply Hk]. split; [by right|eauto].
  - split; [apply NoDup_nil_2|]. by intros k ?%elem_of_nil.
  - intros _ dn L' d' HJ d2 Hdr. destruct (stable_drifts _ _ _ _ _ (revoking_stable u dn L') Hdr HJ) as [Hnd Hk].
    split; [exists t, dn; split; [done|]; split; [|done]; intros k Hin; by apply Hk|].
    intros k Hne. change (refresh_tokens d2 !! k ≠ refresh_tokens (changed (revoke_token_row t) dn d2) !! k) in Hne.
    rewrite lookup_changed_tokens in Hne by done. case_bool_decide as Hin; [by apply Hk|]. by rewrite option_fmap_id in Hne.
Qed.

Section valid.
Context `{Crypto} (cfg : AuthConfig) (I : Db → Prop).

Lemma token_row_Some clk u id h d r : token_row clk u id h d = Some r → refresh_tokens d !! id = Some r ∧ rt_user_id r = u.
Proof.
  unfold token_row. destruct (refresh_tokens d !! id) as [r'|]; [|done]. case_bool_decide; simpl; [|done].
  case_match; [|done]. by intros [= <-].
Qed.
Lemma refresh_valid clk dr token : valid session_step I (refresh_txn cfg clk dr token).
Proof.
  intros d _. unfold refresh_txn. destruct (verify_refresh_token cfg (app_now clk) token) as [[u id]|]; [|by apply wp_quiet; left].
  unfold script, mbind, Proc_bind, mret, Proc_ret.
  apply (wp_query _ (λ _ _, True)); [by intros ????|done|]. intros d1 _. cbv beta iota.
  destruct (refresh_row clk d1 u id (hash_token token)) as [[r0 owner]|]; [|by apply wp_quiet; left].
  apply (wp_lock _ (λ _ _, True)); [by intros ????|done|done|]. intros d2 _.
  intros d3 _. destruct (token_row clk u id (hash_token token) d3) as [r|] eqn:Hr; [|by apply wp_quiet; left].
  apply token_row_Some in Hr as [Hr Hu].
  case_bool_decide as Hrev; [apply wp_revoke_family|].
  case_bool_decide; [by apply wp_quiet; left|]. destruct (banned_at _ _); [by apply wp_quiet; right; eexists|].
  apply (wp_insert_token (holding id r)); [apply holding_stable|apply holding_more|by right; eexists|split; [left|done]|].
  intros L4 d4 H4 H4'. by apply (wp_rotate _ _ _ r).
Qed.
Lemma login_valid clk dr identifier password : valid session_step I (login_txn cfg clk dr identifier password).
Proof.
  intros d _. unfold login_txn, script, mbind, Proc_bind, mret, Proc_ret.
  apply (wp_query _ (λ _ _, True)); [by intros ????|done|]. intros d1 _. cbv beta.
  destruct (head _) as [[u r]|]; cbv beta iota delta [fmap option_fmap option_map]; [|by apply wp_quiet; left].
  case_bool_decide; [by apply wp_quiet; left|]. destruct (verify_password _ _); simpl negb; cbv iota; [|by apply wp_quiet; left].
  simpl fst. destruct (banned_at _ _); [by apply wp_quiet; right; eexists|].
  apply (wp_insert_token (λ _ _, True)); [by intros ????|done|by right; eexists|done|].
  intros L2 d2 _ H2 d3 Hdr. destruct (stable_drifts _ _ _ _ _ (claimed_stable _ _) Hdr H2) as [Hl Hn]. split.
  - by exists (issued_row cfg clk dr u).
  - intros k Hk. simpl in Hk. destruct (decide (k = new_refresh_id dr)) as [->|]; [by left|]. by rewrite lookup_insert_ne in Hk.
Qed.
Lemma logout_valid clk token : valid session_step I (logout_txn cfg clk token).
Proof.
  intros d _. unfold logout_txn. destruct (verify_refresh_token cfg (app_now clk) token) as [[u id]|]; [|by apply wp_quiet; left].
  unfold script, update_token, mbind, Proc_bind, mret, Proc_ret. intros d1 _.
  set (hit := match refresh_tokens _ !! id with Some _ => _ | None => _ end). destruct hit.
  2: { intros d2 _. by apply session_same; left. }
  cbn [change_rows]. unfold mbind, Proc_bind, mret, Proc_ret. intros d2 _ d3 _.
  destruct (refresh_tokens d3 !! id) as [r|] eqn:Hr; [|intros d4 _; by apply session_same; left].
  destruct (bool_decide (rt_user_id r = u) && bool_decide (rt_token_hash r = hash_token token)); [|intros d4 _; by apply session_same; left].
  case_bool_decide as Hrev; simpl andb; cbv iota; [|intros d4 _; by apply session_same; left].
  set (P (L : Locks) d := (RToken id, ForNoKeyUpdate) ∈ L ∧ refresh_tokens d !! id = Some r).
  assert (HP : ∀ L, sstable L (P L)).
  { intros L x y Hx [Hl Hd]. split; [done|]. eapply (stable_token L id (Some r)); [by right|done..]. }
  apply (wp_exec _ P HP); [split; [left|done]|]. intros d4 H4 d5 Hdr.
  destruct (stable_drifts _ _ _ _ _ (HP _) Hdr H4) as [Hl Hd]. simpl. split.
  - exists (db_now clk), r. split; [done|]. split; [done|]. unfold set_refresh_tokens. f_equal.
    rewrite <-(insert_id (refresh_tokens d5) id r) at 1 by done. by rewrite alter_insert_eq.
  - intros k Hk. simpl in Hk. destruct (decide (k = id)) as [->|]; [by right|]. by rewrite lookup_alter_ne in Hk.
Qed.
End valid.

(** ** The theorems *)

(** The transactions on sessions. *)
Inductive session_request `{Crypto} (cfg : AuthConfig) : Txn SessionAnswer → Prop :=
| req_refresh clk dr token : session_request cfg (refresh_txn cfg clk dr token)
| req_login clk dr identifier password : session_request cfg (login_txn cfg clk dr identifier password)
| req_logout clk token : session_request cfg (logout_txn cfg clk token).
Lemma session_request_valid `{Crypto} cfg I p : session_request cfg p → valid session_step I p.
Proof. intros []; [apply refresh_valid|apply login_valid|apply logout_valid]. Qed.

(** What the answers say. *)
Definition rotations (as_ : list SessionAnswer) : list Uuid :=
  omap (λ a, match a with Rotated id _ _ => Some id | _ => None end) as_.
Definition new_tokens (as_ : list SessionAnswer) : list Uuid :=
  omap (λ a, match a with Rotated _ k _ | Issued _ k _ => Some k | _ => None end) as_.
Definition logins_of (u : Uuid) (as_ : list SessionAnswer) : Z :=
  Z.of_nat (length (omap (λ a, match a with Issued v k _ => if decide (v = u) then Some k else None | _ => None end) as_)).
Lemma logins_cons u a as_ : logins_of u (a :: as_) = logins_of u [a] + logins_of u as_.
Proof. unfold logins_of. destruct a; cbn; try case_decide; cbn [length]; lia. Qed.

Lemma step_token L ans d d' k r :
  session_step L ans d d' → refresh_tokens d !! k = Some r →
  ∃ r', refresh_tokens d' !! k = Some r' ∧ (rt_revoked_at r ≠ None → r' = r).
Proof.
  intros [He _] Hk. destruct ans as [id by_id p|u|u by_id p|id| |e]; simpl in He; try (subst; by exists r).
  - destruct He as (t & r0 & row & Hid & Hr0 & Hby & _ & _ & ->). simpl.
    destruct (decide (id = k)) as [->|]; [rewrite lookup_insert_eq|rewrite !lookup_insert_ne by congruence; by exists r].
    simplify_eq. by eexists.
  - destruct He as (t & ks & Hnd & Hks & ->). rewrite lookup_changed_tokens, Hk by done. eexists. split; [done|].
    intros Hr. case_bool_decide as Hin; [|done]. destruct (Hks k Hin) as (r' & ? & Hu). simplify_eq.
    unfold unrevoked_of in Hu. rewrite (bool_decide_false (rt_revoked_at _ = None)), andb_false_r in Hu; done.
  - destruct He as (row & Hby & _ & _ & ->). simpl. rewrite lookup_insert_ne by congruence. by exists r.
  - destruct He as (t & r0 & Hid & Hr0 & ->). simpl.
    destruct (decide (id = k)) as [->|]; [rewrite lookup_insert_eq|rewrite lookup_insert_ne by done; by exists r].
    simplify_eq. by eexists.
Qed.

Lemma live_token_revoked v k t r : live_token v k (revoked t r) = false.
Proof. unfold live_token. simpl. by rewrite andb_false_r. Qed.
Lemma live_token_replaced v k t by_id r : live_token v k (replaced t by_id r) = false.
Proof. unfold live_token. simpl. by rewrite andb_false_r. Qed.
Lemma live_token_unrevoked v k r : unrevoked r → live_token v k r = bool_decide (rt_user_id r = v).
Proof. unfold live_token, unrevoked. intros ->. by rewrite (bool_decide_true (None = None)), andb_true_r. Qed.
Lemma sessions_revoke_row t k d v : sessions (revoke_token_row t k d) v ≤ sessions d v.
Proof.
  unfold sessions. simpl. destruct (refresh_tokens d !! k) as [r|] eqn:Hk.
  - rewrite <-(insert_id (refresh_tokens d) k r) at 1 by done. rewrite alter_insert_eq, (count_where_replace _ _ _ _ _ Hk).
    rewrite live_token_revoked. destruct (live_token v k r); lia.
  - rewrite alter_id; [lia|]. intros r Hr. congruence.
Qed.
Lemma sessions_step L ans d d' v :
  session_step L ans d d' → sessions d' v ≤ sessions d v + logins_of v [ans].
Proof.
  intros [He _]. unfold logins_of.
  destruct ans as [id by_id p|u|u by_id p|id| |e]; simpl in He; try (subst; simpl; lia).
  - destruct He as (t & r0 & row & Hid & Hr0 & Hby & Hu & Hrow & ->). unfold sessions. simpl.
    rewrite (count_where_replace _ _ _ r0), count_where_insert_fresh by (rewrite ?lookup_insert_ne; congruence).
    rewrite live_token_replaced, !live_token_unrevoked, Hu by done. case_bool_decide; simpl; lia.
  - destruct He as (t & ks & _ & _ & ->). simpl. induction ks as [|k ks IH]; simpl; [lia|].
    etrans; [apply sessions_revoke_row|done].
  - destruct He as (row & Hby & <- & Hrow & ->). unfold sessions. simpl. rewrite count_where_insert_fresh by done.
    rewrite live_token_unrevoked by done. case_decide; [rewrite bool_decide_true by done|rewrite bool_decide_false by done]; simpl; lia.
  - destruct He as (t & r0 & Hid & Hr0 & ->). unfold sessions. simpl.
    rewrite (count_where_replace _ _ _ _ _ Hid). rewrite live_token_revoked.
    destruct (live_token v id r0); simpl; lia.
Qed.

(** What holds after every history. *)
Record session_history (d0 : Db) (as_ : list SessionAnswer) (d : Db) : Prop := {
  sh_once : NoDup (rotations as_);
  sh_fresh : NoDup (new_tokens as_);
  sh_present k : k ∈ new_tokens as_ → is_Some (refresh_tokens d !! k);
  sh_chain id k p : Rotated id k p ∈ as_ →
    ∃ r, refresh_tokens d !! id = Some r ∧ rt_revoked_at r ≠ None ∧ rt_replaced_by r = Some k;
  sh_sessions u : sessions d u ≤ sessions d0 u + logins_of u as_ }.

(** A new token was absent before its step and is there after it. *)
Lemma step_new L a d d' k :
  session_step L a d d' → k ∈ new_tokens [a] → refresh_tokens d !! k = None ∧ is_Some (refresh_tokens d' !! k).
Proof.
  intros [He _] Hk. destruct a as [id by_id p|u|u by_id p|id| |e]; simpl in *; try by apply elem_of_nil in Hk.
  - apply list_elem_of_singleton in Hk as ->. destruct He as (t & r0 & row & Hid & _ & Hby & _ & _ & ->). split; [done|].
    simpl. rewrite lookup_insert_ne, lookup_insert_eq by congruence. done.
  - apply list_elem_of_singleton in Hk as ->. destruct He as (row & Hby & _ & _ & ->). split; [done|]. simpl. by rewrite lookup_insert_eq.
Qed.
Lemma step_rotated L id k p d d' :
  session_step L (Rotated id k p) d d' →
  (∃ r, refresh_tokens d !! id = Some r ∧ rt_revoked_at r = None) ∧
  ∃ r, refresh_tokens d' !! id = Some r ∧ rt_revoked_at r ≠ None ∧ rt_replaced_by r = Some k.
Proof.
  intros [(t & r0 & row & Hid & Hr0 & Hby & _ & _ & ->) _]. split; [by exists r0|].
  exists (replaced t k r0). simpl. by rewrite lookup_insert_eq.
Qed.
Lemma elem_of_rotations id as_ : id ∈ rotations as_ ↔ ∃ k p, Rotated id k p ∈ as_.
Proof.
  unfold rotations. rewrite list_elem_of_omap. split; [|intros (k & p & Hin); by eexists].
  intros ([] & Hin & Ha); simplify_eq; eauto.
Qed.
Lemma session_replay_history d0 as_ d : replay session_step d0 as_ d → session_history d0 as_ d.
Proof.
  induction 1 as [|as_ a L d d' Hr IH Hs].
  { split; [apply NoDup_nil_2|apply NoDup_nil_2|by intros k ?%elem_of_nil|by intros ??? ?%elem_of_nil|].
    intros u. unfold logins_of. simpl. lia. }
  destruct IH as [Hone Hfresh Hpres Hch Hsess].
  assert (Hsplit : new_tokens (a :: as_) = new_tokens [a] ++ new_tokens as_) by (by destruct a).
  split.
  - destruct a as [id k p|u|u k p|id| |e]; try done. apply NoDup_cons. split; [|done].
    intros (k' & p' & (r & Hr1 & Hrev & _)%Hch)%elem_of_rotations.
    destruct (step_rotated _ _ _ _ _ _ Hs) as [(r' & ? & ?) _]. congruence.
  - rewrite Hsplit. apply NoDup_app. split; [destruct a; simpl; apply NoDup_singleton || apply NoDup_nil_2|]. split; [|done].
    intros k [Hn _]%(step_new _ _ _ _ _ Hs) [r Hk]%Hpres. congruence.
  - intros k. rewrite Hsplit. intros [Hk|[r Hk]%Hpres]%elem_of_app; [by eapply (step_new _ _ _ _ _ Hs)|].
    destruct (step_token _ _ _ _ _ _ Hs Hk) as (r' & ? & _). by eexists.
  - intros id k p [<-|Hin]%elem_of_cons; [by eapply step_rotated|]. destruct (Hch _ _ _ Hin) as (r & Hk & Hrev & Hby).
    destruct (step_token _ _ _ _ _ _ Hs Hk) as (r' & Hr' & Hsame). exists r. by rewrite <-(Hsame Hrev) at 1.
  - intros u. rewrite logins_cons. pose proof (sessions_step _ _ _ _ u Hs). specialize (Hsess u). lia.
Qed.

(** C3: rotation is safe under concurrency. However the statements of logins,
    refreshes and logouts interleave, and wherever they are cut off: a refresh token
    is rotated at most once; its row then names the one successor, for ever; the ids
    handed out are all different; and a user has at most as many live sessions as
    before plus one for every login, so that presenting tokens again, or in parallel,
    never multiplies sessions. *)
Theorem concurrent_refresh_once `{Crypto} cfg ms d s :
  (∀ i p, Begin i p ∈ ms → session_request cfg p) →
  schedule ms (idle_machine d) = Some s → session_history d (answered s) (committed s).
Proof.
  intros Hms Hs. apply session_replay_history.
  eapply (schedule_replay _ (λ _, True)); [done|done| |done]. eauto using session_request_valid.
Qed.

(** ** Alone, every program does what the sequential method does *)

Lemma alone_insert_token failed id row k w d :
  alone (insert_token failed id row k) w d =
  match insert_refresh_token id row (w d) with
  | (Ok _, d') => alone (k tt) (λ _, d') d
  | (Err _, _) => (failed, d)
  end.
Proof.
  unfold insert_token, insert_refresh_token, insert_row, mbind, Proc_bind, mret, Proc_ret, rollback. unfold_m. cbn [alone].
  destruct (has_key id (refresh_tokens (w d))) eqn:Hk; cbn [negb alone]; [done|]. apply has_key_false in Hk.
  cbn [refresh_tokens set_refresh_tokens]. rewrite (exists_where_other rt_token_hash) by done.
  destruct (exists_where _ _); cbn [negb alone]; [done|]. rewrite alone_references.
  change (user_exists (set_refresh_tokens _ (w d))) with (user_exists (w d)).
  destruct (user_exists (w d) (rt_user_id row)); cbn [negb alone]; [|done]. by apply alone_ext.
Qed.
Lemma alone_update_token matches change id k w d :
  (∀ r, rt_revoked_at (change r) ≠ None) →
  ∃ dn, affected dn = hits (λ r, matches r && bool_decide (rt_revoked_at r = None)) id (refresh_tokens (w d)) ∧
  alone (update_token matches change id k) w d = alone (k dn) (λ _, set_refresh_tokens (update_where
    (λ x r, bool_decide (x = id) && (matches r && bool_decide (rt_revoked_at r = None))) change) (w d)) d.
Proof.
  intros Hc. set (P r := matches r && bool_decide (rt_revoked_at r = None)).
  assert (HPc : ∀ v, P (change v) = false).
  { intros v. unfold P. rewrite bool_decide_false by apply Hc. apply andb_false_r. }
  set (ks := if hits P id (refresh_tokens (w d)) then [id] else []).
  exists (sweep P (fmap change) ks (refresh_tokens (w d))).1. split.
  { rewrite affected_sweep. unfold ks. destruct (hits P id _) eqn:Hh; simpl; [by rewrite Hh|done]. }
  unfold update_token, mbind, Proc_bind, query. cbn [alone]. fold P. etrans.
  - apply (alone_change_rows P (fmap change) RToken ForNoKeyUpdate _ refresh_tokens set_refresh_tokens);
      [done|by intros []|done|done].
  - apply alone_ext. unfold set_refresh_tokens. f_equal. apply map_eq. intros x.
    rewrite lookup_sweep, lookup_update_where by (intros; apply HPc).
    change (match refresh_tokens (w d) !! id with Some r => _ | None => _ end) with (hits P id (refresh_tokens (w d))).
    fold ks. destruct (refresh_tokens (w d) !! x) as [r|] eqn:Hx; [|unfold hits at 1; by rewrite Hx, andb_false_r].
    unfold ks. destruct (decide (x = id)) as [->|Hne].
    + rewrite (bool_decide_true (id = id)) by done. unfold hits. rewrite Hx. simpl. fold (P r).
      destruct (P r); [by rewrite bool_decide_true by left|by rewrite andb_false_r].
    + rewrite (bool_decide_false (x = id)) by done. rewrite bool_decide_false; [done|]. destruct (hits P id _); set_solver.
Qed.

(** The result and the database of a program on its own. *)
Definition alone_gives {B} (result : SessionAnswer → B) (p : Txn SessionAnswer) (d : Db) : B * Db :=
  let r := run_alone p d in (result r.1, r.2).

Lemma update_where_key `{Countable K} {V} (P : V → bool) f (k : K) (m : gmap K V) :
  update_where (λ x r, bool_decide (x = k) && P r) f m
  = match m !! k with Some r => if P r then <[k := f r]> m else m | None => m end.
Proof.
  apply map_eq. intros x. rewrite lookup_update_where. destruct (decide (x = k)) as [->|Hne].
  - rewrite (bool_decide_true (k = k)) by done. destruct (m !! k) as [r|] eqn:Hk; [|by rewrite Hk]. simpl.
    destruct (P r); [by rewrite lookup_insert_eq|by rewrite Hk].
  - rewrite (bool_decide_false (x = k)) by done. simpl. rewrite option_fmap_id.
    destruct (m !! k) as [r|]; [|done]. destruct (P r); [by rewrite lookup_insert_ne|done].
Qed.

Section alone.
Context `{Crypto} (cfg : AuthConfig).

Lemma issue_with_tx_run clk dr u d :
  issue_token_pair_with_tx cfg clk dr u d =
  match insert_refresh_token (new_refresh_id dr) (issued_row cfg clk dr u) d with
  | (Ok _, d') => (Ok (new_refresh_id dr, issued_pair cfg clk dr u), d')
  | (Err _, d') => (Err Internal, d')
  end.
Proof.
  unfold issue_token_pair_with_tx, build_access_claims, build_refresh_claims. unfold_m. run_step.
  change (insert_refresh_token _ _ d) with (insert_refresh_token (new_refresh_id dr) (issued_row cfg clk dr u) d).
  by destruct (insert_refresh_token _ _ d) as [[]?].
Qed.
Lemma refresh_alone clk dr token d :
  alone_gives pair_result (refresh_txn cfg clk dr token) d = refresh cfg clk dr token d.
Proof.
  unfold alone_gives, refresh_txn, refresh. destruct (verify_refresh_token cfg (app_now clk) token) as [[u id]|]; [|done].
  unfold_txn. unfold refresh_row, token_row. destruct (refresh_tokens d !! id) as [r|] eqn:Hr; [|done].
  destruct (bool_decide (rt_user_id r = u) && bool_decide (rt_token_hash r = hash_token token) && (db_now clk <? rt_expires_at r)) eqn:Hm; [|done].
  destruct (users d !! u) as [owner|] eqn:Ho; cbn [fmap option_fmap option_map alone]; [|done]. rewrite Hr, Hm.
  clear Hm. destruct (bool_decide (rt_revoked_at r ≠ None)); cbv beta iota.
  { match goal with |- context [alone (revoke_tokens ?t u ?k) ?w d] => destruct (alone_revoke_tokens t u k w d) as [dn ->] end. done. }
  destruct (bool_decide (u_deleted_at owner ≠ None)); cbv beta iota; [done|]. destruct (banned_at _ _); cbv beta iota; [done|].
  rewrite alone_insert_token, issue_with_tx_run. destruct (insert_refresh_token _ _ d) as [[[]|e] d']; [|done]. cbv beta iota.
  match goal with |- context [alone (update_token ?m ?c id ?k) ?w d] =>
    destruct (alone_update_token m c id k w d) as (dn & _ & ->); [done|] end. done.
Qed.
Lemma login_alone clk dr identifier password d :
  alone_gives pair_result (login_txn cfg clk dr identifier password) d = login cfg clk dr identifier password d.
Proof.
  unfold alone_gives, login_txn, login, issue_token_pair. unfold_txn.
  destruct (login_rows d identifier) as [|[u r] rows]; [done|]. cbn [head fmap option_fmap option_map fst]. cbv beta iota.
  destruct (bool_decide (u_password_hash r = "")); [done|]. destruct (verify_password _ _); [|done]. cbn [negb].
  destruct (banned_at _ _); [done|]. cbv beta iota. rewrite alone_insert_token, issue_with_tx_run.
  by destruct (insert_refresh_token _ _ d) as [[[]|e] d'].
Qed.
Lemma logout_alone clk token d :
  alone_gives revoke_result (logout_txn cfg clk token) d = revoke_refresh_token cfg clk token d.
Proof.
  unfold alone_gives, logout_txn, revoke_refresh_token.
  destruct (verify_refresh_token cfg (app_now clk) token) as [[u id]|]; [|done]. unfold_txn.
  match goal with |- context [alone (update_token ?m ?c id ?k) ?w d] =>
    destruct (alone_update_token m c id k w d) as (dn & Hdn & ->); [done|] end. cbn [alone fst snd].
  rewrite Hdn. unfold hits, set_refresh_tokens. rewrite update_where_key.
  destruct (refresh_tokens d !! id) as [r|] eqn:Hr; [|by destruct d].
  destruct (bool_decide (rt_user_id r = u) && bool_decide (rt_token_hash r = hash_token token) && _); [done|by destruct d].
Qed.

(** On its own, every session program is the operation it stands for: [login],
    [refresh] and [revoke_refresh_token], run without interference, give the result
    and leave the database of the sequential methods, on every branch. *)
Theorem session_programs_alone clk :
  (∀ dr token d, alone_gives pair_result (refresh_txn cfg clk dr token) d = refresh cfg clk dr token d) ∧
  (∀ dr identifier password d,
     alone_gives pair_result (login_txn cfg clk dr identifier password) d = login cfg clk dr identifier password d) ∧
  (∀ token d, alone_gives revoke_result (logout_txn cfg clk token) d = revoke_refresh_token cfg clk token d).
Proof. split_and!; intros; [apply refresh_alone|apply login_alone|apply logout_alone]. Qed.
End alone.

(** ** A reuse that does not end every session *)

Section reuse.
Context `{Crypto} (cfg : AuthConfig).
Context (clkA clkB : Clock) (drA drB : Draws) (live used : string).

(** A used token is presented; the revocation of the family has looked for the live
    tokens of the user when the refresh of one of them starts and runs to its end; then
    the revocation goes on. *)
Definition reuse_meets_refresh (n m : nat) : list (PoolMove SessionAnswer) :=
  [Begin 2%N (refresh_txn cfg clkB drB used)] ++ (replicate 4 (Step 2%N) ++
  ([Begin 1%N (refresh_txn cfg clkA drA live)] ++ (replicate n (Step 1%N) ++ replicate m (Step 2%N)))).

Definition live_tokens (u : Uuid) (d : Db) : list Uuid :=
  select (λ k r, if unrevoked_of u r then Some k else None) (refresh_tokens d).
(** The rest of the revocation, for the tokens [ks]. *)
Definition revoking_rest (u : Uuid) (ks : list Uuid) : Txn SessionAnswer :=
  change_rows RToken ForNoKeyUpdate
    (λ k d, match refresh_tokens d !! k with Some r => unrevoked_of u r | None => false end)
    (λ k, set_refresh_tokens (alter (revoked (db_now clkB)) k)) ks (λ _, TCommit (FamilyRevoked u)).
Definition reused (u id : Uuid) (d : Db) : Prop :=
  verify_refresh_token cfg (app_now clkB) used = Some (u, id) ∧
  ∃ r owner, refresh_row clkB d u id (hash_token used) = Some (r, owner) ∧ rt_revoked_at r ≠ None.

Lemma refresh_row_Some clk d u id h r owner :
  refresh_row clk d u id h = Some (r, owner) →
  refresh_tokens d !! id = Some r ∧ rt_user_id r = u ∧ rt_token_hash r = h ∧ (db_now clk <? rt_expires_at r) = true ∧
  users d !! u = Some owner ∧ token_row clk u id h d = Some r.
Proof.
  unfold refresh_row, token_row. destruct (refresh_tokens d !! id) as [r'|]; [|done].
  destruct (_ && _) eqn:Hm; [|done]. bool_to_prop. destruct (users d !! u) as [o|]; [|done]. simpl.
  intros [= -> ->]. done.
Qed.
(** The first four steps of the reuse. *)
Lemma reuse_looks u id d :
  reused u id d →
  schedule (replicate 4 (Step 2%N)) (mkMachine d {[2%N := mkThread (refresh_txn cfg clkB drB used) [] (λ d, d)]} [])
  = Some (mkMachine d {[2%N := mkThread (revoking_rest u (live_tokens u d)) [(RToken id, ForUpdate)] (λ d, d)]} []).
Proof.
  intros (Hv & r & owner & Hrow & Hrev). pose proof (refresh_row_Some _ _ _ _ _ _ _ Hrow) as (_ & _ & _ & _ & _ & Htok).
  unfold refresh_txn. rewrite Hv. unfold script, revoke_tokens, mbind, Proc_bind, mret, Proc_ret, query, lock, rollback.
  simpl. unfold advance. cbn [running committed answered]. rewrite lookup_singleton_eq. simpl. rewrite Hrow.
  rewrite insert_singleton_eq, lookup_singleton_eq. simpl.
  replace (held_against _ _ _) with false
    by (symmetry; apply held_against_false; intros j t Hj [<- _]%lookup_singleton_Some; done).
  simpl. rewrite insert_singleton_eq, lookup_singleton_eq. simpl. rewrite Htok, bool_decide_true by done.
  rewrite insert_singleton_eq. simpl. rewrite lookup_singleton_eq. simpl. by rewrite insert_singleton_eq.
Qed.
Lemma asks_insert_token (P : Row * LockMode → Prop) failed id row k w d :
  P (RToken id, ForUpdate) → P (RTokenHash (rt_token_hash row), ForUpdate) → P (RUser (rt_user_id row), ForKeyShare) →
  (∀ w, Forall P (asks (k tt) w d)) → Forall P (asks (insert_token failed id row k) w d).
Proof.
  intros H1 H2 H3 Hk. unfold insert_token, insert_row, mbind, Proc_bind, mret, Proc_ret, rollback. cbn [asks].
  apply Forall_cons. split; [done|]. destruct (has_key _ _); cbn [negb asks]; [done|].
  apply Forall_cons. split; [done|]. destruct (exists_where _ _); cbn [negb asks]; [done|].
  apply asks_references; [done|]. intros []; cbn [negb asks]; [apply Hk|done].
Qed.
(** A rotation asks for no lock on the row of a third token. *)
Lemma asks_refresh d p d1 k r :
  refresh cfg clkA drA live d = (Ok (Some p), d1) → refresh_tokens d !! k = Some r → rt_revoked_at r ≠ None →
  Forall (λ l : Row * LockMode, l.1 ≠ RToken k) (asks (refresh_txn cfg clkA drA live) (λ d, d) d).
Proof.
  intros (u & id & r' & owner & Hv & Hr' & Hu & Hh & He & Hrev & Ho & Hdel & Hban & _ & Hne & Hf & _)%refresh_ok Hk Hkr.
  unfold refresh_txn. rewrite Hv. unfold script, update_token, mbind, Proc_bind, mret, Proc_ret, query, lock, rollback. cbn [asks].
  unfold refresh_row, token_row. rewrite Hr', !bool_decide_true, (proj2 (Z.ltb_lt _ _) He), Ho by done. simpl.
  rewrite Hr', !bool_decide_true, (proj2 (Z.ltb_lt _ _) He) by done. simpl.
  rewrite !bool_decide_false, Hban by (rewrite ?Hrev, ?Hdel; naive_solver).
  assert (id ≠ k) by congruence. assert (new_refresh_id drA ≠ k) by congruence.
  apply Forall_cons. split; [naive_solver|].
  apply asks_insert_token; [simpl; congruence|done|done|]. intros w. cbn [asks]. case_match; cbn [change_rows asks]; [|done].
  unfold mbind, Proc_bind, mret, Proc_ret, lock, query, exec. cbn [asks]. apply Forall_cons. split; [simpl; congruence|].
  match goal with |- context [if ?b then _ else _] => destruct b end; cbn [asks]; apply Forall_nil_2.
Qed.

Lemma alone_revoking_rest u ks d :
  alone (revoking_rest u ks) (λ d, d) d
  = (FamilyRevoked u,
     set_refresh_tokens (λ _, (sweep (unrevoked_of u) (fmap (revoked (db_now clkB))) ks (refresh_tokens d)).2) d).
Proof.
  unfold revoking_rest. etrans.
  - apply (alone_change_rows (unrevoked_of u) (fmap (revoked (db_now clkB))) RToken ForNoKeyUpdate _ refresh_tokens
      set_refresh_tokens); [done|by intros []|done|done].
  - reflexivity.
Qed.
(** The revocation reaches the tokens that were live when it looked. *)
Lemma missed_session d p d1 u id :
  refresh cfg clkA drA live d = (Ok (Some p), d1) → verify_refresh_token cfg (app_now clkA) live = Some (u, id) →
  let d2 := (alone (revoking_rest u (live_tokens u d)) (λ d, d) d1).2 in
  refresh_tokens d2 !! new_refresh_id drA = Some (issued_row cfg clkA drA u) ∧ sessions d2 u = 1.
Proof.
  intros (u' & id' & r' & owner & Hv & Hr' & Hu & Hh & He & Hrev & Ho & Hdel & Hban & _ & Hne & Hf & ->)%refresh_ok Hv'.
  rewrite Hv in Hv'. injection Hv' as -> ->. rewrite alone_revoking_rest. unfold sessions. cbn [snd refresh_tokens set_refresh_tokens].
  cbv zeta.
  set (m := <[id := _]> _). set (S_ := (sweep _ _ _ m).2).
  assert (HS : ∀ k, S_ !! k = if bool_decide (k ∈ live_tokens u d) && hits (unrevoked_of u) k m
                              then revoked (db_now clkB) <$> m !! k else m !! k).
  { intros k. apply lookup_sweep. intros v _. simpl. unfold unrevoked_of. simpl. by rewrite andb_false_r. }
  assert (Hby : S_ !! new_refresh_id drA = Some (issued_row cfg clkA drA u)).
  { rewrite HS, bool_decide_false; [|unfold live_tokens; rewrite elem_of_select].
    - simpl. unfold m. by rewrite lookup_insert_ne, lookup_insert_eq by done.
    - intros (k & r & Hk & Hs). destruct (unrevoked_of u r); simplify_eq. }
  split; [done|]. rewrite <-(insert_id S_ _ _ Hby), <-insert_delete_eq, count_where_insert_fresh by apply lookup_delete_eq.
  rewrite count_where_zero; [by rewrite live_token_unrevoked, bool_decide_true by done|].
  intros k v [Hk Hkv]%lookup_delete_Some. rewrite HS in Hkv.
  destruct (decide (k = id)) as [->|Hki].
  { unfold m in Hkv. rewrite lookup_insert_eq in Hkv. unfold hits in Hkv. rewrite lookup_insert_eq in Hkv.
    unfold unrevoked_of in Hkv at 1. simpl in Hkv. rewrite !andb_false_r in Hkv. injection Hkv as <-. apply live_token_replaced. }
  assert (Hmk : m !! k = refresh_tokens d !! k) by (unfold m; by rewrite !lookup_insert_ne by done).
  unfold hits in Hkv. rewrite Hmk in Hkv. destruct (refresh_tokens d !! k) as [x|] eqn:Hx; [|by rewrite andb_false_r in Hkv].
  destruct (unrevoked_of u x) eqn:Hux.
  - rewrite bool_decide_true in Hkv by (apply elem_of_select; exists k, x; by rewrite Hux). injection Hkv as <-. apply live_token_revoked.
  - rewrite andb_false_r in Hkv. by injection Hkv as <-.
Qed.
(** One after the other: whichever comes first, the second one revokes what is left. *)
Lemma reuse_revokes u id d : reused u id d → (refresh cfg clkB drB used d).2 = revoke_all_tokens (db_now clkB) u d.
Proof.
  intros (Hv & r & owner & Hrow & Hrev). apply refresh_row_Some in Hrow as (Hr & Hu & Hh & He & Ho & _).
  by rewrite (refresh_reused _ _ _ _ _ _ _ _ _ Hv Hr Hu Hh Hrev Ho), He.
Qed.
Lemma reused_kept u id d d1 :
  reused u id d → refresh_tokens d1 !! id = refresh_tokens d !! id → users d1 = users d → reused u id d1.
Proof. unfold reused, refresh_row. by intros Hr -> ->. Qed.
Lemma reused_before u id id' d p d1 :
  reused u id d → verify_refresh_token cfg (app_now clkA) live = Some (u, id') →
  refresh cfg clkA drA live d = (Ok (Some p), d1) →
  sessions (refresh cfg clkB drB used d1).2 u = 0 ∧
  sessions (refresh cfg clkA drA live (refresh cfg clkB drB used d).2).2 u = 0.
Proof.
  intros Hre Hv (u' & i' & r' & o' & Hv' & Hr' & Hu' & Hh' & He' & Hrev' & Ho' & _ & _ & _ & Hne & Hf & ->)%refresh_ok.
  rewrite Hv in Hv'. injection Hv' as <- <-. split.
  - pose proof Hre as (_ & r & owner & (Hr & _)%refresh_row_Some & Hrev).
    rewrite (reuse_revokes u id); [apply revoke_all_sessions|]. apply (reused_kept _ _ d); [done| |done]. simpl.
    by rewrite !lookup_insert_ne by congruence.
  - rewrite (reuse_revokes _ _ _ Hre).
    rewrite (refresh_reused cfg clkA drA live _ u id' (revoked (db_now clkB) r') o'); [|done| |done..].
    + simpl. rewrite (proj2 (Z.ltb_lt _ _) He'). apply revoke_all_sessions.
    + simpl. rewrite lookup_update_where, Hr'. simpl. by rewrite !bool_decide_true.
Qed.

(** C35: reuse detection does not always end every session of the user. Whenever a used
    refresh token [used] of the account is presented and a live one, [live], can be
    refreshed, there is an interleaving of the two requests in which both answer, the
    detection last: the refresh hands out its pair, the detection revokes the family,
    and exactly one session of the account is left, that of the pair handed out. One
    after the other, in either order, the two requests leave no session. *)
Theorem reuse_misses_successor u id id' d p d1 :
  reused u id d → verify_refresh_token cfg (app_now clkA) live = Some (u, id') →
  refresh cfg clkA drA live d = (Ok (Some p), d1) →
  (∃ n m s a, schedule (reuse_meets_refresh n m) (idle_machine d) = Some s ∧ answered s = [FamilyRevoked u; a] ∧
     pair_result a = Ok (Some p) ∧ sessions (committed s) u = 1 ∧
     ∃ r, refresh_tokens (committed s) !! new_refresh_id drA = Some r ∧ live_token u (new_refresh_id drA) r = true) ∧
  sessions (refresh cfg clkB drB used d1).2 u = 0 ∧
  sessions (refresh cfg clkA drA live (refresh cfg clkB drB used d).2).2 u = 0.
Proof.
  intros Hre Hv Ha. pose proof Hre as (_ & r & owner & Hrow & Hrev). apply refresh_row_Some in Hrow as (Hr & _).
  split; [|by eapply reused_before].
  destruct (missed_session _ _ _ _ _ Ha Hv) as [Hby Hone].
  set (rest := revoking_rest u (live_tokens u d)). set (B := mkThread rest [(RToken id, ForUpdate)] (λ d : Db, d)).
  destruct (run_to_end 1%N {[2%N := B]} (refresh_txn cfg clkA drA live) [] (λ d, d) d []) as [n Hn].
  { eapply Forall_impl; [exact (asks_refresh _ _ _ _ _ Ha Hr Hrev)|]. intros l Hl. apply held_against_false.
    intros j t _ [_ <-]%lookup_singleton_Some. simpl. unfold lock_conflicts. by rewrite bool_decide_false. }
  rewrite delete_id in Hn by done. destruct (alone (refresh_txn cfg clkA drA live) (λ d, d) d) as [a d1'] eqn:Hal.
  pose proof (refresh_alone cfg clkA drA live d) as Hs. unfold alone_gives, run_alone in Hs. rewrite Hal, Ha in Hs.
  cbn [fst snd] in *. injection Hs as Hres ->.
  destruct (run_to_end 2%N ∅ rest [(RToken id, ForUpdate)] (λ d, d) d1 [a]) as [m Hm].
  { apply Forall_forall. intros l _. apply held_against_false. by intros j t _ ?%lookup_empty_Some. }
  exists n, m. eexists _, a. split.
  - unfold reuse_meets_refresh, idle_machine. rewrite schedule_begin, insert_empty, schedule_app by done.
    erewrite reuse_looks by exact Hre. cbn [mbind option_bind]. fold rest. fold B.
    rewrite schedule_begin, schedule_app, Hn by done. exact Hm.
  - split_and!; [cbn [answered]; unfold rest; by rewrite alone_revoking_rest|done|exact Hone|].
    eexists. split; [exact Hby|]. by rewrite live_token_unrevoked, bool_decide_true by done.
Qed.
End reuse.

(** ** Concrete runs *)

(** The sample account has the token 7, which was rotated, and its successor 8; the
    successor is being refreshed while somebody presents 7 again. *)
Definition second_token : string :=
  refresh_token (@issued_pair toy_crypto sample_cfg (clk_at 20) (mkDraws 8 "n" "m") 5).
Definition after_sessions (ms : list (PoolMove SessionAnswer)) (d : Db) : Machine SessionAnswer :=
  default (idle_machine d) (schedule ms (idle_machine d)).
Lemma reuse_misses_successor_witness :
  ∃ n m s, schedule (@reuse_meets_refresh toy_crypto sample_cfg (clk_at 40) (clk_at 41) (mkDraws 9 "n" "m")
      (mkDraws 10 "n" "m") second_token (refresh_token sample_pair) n m) (idle_machine rotated) = Some s ∧
    sessions (committed s) 5 = 1.
Proof.
  destruct (@reuse_misses_successor toy_crypto sample_cfg (clk_at 40) (clk_at 41) (mkDraws 9 "n" "m") (mkDraws 10 "n" "m")
    second_token (refresh_token sample_pair) 5 7 8 rotated (@issued_pair toy_crypto sample_cfg (clk_at 40) (mkDraws 9 "n" "m") 5)
    (snd (@refresh toy_crypto sample_cfg (clk_at 40) (mkDraws 9 "n" "m") second_token rotated)))
    as [(n & m & s & a & Hs & _ & _ & Hone & _) _].
  - split; [vm_compute; reflexivity|]. eexists _, _. split; [vm_compute; reflexivity|vm_compute; discriminate].
  - vm_compute. reflexivity.
  - vm_compute. reflexivity.
  - exists n, m, s. split; [exact Hs|exact Hone].
Defined.

(** Two requests present the same token: the second waits for the first, and then
    takes the token for stolen. *)
Definition double_refresh : list (PoolMove SessionAnswer) :=
  [Begin 1 (@refresh_txn toy_crypto sample_cfg (clk_at 40) (mkDraws 9 "n" "m") second_token);
   Begin 2 (@refresh_txn toy_crypto sample_cfg (clk_at 41) (mkDraws 10 "n" "m") second_token)]
  ++ [Step 1; Step 2] ++ replicate 12 (Step 1) ++ replicate 7 (Step 2).
Lemma concurrent_refresh_once_witness :
  let s := after_sessions double_refresh rotated in
  map pair_result (answered s)
    = [Ok None; Ok (Some (@issued_pair toy_crypto sample_cfg (clk_at 40) (mkDraws 9 "n" "m") 5))] ∧
  session_history rotated (answered s) (committed s).
Proof.
  intros s. split; [vm_compute; reflexivity|].
  apply (@concurrent_refresh_once toy_crypto sample_cfg double_refresh rotated s).
  - intros i p Hp. unfold double_refresh in Hp. rewrite !elem_of_app, !elem_of_cons in Hp.
    destruct Hp as [[[= -> ->]|[[= -> ->]|[]%elem_of_nil]]|Hp]; [constructor|constructor|].
    destruct Hp as [[Hp|[Hp|Hp%elem_of_nil]]|[Hp|Hp]]; try done; by apply elem_of_replicate in Hp as [??].
  - unfold s, after_sessions. destruct (schedule _ _) eqn:Hs; [done|]. by vm_compute in Hs.
Defined.
