(* ===== verification/TrustRaces.v ===== *)
(** * Trust scores under concurrent requests

    [record_flag], [add_strike], [recalculate_trust_level] and the update of
    [record_activity] ([src/app/trust.rs]) as transaction programs. The first update of
    a report locks the row until the commit, so concurrent reports never skip a strike.
    A recalculation reads the row without a lock before it writes the level: a report
    that commits in between loses its demotion. *)

From S2P Require Import Prelude Sql Domain Schema Isolation RateLimits Trust.
From stdpp Require Import options.

#[local] Open Scope Z_scope.

(** ** The transactions *)

(** [UPDATE user_trust_scores SET .. WHERE user_id = $1 RETURNING ..]. *)
Definition update_trust_txn {A} (failed : DbError → A) (u : Uuid) (f : TrustRow → Result DbError TrustRow) :
    Proc A (option TrustRow) :=
  seen ← query (λ d, has_key u (user_trust_scores d));
  if negb seen then mret None else
  _ ← lock (RTrust u) ForNoKeyUpdate;
  row ← query (λ d, user_trust_scores d !! u);
  match row with
  | None => mret None
  | Some r =>
      match f r with
      | Ok r' => _ ← exec (set_user_trust_scores (<[u := r']>)); mret (Some r')
      | Err e => rollback (failed e)
      end
  end.
Lemma alone_update_trust {A} failed u f (k : option TrustRow → Txn A) w d :
  alone (update_trust_txn failed u f k) w d =
  match update_trust u f (w d) with
  | (Ok o, d') => alone (k o) (λ _, d') d
  | (Err e, _) => (failed e, d)
  end.
Proof.
  unfold update_trust_txn, update_trust, mbind, Proc_bind, mret, Proc_ret, query, lock, exec, rollback.
  cbn [alone]. unfold_m. unfold has_key.
  destruct (user_trust_scores (w d) !! u) as [r|] eqn:Hr.
  - rewrite bool_decide_true by done. cbn [negb alone]. rewrite Hr. destruct (f r); cbn [alone]; [|done]. by apply alone_ext.
  - rewrite bool_decide_false by (by intros []). cbn [negb alone]. by apply alone_ext.
Qed.

(** How a request ended. *)
Inductive TrustAnswer :=
| Flagged (u : Uuid)                    (* [record_flag] *)
| Struck (u : Uuid) (strikes : Z)       (* [add_strike] *)
| Active (u : Uuid)                     (* the update of [record_activity] *)
| Recalculated (u : Uuid)
| TrustFailed (e : DbError).

Section programs.
Context (clk : Clock) (u : Uuid).
Notation update := (update_trust_txn TrustFailed u).

Definition recalculate_stmts : Proc TrustAnswer unit :=
  (* SELECT .. FROM user_trust_scores WHERE user_id = $1 *)
  row ← query (λ d, user_trust_scores d !! u);
  match row with
  | None => rollback (TrustFailed RowNotFound)
  | Some r => _ ← update (λ r', Ok (with_level (db_now clk) (as_i32 (computed_level r)) r')); mret tt
  end.
Definition add_strike_stmts : Proc TrustAnswer Z :=
  o ← update (apply_strike (db_now clk));
  match o with
  | None => rollback (TrustFailed RowNotFound)
  | Some r =>
      let strikes := ts_strikes r in
      _ ← (if 3 <=? strikes
           then update (λ r, Ok (apply_ban (db_now clk) (app_now clk + days (ban_duration_days strikes)) r))
           else mret None);
      _ ← recalculate_stmts;
      mret strikes
  end.
Definition recalculate_txn : Txn TrustAnswer := script (_ ← recalculate_stmts; mret (Recalculated u)).
Definition add_strike_txn : Txn TrustAnswer := script (n ← add_strike_stmts; mret (Struck u n)).
Definition record_flag_txn : Txn TrustAnswer := script (
  o ← update (apply_flag (db_now clk));
  match o with
  | None => rollback (TrustFailed RowNotFound)
  | Some r =>
      let flags := ts_flags_received r in
      _ ← (if (10 <=? flags) && (Z.rem flags 10 =? 0) then _ ← add_strike_stmts; mret tt else recalculate_stmts);
      mret (Flagged u)
  end).
(** The first statement of [record_activity]; a recalculation follows it in a
    transaction of its own when the points changed by five or more. *)
Definition activity_txn (activity_type : string) : Txn TrustAnswer := script (
  _ ← update (apply_activity (db_now clk) (activity activity_type).1 (activity activity_type).2);
  mret (Active u)).
End programs.

(** ** What a commit does *)

Definition trust_effect (ans : TrustAnswer) (d d' : Db) : Prop :=
  match ans with
  | Flagged u => ∃ clk, record_flag clk u d = (Ok tt, d')
  | Struck u n => ∃ clk, add_strike clk u d = (Ok n, d')
  | Active u => d' = d ∨ ∃ t delta field r r', user_trust_scores d !! u = Some r ∧
      apply_activity t delta field r = Ok r' ∧ d' = put_trust u r' d
  | Recalculated u => d' = d ∨ ∃ t l r, user_trust_scores d !! u = Some r ∧ d' = put_trust u (with_level t (as_i32 l) r) d
  | TrustFailed _ => d' = d
  end.
Definition trust_step (L : Locks) (ans : TrustAnswer) (d d' : Db) : Prop :=
  trust_effect ans d d' ∧
  ∀ u, user_trust_scores d !! u ≠ user_trust_scores d' !! u → exclusive L (RTrust u).

Global Instance TrustRow_eq_dec : EqDecision TrustRow.
Proof. solve_decision. Defined.

Notation twp := (wp trust_step).
Notation tstable := (stable trust_step).

Lemma stable_trust_row L u v : exclusive L (RTrust u) → tstable L (λ d, user_trust_scores d !! u = v).
Proof. apply (stable_row trust_step RTrust user_trust_scores). by intros ???? [_ ?]. Qed.
Lemma wp_trust_failed e L w d : twp (TRollback (TrustFailed e)) L w d.
Proof. by intros d' _. Qed.

Section owned.
Context (u : Uuid) (r0 : TrustRow).

(** The transaction holds the row [r0] of [u], and its only pending write replaces it. *)
Definition owns (L : Locks) (d : Db) : Prop := exclusive L (RTrust u) ∧ user_trust_scores d !! u = Some r0.
Definition replacing (r : TrustRow) (w : Db → Db) : Prop := ∀ d, w d = put_trust u r d.
Lemma owns_stable L : tstable L (owns L).
Proof. intros d d' Hr [Hl Hd]. split; [done|]. by eapply (stable_trust_row L u (Some r0)). Qed.
Lemma owns_more L l d : owns L d → owns (l :: L) d.
Proof. intros [Hl Hd]. split; [by apply exclusive_more|done]. Qed.

(** Further updates of the row see what the transaction wrote. *)
Lemma wp_update_owned f k L w r d :
  replacing r w → owns L d →
  (∀ r' L' w' d', f r = Ok r' → replacing r' w' → owns L' d' → twp (k (Some r')) L' w' d') →
  twp (update_trust_txn TrustFailed u f k) L w d.
Proof.
  intros Hw Hd Hk. unfold update_trust_txn, mbind, Proc_bind, mret, Proc_ret.
  apply (wp_query _ owns); [apply owns_stable|done|]. intros d1 H1. rewrite Hw. simpl.
  rewrite (proj2 (has_key_true u _)) by (rewrite lookup_insert_eq; by eexists). simpl negb. cbv iota.
  apply (wp_lock _ owns); [apply owns_stable|apply owns_more|done|]. intros d2 H2.
  apply (wp_query _ owns); [apply owns_stable|done|]. intros d3 H3. rewrite Hw. simpl. rewrite lookup_insert_eq.
  destruct (f r) as [r'|e] eqn:Hf; [|apply wp_trust_failed].
  apply (wp_exec _ owns); [apply owns_stable|done|]. intros d4 H4. apply Hk; [done| |done].
  intros d5. rewrite Hw. apply put_trust_twice.
Qed.
Lemma wp_recalculate_owned clk k L w r d :
  replacing r w → owns L d →
  (∀ L' w' d', replacing (with_level (db_now clk) (as_i32 (computed_level r)) r) w' → owns L' d' → twp (k tt) L' w' d') →
  twp (recalculate_stmts clk u k) L w d.
Proof.
  intros Hw Hd Hk. unfold recalculate_stmts, mbind, Proc_bind, mret, Proc_ret.
  apply (wp_query _ owns); [apply owns_stable|done|]. intros d1 H1. rewrite Hw. simpl. rewrite lookup_insert_eq.
  eapply wp_update_owned; [done|done|]. intros r' L' w' d' [= <-] Hw' Hd'. by apply Hk.
Qed.
End owned.

(** The first update of a transaction takes the row. *)
Lemma wp_update_first u f k L d :
  (∀ L' d', twp (k None) L' (λ d, d) d') →
  (∀ r r' L' w' d', f r = Ok r' → replacing u r' w' → owns u r L' d' → twp (k (Some r')) L' w' d') →
  twp (update_trust_txn TrustFailed u f k) L (λ d, d) d.
Proof.
  intros Hn Hk. unfold update_trust_txn, mbind, Proc_bind, mret, Proc_ret. intros d1 _.
  destruct (has_key u _); simpl negb; cbv iota; [|apply Hn]. intros d2 _ d3 _.
  destruct (user_trust_scores d3 !! u) as [r|] eqn:Hr; [|apply Hn]. destruct (f r) as [r'|e] eqn:Hf; [|apply wp_trust_failed].
  apply (wp_exec _ (owns u r)); [apply owns_stable|split; [right; left|done]|]. intros d4 H4. by eapply Hk.
Qed.

(** A commit of the row. *)
Lemma trust_commit ans u r0 r w L d :
  replacing u r w → owns u r0 L d →
  (∀ d, user_trust_scores d !! u = Some r0 → trust_effect ans d (put_trust u r d)) → twp (TCommit ans) L w d.
Proof.
  intros Hw Hd He d' Hdr. destruct (stable_drifts _ _ _ _ _ (owns_stable u r0 L) Hdr Hd) as [Hl Hd']. rewrite Hw. split; [auto|].
  intros v Hv. simpl in Hv. destruct (decide (v = u)) as [->|]; [done|]. by rewrite lookup_insert_ne in Hv.
Qed.

Section valid.
Context (clk : Clock) (u : Uuid) (I : Db → Prop).

Lemma wp_add_strike_owned r0 k L w r d :
  replacing u r w → owns u r0 L d →
  (∀ r' L' w' d', strike_row clk r = Ok r' → replacing u r' w' → owns u r0 L' d' → twp (k (ts_strikes r')) L' w' d') →
  twp (add_strike_stmts clk u k) L w d.
Proof.
  intros Hw Hd Hk. unfold add_strike_stmts, mbind, Proc_bind, mret, Proc_ret. unfold strike_row in Hk.
  apply (wp_update_owned u r0 _ _ _ _ r); [done|done|]. intros r1 L1 w1 d1 Hs Hw1 H1. rewrite Hs in Hk. cbv beta iota zeta in *.
  destruct (3 <=? ts_strikes r1) eqn:H3.
  - apply (wp_update_owned u r0 _ _ _ _ r1); [done|done|]. intros r2 L2 w2 d2 [= <-] Hw2 H2.
    eapply wp_recalculate_owned; [done|done|]. intros L3 w3 d3 Hw3 H3'. by apply (Hk _ _ _ _ eq_refl).
  - eapply wp_recalculate_owned; [done|done|]. intros L3 w3 d3 Hw3 H3'. by apply (Hk _ _ _ _ eq_refl).
Qed.

Lemma record_flag_valid : valid trust_step I (record_flag_txn clk u).
Proof.
  intros d _. unfold record_flag_txn, script, mbind, Proc_bind, mret, Proc_ret.
  apply wp_update_first; [intros; apply wp_trust_failed|]. intros r0 r1 L1 w1 d1 Hf Hw1 H1. cbv beta iota zeta.
  destruct (_ && _) eqn:Hs.
  - apply (wp_add_strike_owned r0 _ _ _ r1); [done|done|]. intros r2 L2 w2 d2 Hs2 Hw2 H2. eapply trust_commit; [done|done|].
    intros d3 H3. exists clk. by rewrite record_flag_run, H3; unfold flag_row; rewrite Hf, Hs, Hs2.
  - eapply wp_recalculate_owned; [done|done|]. intros L2 w2 d2 Hw2 H2. eapply trust_commit; [done|done|].
    intros d3 H3. exists clk. by rewrite record_flag_run, H3; unfold flag_row; rewrite Hf, Hs.
Qed.

Lemma add_strike_valid : valid trust_step I (add_strike_txn clk u).
Proof.
  intros d _. unfold add_strike_txn, add_strike_stmts, script, mbind, Proc_bind, mret, Proc_ret.
  apply wp_update_first; [intros; apply wp_trust_failed|]. intros r0 r1 L1 w1 d1 Hf Hw1 H1. cbv beta iota zeta.
  destruct (3 <=? ts_strikes r1) eqn:H3.
  - apply (wp_update_owned u r0 _ _ _ _ r1); [done|done|]. intros r2 L2 w2 d2 [= <-] Hw2 H2.
    eapply wp_recalculate_owned; [done|done|]. intros L3 w3 d3 Hw3 H3'. eapply trust_commit; [done|done|].
    intros d4 H4. exists clk. by rewrite add_strike_run, H4; unfold strike_row; rewrite Hf, H3.
  - eapply wp_recalculate_owned; [done|done|]. intros L3 w3 d3 Hw3 H3'. eapply trust_commit; [done|done|].
    intros d4 H4. exists clk. by rewrite add_strike_run, H4; unfold strike_row; rewrite Hf, H3.
Qed.

Lemma activity_valid a : valid trust_step I (activity_txn clk u a).
Proof.
  intros d _. unfold activity_txn, script, mbind, Proc_bind, mret, Proc_ret.
  apply wp_update_first; [intros L' d' d2 _; split; [by left|done]|]. intros r0 r1 L1 w1 d1 Hf Hw1 H1.
  eapply trust_commit; [done|done|]. intros d2 H2. right. by eexists _, _, _, r0, r1.
Qed.

Lemma recalculate_valid : valid trust_step I (recalculate_txn clk u).
Proof.
  intros d _. unfold recalculate_txn, recalculate_stmts, script, mbind, Proc_bind, mret, Proc_ret. intros d1 _.
  destruct (user_trust_scores d1 !! u) as [r|]; [|apply wp_trust_failed].
  apply wp_update_first; [intros L' d' d2 _; split; [by left|done]|]. intros r0 r1 L1 w1 d2 [= <-] Hw1 H1.
  eapply trust_commit; [done|done|]. intros d3 H3. right. by eexists _, _, r0.
Qed.
End valid.

(** ** The theorems *)

Inductive trust_request : Txn TrustAnswer → Prop :=
| req_flag clk u : trust_request (record_flag_txn clk u)
| req_strike clk u : trust_request (add_strike_txn clk u)
| req_activity clk u a : trust_request (activity_txn clk u a)
| req_recalculate clk u : trust_request (recalculate_txn clk u).
Lemma trust_request_valid I p : trust_request p → valid trust_step I p.
Proof. intros []; [apply record_flag_valid|apply add_strike_valid|apply activity_valid|apply recalculate_valid]. Qed.

(** The reports that were recorded. *)
Definition flags_on (u : Uuid) (as_ : list TrustAnswer) : Z :=
  Z.of_nat (length (omap (λ a, match a with Flagged v => if decide (v = u) then Some v else None | _ => None end) as_)).
Lemma flags_cons u a as_ : flags_on u (a :: as_) = flags_on u [a] + flags_on u as_.
Proof. unfold flags_on. destruct a; cbn; try case_decide; cbn [length]; lia. Qed.

(** Three strikes are never without a ban. *)
Definition bans_recorded (d : Db) : Prop :=
  ∀ u r, user_trust_scores d !! u = Some r → 0 ≤ ts_trust_points r ∧ (3 ≤ ts_strikes r → ts_banned_until r ≠ None).
Definition ban_ok (r : TrustRow) : Prop := 0 ≤ ts_trust_points r ∧ (3 ≤ ts_strikes r → ts_banned_until r ≠ None).
Lemma strike_row_ban clk r r' : ban_ok r → strike_row clk r = Ok r' → ban_ok r'.
Proof.
  intros [Hp Hb]. unfold strike_row. destruct (apply_strike (db_now clk) r) as [r1|e] eqn:H1; [|done]. intros [= <-].
  unfold apply_strike in H1. apply in_range_Ok in H1 as [-> _]. unfold ban_ok. cbn [ts_strikes level_points_counts].
  destruct (Z.leb_spec 3 (ts_strikes r + 1)); cbn; (split; [lia|]); [done|lia].
Qed.
Lemma flag_row_ban clk r r' : ban_ok r → flag_row clk r = Ok r' → ban_ok r'.
Proof.
  intros [Hp Hb]. unfold flag_row. destruct (apply_flag (db_now clk) r) as [r1|e] eqn:H1; [|done].
  unfold apply_flag in H1. apply in_range_Ok in H1 as [-> _].
  assert (Hok : ∀ l, ban_ok (with_level (db_now clk) l (level_points_counts (ts_trust_level r) (Z.max 0 (ts_trust_points r - 10))
       (ts_posts_count r) (ts_comments_count r) (ts_likes_received_count r)
       (ts_followers_count r) (ts_flags_received r + 1) (ts_strikes r) (ts_banned_until r) (db_now clk)
       (ts_last_activity_at r) r))) by (split; cbn; [lia|done]).
  case_match; [apply strike_row_ban; apply (Hok 0)|]. intros [= <-]. apply Hok.
Qed.

Lemma activity_ban t delta field r r' : ban_ok r → apply_activity t delta field r = Ok r' → ban_ok r'.
Proof. intros [Hp Hb]. unfold apply_activity. intros [-> _]%in_range_Ok. split; cbn; [lia|done]. Qed.

(** What a report and a strike do to the flags and strikes of an account: a report that
    brings the flags to a multiple of ten is a strike too, and a strike counts as a
    flag. *)
Definition strike_tally (c : Z * Z) : Z * Z := (c.1 + 1, c.2 + 1).
Definition report_tally (c : Z * Z) : Z * Z :=
  let flags := c.1 + 1 in
  if (10 <=? flags) && (Z.rem flags 10 =? 0) then strike_tally (flags, c.2) else (flags, c.2).
Definition tally_step (u : Uuid) (a : TrustAnswer) (c : Z * Z) : Z * Z :=
  match a with
  | Flagged v => if decide (v = u) then report_tally c else c
  | Struck v _ => if decide (v = u) then strike_tally c else c
  | _ => c
  end.
(** After the answers of a history, which has the latest first. *)
Definition tally (u : Uuid) (c : Z * Z) (as_ : list TrustAnswer) : Z * Z := foldr (tally_step u) c as_.
Definition standing (r : TrustRow) : Z * Z := (ts_flags_received r, ts_strikes r).

Lemma strike_row_tally clk r r' : strike_row clk r = Ok r' → standing r' = strike_tally (standing r).
Proof.
  unfold strike_row. destruct (apply_strike (db_now clk) r) as [r1|e] eqn:H1; [|done]. intros [= <-].
  unfold apply_strike in H1. apply in_range_Ok in H1 as [-> _]. unfold standing. by destruct (3 <=? _).
Qed.
Lemma flag_row_tally clk r r' : flag_row clk r = Ok r' → standing r' = report_tally (standing r).
Proof.
  unfold flag_row, report_tally. destruct (apply_flag (db_now clk) r) as [r1|e] eqn:H1; [|done].
  unfold apply_flag in H1. apply in_range_Ok in H1 as [-> _]. unfold standing at 2 3 4.
  cbn [fst snd ts_flags_received level_points_counts].
  destruct (_ && _); [intros ->%strike_row_tally; done|]. by intros [= <-].
Qed.
Lemma activity_tally t delta field r r' : apply_activity t delta field r = Ok r' → standing r' = standing r.
Proof. unfold apply_activity. by intros [-> _]%in_range_Ok. Qed.

(** The row of [u] after a commit. *)
Lemma step_row L a d d' u r :
  trust_step L a d d' → user_trust_scores d !! u = Some r →
  ∃ r', user_trust_scores d' !! u = Some r' ∧ standing r' = tally_step u a (standing r) ∧ (ban_ok r → ban_ok r').
Proof.
  intros [He _] Hr.
  assert (Hother : ∀ v x, d' = put_trust v x d → v ≠ u → user_trust_scores d' !! u = Some r).
  { intros v x -> Hv. simpl. by rewrite lookup_insert_ne. }
  assert (Hput : ∀ x, d' = put_trust u x d → user_trust_scores d' !! u = Some x) by (intros x ->; apply put_trust_lookup).
  destruct a as [v|v n|v|v|e]; simpl in He |- *.
  - destruct He as [clk He]. rewrite record_flag_run in He. destruct (user_trust_scores d !! v) as [x|] eqn:Hv; [|done].
    destruct (flag_row clk x) as [x'|] eqn:Hf; [|done]. injection He as <-. case_decide as Hvu.
    + subst v. simplify_eq. exists x'. split_and!; [by apply Hput|by eapply flag_row_tally|by intros; eapply flag_row_ban].
    + exists r. split_and!; [by eapply Hother|done..].
  - destruct He as [clk He]. rewrite add_strike_run in He. destruct (user_trust_scores d !! v) as [x|] eqn:Hv; [|done].
    destruct (strike_row clk x) as [x'|] eqn:Hf; [|done]. injection He as <- <-. case_decide as Hvu.
    + subst v. simplify_eq. exists x'. split_and!; [by apply Hput|by eapply strike_row_tally|by intros; eapply strike_row_ban].
    + exists r. split_and!; [by eapply Hother|done..].
  - destruct He as [->|(t & delta & field & x & x' & Hv & Hf & ->)]; [by exists r|].
    destruct (decide (v = u)) as [->|Hne]; [|exists r; split_and!; [by eapply Hother|done..]].
    simplify_eq. exists x'. split_and!; [by apply Hput|by eapply activity_tally|by intros; eapply activity_ban].
  - destruct He as [->|(t & l & x & Hv & ->)]; [by exists r|].
    destruct (decide (v = u)) as [->|Hne]; [|exists r; split_and!; [by eapply Hother|done..]].
    simplify_eq. eexists. split_and!; [by apply Hput|done|done].
  - subst. by exists r.
Qed.

(** Rows appear only with [initialize_user], which is not among these requests. *)
Lemma step_row_back L a d d' u r' :
  trust_step L a d d' → user_trust_scores d' !! u = Some r' → is_Some (user_trust_scores d !! u).
Proof.
  intros [He _] Hr.
  assert (Hput : ∀ v x y, user_trust_scores d !! v = Some y → d' = put_trust v x d → is_Some (user_trust_scores d !! u)).
  { intros v x y Hv ->. simpl in Hr. destruct (decide (v = u)) as [->|]; [by eexists|]. rewrite lookup_insert_ne in Hr by done. by eexists. }
  destruct a as [v|v n|v|v|e]; simpl in He.
  - destruct He as [clk He]. rewrite record_flag_run in He. destruct (user_trust_scores d !! v) as [x|] eqn:Hv; [|done].
    destruct (flag_row clk x); [|done]. injection He as He. by eapply Hput.
  - destruct He as [clk He]. rewrite add_strike_run in He. destruct (user_trust_scores d !! v) as [x|] eqn:Hv; [|done].
    destruct (strike_row clk x); [|done]. injection He as _ He. by eapply Hput.
  - destruct He as [->|(t & delta & field & x & x' & Hv & Hf & He)]; [by eexists|by eapply Hput].
  - destruct He as [->|(t & l & x & Hv & He)]; [by eexists|by eapply Hput].
  - subst. by eexists.
Qed.
Lemma step_bans L a d d' : bans_recorded d → trust_step L a d d' → bans_recorded d'.
Proof.
  intros Hd Hs u r' Hr'. destruct (step_row_back _ _ _ _ _ _ Hs Hr') as [r Hr].
  destruct (step_row _ _ _ _ _ _ Hs Hr) as (x & Hx & _ & Hban). simplify_eq. apply Hban, (Hd u r Hr).
Qed.
Lemma replay_tally d as_ d' u r :
  replay trust_step d as_ d' → user_trust_scores d !! u = Some r →
  ∃ r', user_trust_scores d' !! u = Some r' ∧ standing r' = tally u (standing r) as_.
Proof.
  intros Hrep Hr. induction Hrep as [|as_ a L d1 d2 Hrep IH Hst]; [by exists r|].
  destruct IH as (x & Hx & Htx). destruct (step_row _ _ _ _ _ _ Hst Hx) as (y & Hy & Hty & _). exists y.
  split; [done|]. by rewrite Hty, Htx.
Qed.
(** Reports alone, from a clean record. *)
Lemma tally_ladder u as_ :
  (∀ k, Struck u k ∉ as_) → tally u (0, 0) as_ = (flags_on u as_ + ladder (flags_on u as_), ladder (flags_on u as_)).
Proof.
  induction as_ as [|a as_ IH]; intros Hn; [done|]. rewrite flags_cons. cbn [tally foldr]. fold (tally u (0, 0) as_).
  rewrite IH by (intros k Hk; apply (Hn k); by right). assert (0 ≤ flags_on u as_) by (unfold flags_on; lia).
  destruct a as [v|v n|v|v|e]; try done.
  - assert (flags_on u [Flagged v] = if decide (v = u) then 1 else 0) as -> by (unfold flags_on; cbn; by case_decide).
    unfold tally_step. case_decide; [|done]. unfold report_tally, strike_tally. cbn [fst snd].
    rewrite (Z.add_comm 1), ladder_step by done. destruct (_ && _); f_equal; lia.
  - unfold tally_step. case_decide; [subst v; destruct (Hn n); by left|done].
Qed.

(** C14: concurrent reports never skip a strike. However the statements of reports,
    strikes, activity updates and recalculations interleave, and wherever they are cut
    off: an account with three strikes has a ban on record, and the flags and strikes
    of an account are those of its answered reports and direct strikes taken one after
    another in the order of their commits, whatever the record was before; requests that
    were cut off or failed do not count. In particular [n] reports on a clean record,
    without a direct strike, make exactly [ladder n] strikes and [n + ladder n] flags. *)
Theorem concurrent_report_ladder ms d s u r :
  bans_recorded d → user_trust_scores d !! u = Some r →
  (∀ i p, Begin i p ∈ ms → trust_request p) → schedule ms (idle_machine d) = Some s →
  bans_recorded (committed s) ∧
  ∃ r', user_trust_scores (committed s) !! u = Some r' ∧ standing r' = tally u (standing r) (answered s) ∧
    let n := flags_on u (answered s) in
    (standing r = (0, 0) → (∀ k, Struck u k ∉ answered s) → standing r' = (n + ladder n, ladder n)).
Proof.
  intros Hd Hr Hms Hs.
  assert (Hrep : replay trust_step d (answered s) (committed s)).
  { eapply (schedule_replay _ bans_recorded); [|done| |done]; [intros ???? Hx Hy; by eapply step_bans|].
    eauto using trust_request_valid. }
  split; [clear Hs; induction Hrep; [done|by eapply step_bans]|].
  destruct (replay_tally _ _ _ _ _ Hrep Hr) as (r' & Hr' & Ht). exists r'. split; [done|]. split; [done|].
  intros n H0 Hn. rewrite Ht, H0. by apply tally_ladder.
Qed.

(** ** Alone, every program does what the sequential method does *)

Definition trust_result (a : TrustAnswer) : Result DbError unit := match a with TrustFailed e => Err e | _ => Ok tt end.
Definition strike_result (a : TrustAnswer) : Result DbError Z :=
  match a with Struck _ n => Ok n | TrustFailed e => Err e | _ => Ok 0 end.

Section alone.
Context (clk : Clock) (u : Uuid).

Lemma alone_recalculate k w d r :
  user_trust_scores (w d) !! u = Some r →
  alone (recalculate_stmts clk u k) w d
  = alone (k tt) (λ _, put_trust u (with_level (db_now clk) (as_i32 (computed_level r)) r) (w d)) d.
Proof.
  intros Hr. unfold recalculate_stmts, mbind, Proc_bind, mret, Proc_ret, query. cbn [alone]. rewrite Hr.
  by rewrite alone_update_trust, update_trust_run, Hr.
Qed.
Lemma alone_add_strike k w d r :
  user_trust_scores (w d) !! u = Some r →
  alone (add_strike_stmts clk u k) w d =
  match strike_row clk r with
  | Ok r' => alone (k (ts_strikes r')) (λ _, put_trust u r' (w d)) d
  | Err e => (TrustFailed e, d)
  end.
Proof.
  intros Hr. unfold add_strike_stmts, strike_row, mbind, Proc_bind, mret, Proc_ret.
  rewrite alone_update_trust, update_trust_run, Hr. destruct (apply_strike (db_now clk) r) as [r1|e]; [|done]. cbv beta iota zeta.
  destruct (3 <=? ts_strikes r1).
  - rewrite alone_update_trust, update_trust_run, put_trust_lookup, put_trust_twice.
    erewrite alone_recalculate by apply put_trust_lookup. apply alone_ext. apply put_trust_twice.
  - erewrite alone_recalculate by apply put_trust_lookup. apply alone_ext. apply put_trust_twice.
Qed.

Lemma record_flag_alone d :
  (trust_result (run_alone (record_flag_txn clk u) d).1, (run_alone (record_flag_txn clk u) d).2) = record_flag clk u d.
Proof.
  unfold run_alone, record_flag_txn, script, mbind, Proc_bind, mret, Proc_ret.
  rewrite alone_update_trust, update_trust_run, record_flag_run. destruct (user_trust_scores d !! u) as [r|]; [|done].
  unfold flag_row. destruct (apply_flag (db_now clk) r) as [r1|e]; [|done]. cbv beta iota zeta.
  destruct (_ && _).
  - erewrite alone_add_strike by apply put_trust_lookup. destruct (strike_row clk r1); [|done].
    cbn [alone fst snd]. by rewrite put_trust_twice.
  - erewrite alone_recalculate by apply put_trust_lookup. cbn [alone fst snd]. by rewrite put_trust_twice.
Qed.
Lemma add_strike_alone d :
  (strike_result (run_alone (add_strike_txn clk u) d).1, (run_alone (add_strike_txn clk u) d).2) = add_strike clk u d.
Proof.
  unfold run_alone, add_strike_txn, script, mbind, Proc_bind, mret, Proc_ret. rewrite add_strike_run.
  destruct (user_trust_scores d !! u) as [r|] eqn:Hr.
  - erewrite alone_add_strike by exact Hr. by destruct (strike_row clk r).
  - unfold add_strike_stmts, mbind, Proc_bind, mret, Proc_ret. by rewrite alone_update_trust, update_trust_run, Hr.
Qed.
Lemma recalculate_alone d :
  (trust_result (run_alone (recalculate_txn clk u) d).1, (run_alone (recalculate_txn clk u) d).2)
  = recalculate_trust_level clk u d.
Proof.
  unfold run_alone, recalculate_txn, script, recalculate_trust_level, mbind, Proc_bind, mret, Proc_ret. unfold_m. cbv beta.
  destruct (user_trust_scores d !! u) as [r|] eqn:Hr.
  - by erewrite alone_recalculate, (recalculate_with_tx_run _ _ _ _ Hr).
  - unfold recalculate_stmts, recalculate_trust_level_with_tx, mbind, Proc_bind, query, rollback. unfold_m. cbn [alone]. by rewrite Hr.
Qed.

(** On its own, every program of this file is the method it stands for:
    [record_flag], [add_strike] and [recalculate_trust_level], run without
    interference, give the result and leave the database of the sequential methods. *)
Theorem trust_programs_alone d :
  (trust_result (run_alone (record_flag_txn clk u) d).1, (run_alone (record_flag_txn clk u) d).2) = record_flag clk u d ∧
  (strike_result (run_alone (add_strike_txn clk u) d).1, (run_alone (add_strike_txn clk u) d).2) = add_strike clk u d ∧
  (trust_result (run_alone (recalculate_txn clk u) d).1, (run_alone (recalculate_txn clk u) d).2)
  = recalculate_trust_level clk u d.
Proof. split_and!; [apply record_flag_alone|apply add_strike_alone|apply recalculate_alone]. Qed.
End alone.

(** ** A recalculation that forgets a report *)

(** The stored level is the one the metrics of the account call for. *)
Definition level_current (r : TrustRow) : Prop := from_i32 (ts_trust_level r) = computed_level r.
Lemma with_level_current t r : level_current (with_level t (as_i32 (computed_level r)) r).
Proof. unfold level_current. simpl. rewrite from_i32_as_i32. done. Qed.
Lemma strike_row_current clk r r' : strike_row clk r = Ok r' → level_current r'.
Proof. unfold strike_row. destruct (apply_strike _ _); [|done]. intros [= <-]. apply with_level_current. Qed.
Lemma flag_row_current clk r r' : flag_row clk r = Ok r' → level_current r'.
Proof.
  unfold flag_row. destruct (apply_flag _ _); [|done]. case_match; [apply strike_row_current|].
  intros [= <-]. apply with_level_current.
Qed.
(** Whether a report can be recorded does not depend on the stored level. *)
Lemma flag_row_level clk t l r r' : flag_row clk r = Ok r' → ∃ r2, flag_row clk (with_level t l r) = Ok r2.
Proof.
  unfold flag_row, apply_flag, strike_row, apply_strike, Trust.in_range. cbn [with_level ts_flags_received ts_trust_points].
  destruct (forallb _ _); [|done]. cbn [level_points_counts ts_flags_received]. destruct (_ && _); [|by eexists].
  cbn [level_points_counts ts_strikes ts_flags_received ts_trust_points with_level].
  destruct (forallb _ _); [by eexists|done].
Qed.

Lemma record_flag_solo clk u d r r' :
  user_trust_scores d !! u = Some r → flag_row clk r = Ok r' →
  run_alone (record_flag_txn clk u) d = (Flagged u, put_trust u r' d).
Proof.
  intros Hr Hf. unfold run_alone, record_flag_txn, script, mbind, Proc_bind, mret, Proc_ret.
  rewrite alone_update_trust, update_trust_run, Hr. unfold flag_row in Hf.
  destruct (apply_flag (db_now clk) r) as [r1|e]; [|done]. cbv beta iota zeta. destruct (_ && _).
  - erewrite alone_add_strike by apply put_trust_lookup. rewrite Hf. cbn [alone]. by rewrite put_trust_twice.
  - injection Hf as <-. erewrite alone_recalculate by apply put_trust_lookup. cbn [alone]. by rewrite put_trust_twice.
Qed.
(** A transaction that holds no lock stops nobody. *)
Lemma lockless_passes {A} (i j : N) p (w : Db → Db) ls (ts : gmap N (Thread A)) :
  ts = {[j := mkThread p [] w]} ∨ ts = ∅ → Forall (λ l, held_against i ts l = false) ls.
Proof.
  intros Hts. apply Forall_forall. intros l _. apply held_against_false. intros k t _ Hk.
  destruct Hts as [->| ->]; [by apply lookup_singleton_Some in Hk as [_ <-]|by rewrite lookup_empty in Hk].
Qed.

(** The recalculation has read the row; the report runs and commits; then the level is
    written. *)
Definition overtaken (clk clk' : Clock) (u : Uuid) (n m : nat) : list (PoolMove TrustAnswer) :=
  [Begin 1%N (recalculate_txn clk u)] ++ ([Step 1%N] ++ ([Begin 2%N (record_flag_txn clk' u)]
  ++ (replicate n (Step 2%N) ++ replicate m (Step 1%N)))).
Lemma overtaken_run clk clk' u d r r' :
  user_trust_scores d !! u = Some r → flag_row clk' r = Ok r' →
  ∃ n m, schedule (overtaken clk clk' u n m) (idle_machine d)
  = Some (mkMachine (put_trust u (with_level (db_now clk) (as_i32 (computed_level r)) r') d) ∅ [Recalculated u; Flagged u]).
Proof.
  intros Hr Hf.
  set (rest := update_trust_txn TrustFailed u (λ x, Ok (with_level (db_now clk) (as_i32 (computed_level r)) x))
                 (λ _, TCommit (Recalculated u))).
  assert (Hone : schedule [Step 1%N] (mkMachine d {[1%N := mkThread (recalculate_txn clk u) [] (λ d, d)]} [])
                 = Some (mkMachine d {[1%N := mkThread rest [] (λ d, d)]} [])).
  { simpl. unfold advance. cbn [running committed answered]. rewrite lookup_singleton_eq. simpl.
    unfold recalculate_txn, recalculate_stmts, script, mbind, Proc_bind, mret, Proc_ret, query. simpl. rewrite Hr.
    by rewrite insert_singleton_eq. }
  destruct (run_to_end 2%N {[1%N := mkThread rest [] (λ d, d)]} (record_flag_txn clk' u) [] (λ d, d) d [])
    as [n Hn]; [by eapply lockless_passes; left|].
  change (alone (record_flag_txn clk' u) (λ d, d) d) with (run_alone (record_flag_txn clk' u) d) in Hn.
  rewrite (record_flag_solo _ _ _ _ _ Hr Hf) in Hn. cbn [fst snd] in Hn. rewrite delete_id in Hn by done.
  destruct (run_to_end 1%N ∅ rest [] (λ d, d) (put_trust u r' d) [Flagged u]) as [m Hm];
    [by eapply (lockless_passes _ 1%N rest (λ d, d)); right|].
  unfold rest at 2 3 in Hm. rewrite alone_update_trust, update_trust_run, put_trust_lookup, put_trust_twice in Hm.
  cbn [alone fst snd] in Hm. exists n, m. unfold overtaken, idle_machine.
  rewrite schedule_begin, insert_empty, schedule_app, Hone by done. cbn [mbind option_bind].
  rewrite schedule_begin, schedule_app, Hn by done. exact Hm.
Qed.
(** One after the other, in either order. *)
Lemma recalculate_trust_run clk u d r :
  user_trust_scores d !! u = Some r →
  recalculate_trust_level clk u d = (Ok tt, put_trust u (with_level (db_now clk) (as_i32 (computed_level r)) r) d).
Proof. intros Hr. unfold recalculate_trust_level. unfold_m. by rewrite (recalculate_with_tx_run _ _ _ _ Hr). Qed.

(** C36: a recalculation can undo the demotion of a report that commits while it runs.
    Whenever a report would change the level an account is entitled to, there is an
    interleaving of the report with one recalculation, which has read the row before
    and writes after the report committed, after which both have answered, the report
    is counted, and the stored level is the old one, not the one the metrics call for;
    one after the other, in either order, the two requests store the right level. *)
Theorem recalculation_undoes_demotion clk clk' u d r r' :
  user_trust_scores d !! u = Some r → flag_row clk' r = Ok r' → computed_level r' ≠ computed_level r →
  (∃ n m s row,
    schedule (overtaken clk clk' u n m) (idle_machine d) = Some s ∧
    answered s = [Recalculated u; Flagged u] ∧ user_trust_scores (committed s) !! u = Some row ∧
    standing row = report_tally (standing r) ∧ from_i32 (ts_trust_level row) = computed_level r ∧ ¬ level_current row) ∧
  (∃ row, user_trust_scores (snd (record_flag clk' u (snd (recalculate_trust_level clk u d)))) !! u = Some row ∧
     level_current row) ∧
  (∃ row, user_trust_scores (snd (recalculate_trust_level clk u (snd (record_flag clk' u d)))) !! u = Some row ∧
     level_current row).
Proof.
  intros Hr Hf Hne. split_and!.
  - destruct (overtaken_run clk clk' u d r r' Hr Hf) as (n & m & Hs). eexists n, m, _, _.
    split_and!; [exact Hs|done|apply put_trust_lookup|by rewrite <-(flag_row_tally _ _ _ Hf)|simpl; apply from_i32_as_i32|].
    unfold level_current. simpl. rewrite from_i32_as_i32. intros He. by apply Hne.
  - rewrite (recalculate_trust_run _ _ _ _ Hr), record_flag_run. cbn [snd]. rewrite put_trust_lookup.
    destruct (flag_row_level clk' (db_now clk) (as_i32 (computed_level r)) r r' Hf) as [r2 H2]. rewrite H2.
    exists r2. split; [apply put_trust_lookup|by eapply flag_row_current].
  - rewrite record_flag_run, Hr, Hf. cbn [snd]. erewrite recalculate_trust_run by apply put_trust_lookup.
    eexists. split; [apply put_trust_lookup|apply with_level_current].
Qed.

(** ** Concrete runs *)

Definition after_trust (ms : list (PoolMove TrustAnswer)) (d : Db) : Machine TrustAnswer :=
  default (idle_machine d) (schedule ms (idle_machine d)).
Definition trusted_two_flags : TrustRow := mkTrustRow 2 300 100 60 0 0 0 2 0 None 0 0 0 0 0.
Definition two_flags_db : Db := put_trust 1 trusted_two_flags empty_db.
Lemma recalculation_undoes_demotion_witness :
  ∃ n m s row,
    schedule (overtaken (mkClock 1 1) (mkClock 2 2) 1 n m) (idle_machine two_flags_db) = Some s ∧
    user_trust_scores (committed s) !! 1%N = Some row ∧ standing row = (3, 0) ∧
    from_i32 (ts_trust_level row) = computed_level trusted_two_flags ∧ ¬ level_current row.
Proof.
  destruct (flag_row (mkClock 2 2) trusted_two_flags) as [r'|] eqn:Hf; [|by vm_compute in Hf].
  destruct (recalculation_undoes_demotion (mkClock 1 1) (mkClock 2 2) 1 two_flags_db trusted_two_flags r')
    as [(n & m & s & row & Hs & _ & Hrow & Hst & Hl & Hc) _].
  - vm_compute. reflexivity.
  - exact Hf.
  - vm_compute in Hf. injection Hf as <-. vm_compute. discriminate.
  - exists n, m, s, row. split_and!; [exact Hs|exact Hrow|rewrite Hst; vm_compute; reflexivity|exact Hl|exact Hc].
Defined.

(** Ten reports at once: all have read the row before the first one writes it. *)
Definition ten_reports : list (PoolMove TrustAnswer) :=
  concat ((λ i, [Begin (N.of_nat i) (record_flag_txn (mkClock 0 0) 1); Step (N.of_nat i)]) <$> seq 1 10)
  ++ concat ((λ i, replicate 9 (Step (N.of_nat i))) <$> seq 1 9) ++ replicate 13 (Step 10).
Definition clean_db : Db := put_trust 1 (fresh_trust 0) empty_db.
Lemma concurrent_report_ladder_witness :
  let s := after_trust ten_reports clean_db in
  flags_on 1 (answered s) = 10 ∧ bans_recorded (committed s) ∧
  ∃ r', user_trust_scores (committed s) !! 1%N = Some r' ∧ standing r' = (11, 1).
Proof.
  intros s. split; [vm_compute; reflexivity|].
  assert (Ha : answered s = replicate 10 (Flagged 1)) by (vm_compute; reflexivity).
  destruct (concurrent_report_ladder ten_reports clean_db s 1 (fresh_trust 0)) as (Hb & r' & Hr' & _ & Hl).
  - intros u r. unfold clean_db. simpl. rewrite lookup_insert_Some, lookup_empty. intros [[_ <-]|[_ [=]]]. split; simpl; lia.
  - vm_compute. reflexivity.
  - intros i p Hp. unfold ten_reports in Hp. rewrite !elem_of_app in Hp.
    destruct Hp as [Hp|[Hp|Hp%elem_of_replicate]]; [| |by destruct Hp].
    + apply list_elem_of_In, in_concat in Hp as (l & Hl & Hp). apply list_elem_of_In, list_elem_of_fmap in Hl as (j & -> & _).
      destruct Hp as [[= _ <-]|[Hp|[]]]; [constructor|done].
    + apply list_elem_of_In, in_concat in Hp as (l & Hl & Hp). apply list_elem_of_In, list_elem_of_fmap in Hl as (j & -> & _).
      by apply list_elem_of_In, elem_of_replicate in Hp as [??].
  - unfold s, after_trust. destruct (schedule _ _) eqn:Hs; [done|]. by vm_compute in Hs.
  - split; [exact Hb|]. exists r'. split; [exact Hr'|]. rewrite Hl; [by rewrite Ha|done|].
    rewrite Ha. intros k Hk%elem_of_replicate. by destruct Hk.
Defined.
