(* ===== verification/InviteRaces.v ===== *)
(** * Invites and signups under concurrent requests

    [signup] ([src/app/auth.rs]) with the consumption of its invite, [create_invite],
    [create_admin_invite] and [revoke_invite] ([src/app/invites.rs]) as transaction
    programs. The row lock on the code and the one on the inviter's trust row make
    the checks of these methods hold at the moment of commit: a code admits no more
    users than it allows, nobody exceeds their quota, and handles and emails stay
    unique, in every interleaving. *)

From S2P Require Import Prelude Sql Domain Schema Isolation Social Trust TrustRaces Invites Crypto Auth.
From stdpp Require Import options.

#[local] Open Scope Z_scope.

(** ** The transactions *)

Inductive InviteAnswer :=
| SignedUp (id : Uuid) (row : UserRow) (code : string)
| SignupFailed (e : AuthError)
| Created (u : Uuid) (code : string)
| AdminCreated (code : string)
| CreateFailed (e : InviteError)
| RevokedCode (code : string)
| NotRevoked.

(** [INSERT INTO users]: the primary key and the two unique columns. *)
Definition insert_user_txn (id : Uuid) (row : UserRow) : Proc InviteAnswer unit :=
  let taken {A} (column : UserRow → A) `{EqDecision A} d :=
    exists_where (λ k r, bool_decide (k ≠ id) && bool_decide (column r = column row)) (users d) in
  new_id ← insert_row (RUser id) (λ d, has_key id (users d)) (set_users (<[id := row]>));
  if negb new_id then rollback (SignupFailed (AuthDb (UniqueViolation "users_pkey"))) else
  new_handle ← insert_row (RHandle (u_handle row)) (taken u_handle) (λ d, d);
  if negb new_handle then rollback (SignupFailed (AuthDb (UniqueViolation "users_handle_key"))) else
  new_email ← insert_row (REmail (u_email row)) (taken u_email) (λ d, d);
  if negb new_email then rollback (SignupFailed (AuthDb (UniqueViolation "users_email_key"))) else
  mret tt.

(** [INSERT INTO user_trust_scores .. ON CONFLICT (user_id) DO NOTHING]. *)
Definition initialize_user_txn (clk : Clock) (u : Uuid) : Proc InviteAnswer unit :=
  inserted ← insert_row (RTrust u) (λ d, has_key u (user_trust_scores d))
               (set_user_trust_scores (<[u := fresh_trust (db_now clk)]>));
  owner ← (if inserted : bool then references (RUser u) (λ d, user_exists d u) else mret true);
  if negb owner then rollback (SignupFailed Internal) else mret tt.

Definition consume_invite_txn (clk : Clock) (code : string) (new_user_id : Uuid) : Proc InviteAnswer unit :=
  let failed e := SignupFailed (AuthInvite e) in
  (* SELECT .. FROM invite_codes WHERE code = $1 FOR UPDATE *)
  seen ← query (λ d, has_key code (invite_codes d));
  if negb seen then rollback (failed InvalidCode) else
  _ ← lock (RInvite code) ForUpdate;
  latest ← query (λ d, invite_codes d !! code);
  match latest with
  | None => rollback (failed InvalidCode)
  | Some row =>
      if negb (ic_is_valid row) then rollback (failed CodeRevoked) else
      if ic_expires_at row <? app_now clk then rollback (failed CodeExpired) else
      if ic_max_uses row <=? ic_use_count row then rollback (failed CodeFullyUsed) else
      let is_fully_used := ic_max_uses row <=? ic_use_count row + 1 in
      (* UPDATE invite_codes SET .. WHERE code = $3, and its foreign key *)
      _ ← exec (set_invite_codes (<[code := mark_used (db_now clk) new_user_id (negb is_fully_used) row]>));
      user_ok ← references (RUser new_user_id) (λ d, user_exists d new_user_id);
      if negb user_ok then rollback (failed (ConsumeDb (ForeignKeyViolation "invite_codes_used_by_fkey"))) else
      match ic_created_by row with
      | None => mret tt
      | Some inviter_id =>
          related ← insert_row (RInvited inviter_id new_user_id)
                      (λ d, has_key (inviter_id, new_user_id) (invite_relationships d))
                      (set_invite_relationships (<[(inviter_id, new_user_id) := mkInviteRelRow code (db_now clk)]>));
          if negb related then rollback (failed (ConsumeDb (UniqueViolation "invite_relationships_pkey"))) else
          (* the foreign keys: the new user, and the inviter, whom [created_by] refers to *)
          _ ← lock (RUser inviter_id) ForKeyShare;
          _ ← lock (RUser new_user_id) ForKeyShare;
          _ ← update_trust_txn (λ e, failed (ConsumeDb e)) inviter_id (bump_invites 0 1 10);
          mret tt
      end
  end.

Definition signup_txn `{Crypto} (clk : Clock) (salt : string) (new_id : Uuid)
    (handle email display_name : string) (bio avatar_key : option string)
    (password invite_code : string) : Txn InviteAnswer :=
  match argon2_hash salt password with
  | None => TRollback (SignupFailed Internal)
  | Some password_hash => script (
      let row := mkUserRow handle email display_name bio avatar_key (db_now clk) password_hash None in
      _ ← insert_user_txn new_id row;
      _ ← initialize_user_txn clk new_id;
      _ ← consume_invite_txn clk invite_code new_id;
      mret (SignedUp new_id row invite_code))
  end.

(** [generate_unique_code]: the checks run on another connection of the pool. *)
Fixpoint generate_code_txn (draw : nat → string) (i fuel : nat) : Proc InviteAnswer (option string) :=
  match fuel with
  | O => mret None
  | S fuel' =>
      let candidate := to_uppercase (draw i) in
      taken ← query (λ d, has_key candidate (invite_codes d));
      if taken : bool then generate_code_txn draw (S i) fuel' else mret (Some candidate)
  end.

Definition insert_invite_txn (code : string) (row : InviteRow) : Proc InviteAnswer unit :=
  let failed e := CreateFailed (InviteDb e) in
  if negb (Nat.leb (String.length code) 16) then rollback (failed StringTooLong) else
  inserted ← insert_row (RInvite code) (λ d, has_key code (invite_codes d)) (set_invite_codes (<[code := row]>));
  if negb inserted then rollback (failed (UniqueViolation "invite_codes_pkey")) else
  match ic_created_by row with
  | None => mret tt
  | Some u =>
      creator_ok ← references (RUser u) (λ d, user_exists d u);
      if negb creator_ok then rollback (failed (ForeignKeyViolation "invite_codes_created_by_fkey")) else mret tt
  end.

Definition create_invite_txn (clk : Clock) (draw : nat → string) (u : Uuid) (days_valid : Z) : Txn InviteAnswer := script (
  (* SELECT .. FROM user_trust_scores WHERE user_id = $1 FOR UPDATE *)
  seen ← query (λ d, has_key u (user_trust_scores d));
  if negb seen then rollback (CreateFailed TrustScoreNotFound) else
  _ ← lock (RTrust u) ForUpdate;
  latest ← query (λ d, user_trust_scores d !! u);
  match latest with
  | None => rollback (CreateFailed TrustScoreNotFound)
  | Some r =>
      let max := max_invites_for (ts_trust_level r) in
      if max <=? ts_invites_sent r then rollback (CreateFailed (InviteLimitReached max)) else
      code ← generate_code_txn draw 0 10;
      match code with
      | None => rollback (CreateFailed CodeGenerationFailed)
      | Some code =>
          let expires_at := app_now clk + days days_valid in
          _ ← insert_invite_txn code (fresh_invite (db_now clk) (Some u) expires_at "standard");
          _ ← update_trust_txn (λ e, CreateFailed (InviteDb e)) u (bump_invites 1 0 0);
          mret (Created u code)
      end
  end).

Definition create_admin_invite_txn (clk : Clock) (draw : nat → string) (days_valid : Z) : Txn InviteAnswer := script (
  code ← generate_code_txn draw 0 10;
  match code with
  | None => rollback (CreateFailed CodeGenerationFailed)
  | Some code =>
      _ ← insert_invite_txn code (fresh_invite (db_now clk) None (app_now clk + days days_valid) "admin");
      mret (AdminCreated code)
  end).

Definition revoke_invite_txn (code : string) (u : Uuid) : Txn InviteAnswer := script (
  let hit d := match invite_codes d !! code with
               | Some r => bool_decide (ic_created_by r = Some u) && ic_is_valid r | None => false end in
  seen ← query hit;
  if negb seen then mret NotRevoked else
  _ ← lock (RInvite code) ForNoKeyUpdate;
  still ← query hit;
  if negb still then mret NotRevoked else
  _ ← exec (set_invite_codes (alter invalidate code));
  mret (RevokedCode code)).

(** ** What a commit does *)

Global Instance InviteRow_eq_dec : EqDecision InviteRow.
Proof. solve_decision. Defined.

(** Trust rows keep their quota: nothing but points and successful invites moves. *)
Definition same_quota (r r' : TrustRow) : Prop :=
  ts_trust_level r' = ts_trust_level r ∧ ts_invites_sent r' = ts_invites_sent r.
Definition quotas_kept (d d' : Db) : Prop :=
  ∀ u r, user_trust_scores d !! u = Some r → ∃ r', user_trust_scores d' !! u = Some r' ∧ same_quota r r'.

Definition usable (code : string) (d : Db) (r : InviteRow) : Prop :=
  invite_codes d !! code = Some r ∧ ic_is_valid r = true ∧ ic_use_count r < ic_max_uses r.

Definition invite_effect (ans : InviteAnswer) (d d' : Db) : Prop :=
  match ans with
  | SignedUp id row code =>
      users d' = <[id := row]> (users d) ∧ quotas_kept d d' ∧
      (∃ r t, usable code d r ∧
         invite_codes d' = <[code := mark_used t id (negb (ic_max_uses r <=? ic_use_count r + 1)) r]> (invite_codes d))
  | Created u code =>
      users d' = users d ∧
      (∃ t x, invite_codes d !! code = None ∧
         invite_codes d' = <[code := fresh_invite t (Some u) x "standard"]> (invite_codes d)) ∧
      (∃ r r', user_trust_scores d !! u = Some r ∧ ts_invites_sent r < max_invites_for (ts_trust_level r) ∧
         ts_trust_level r' = ts_trust_level r ∧ ts_invites_sent r' = ts_invites_sent r + 1 ∧
         user_trust_scores d' = <[u := r']> (user_trust_scores d))
  | AdminCreated code =>
      users d' = users d ∧ user_trust_scores d' = user_trust_scores d ∧
      (∃ t x, invite_codes d !! code = None ∧
         invite_codes d' = <[code := fresh_invite t None x "admin"]> (invite_codes d))
  | RevokedCode code =>
      users d' = users d ∧ user_trust_scores d' = user_trust_scores d ∧
      (∃ r, invite_codes d !! code = Some r ∧ invite_codes d' = <[code := invalidate r]> (invite_codes d))
  | SignupFailed _ | CreateFailed _ | NotRevoked => d' = d
  end.

(** Rows change under their locks; a new user holds the entries of the unique
    indexes. *)
Record invite_frame (L : Locks) (d d' : Db) : Prop := {
  if_codes c : invite_codes d !! c ≠ invite_codes d' !! c → exclusive L (RInvite c);
  if_trust u : user_trust_scores d !! u ≠ user_trust_scores d' !! u → exclusive L (RTrust u);
  if_users : users d' = users d ∨ ∃ id row, users d !! id = None ∧ users d' = <[id := row]> (users d) ∧
    (∀ k r, users d !! k = Some r → u_handle r ≠ u_handle row ∧ u_email r ≠ u_email row) ∧
    (RUser id, ForUpdate) ∈ L ∧ (RHandle (u_handle row), ForUpdate) ∈ L ∧ (REmail (u_email row), ForUpdate) ∈ L }.
Definition invite_step (L : Locks) (ans : InviteAnswer) (d d' : Db) : Prop :=
  invite_effect ans d d' ∧ invite_frame L d d'.

Notation iwp := (wp invite_step).
Notation istable := (stable invite_step).

Lemma stable_code L c v : exclusive L (RInvite c) → istable L (λ d, invite_codes d !! c = v).
Proof. apply (stable_row invite_step RInvite invite_codes). intros ???? [_ []]. done. Qed.
Lemma stable_trust L u v : exclusive L (RTrust u) → istable L (λ d, user_trust_scores d !! u = v).
Proof. apply (stable_row invite_step RTrust user_trust_scores). intros ???? [_ []]. done. Qed.

Definition undone (ans : InviteAnswer) : Prop :=
  match ans with SignupFailed _ | CreateFailed _ | NotRevoked => True | _ => False end.
Lemma invite_frame_same L d : invite_frame L d d.
Proof. split; [done|done|by left]. Qed.
Lemma invite_same ans L d : undone ans → invite_step L ans d d.
Proof. destruct ans; try done; intros _; split; (done || apply invite_frame_same). Qed.
Lemma wp_failed ans L w d : undone ans → iwp (TRollback ans) L w d.
Proof. intros Ha d' _. by apply invite_same. Qed.

(** *** Facts that last until the commit *)

(** A new user whose id, handle and email nobody else can take. *)
Definition new_user (id : Uuid) (row : UserRow) (L : Locks) (d : Db) : Prop :=
  users d !! id = None ∧ (RUser id, ForUpdate) ∈ L ∧
  (∀ k r, users d !! k = Some r → u_handle r ≠ u_handle row) ∧ (RHandle (u_handle row), ForUpdate) ∈ L ∧
  (∀ k r, users d !! k = Some r → u_email r ≠ u_email row) ∧ (REmail (u_email row), ForUpdate) ∈ L.

Section users_stable.
Context (L : Locks).
Lemma rely_users d d' :
  rely invite_step L d d' → users d' = users d ∨ ∃ k r, users d' = <[k := r]> (users d) ∧
    (RUser k, ForUpdate) ∉ L ∧ (RHandle (u_handle r), ForUpdate) ∉ L ∧ (REmail (u_email r), ForUpdate) ∉ L.
Proof.
  intros (L' & a & Hc & _ & [_ _ [He|(k & r & _ & He & _ & Hk & Hh & Hm)]]); [by left|]. right. exists k, r.
  split; [done|]. split_and!; intros Hl; by eapply compatible_excl.
Qed.
Lemma stable_no_user id : (RUser id, ForUpdate) ∈ L → istable L (λ d, users d !! id = None).
Proof.
  intros Hl d d' [->|(k & r & -> & Hk & _)]%rely_users Hn; [done|]. rewrite lookup_insert_ne; [done|congruence].
Qed.
Lemma stable_no_handle h :
  (RHandle h, ForUpdate) ∈ L → istable L (λ d, ∀ k r, users d !! k = Some r → u_handle r ≠ h).
Proof.
  intros Hl d d' [->|(k & r & -> & _ & Hk & _)]%rely_users Hn; [done|].
  intros k' r' [[_ <-]|[_ Hr]]%lookup_insert_Some; [congruence|by eapply Hn].
Qed.
Lemma stable_no_email e :
  (REmail e, ForUpdate) ∈ L → istable L (λ d, ∀ k r, users d !! k = Some r → u_email r ≠ e).
Proof.
  intros Hl d d' [->|(k & r & -> & _ & _ & Hk)]%rely_users Hn; [done|].
  intros k' r' [[_ <-]|[_ Hr]]%lookup_insert_Some; [congruence|by eapply Hn].
Qed.
Lemma new_user_stable id row : istable L (new_user id row L).
Proof.
  intros d d' Hr (H1 & H2 & H3 & H4 & H5 & H6). split_and!; try done.
  - by eapply stable_no_user. - by eapply stable_no_handle. - by eapply stable_no_email.
Qed.
End users_stable.

(** Pending writes to trust rows: the rows are held, and their quotas stay. *)
Definition put_rows (kvs : list (Uuid * TrustRow)) (m : gmap Uuid TrustRow) : gmap Uuid TrustRow :=
  foldr (λ kv m, <[kv.1 := kv.2]> m) m kvs.
Definition trust_held (kvs : list (Uuid * TrustRow)) (L : Locks) (d : Db) : Prop :=
  ∀ k v, (k, v) ∈ kvs → exclusive L (RTrust k) ∧ ∀ r, user_trust_scores d !! k = Some r → same_quota r v.
Lemma trust_held_stable kvs L : istable L (trust_held kvs L).
Proof.
  intros d d' Hr Hd k v Hin. destruct (Hd k v Hin) as [Hl Hq]. split; [done|].
  assert (He : user_trust_scores d' !! k = user_trust_scores d !! k) by (by eapply (stable_trust L k (user_trust_scores d !! k))).
  by rewrite He.
Qed.
Lemma lookup_put_rows kvs m k :
  put_rows kvs m !! k = m !! k ∨ ∃ v, (k, v) ∈ kvs ∧ put_rows kvs m !! k = Some v.
Proof.
  induction kvs as [|[x v] kvs IH]; [by left|]. simpl. destruct (decide (x = k)) as [->|Hne].
  - right. exists v. rewrite lookup_insert_eq. split; [left|done].
  - rewrite lookup_insert_ne by done. destruct IH as [IH|(v' & Hin & IH)]; [by left|]. right. exists v'. split; [by right|done].
Qed.
Lemma put_rows_ext kvs m m' k : m !! k = m' !! k → put_rows kvs m !! k = put_rows kvs m' !! k.
Proof.
  intros He. induction kvs as [|[x v] kvs IH]; [done|]. simpl. destruct (decide (x = k)) as [->|Hne]; [by rewrite !lookup_insert_eq|].
  by rewrite !lookup_insert_ne.
Qed.
Lemma same_quota_refl r : same_quota r r.
Proof. by split. Qed.
Lemma same_quota_trans r1 r2 r3 : same_quota r1 r2 → same_quota r2 r3 → same_quota r1 r3.
Proof. intros [] []. split; congruence. Qed.
Lemma trust_held_quota kvs L d k r r' :
  trust_held kvs L d → put_rows kvs (user_trust_scores d) !! k = Some r' → user_trust_scores d !! k = Some r → same_quota r r'.
Proof.
  intros Hh Hp Hr. destruct (lookup_put_rows kvs (user_trust_scores d) k) as [He|(v & Hin & He)].
  - rewrite He, Hr in Hp. simplify_eq. apply same_quota_refl.
  - rewrite He in Hp. injection Hp as ->. by eapply Hh.
Qed.
Lemma trust_held_kept kvs L d d' :
  trust_held kvs L d → user_trust_scores d' = put_rows kvs (user_trust_scores d) →
  quotas_kept d d' ∧ ∀ u, user_trust_scores d !! u ≠ user_trust_scores d' !! u → exclusive L (RTrust u).
Proof.
  intros Hh He. split.
  - intros u r Hr. destruct (lookup_put_rows kvs (user_trust_scores d) u) as [Hp|(v & Hin & Hp)]; rewrite <-He in Hp.
    + exists r. rewrite Hp. split; [done|apply same_quota_refl].
    + exists v. split; [done|]. by eapply Hh.
  - intros u Hu. destruct (lookup_put_rows kvs (user_trust_scores d) u) as [Hp|(v & Hin & Hp)]; rewrite <-He in Hp; [congruence|].
    by eapply Hh.
Qed.

(** *** The statements *)

Section statements.
Context (P : Locks → Db → Prop) (Hs : ∀ L, istable L (P L)) (Hm : ∀ L l d, P L d → P (l :: L) d).

(** An update of a trust row that may be among the pending writes. *)
Lemma wp_update_trust failed u f kvs w k L d :
  (∀ e, undone (failed e)) → (∀ d, user_trust_scores (w d) = put_rows kvs (user_trust_scores d)) → P L d →
  (∀ L' d', P L' d' → put_rows kvs (user_trust_scores d') !! u = None → iwp (k None) L' w d') →
  (∀ L' d' r r', P L' d' → exclusive L' (RTrust u) → put_rows kvs (user_trust_scores d') !! u = Some r → f r = Ok r' →
     iwp (k (Some r')) L' (λ d, set_user_trust_scores (<[u := r']>) (w d)) d') →
  iwp (update_trust_txn failed u f k) L w d.
Proof using Hs Hm.
  intros Hf Hw Hd Hsame Hk. unfold update_trust_txn, mbind, Proc_bind, mret, Proc_ret.
  apply (wp_query _ P Hs); [done|]. intros d1 H1. rewrite Hw.
  destruct (has_key u _) eqn:Hk1; simpl negb; cbv iota; [|by apply Hsame; [|apply has_key_false]].
  apply (wp_lock _ P Hs Hm); [done|]. intros d2 H2.
  set (L' := (RTrust u, ForNoKeyUpdate) :: L). assert (Hl : exclusive L' (RTrust u)) by (right; left).
  apply (wp_query _ P Hs); [done|]. intros d3 H3. rewrite Hw.
  destruct (put_rows kvs (user_trust_scores d3) !! u) as [r|] eqn:Hr; [|by apply Hsame].
  destruct (f r) as [r'|e] eqn:Hfr; [|by apply wp_failed]. intros d4 Hdr. apply (Hk _ d4 r).
  - by eapply stable_drifts.
  - done.
  - rewrite <-Hr. apply put_rows_ext.
    by apply (stable_drifts _ _ (λ d, user_trust_scores d !! u = user_trust_scores d3 !! u) d3 d4 (stable_trust L' u _ Hl) Hdr).
  - done.
Qed.

(** The loop that looks for a free code changes nothing. *)
Lemma wp_generate_code draw i fuel k L w d :
  P L d → (∀ o d', P L d' → iwp (k o) L w d') → iwp (generate_code_txn draw i fuel k) L w d.
Proof using Hs.
  intros Hd Hk. revert i d Hd. induction fuel as [|fuel IH]; intros i d Hd; [by apply Hk|].
  cbn [generate_code_txn]. unfold mbind, Proc_bind, mret, Proc_ret. apply (wp_query _ P Hs); [done|].
  intros d1 H1. destruct (has_key _ _); [by apply IH|by apply Hk].
Qed.

Definition free_code (code : string) (L : Locks) (d : Db) : Prop :=
  invite_codes d !! code = None ∧ exclusive L (RInvite code).
Lemma free_code_stable code L : istable L (free_code code L).
Proof using. clear Hs Hm P. intros d d' Hr [Hd Hl]. split; [by eapply (stable_code L code None)|done]. Qed.

Lemma wp_insert_invite code row k L w d :
  (∀ d, invite_codes (w d) = invite_codes d) → P L d →
  (∀ L' d', P L' d' → free_code code L' d' →
     iwp (k tt) L' (λ d, set_invite_codes (<[code := row]>) (w d)) d') →
  iwp (insert_invite_txn code row k) L w d.
Proof using Hs Hm.
  intros Hw Hd Hk. set (Q L d := P L d ∧ free_code code L d).
  assert (HQ : ∀ L, istable L (Q L)) by (intros ??? Hr [??]; split; [by eapply Hs|by eapply free_code_stable]).
  assert (HQm : ∀ L l d, Q L d → Q (l :: L) d).
  { intros ??? [? [??]]. split; [auto|]. split; [done|by apply exclusive_more]. }
  unfold insert_invite_txn, mbind, Proc_bind, mret, Proc_ret. destruct (Nat.leb _ _); simpl negb; cbv iota; [|by apply wp_failed].
  apply (wp_insert _ P Hs); [done|intros; by apply wp_failed|]. intros d1 H1 Hn. simpl negb. cbv iota.
  assert (H1' : Q ((RInvite code, ForUpdate) :: L) d1).
  { split; [auto|]. split; [|by left; left]. rewrite <-Hw. by apply has_key_false. }
  destruct (ic_created_by row) as [u|]; [|by apply Hk; apply H1'].
  apply (wp_references _ Q Q); [done|done|done|done|done|intros; by apply wp_failed|].
  intros d3 [H3 H3']. simpl negb. cbv iota. by apply Hk.
Qed.
End statements.

(** *** The transactions keep to their effects *)

Lemma bump_invites_quota a b c r r' :
  bump_invites a b c r = Ok r' → ts_trust_level r' = ts_trust_level r ∧ ts_invites_sent r' = ts_invites_sent r + a.
Proof. unfold bump_invites. by intros [-> _]%in_range_Ok. Qed.

(** One code changes, under its lock. *)
Lemma frame_one_code L d d' c v :
  users d' = users d → user_trust_scores d' = user_trust_scores d →
  invite_codes d' = <[c := v]> (invite_codes d) → exclusive L (RInvite c) → invite_frame L d d'.
Proof.
  intros Hu Ht Hc Hl. split; [|intros u; by rewrite Ht|by left]. intros x. rewrite Hc.
  destruct (decide (x = c)) as [->|]; [done|]. by rewrite lookup_insert_ne.
Qed.

Section valid.
Context (I : Db → Prop).

Lemma revoke_invite_valid code u : valid invite_step I (revoke_invite_txn code u).
Proof.
  intros d _. unfold revoke_invite_txn, script, mbind, Proc_bind, mret, Proc_ret. intros d1 _.
  set (hit := match invite_codes _ !! code with Some _ => _ | None => _ end). destruct hit; simpl negb; cbv iota.
  2: { intros d2 _. by apply invite_same. }
  intros d2 _ d3 _. destruct (invite_codes d3 !! code) as [r|] eqn:Hr; [|intros d4 _; by apply invite_same].
  destruct (bool_decide _ && ic_is_valid r); simpl negb; cbv iota; [|intros d4 _; by apply invite_same].
  set (P (L : Locks) d := exclusive L (RInvite code) ∧ invite_codes d !! code = Some r).
  assert (HP : ∀ L, istable L (P L)).
  { intros L x y Hx [Hl Hd]. split; [done|]. by eapply (stable_code L code (Some r)). }
  apply (wp_exec _ P HP); [split; [right; left|done]|]. intros d4 H4 d5 Hdr.
  destruct (stable_drifts _ _ _ _ _ (HP _) Hdr H4) as [Hl Hd].
  assert (Ha : invite_codes (set_invite_codes (alter invalidate code) d5) = <[code := invalidate r]> (invite_codes d5)).
  { simpl. rewrite <-(insert_id (invite_codes d5) code r) at 1 by done. by rewrite alter_insert_eq. }
  split; [split; [done|]; split; [done|]; by exists r|by eapply frame_one_code].
Qed.

Lemma create_admin_invite_valid clk draw days_valid : valid invite_step I (create_admin_invite_txn clk draw days_valid).
Proof.
  intros d _. unfold create_admin_invite_txn, script, mbind, Proc_bind, mret, Proc_ret.
  apply (wp_generate_code (λ _ _, True)); [by intros ????|done|]. intros [code|] d1 _; [|by apply wp_failed].
  apply (wp_insert_invite (λ _ _, True)); [by intros ????|done|done|done|]. intros L2 d2 _ H2 d3 Hdr.
  destruct (stable_drifts _ _ _ _ _ (free_code_stable _ _) Hdr H2) as [Hn Hl].
  split; [|by eapply frame_one_code]. split; [done|]. split; [done|]. by eexists _, _.
Qed.

Lemma create_invite_valid clk draw u days_valid : valid invite_step I (create_invite_txn clk draw u days_valid).
Proof.
  intros d _. unfold create_invite_txn, script, mbind, Proc_bind, mret, Proc_ret.
  apply (wp_query _ (λ _ _, True)); [by intros ????|done|]. intros d1 _.
  destruct (has_key u _); simpl negb; cbv iota; [|by apply wp_failed].
  apply (wp_lock _ (λ _ _, True)); [by intros ????|done|done|]. intros d2 _ d3 _.
  destruct (user_trust_scores d3 !! u) as [r|] eqn:Hr; [|by apply wp_failed].
  destruct (Z.leb_spec (max_invites_for (ts_trust_level r)) (ts_invites_sent r)) as [|Hq]; [by apply wp_failed|].
  set (P (L : Locks) d := exclusive L (RTrust u) ∧ user_trust_scores d !! u = Some r).
  assert (HP : ∀ L, istable L (P L)).
  { intros L x y Hx [Hl Hd]. split; [done|]. by eapply (stable_trust L u (Some r)). }
  assert (HPm : ∀ L l d, P L d → P (l :: L) d) by (intros ??? [??]; split; [by apply exclusive_more|done]).
  apply (wp_generate_code P HP); [split; [left; left|done]|]. intros [code|] d4 H4; [|by apply wp_failed].
  apply (wp_insert_invite P HP HPm); [done|done|]. intros L5 d5 H5 H5'. set (Q L d := P L d ∧ free_code code L d).
  assert (HQ : ∀ L, istable L (Q L)) by (intros ??? Hx [??]; split; [by eapply HP|by eapply free_code_stable]).
  assert (HQm : ∀ L l d, Q L d → Q (l :: L) d).
  { intros ??? [? [??]]. split; [auto|]. split; [done|by apply exclusive_more]. }
  apply (wp_update_trust Q HQ HQm _ _ _ []); [done|done|done|by intros L6 d6 [[_ H6] _]; simpl; rewrite H6|].
  intros L6 d6 r6 r' H6 _ Hr6 Hb. destruct H6 as [[Hl6 Hd6] Hf6]. simpl in Hr6. rewrite Hd6 in Hr6. injection Hr6 as <-.
  apply bump_invites_quota in Hb as [Hlev Hsent]. intros d7 Hdr.
  destruct (stable_drifts _ _ _ _ _ (HQ _) Hdr (conj (conj Hl6 Hd6) Hf6)) as [[_ Hd7] [Hn7 Hl7]]. split.
  - split; [done|]. split; [by eexists _, _|]. by exists r, r'.
  - split; simpl; [| |by left].
    + intros c Hc. destruct (decide (c = code)) as [->|]; [done|]. by rewrite lookup_insert_ne in Hc.
    + intros v Hv. destruct (decide (v = u)) as [->|]; [done|]. by rewrite lookup_insert_ne in Hv.
Qed.
End valid.

(** *** Signup *)

Section signup.
Context (id : Uuid) (row : UserRow) (code : string).

(** What a signup has written so far: the user, some trust rows and perhaps the code. *)
Definition pending (kvs : list (Uuid * TrustRow)) (C : gmap string InviteRow → gmap string InviteRow) (w : Db → Db) : Prop :=
  ∀ d, users (w d) = <[id := row]> (users d) ∧ user_trust_scores (w d) = put_rows kvs (user_trust_scores d) ∧
       invite_codes (w d) = C (invite_codes d).
Definition joining (kvs : list (Uuid * TrustRow)) (L : Locks) (d : Db) : Prop := new_user id row L d ∧ trust_held kvs L d.
Lemma joining_stable kvs L : istable L (joining kvs L).
Proof. intros d d' Hr [??]. split; [by eapply new_user_stable|by eapply trust_held_stable]. Qed.
Lemma new_user_more L l d : new_user id row L d → new_user id row (l :: L) d.
Proof. intros (H1 & H2 & H3 & H4 & H5 & H6). split_and!; try done; by apply list_elem_of_further. Qed.
Lemma joining_more kvs L l d : joining kvs L d → joining kvs (l :: L) d.
Proof.
  intros [Hn Ht]. split; [by apply new_user_more|]. intros k v Hin. destruct (Ht k v Hin). split; [by apply exclusive_more|done].
Qed.

(** A unique column is free when no other row has the value. *)
Lemma column_free {A} (column : UserRow → A) `{EqDecision A} d :
  users d !! id = None →
  exists_where (λ k r, bool_decide (k ≠ id) && bool_decide (column r = column row)) (<[id := row]> (users d)) = false →
  ∀ k r, users d !! k = Some r → column r ≠ column row.
Proof.
  intros Hid He k r Hk Hc. rewrite exists_where_false in He. assert (k ≠ id) by congruence.
  specialize (He k r). rewrite lookup_insert_ne, !bool_decide_true in He by done. by specialize (He Hk).
Qed.
Lemma wp_insert_user k L d :
  (∀ L' d', new_user id row L' d' → iwp (k tt) L' (set_users (<[id := row]>)) d') →
  iwp (insert_user_txn id row k) L (λ d, d) d.
Proof.
  intros Hk. unfold insert_user_txn, mbind, Proc_bind, mret, Proc_ret.
  apply (wp_insert _ (λ _ _, True)); [by intros ????|done|intros; by apply wp_failed|]. intros d1 _ Hn. simpl negb. cbv iota.
  set (P1 (L : Locks) d := users d !! id = None ∧ (RUser id, ForUpdate) ∈ L).
  assert (HP1 : ∀ L, istable L (P1 L)) by (intros ??? Hr [??]; split; [by eapply stable_no_user|done]).
  apply (wp_insert _ P1 HP1); [split; [by apply has_key_false|left]|intros; by apply wp_failed|].
  intros d2 [H2 Hl2] Hh. simpl negb. cbv iota.
  set (P2 (L : Locks) d := P1 L d ∧ (∀ k r, users d !! k = Some r → u_handle r ≠ u_handle row) ∧ (RHandle (u_handle row), ForUpdate) ∈ L).
  assert (HP2 : ∀ L, istable L (P2 L)).
  { intros ??? Hr (? & ? & ?). split; [by eapply HP1|]. split; [by eapply stable_no_handle|done]. }
  apply (wp_insert _ P2 HP2); [|intros; by apply wp_failed|].
  { split; [split; [done|by right]|]. split; [by apply (column_free u_handle)|left]. }
  intros d3 ([H3 Hl3] & Hh3 & Hlh3) He. simpl negb. cbv iota. apply Hk. split_and!; try done; try by right.
  - by apply (column_free u_email).
  - left.
Qed.

Lemma wp_initialize_user clk k L w d :
  pending [] (λ m, m) w → joining [] L d →
  (∀ kvs L' w' d', pending kvs (λ m, m) w' → joining kvs L' d' → iwp (k tt) L' w' d') →
  iwp (initialize_user_txn clk id k) L w d.
Proof.
  intros Hw Hj Hk. unfold initialize_user_txn, mbind, Proc_bind, mret, Proc_ret.
  apply (wp_insert _ (joining [])); [apply joining_stable|done|intros d1 H1 _; by eapply Hk|]. intros d1 H1 Hn.
  set (kvs := [(id, fresh_trust (db_now clk))]).
  assert (Hj1 : joining kvs ((RTrust id, ForUpdate) :: L) d1).
  { split; [apply new_user_more, H1|]. intros k' v [= -> ->]%list_elem_of_singleton. split; [by left; left|].
    intros r Hr. destruct (Hw d1) as (_ & Ht & _). rewrite Ht in Hn. apply has_key_false in Hn. simpl in Hn. congruence. }
  apply (wp_references _ (joining kvs) (joining kvs));
    [apply joining_stable|apply joining_stable|intros; by apply joining_more|done|done|intros; by apply wp_failed|].
  intros d2 H2. simpl negb. cbv iota. apply (Hk kvs); [|done]. intros d3. destruct (Hw d3) as (Hu & Ht & Hc). simpl. by rewrite Ht.
Qed.

(** The code of the signup, as it was checked. *)
Definition admitting (r : InviteRow) (kvs : list (Uuid * TrustRow)) (L : Locks) (d : Db) : Prop :=
  joining kvs L d ∧ usable code d r ∧ exclusive L (RInvite code).
Lemma admitting_stable r kvs L : istable L (admitting r kvs L).
Proof.
  intros d d' Hr (Hj & (Hd & Hv) & Hl). split; [by eapply joining_stable|]. split; [|done]. split; [|done].
  by eapply (stable_code L code (Some r)).
Qed.
Lemma admitting_more r kvs L l d : admitting r kvs L d → admitting r kvs (l :: L) d.
Proof. intros (Hj & Hu & Hl). split; [by apply joining_more|]. split; [done|by apply exclusive_more]. Qed.

Lemma admitted_commit r t kvs w L d :
  pending kvs (<[code := mark_used t id (negb (ic_max_uses r <=? ic_use_count r + 1)) r]>) w →
  admitting r kvs L d → invite_step L (SignedUp id row code) d (w d).
Proof.
  intros Hw ((Hnew & Ht) & Hu & Hl). destruct (Hw d) as (Hwu & Hwt & Hwc).
  destruct (trust_held_kept kvs L d (w d) Ht Hwt) as [Hq Hlt]. destruct Hnew as (Hn & Hl1 & Hh & Hl2 & He & Hl3). split.
  - split; [done|]. split; [done|]. by exists r, t.
  - split; [|done|].
    + intros c. rewrite Hwc. destruct (decide (c = code)) as [->|]; [done|]. by rewrite lookup_insert_ne.
    + right. exists id, row. split_and!; try done. intros k r' Hk. split; [by eapply Hh|by eapply He].
Qed.
Lemma wp_admitted r t kvs w L d :
  pending kvs (<[code := mark_used t id (negb (ic_max_uses r <=? ic_use_count r + 1)) r]>) w →
  admitting r kvs L d → iwp (TCommit (SignedUp id row code)) L w d.
Proof.
  intros Hw Hd d' Hdr. eapply admitted_commit; [done|]. by eapply stable_drifts; [apply admitting_stable|..].
Qed.

Lemma wp_consume_invite clk kvs w L d :
  pending kvs (λ m, m) w → joining kvs L d →
  iwp (consume_invite_txn clk code id (λ _, TCommit (SignedUp id row code))) L w d.
Proof.
  intros Hw Hj. unfold consume_invite_txn, mbind, Proc_bind, mret, Proc_ret.
  apply (wp_query _ (joining kvs)); [apply joining_stable|done|]. intros d1 H1.
  destruct (has_key code _); simpl negb; cbv iota; [|by apply wp_failed].
  apply (wp_lock _ (joining kvs)); [apply joining_stable|apply joining_more|done|]. intros d2 H2.
  apply (wp_query _ (joining kvs)); [apply joining_stable|done|]. intros d3 H3.
  destruct (Hw d3) as (_ & _ & ->). destruct (invite_codes d3 !! code) as [r|] eqn:Hr; [|by apply wp_failed].
  destruct (ic_is_valid r) eqn:Hv; simpl negb; cbv iota; [|by apply wp_failed].
  destruct (ic_expires_at r <? app_now clk); [by apply wp_failed|].
  destruct (Z.leb_spec (ic_max_uses r) (ic_use_count r)) as [|Hlt]; [by apply wp_failed|].
  set (row' := mark_used (db_now clk) id (negb (ic_max_uses r <=? ic_use_count r + 1)) r).
  assert (Hw4 : pending kvs (<[code := row']>) (λ d, set_invite_codes (<[code := row']>) (w d))).
  { intros d4. destruct (Hw d4) as (Hwu & Hwt & Hwc). simpl. by rewrite Hwc. }
  apply (wp_exec _ (admitting r kvs)); [apply admitting_stable|split; [done|]; split; [by split|by left; left]|]. intros d4 H4.
  apply (wp_references _ (admitting r kvs) (admitting r kvs));
    [apply admitting_stable|apply admitting_stable|apply admitting_more|done|done|intros; by apply wp_failed|].
  intros d5 H5. simpl negb. cbv iota. destruct (ic_created_by r) as [inviter|]; [|by eapply wp_admitted].
  apply (wp_insert _ (admitting r kvs)); [apply admitting_stable|done|intros; by apply wp_failed|]. intros d6 H6 _. simpl negb. cbv iota.
  do 2 (apply (wp_lock _ (admitting r kvs)); [apply admitting_stable|apply admitting_more|first [done|by apply admitting_more]|]; intros ? ?).
  apply (wp_update_trust (admitting r kvs)) with (kvs := kvs);
    [apply admitting_stable|apply admitting_more|done|by intros d9; destruct (Hw4 d9) as (_ & ? & _)|done| |].
  - intros L9 d9 H9 _. eapply wp_admitted; [|done]. intros d10. apply (Hw4 d10).
  - intros L9 d9 rt rt' H9 Hl9 Hrt [Hlev Hsent]%bump_invites_quota.
    apply (wp_admitted r (db_now clk) ((inviter, rt') :: kvs)).
    + intros d10. destruct (Hw4 d10) as (Hwu & Hwt & Hwc). simpl in *. by rewrite Hwt.
    + destruct H9 as [[Hn Ht] Hrest]. split; [|done]. split; [done|].
      intros k v [[= -> ->]|Hin]%elem_of_cons; [|by apply Ht]. split; [done|]. intros r0 Hr0.
      eapply same_quota_trans; [by eapply trust_held_quota|]. split; [done|lia].
Qed.
End signup.

Lemma signup_valid `{Crypto} I clk salt id handle email display_name bio avatar_key password code :
  valid invite_step I (signup_txn clk salt id handle email display_name bio avatar_key password code).
Proof.
  intros d _. unfold signup_txn. destruct (argon2_hash salt password) as [h|]; [|by apply wp_failed].
  unfold script, mbind, Proc_bind, mret, Proc_ret. apply wp_insert_user. intros L1 d1 H1.
  eapply wp_initialize_user; [by intros|split; [done|by intros ?? ?%elem_of_nil]|].
  intros kvs L2 w2 d2 Hw2 H2. by eapply wp_consume_invite.
Qed.

(** ** The theorem *)

Inductive invite_request `{Crypto} : Txn InviteAnswer → Prop :=
| req_signup clk salt id handle email display_name bio avatar_key password code :
    invite_request (signup_txn clk salt id handle email display_name bio avatar_key password code)
| req_create clk draw u days_valid : invite_request (create_invite_txn clk draw u days_valid)
| req_admin clk draw days_valid : invite_request (create_admin_invite_txn clk draw days_valid)
| req_revoke code u : invite_request (revoke_invite_txn code u).
Lemma invite_request_valid `{Crypto} I p : invite_request p → valid invite_step I p.
Proof. intros []; [apply signup_valid|apply create_invite_valid|apply create_admin_invite_valid|apply revoke_invite_valid]. Qed.

(** What the answers say. *)
Definition admitted_by (code : string) (as_ : list InviteAnswer) : Z :=
  Z.of_nat (length (omap (λ a, match a with SignedUp id _ c => if decide (c = code) then Some id else None | _ => None end) as_)).
Definition created_by (u : Uuid) (as_ : list InviteAnswer) : Z :=
  Z.of_nat (length (omap (λ a, match a with Created v c => if decide (v = u) then Some c else None | _ => None end) as_)).
Lemma admitted_cons code a as_ : admitted_by code (a :: as_) = admitted_by code [a] + admitted_by code as_.
Proof. unfold admitted_by. destruct a; cbn; try case_decide; cbn [length]; lia. Qed.
Lemma admitted_one code id row c : admitted_by code [SignedUp id row c] = if decide (c = code) then 1 else 0.
Proof. unfold admitted_by. cbn -[decide]. by case_decide. Qed.
Lemma created_cons u a as_ : created_by u (a :: as_) = created_by u [a] + created_by u as_.
Proof. unfold created_by. destruct a; cbn; try case_decide; cbn [length]; lia. Qed.

(** No two accounts share a handle or an email. *)
Definition accounts_unique (d : Db) : Prop :=
  ∀ k1 k2 r1 r2, users d !! k1 = Some r1 → users d !! k2 = Some r2 →
    u_handle r1 = u_handle r2 ∨ u_email r1 = u_email r2 → k1 = k2.

(** *** One commit *)

(** The codes: [a] changes at most one of them. *)
Inductive code_change (a : InviteAnswer) (d d' : Db) : string → option InviteRow → Prop :=
| cc_same c : invite_codes d' !! c = invite_codes d !! c → admitted_by c [a] = 0 → code_change a d d' c (invite_codes d !! c)
| cc_new c t v x k : invite_codes d !! c = None → admitted_by c [a] = 0 →
    invite_codes d' !! c = Some (fresh_invite t v x k) → code_change a d d' c None
| cc_used c r t id : usable c d r → admitted_by c [a] = 1 →
    invite_codes d' !! c = Some (mark_used t id (negb (ic_max_uses r <=? ic_use_count r + 1)) r) → code_change a d d' c (Some r)
| cc_off c r : invite_codes d !! c = Some r → admitted_by c [a] = 0 →
    invite_codes d' !! c = Some (invalidate r) → code_change a d d' c (Some r).

Section step.
Context (L : Locks) (a : InviteAnswer) (d d' : Db) (Hs : invite_step L a d d').

Lemma step_code c : code_change a d d' c (invite_codes d !! c).
Proof using Hs.
  destruct Hs as [He _]. destruct a as [id row code|e|u code|code|e|code|]; simpl in He; try (subst; by apply cc_same).
  - destruct He as (_ & _ & r & t & Hu & Hc). destruct (decide (c = code)) as [->|].
    + rewrite (proj1 Hu). eapply cc_used; [done|by rewrite admitted_one, decide_True|by rewrite Hc, lookup_insert_eq].
    + apply cc_same; [by rewrite Hc, lookup_insert_ne|by rewrite admitted_one, decide_False].
  - destruct He as (_ & (t & x & Hn & Hc) & _). destruct (decide (c = code)) as [->|].
    + rewrite Hn. eapply cc_new; [done|done|by rewrite Hc, lookup_insert_eq].
    + by apply cc_same; [rewrite Hc, lookup_insert_ne|].
  - destruct He as (_ & _ & t & x & Hn & Hc). destruct (decide (c = code)) as [->|].
    + rewrite Hn. eapply cc_new; [done|done|by rewrite Hc, lookup_insert_eq].
    + by apply cc_same; [rewrite Hc, lookup_insert_ne|].
  - destruct He as (_ & _ & r & Hr & Hc). destruct (decide (c = code)) as [->|].
    + rewrite Hr. eapply cc_off; [done|done|by rewrite Hc, lookup_insert_eq].
    + by apply cc_same; [rewrite Hc, lookup_insert_ne|].
Qed.

Lemma step_quota u r :
  user_trust_scores d !! u = Some r → ∃ r', user_trust_scores d' !! u = Some r' ∧
    ts_trust_level r' = ts_trust_level r ∧ ts_invites_sent r' = ts_invites_sent r + created_by u [a] ∧
    (0 < created_by u [a] → ts_invites_sent r < max_invites_for (ts_trust_level r)).
Proof using Hs.
  intros Hr. destruct Hs as [He _].
  assert (Hsame : user_trust_scores d' = user_trust_scores d → created_by u [a] = 0 → ∃ r', user_trust_scores d' !! u = Some r' ∧
    ts_trust_level r' = ts_trust_level r ∧ ts_invites_sent r' = ts_invites_sent r + created_by u [a] ∧
    (0 < created_by u [a] → ts_invites_sent r < max_invites_for (ts_trust_level r))).
  { intros -> ->. exists r. split_and!; [done|done|lia|lia]. }
  destruct a as [id row code|e|v code|code|e|code|]; simpl in He; try (subst; by apply Hsame).
  - destruct He as (_ & Hq & _). destruct (Hq _ _ Hr) as (r' & Hr' & Hl & Hse). exists r'. unfold created_by. simpl.
    split_and!; [done|done|lia|lia].
  - destruct He as (_ & _ & r1 & r' & Hr1 & Hlt & Hl & Hse & Ht). unfold created_by. simpl.
    destruct (decide (v = u)) as [->|]; simpl.
    + simplify_eq. exists r'. rewrite Ht, lookup_insert_eq. split_and!; [done|done|lia|done].
    + exists r. rewrite Ht, lookup_insert_ne by done. split_and!; [done|done|lia|lia].
  - apply Hsame; [by destruct He as (_ & ? & _)|done].
  - apply Hsame; [by destruct He as (_ & ? & _)|done].
Qed.

Lemma step_unique : accounts_unique d → accounts_unique d'.
Proof using Hs.
  intros Hd. destruct Hs as [_ [_ _ [Hu|(id & row & _ & Hu & Hne & _)]]]; unfold accounts_unique; rewrite Hu; [done|].
  intros k1 k2 r1 r2 [[<- <-]|[_ H1]]%lookup_insert_Some [[<- <-]|[_ H2]]%lookup_insert_Some He; [done| | |by eapply Hd].
  - destruct (Hne _ _ H2). naive_solver.
  - destruct (Hne _ _ H1). naive_solver.
Qed.

Lemma step_invite_inv : invite_inv d → invite_inv d'.
Proof using Hs.
  intros Hd c r Hc. destruct (step_code c) as [c Hsame _|c t v x k _ _ He|c r0 t id (Hr0 & Hv & Hlt) _ He|c r0 Hr0 _ He].
  - rewrite Hsame in Hc. by eapply Hd.
  - rewrite He in Hc. injection Hc as <-. apply fresh_invite_ok.
  - rewrite He in Hc. injection Hc as <-. apply mark_used_ok; [by eapply Hd|done].
  - rewrite He in Hc. injection Hc as <-. apply invalidate_ok. by eapply Hd.
Qed.
End step.

(** *** All commits *)

Record invite_history (d0 : Db) (as_ : list InviteAnswer) (d : Db) : Prop := {
  ih_inv : invite_inv d;
  ih_unique : accounts_unique d;
  ih_uses c r0 : invite_codes d0 !! c = Some r0 →
    ∃ r, invite_codes d !! c = Some r ∧ ic_max_uses r = ic_max_uses r0 ∧
         ic_use_count r = ic_use_count r0 + admitted_by c as_;
  ih_new_uses c : invite_codes d0 !! c = None →
    match invite_codes d !! c with
    | Some r => ic_max_uses r = 1 ∧ ic_use_count r = admitted_by c as_
    | None => admitted_by c as_ = 0
    end;
  ih_quota u r0 : user_trust_scores d0 !! u = Some r0 →
    ∃ r, user_trust_scores d !! u = Some r ∧ ts_trust_level r = ts_trust_level r0 ∧
         ts_invites_sent r = ts_invites_sent r0 + created_by u as_ ∧
         (0 < created_by u as_ → ts_invites_sent r ≤ max_invites_for (ts_trust_level r)) }.
Lemma invite_replay_history d0 as_ d :
  invite_inv d0 → accounts_unique d0 → replay invite_step d0 as_ d → invite_history d0 as_ d.
Proof.
  intros Hi Hu. induction 1 as [|as_ a L d d' Hr [Hinv Huni Huses Hnew Hq] Hs].
  { split; [done|done| | |].
    - intros c r0 Hc. exists r0. unfold admitted_by. simpl. split_and!; [done|done|lia].
    - intros c ->. done.
    - intros u r0 Hr. exists r0. unfold created_by. simpl. split_and!; [done|done|lia|lia]. }
  split; [by eapply step_invite_inv|by eapply step_unique| | |].
  - intros c r0 Hc. destruct (Huses c r0 Hc) as (r & Hr1 & Hm & Hn). rewrite admitted_cons.
    destruct (step_code _ _ _ _ Hs c) as [c Hsame Ha|c t v x k Hnone Ha He|c r1 t id (Hr0 & Hv & Hlt) Ha He|c r1 Hr0 Ha He];
      simplify_eq; rewrite Ha; [exists r; rewrite Hsame|eexists; rewrite He..]; (split_and!; [done|simpl; done|simpl; lia]).
  - intros c Hc. specialize (Hnew c Hc). rewrite admitted_cons.
    destruct (step_code _ _ _ _ Hs c) as [c Hsame Ha|c t v x k Hnone Ha He|c r1 t id (Hr0 & Hv & Hlt) Ha He|c r1 Hr0 Ha He]; rewrite Ha.
    + rewrite Hsame. by destruct (invite_codes d !! c).
    + rewrite He. rewrite ?Hnone in Hnew. simpl. split; [done|lia].
    + rewrite He. rewrite ?Hr0 in Hnew. simpl. split; [apply Hnew|lia].
    + rewrite He. rewrite ?Hr0 in Hnew. done.
  - intros u r0 Hr0. destruct (Hq u r0 Hr0) as (r & Hr1 & Hl & Hn & Hmax). rewrite created_cons.
    destruct (step_quota _ _ _ _ Hs u r Hr1) as (r' & Hr' & Hl' & Hn' & Hlt). exists r'.
    split_and!; [done|congruence|lia|]. rewrite Hl'. intros Hpos.
    assert (0 ≤ created_by u as_) by (unfold created_by; lia). assert (created_by u [a] = 0 ∨ created_by u [a] = 1).
    { clear. unfold created_by. destruct a; cbn; try case_decide; cbn; lia. }
    lia.
Qed.

(** C4: invites keep their bounds under concurrency. However the statements of
    signups, creations and revocations of invites interleave, and wherever they are
    cut off: the users a code admitted are counted on it and are at most the uses it
    had left (one, for a code created meanwhile); a code that is marked valid has a
    use left; what a user creates is counted against the quota of the trust level and
    stays within it; and no two accounts share a handle or an email. *)
Theorem concurrent_invites_bounded `{Crypto} ms d s :
  invite_inv d → accounts_unique d → (∀ i p, Begin i p ∈ ms → invite_request p) →
  schedule ms (idle_machine d) = Some s →
  invite_history d (answered s) (committed s) ∧
  (∀ c r, invite_codes d !! c = Some r → admitted_by c (answered s) ≤ ic_max_uses r - ic_use_count r) ∧
  (∀ c, invite_codes d !! c = None → admitted_by c (answered s) ≤ 1).
Proof.
  intros Hi Hu Hms Hs. assert (Hh : invite_history d (answered s) (committed s)).
  { apply invite_replay_history; [done..|].
    eapply (schedule_replay _ (λ _, True)); [done|done| |done]. eauto using invite_request_valid. }
  split; [done|]. split.
  - intros c r Hr. destruct (ih_uses _ _ _ Hh c r Hr) as (r' & Hr' & Hm & Hn).
    destruct (ih_inv _ _ _ Hh c r' Hr'). lia.
  - intros c Hc. pose proof (ih_new_uses _ _ _ Hh c Hc) as Hn. destruct (invite_codes (committed s) !! c) as [r|] eqn:Hr; [|lia].
    destruct (ih_inv _ _ _ Hh c r Hr). lia.
Qed.

(** ** Alone, every program does what the sequential method does *)

Ltac unfold_invite_txn := unfold mbind, Proc_bind, mret, Proc_ret, query, lock, exec, insert_row, rollback; cbn [alone].

Lemma alone_insert_user id row k w d :
  alone (insert_user_txn id row k) w d =
  match insert_user id row (w d) with
  | (Ok _, d') => alone (k tt) (λ _, d') d
  | (Err e, _) => (SignupFailed (AuthDb e), d)
  end.
Proof.
  unfold insert_user_txn, insert_user. unfold_invite_txn. unfold_m.
  destruct (has_key id (users (w d))) eqn:Hk; cbn [negb alone]; [done|]. apply has_key_false in Hk.
  cbn [users set_users]. rewrite (exists_where_other u_handle) by done. destruct (exists_where _ _); cbn [negb alone]; [done|].
  cbn [users set_users]. rewrite (exists_where_other u_email) by done. destruct (exists_where _ _); cbn [negb alone]; [done|].
  by apply alone_ext.
Qed.
Lemma alone_initialize_user clk u k w d :
  alone (initialize_user_txn clk u k) w d =
  match initialize_user clk u (w d) with
  | (Ok _, d') => alone (k tt) (λ _, d') d
  | (Err _, _) => (SignupFailed Internal, d)
  end.
Proof.
  unfold initialize_user_txn, initialize_user. unfold_invite_txn. unfold_m.
  destruct (has_key u (user_trust_scores (w d))); cbn [negb alone]; [by apply alone_ext|]. rewrite alone_references.
  change (user_exists (set_user_trust_scores _ (w d))) with (user_exists (w d)).
  destruct (user_exists (w d) u); cbn [negb alone]; [by apply alone_ext|done].
Qed.
Lemma alone_consume_invite clk code u k w d :
  alone (consume_invite_txn clk code u k) w d =
  match consume_invite_with_tx clk code u (w d) with
  | (Ok _, d') => alone (k tt) (λ _, d') d
  | (Err e, _) => (SignupFailed (AuthInvite e), d)
  end.
Proof.
  unfold consume_invite_txn, consume_invite_with_tx. unfold_invite_txn. unfold_m. unfold has_key at 1.
  destruct (invite_codes (w d) !! code) as [r|] eqn:Hr; [rewrite bool_decide_true by done|rewrite bool_decide_false by (by intros []); done].
  cbn [negb alone]. rewrite Hr. destruct (ic_is_valid r); cbn [negb alone]; [|done].
  destruct (ic_expires_at r <? app_now clk); cbn [negb alone]; [done|]. rewrite Z.ltb_antisym.
  destruct (ic_max_uses r <=? ic_use_count r); cbn [negb alone]; [done|]. rewrite alone_references.
  change (user_exists (set_invite_codes _ (w d))) with (user_exists (w d)).
  destruct (user_exists (w d) u); cbn [negb alone]; [|done].
  destruct (ic_created_by r) as [v|]; [|by apply alone_ext]. cbn [alone].
  change (invite_relationships (set_invite_codes _ (w d))) with (invite_relationships (w d)).
  destruct (has_key (v, u) (invite_relationships (w d))); cbn [negb alone]; [done|]. rewrite alone_update_trust.
  by destruct (update_trust v _ _) as [[]?].
Qed.
Lemma alone_generate_code draw i fuel k w d :
  alone (generate_code_txn draw i fuel k) w d = alone (k (first_free (w d) draw i fuel)) w d.
Proof.
  revert i. induction fuel as [|fuel IH]; intros i; [done|]. cbn [generate_code_txn first_free]. unfold_invite_txn.
  destruct (has_key _ _); [apply IH|done].
Qed.
Lemma alone_insert_invite code row k w d :
  alone (insert_invite_txn code row k) w d =
  match insert_invite code row (w d) with
  | (Ok _, d') => alone (k tt) (λ _, d') d
  | (Err e, _) => (CreateFailed (InviteDb e), d)
  end.
Proof.
  unfold insert_invite_txn, insert_invite. unfold_m. destruct (Nat.leb _ _); cbn [negb]; [|done]. unfold_invite_txn.
  destruct (has_key code (invite_codes (w d))); cbn [negb alone]; [done|].
  destruct (ic_created_by row) as [u|]; [|by apply alone_ext]. rewrite alone_references.
  change (user_exists (set_invite_codes _ (w d))) with (user_exists (w d)).
  destruct (user_exists (w d) u); cbn [negb alone]; [by apply alone_ext|done].
Qed.

(** What the callers get. *)
Definition signup_result (a : InviteAnswer) : Result AuthError User :=
  match a with SignedUp id row _ => Ok (row_to_user id row) | SignupFailed e => Err e | _ => Err Internal end.
Definition create_result (a : InviteAnswer) : Result InviteError string :=
  match a with Created _ c | AdminCreated c => Ok c | CreateFailed e => Err e | _ => Err CodeGenerationFailed end.
Definition same_outcome {E B C} (result : InviteAnswer → Result E B) (f : C → B) (p : Txn InviteAnswer) (m : M Db E C) : Prop :=
  ∀ d, (result (run_alone p d).1, (run_alone p d).2)
       = match m d with (Ok c, d') => (Ok (f c), d') | (Err e, d') => (Err e, d') end.

Section alone.
Context `{Crypto} (clk : Clock).
Lemma signup_alone salt id handle email display_name bio avatar_key password code :
  same_outcome signup_result (λ u, u) (signup_txn clk salt id handle email display_name bio avatar_key password code)
    (signup clk salt id handle email display_name bio avatar_key password code).
Proof.
  intros d. unfold run_alone, signup_txn, signup, hash_password, script. unfold_m.
  destruct (argon2_hash salt password) as [h|]; [|done]. unfold_invite_txn. rewrite alone_insert_user.
  destruct (insert_user id _ d) as [[[]|e] d1]; [|done]. rewrite alone_initialize_user.
  destruct (initialize_user clk id d1) as [[[]|e] d2]; [|done]. rewrite alone_consume_invite.
  by destruct (consume_invite_with_tx clk code id d2) as [[o|e] d3].
Qed.
Lemma create_invite_alone draw u days_valid :
  same_outcome create_result code_text (create_invite_txn clk draw u days_valid) (create_invite clk draw u days_valid).
Proof.
  intros d. unfold run_alone, create_invite_txn, create_invite, generate_unique_code, script. unfold_invite_txn. unfold_m.
  unfold has_key. destruct (user_trust_scores d !! u) as [r|] eqn:Hr;
    [rewrite bool_decide_true by done|rewrite bool_decide_false by (by intros []); done].
  cbn [negb alone]. rewrite Hr, Z.ltb_antisym. destruct (max_invites_for (ts_trust_level r) <=? ts_invites_sent r); cbn [negb alone]; [done|].
  rewrite alone_generate_code. destruct (first_free d draw 0 10) as [code|]; [|done]. rewrite alone_insert_invite.
  destruct (insert_invite code _ d) as [[[]|e] d1]; [|done]. rewrite alone_update_trust.
  by destruct (update_trust u _ d1) as [[o|e] d2].
Qed.
Lemma create_admin_invite_alone draw days_valid :
  same_outcome create_result code_text (create_admin_invite_txn clk draw days_valid) (create_admin_invite clk draw days_valid).
Proof.
  intros d. unfold run_alone, create_admin_invite_txn, create_admin_invite, generate_unique_code, script. unfold_invite_txn. unfold_m.
  rewrite alone_generate_code. destruct (first_free d draw 0 10) as [code|]; [|done]. rewrite alone_insert_invite.
  destruct (insert_invite code _ d) as [[[]|e] d1] eqn:Hi; [done|].
  unfold insert_invite in Hi. run; by simplify_eq.
Qed.
Lemma revoke_invite_alone code u d :
  (match (run_alone (revoke_invite_txn code u) d).1 with RevokedCode _ => true | _ => false end,
   (run_alone (revoke_invite_txn code u) d).2) =
  match revoke_invite code u d with (Ok b, d') => (b, d') | (Err _, d') => (false, d') end.
Proof.
  unfold run_alone, revoke_invite_txn, revoke_invite, script. unfold_invite_txn. unfold_m.
  destruct (invite_codes d !! code) as [r|] eqn:Hr; [|done].
  destruct (bool_decide (ic_created_by r = Some u) && ic_is_valid r) eqn:Hm; cbn [negb alone]; [|done].
  rewrite Hr, Hm. cbn [negb alone]. unfold set_invite_codes. do 2 f_equal.
  rewrite <-(insert_id (invite_codes d) code r) at 1 by done. by rewrite alter_insert_eq.
Qed.

(** On its own, every program of this file is the method it stands for: [signup]
    with its invite, [create_invite], [create_admin_invite] and [revoke_invite], run
    without interference, give the result and leave the database of the sequential
    methods, on every branch. *)
Theorem invite_programs_alone :
  (∀ salt id handle email display_name bio avatar_key password code,
     same_outcome signup_result (λ u, u) (signup_txn clk salt id handle email display_name bio avatar_key password code)
       (signup clk salt id handle email display_name bio avatar_key password code)) ∧
  (∀ draw u days_valid,
     same_outcome create_result code_text (create_invite_txn clk draw u days_valid) (create_invite clk draw u days_valid)) ∧
  (∀ draw days_valid,
     same_outcome create_result code_text (create_admin_invite_txn clk draw days_valid)
       (create_admin_invite clk draw days_valid)) ∧
  (∀ code u d,
     (match (run_alone (revoke_invite_txn code u) d).1 with RevokedCode _ => true | _ => false end,
      (run_alone (revoke_invite_txn code u) d).2)
     = match revoke_invite code u d with (Ok b, d') => (b, d') | (Err _, d') => (false, d') end).
Proof.
  split_and!; intros; [apply signup_alone|apply create_invite_alone|apply create_admin_invite_alone|apply revoke_invite_alone].
Qed.
End alone.

(** ** Concrete runs *)

(** Two people sign up with the same single-use code at the same time. *)
Definition one_code : Db := set_invite_codes (λ _, {[ "CODE" := fresh_invite 0 None 100 "admin" ]}) empty_db.
Definition two_signups : list (PoolMove InviteAnswer) :=
  [Begin 1 (@signup_txn toy_crypto (mkClock 1 1) "s" 1 "ann" "ann@x" "Ann" None None "pw" "CODE");
   Begin 2 (@signup_txn toy_crypto (mkClock 1 1) "s" 2 "bob" "bob@x" "Bob" None None "pw" "CODE")]
  ++ replicate 8 (Step 1) ++ replicate 8 (Step 2) ++ replicate 7 (Step 1) ++ replicate 3 (Step 2).
Definition after_invites (ms : list (PoolMove InviteAnswer)) (d : Db) : Machine InviteAnswer :=
  default (idle_machine d) (schedule ms (idle_machine d)).
Lemma concurrent_invites_bounded_witness :
  let s := after_invites two_signups one_code in
  map (λ a, match a with SignedUp id _ c => Some (id, c) | _ => None end) (answered s) = [None; Some (1%N, "CODE")] ∧
  invite_history one_code (answered s) (committed s) ∧
  (∀ c r, invite_codes one_code !! c = Some r → admitted_by c (answered s) ≤ ic_max_uses r - ic_use_count r) ∧
  (∀ c, invite_codes one_code !! c = None → admitted_by c (answered s) ≤ 1).
Proof.
  intros s. split; [vm_compute; reflexivity|].
  apply (@concurrent_invites_bounded toy_crypto two_signups one_code s).
  - intros c r. simpl. rewrite lookup_singleton_Some. intros [_ <-]. apply fresh_invite_ok.
  - intros k1 k2 r1 r2 Hk. by vm_compute in Hk.
  - intros i p Hp. unfold two_signups in Hp. rewrite !elem_of_app, !elem_of_cons in Hp.
    destruct Hp as [[[= -> ->]|[[= -> ->]|[]%elem_of_nil]]|Hp]; [constructor|constructor|].
    destruct Hp as [Hp|[Hp|[Hp|Hp]]]; by apply elem_of_replicate in Hp as [??].
  - unfold s, after_invites. destruct (schedule _ _) eqn:Hs; [done|]. by vm_compute in Hs.
Defined.
