(* ===== verification/Posts.v ===== *)
(** * Posts

    [PostService] of [src/app/posts.rs]: creating, reading, editing, deleting and
    listing posts, with the visibility rule every read applies. *)

From S2P Require Import Prelude Sql Keyset Domain Schema Social.
From stdpp Require Import options.

#[local] Open Scope Z_scope.

Inductive PostError :=
| Validation (msg : string)
| MediaNotOwned
| UnknownVisibility (v : string)
| PostDb (e : DbError).

(** ** The queries *)

(** [ARRAY(SELECT pm.media_id FROM post_media pm WHERE pm.post_id = p.id
    ORDER BY pm.position)]. *)
Definition media_slots (d : Db) (post_id : Uuid) : list (Z * Uuid) :=
  select (λ k pos, if decide (k.1 = post_id) then Some (pos, k.2) else None) (post_media d).
Definition media_ids_of (d : Db) (post_id : Uuid) : list Uuid :=
  (order_by id Asc (media_slots d post_id)).*2.

(** The columns every post query selects, decoded; [counts] carries the extra
    columns of the single-post queries. *)
Definition post_of (d : Db) (id : Uuid) (p : PostRow) (owner : UserRow)
    (media_ids : list Uuid) (counts : option (Z * Z)) (liked : option bool) : Post :=
  mkPost id (p_owner_id p) (Some (u_handle owner)) (Some (u_display_name owner)) media_ids None
    (p_caption p) (p_created_at p) (p_visibility p) (u_avatar_key owner) None
    (fst <$> counts) (snd <$> counts) liked.

(** [p.visibility = 'public' OR p.owner_id = $2 OR (p.visibility =
    'followers_only' AND EXISTS (..)) AND NOT EXISTS (SELECT 1 FROM blocks ..)];
    without a viewer, [p.visibility = 'public']. *)
Definition visible_to (d : Db) (viewer : option Uuid) (p : PostRow) : bool :=
  match viewer with
  | Some v =>
      (bool_decide (p_visibility p = Public)
       || bool_decide (p_owner_id p = v)
       || (bool_decide (p_visibility p = FollowersOnly) && follows_edge d v (p_owner_id p)))
      && negb (blocked_pair d (p_owner_id p) v)
  | None => bool_decide (p_visibility p = Public)
  end.

Definition like_count (d : Db) (post_id : Uuid) : Z :=
  count_where (λ _ l, bool_decide (l_post_id l = post_id)) (likes d).
Definition comment_count (d : Db) (post_id : Uuid) : Z :=
  count_where (λ _ c, bool_decide (c_post_id c = post_id)) (comments d).
Definition liked_by (d : Db) (post_id v : Uuid) : bool :=
  exists_where (λ _ l, bool_decide (l_post_id l = post_id) && bool_decide (l_user_id l = v)) (likes d).

(** ** Operations *)

(** [INSERT INTO post_media (post_id, media_id, position)]. *)
Definition insert_post_media (post_id media_id : Uuid) (position : Z) : M Db DbError unit :=
  d ← get_db;
  _ ← guard_else (negb (has_key (post_id, media_id) (post_media d))) (UniqueViolation "post_media_pkey");
  _ ← guard_else (negb (exists_where (λ k pos, bool_decide (k.1 = post_id) && (pos =? position))
                          (post_media d))) (UniqueViolation "ux_post_media_post_position");
  _ ← guard_else (0 <=? position) (CheckViolation "post_media_position_non_negative");
  _ ← guard_else (has_key media_id (media d)) (ForeignKeyViolation "post_media_media_id_fkey");
  _ ← guard_else (has_key post_id (posts d)) (ForeignKeyViolation "post_media_post_id_fkey");
  modifies (set_post_media (<[(post_id, media_id) := position]>)).

Definition create_post (clk : Clock) (new_id owner_id : Uuid) (media_ids : list Uuid)
    (caption : option string) : M Db PostError Post :=
  _ ← guard_else (negb (Nat.eqb (length media_ids) 0)) (Validation "at least one media_id is required");
  _ ← guard_else (Nat.leb (length media_ids) 10) (Validation "maximum 10 images per post");
  _ ← guard_else (Nat.eqb (size (list_to_set media_ids : gset N)) (length media_ids))
        (Validation "media_ids must be unique");
  owned_count ← reads (λ d, count_where
    (λ k m, bool_decide (k ∈ media_ids) && bool_decide (m_owner_id m = owner_id)) (media d));
  _ ← guard_else (owned_count =? Z.of_nat (length media_ids)) MediaNotOwned;
  transaction (
    d ← get_db;
    let row := mkPostRow owner_id caption Public (db_now clk) in
    _ ← guard_else (negb (has_key new_id (posts d))) (PostDb (UniqueViolation "posts_pkey"));
    _ ← guard_else (user_exists d owner_id) (PostDb (ForeignKeyViolation "posts_owner_id_fkey"));
    _ ← modifies (set_posts (<[new_id := row]>));
    owner ← ok_or (active_user d owner_id) (PostDb RowNotFound);
    _ ← for_each (imap pair media_ids) (λ pm,
          map_err PostDb (insert_post_media new_id pm.2 (Z.of_nat pm.1)));
    mret (Commit (post_of d new_id row owner media_ids None None))).

Definition can_view_post (post_id viewer_id : Uuid) : M Db PostError bool :=
  reads (λ d, match posts d !! post_id with
              | Some p => bool_decide (is_Some (active_user d (p_owner_id p)))
                          && visible_to d (Some viewer_id) p
              | None => false
              end).

Definition get_post (post_id : Uuid) (viewer_id : option Uuid) : M Db PostError (option Post) :=
  reads (λ d,
    p ← posts d !! post_id;
    owner ← active_user d (p_owner_id p);
    if visible_to d viewer_id p
    then Some (post_of d post_id p owner (media_ids_of d post_id)
                 (Some (like_count d post_id, comment_count d post_id))
                 (liked_by d post_id <$> viewer_id))
    else None).

(** The [UPDATE] in the CTE takes effect whether or not the join with the owner
    finds a row. *)
Definition update_caption (post_id owner_id : Uuid) (caption : option string) :
    M Db PostError (option Post) :=
  d ← get_db;
  match posts d !! post_id with
  | Some p =>
      if bool_decide (p_owner_id p = owner_id) then
        let p' := mkPostRow (p_owner_id p) caption (p_visibility p) (p_created_at p) in
        _ ← modifies (set_posts (<[post_id := p']>));
        mret ((λ owner, post_of d post_id p' owner (media_ids_of d post_id) None None)
              <$> active_user d owner_id)
      else mret None
  | None => mret None
  end.

Definition delete_post (post_id owner_id : Uuid) : M Db PostError bool :=
  d ← get_db;
  match posts d !! post_id with
  | Some p =>
      if bool_decide (p_owner_id p = owner_id)
      then _ ← modifies (delete_post_rows post_id); mret true
      else mret false
  | None => mret false
  end.

(** The rows of [list_by_user] before cursor, order and limit. *)
Definition posts_by (d : Db) (owner_id : Uuid) (viewer_id : option Uuid) : list Post :=
  select (λ k p, if decide (p_owner_id p = owner_id) then
                   owner ← active_user d (p_owner_id p);
                   if visible_to d viewer_id p
                   then Some (post_of d k p owner (media_ids_of d k) None None) else None
                 else None) (posts d).

Definition post_key (p : Post) : Key := (post_created_at p, post_id p).

Definition list_by_user (owner_id : Uuid) (viewer_id : option Uuid) (cursor : option Key) (limit : Z) :
    M Db PostError (list Post) :=
  reads (λ d, keyset post_key Desc cursor limit (posts_by d owner_id viewer_id)).

(** ** Creating and reading back *)

Lemma insert_loop_ok pid pms d d' :
  for_each pms (λ pm, map_err PostDb (insert_post_media pid pm.2 (Z.of_nat pm.1))) d = (Ok tt, d') →
  d' = set_post_media (λ _, post_media d') d ∧
  media_slots d' pid ≡ₚ ((λ pm, (Z.of_nat pm.1, pm.2)) <$> pms) ++ media_slots d pid.
Proof.
  revert d. induction pms as [|[i m] pms IH]; intros d Hrun.
  - injection Hrun as <-. split; [by destruct d|done].
  - cbn [for_each] in Hrun. unfold mbind, M_bind in Hrun. cbn [fst snd] in Hrun.
    destruct (map_err PostDb (insert_post_media pid m (Z.of_nat i)) d) as [[[]|] d1] eqn:Hi; [|done].
    assert (Hd1 : post_media d !! (pid, m) = None ∧
                  d1 = set_post_media (<[(pid, m) := Z.of_nat i]>) d).
    { unfold insert_post_media in Hi. run; bool_to_prop; simplify_eq.
      split; [|done]. by apply has_key_false. }
    destruct Hd1 as [Hfree ->]. destruct (IH _ Hrun) as [Hd' Hs]. split; [by rewrite Hd'|].
    rewrite Hs. unfold media_slots at 1. simpl.
    rewrite select_insert_fresh by done. simpl. rewrite decide_True by done. simpl.
    by rewrite Permutation_middle.
Qed.

Lemma imap_slots_sorted (l : list Uuid) :
  StronglySorted (row_le id Asc) ((λ pm, (Z.of_nat pm.1, pm.2)) <$> imap pair l) ∧
  NoDup (id <$> ((λ pm, (Z.of_nat pm.1, pm.2)) <$> imap pair l)).
Proof.
  rewrite list_fmap_id. induction l as [|x l [IHs IHn]] using rev_ind; simpl.
  - split; constructor.
  - rewrite imap_app, fmap_app. simpl. split.
    + apply StronglySorted_app_2; [|done|repeat constructor].
      intros y z Hy ->%list_elem_of_singleton. simpl.
      apply list_elem_of_fmap in Hy as ([i u] & -> & Hi).
      apply elem_of_lookup_imap_1 in Hi as (j & u' & [= -> ->] & Hj).
      apply lookup_lt_Some in Hj. simpl. rewrite Nat.add_0_r. apply key_le_spec.
      rewrite key_lt_spec. simpl. lia.
    + apply NoDup_app. split_and!; [done| |apply NoDup_singleton].
      intros y Hy ->%list_elem_of_singleton.
      apply list_elem_of_fmap in Hy as ([i u] & He & Hi).
      apply elem_of_lookup_imap_1 in Hi as (j & u' & [= -> ->] & Hj).
      apply lookup_lt_Some in Hj. simpl in He. injection He. intros _ Hl. lia.
Qed.

(** What a post's rows may refer to: no row of another table names a post that is
    not there (the foreign keys). *)
Definition post_refs_ok (d : Db) : Prop :=
  (∀ k x, post_media d !! k = Some x → has_key k.1 (posts d) = true) ∧
  (∀ k l, likes d !! k = Some l → has_key (l_post_id l) (posts d) = true) ∧
  (∀ k c, comments d !! k = Some c → has_key (c_post_id c) (posts d) = true).

Lemma create_post_ok clk new_id o ids caption d post d' :
  create_post clk new_id o ids caption d = (Ok post, d') →
  let row := mkPostRow o caption Public (db_now clk) in
  ids ≠ [] ∧ (length ids ≤ 10)%nat ∧ NoDup ids ∧
  (∀ m, m ∈ ids → ∃ r, media d !! m = Some r ∧ m_owner_id r = o) ∧
  posts d !! new_id = None ∧
  ∃ owner, active_user d o = Some owner ∧ post = post_of d new_id row owner ids None None ∧
    d' = set_post_media (λ _, post_media d') (set_posts (<[new_id := row]>) d) ∧
    media_slots d' new_id ≡ₚ ((λ pm, (Z.of_nat pm.1, pm.2)) <$> imap pair ids)
                             ++ media_slots d new_id.
Proof.
  unfold create_post. unfold_m. cbv beta.
  destruct (negb (length ids =? 0)%nat) eqn:H1; [|done].
  destruct (length ids <=? 10)%nat eqn:H2; [|done].
  destruct (size _ =? _)%nat eqn:H3; [|done].
  destruct (count_where _ (media d) =? _) eqn:H4; [|done].
  destruct (negb (has_key new_id (posts d))) eqn:H5; [|done].
  destruct (user_exists d o); [|done]. cbv beta iota zeta.
  destruct (active_user d o) as [owner|] eqn:Ho; [|done].
  destruct (for_each _ _ _) as [[[]|] d1] eqn:Hloop; [|done]. intros [= <- <-].
  apply insert_loop_ok in Hloop as [Hd1 Hslots].
  apply Nat.eqb_eq, size_list_to_set_NoDup in H3. apply Nat.leb_le in H2.
  apply Z.eqb_eq in H4. apply negb_true_iff, has_key_false in H5.
  apply negb_true_iff, Nat.eqb_neq in H1. split_and!; try done.
  - by intros ->.
  - intros m Hm. destruct (count_where_all ids _ _ H3 H4 m Hm) as (r & Hr & Ho').
    apply bool_decide_eq_true in Ho'. eauto.
  - exists owner. done.
Qed.

(** A post that was created reads back: [get_post] by its owner returns what
    [create_post] returned, with the images in the order they were given, no
    likes and no comments; the images were one to ten distinct media of the
    owner. *)
Theorem create_get_roundtrip clk new_id o ids caption d post d' :
  post_refs_ok d → social_inv d →
  create_post clk new_id o ids caption d = (Ok post, d') →
  (1 ≤ length ids ≤ 10)%nat ∧ NoDup ids ∧
  (∀ m, m ∈ ids → ∃ r, media d !! m = Some r ∧ m_owner_id r = o) ∧
  post_id post = new_id ∧ post_media_ids post = ids ∧ post_caption post = caption ∧
  fst (get_post new_id (Some o) d')
  = Ok (Some (mkPost new_id o (post_owner_handle post) (post_owner_display_name post) ids None
                caption (db_now clk) Public (post_owner_avatar_key post) None
                (Some 0) (Some 0) (Some false))).
Proof.
  intros (Hpm & Hlk & Hcm) Hsoc
    (Hne & Hlen & Hnd & Hown & Hfree & owner & Ho & -> & Hd' & Hslots)%create_post_ok.
  split_and!; try done; [destruct ids; simpl in *; [done|lia]|].
  assert (Hnew : has_key new_id (posts d) = false) by (by apply has_key_false).
  assert (Hids : media_ids_of d' new_id = ids).
  { unfold media_ids_of. destruct (imap_slots_sorted ids) as [Hs Hk].
    erewrite (order_by_sorted_perm id Asc); [|exact Hk|exact Hs|].
    - rewrite <-list_fmap_compose, fmap_imap. apply list_eq. intros i.
      rewrite list_lookup_imap. by destruct (ids !! i).
    - rewrite Hslots. unfold media_slots. rewrite select_empty; [by rewrite app_nil_r|].
      intros k v Hk'. case_decide as Heq; [|done]. apply Hpm in Hk'. congruence. }
  assert (Hlike : ∀ k l, likes d !! k = Some l → l_post_id l ≠ new_id)
    by (intros k l Hl He; apply Hlk in Hl; congruence).
  assert (Hlc : like_count d' new_id = 0).
  { apply count_where_zero. rewrite Hd'. intros k l Hl. simpl in Hl.
    apply bool_decide_eq_false. by eapply Hlike. }
  assert (Hcc : comment_count d' new_id = 0).
  { apply count_where_zero. rewrite Hd'. intros k c Hc. simpl in Hc.
    apply bool_decide_eq_false. intros He. apply Hcm in Hc. congruence. }
  assert (Hlb : liked_by d' new_id o = false).
  { apply exists_where_false. rewrite Hd'. intros k l Hl. simpl in Hl.
    by rewrite bool_decide_false by (by eapply Hlike). }
  unfold get_post, reads. cbn [fst]. rewrite Hids, Hlc, Hcc. simpl. rewrite Hlb. f_equal.
  rewrite Hd'. cbn [posts set_post_media set_posts]. rewrite lookup_insert_eq. simpl.
  change (active_user _ o) with (active_user d o). rewrite Ho. simpl.
  change (blocked_pair _ o o) with (blocked_pair d o o).
  assert (Hself : blocked_pair d o o = false)
    by (unfold blocked_pair; by rewrite (inv_no_self_block _ Hsoc)).
  by rewrite Hself.
Qed.

(** ** Visibility *)

Lemma posts_by_ids d o v : NoDup (post_id <$> posts_by d o v).
Proof.
  apply select_NoDup. intros k p r. case_decide; [|done]. simpl.
  destruct (active_user d _); simpl; [|done]. case_match; naive_solver.
Qed.

Lemma posts_by_keys d o v : NoDup (post_key <$> posts_by d o v).
Proof. by eapply NoDup_keys; [|apply posts_by_ids]. Qed.

(** A listed post is the post [get_post] shows, without its counters. *)
Definition without_counts (p : Post) : Post :=
  mkPost (post_id p) (post_owner_id p) (post_owner_handle p) (post_owner_display_name p)
    (post_media_ids p) (post_primary_media p) (post_caption p) (post_created_at p)
    (post_visibility p) (post_owner_avatar_key p) (post_owner_avatar_url p) None None None.

Lemma elem_of_posts_by d o v x :
  x ∈ posts_by d o v ↔
  post_owner_id x = o ∧
  ∃ y, get_post (post_id x) v d = (Ok (Some y), d) ∧ x = without_counts y.
Proof.
  unfold posts_by, get_post, reads. rewrite elem_of_select. split.
  - intros (k & p & Hk & Hf). case_decide as Ho; [|done].
    destruct (active_user d (p_owner_id p)) as [owner|] eqn:Hu; simpl in Hf; [|done].
    destruct (visible_to d v p) eqn:Hv; [|done]. injection Hf as <-. split; [done|].
    simpl. rewrite Hk. simpl. rewrite Hu. simpl. rewrite Hv. eauto.
  - intros (<- & y & Hy & ->).
    destruct (posts d !! post_id (without_counts y)) as [p|] eqn:Hk; simpl in Hy; [|done].
    destruct (active_user d (p_owner_id p)) as [owner|] eqn:Hu; simpl in Hy; [|done].
    destruct (visible_to d v p) eqn:Hv; [|done]. injection Hy as <-.
    exists (post_id y), p. simpl in *. rewrite decide_True by done. rewrite Hu. simpl.
    by rewrite Hv.
Qed.

(** The visibility rule. A post is shown to a viewer exactly when its owner's
    account is not deleted, neither of the two blocks the other, and it is public,
    the viewer's own, or for followers and the viewer follows; to an anonymous
    viewer exactly when it is public. [can_view_post], which guards likes and
    comments, gives the same answer as [get_post]. *)
Theorem get_post_visibility post_id viewer d :
  (∃ y, get_post post_id viewer d = (Ok (Some y), d)) ↔
  ∃ p, posts d !! post_id = Some p ∧ active_user d (p_owner_id p) ≠ None ∧
    match viewer with
    | None => p_visibility p = Public
    | Some v =>
        blocked_pair d (p_owner_id p) v = false ∧
        (p_visibility p = Public ∨ p_owner_id p = v ∨ follows_edge d v (p_owner_id p) = true) ∧
        can_view_post post_id v d = (Ok true, d)
    end.
Proof.
  unfold get_post, can_view_post, reads. split.
  - intros (y & Hy). destruct (posts d !! post_id) as [p|]; simpl in Hy; [|done].
    destruct (active_user d (p_owner_id p)) as [owner|] eqn:Hu; simpl in Hy; [|done].
    destruct (visible_to d viewer p) eqn:Hv; [|done]. exists p. split_and!; [done|congruence|].
    destruct viewer as [v|]; [|by apply bool_decide_eq_true in Hv].
    rewrite Hv, bool_decide_true by done. simpl in Hv.
    apply andb_true_iff in Hv as [Hv Hb%negb_true_iff]. split_and!; try done.
    rewrite !orb_true_iff, andb_true_iff, !bool_decide_eq_true in Hv. naive_solver.
  - intros (p & -> & Hu & Hv). destruct (active_user d (p_owner_id p)) as [owner|] eqn:Ho; [|done].
    simpl. rewrite Ho. cbn [mbind option_bind]. destruct viewer as [v|].
    + destruct Hv as (_ & _ & Hc). rewrite bool_decide_true in Hc by done.
      assert (Hvis : visible_to d (Some v) p = true) by (by injection Hc).
      rewrite Hvis. eauto.
    + simpl. rewrite bool_decide_true by done. eauto.
Qed.

(** A page of [list_by_user] is a prefix of the full listing: exactly the
    posts of that user which [get_post] would show the viewer and which come
    after the cursor, each once, newest first. *)
Theorem list_by_user_exact o viewer cursor n d :
  ∃ full, list_by_user o viewer cursor n d = (Ok (take (Z.to_nat n) full), d) ∧
    StronglySorted (λ x y, precedes Desc (post_key x) (post_key y)) full ∧
    ∀ x, x ∈ full ↔
      post_owner_id x = o ∧ after_cursor post_key Desc cursor x = true ∧
      ∃ y, get_post (post_id x) viewer d = (Ok (Some y), d) ∧ x = without_counts y.
Proof.
  exists (walk post_key Desc cursor (posts_by d o viewer)). split_and!.
  - done.
  - apply walk_strict, posts_by_keys.
  - intros x. rewrite elem_of_walk, elem_of_posts_by. naive_solver.
Qed.

(** Only the owner deletes a post, and its images, likes and comments go with
    it. *)
Lemma delete_post_spec post_id o d :
  delete_post post_id o d =
  match posts d !! post_id with
  | Some p => if decide (p_owner_id p = o) then (Ok true, delete_post_rows post_id d)
              else (Ok false, d)
  | None => (Ok false, d)
  end.
Proof.
  unfold delete_post. unfold_m. simpl. destruct (posts d !! post_id) as [p|]; [|done].
  case_bool_decide; case_decide; done.
Qed.

(** ** Concrete runs *)

Definition post_db : Db :=
  set_media (λ _, {[ 7%N := mkMediaRow 1 "o" "t" "m" 1 1 1 0; 8%N := mkMediaRow 1 "o" "t" "m" 1 1 1 0 ]})
    two_users.

Lemma post_refs_ok_sample : post_refs_ok post_db.
Proof. split_and!; intros k x; simpl; by rewrite lookup_empty. Qed.

Lemma create_get_roundtrip_witness :
  let d' := snd (create_post (mkClock 5 5) 20 1 [8%N; 7%N] (Some "hi") post_db) in
  let post := mkPost 20 1 (Some "ann") (Some "Ann") [8%N; 7%N] None (Some "hi") 5 Public None None
                None None None in
  (1 ≤ length [8%N; 7%N] ≤ 10)%nat ∧ NoDup [8%N; 7%N] ∧
  (∀ m, m ∈ [8%N; 7%N] → ∃ r, media post_db !! m = Some r ∧ m_owner_id r = 1%N) ∧
  post_id post = 20%N ∧ post_media_ids post = [8%N; 7%N] ∧ post_caption post = Some "hi" ∧
  fst (get_post 20 (Some 1%N) d')
  = Ok (Some (mkPost 20 1 (post_owner_handle post) (post_owner_display_name post) [8%N; 7%N] None
                (Some "hi") 5 Public (post_owner_avatar_key post) None
                (Some 0) (Some 0) (Some false))).
Proof.
  apply (create_get_roundtrip (mkClock 5 5) 20 1 [8%N; 7%N] (Some "hi") post_db).
  - apply post_refs_ok_sample.
  - by split.
  - vm_compute. reflexivity.
Defined.
