(* ===== verification/Engagement.v ===== *)
(** * Likes and comments

    [EngagementService] of [src/app/engagement.rs]. *)

From S2P Require Import Prelude Sql Keyset Domain Schema Social Posts.
From stdpp Require Import options.

#[local] Open Scope Z_scope.

Definition like_of (id : Uuid) (l : LikeRow) : Like :=
  mkLike id (l_user_id l) (l_post_id l) (l_created_at l).

Definition has_liked (d : Db) (user_id post_id : Uuid) : bool :=
  exists_where (λ _ l, bool_decide (l_user_id l = user_id) && bool_decide (l_post_id l = post_id))
    (likes d).

(** [ON CONFLICT DO NOTHING] covers the primary key and UNIQUE (user_id,
    post_id). *)
Definition like_post (clk : Clock) (new_id user_id post_id : Uuid) : M Db DbError (option Like) :=
  d ← get_db;
  if has_key new_id (likes d) || has_liked d user_id post_id then mret None
  else
    _ ← guard_else (user_exists d user_id) (ForeignKeyViolation "likes_user_id_fkey");
    _ ← guard_else (has_key post_id (posts d)) (ForeignKeyViolation "likes_post_id_fkey");
    let row := mkLikeRow user_id post_id (db_now clk) in
    _ ← modifies (set_likes (<[new_id := row]>));
    mret (Some (like_of new_id row)).

Definition comment_of (d : Db) (id : Uuid) (c : CommentRow) : option Comment :=
  (λ u, mkComment id (c_user_id c) (c_post_id c) (c_body c) (c_created_at c)
          (Some (u_handle u)) (Some (u_display_name u))) <$> users d !! c_user_id c.

Definition comment_post (clk : Clock) (new_id user_id post_id : Uuid) (body : string) :
    M Db DbError Comment :=
  d ← get_db;
  let row := mkCommentRow user_id post_id body (db_now clk) in
  _ ← guard_else (negb (has_key new_id (comments d))) (UniqueViolation "comments_pkey");
  _ ← guard_else (user_exists d user_id) (ForeignKeyViolation "comments_user_id_fkey");
  _ ← guard_else (has_key post_id (posts d)) (ForeignKeyViolation "comments_post_id_fkey");
  _ ← modifies (set_comments (<[new_id := row]>));
  ok_or (comment_of d new_id row) RowNotFound.

Definition unlike_post (user_id post_id : Uuid) : M Db DbError bool :=
  d ← get_db;
  _ ← modifies (set_likes (delete_where
        (λ _ l, bool_decide (l_user_id l = user_id) && bool_decide (l_post_id l = post_id))));
  mret (has_liked d user_id post_id).

Definition like_key (l : Like) : Key := (like_created_at l, like_id l).
Definition comment_key (c : Comment) : Key := (comment_created_at c, comment_id c).

Definition likes_on (d : Db) (post_id : Uuid) : list Like :=
  select (λ k l, if decide (l_post_id l = post_id) then Some (like_of k l) else None) (likes d).
Definition comments_on (d : Db) (post_id : Uuid) : list Comment :=
  select (λ k c, if decide (c_post_id c = post_id) then comment_of d k c else None) (comments d).

Definition list_likes (post_id : Uuid) (cursor : option Key) (limit : Z) : M Db DbError (list Like) :=
  reads (λ d, keyset like_key Desc cursor limit (likes_on d post_id)).

Definition list_comments (post_id : Uuid) (cursor : option Key) (limit : Z) :
    M Db DbError (list Comment) :=
  reads (λ d, keyset comment_key Desc cursor limit (comments_on d post_id)).

Definition delete_comment (comment_id post_id user_id : Uuid) : M Db DbError bool :=
  d ← get_db;
  match comments d !! comment_id with
  | Some c =>
      if bool_decide (c_post_id c = post_id) && bool_decide (c_user_id c = user_id)
      then _ ← modifies (set_comments (delete comment_id)); mret true
      else mret false
  | None => mret false
  end.

(** ** At most one like per user and post *)

Definition likes_unique (d : Db) : Prop :=
  ∀ i j l l', likes d !! i = Some l → likes d !! j = Some l' →
    l_user_id l = l_user_id l' → l_post_id l = l_post_id l' → i = j.

Lemma has_liked_true d u p :
  has_liked d u p = true ↔ ∃ i l, likes d !! i = Some l ∧ l_user_id l = u ∧ l_post_id l = p.
Proof.
  unfold has_liked. rewrite exists_where_true. split.
  - intros (i & l & Hi & Hb). bool_to_prop. eauto.
  - intros (i & l & Hi & <- & <-). exists i, l. by rewrite !bool_decide_true.
Qed.

Lemma like_post_unique clk new_id u p : preserves likes_unique (like_post clk new_id u p).
Proof.
  intros d Hd. unfold like_post. run; try done. bool_to_prop.
  match goal with Hk : has_key _ _ = false, Hl : has_liked _ _ _ = false |- _ =>
    rename Hl into Hno; apply has_key_false in Hk end.
  assert (Hfree : ∀ i l, likes d !! i = Some l → l_user_id l = u → l_post_id l = p → False).
  { intros i l Hi Hu Hp. apply not_true_iff_false in Hno. apply Hno, has_liked_true. eauto. }
  intros i j l l'. simpl. rewrite !lookup_insert_Some.
  intros [[<- <-]|[? Hi]] [[<- <-]|[? Hj]] Hu Hp; simpl in *; try done.
  - exfalso. by eapply (Hfree j l').
  - exfalso. by eapply (Hfree i l).
  - by eapply Hd.
Qed.

Lemma unlike_post_unique u p : preserves likes_unique (unlike_post u p).
Proof.
  intros d Hd i j l l'. unfold unlike_post. unfold_m. simpl.
  rewrite !lookup_delete_where. intros [??] [??]. by eapply Hd.
Qed.

(** The number of likes a post shows. *)
Lemma like_count_insert d i l p :
  likes d !! i = None →
  like_count (set_likes (<[i := l]>) d) p = like_count d p + if decide (l_post_id l = p) then 1 else 0.
Proof.
  intros Hi. unfold like_count. simpl. rewrite count_where_insert_fresh by done.
  case_bool_decide; case_decide; done.
Qed.

(** A like counts once. If a user has not liked the post, [like_post] adds one
    to the number [get_post] shows and marks it as liked; a second like is
    refused and changes nothing; and [unlike_post] undoes the like exactly,
    giving back the database as it was. *)
Theorem like_unlike clk new_id u p d like d1 clk2 new_id2 :
  like_post clk new_id u p d = (Ok (Some like), d1) →
  liked_by d p u = false ∧
  like_count d1 p = like_count d p + 1 ∧ liked_by d1 p u = true ∧
  like_post clk2 new_id2 u p d1 = (Ok None, d1) ∧
  unlike_post u p d1 = (Ok true, d).
Proof.
  intros Hrun. assert (Hd1 : likes d !! new_id = None ∧ has_liked d u p = false ∧
    d1 = set_likes (<[new_id := mkLikeRow u p (db_now clk)]>) d).
  { unfold like_post in Hrun. run; bool_to_prop; simplify_eq.
    split_and!; try done. by apply has_key_false. }
  destruct Hd1 as (Hfree & Hno & ->).
  assert (Hone : has_liked (set_likes (<[new_id := mkLikeRow u p (db_now clk)]>) d) u p = true).
  { apply has_liked_true. exists new_id, (mkLikeRow u p (db_now clk)).
    simpl. by rewrite lookup_insert_eq. }
  assert (Hby : ∀ d, liked_by d p u = has_liked d u p)
    by (intros d0; apply exists_where_ext; intros; apply andb_comm).
  rewrite !Hby. split_and!; [done| |done| |].
  - rewrite like_count_insert by done. simpl. by rewrite decide_True.
  - unfold like_post. unfold_m. cbv beta. by rewrite Hone, orb_true_r.
  - unfold unlike_post. unfold_m. cbv beta. rewrite Hone. f_equal.
    unfold set_likes at 1. simpl. rewrite delete_where_insert_fresh; [by destruct d|done| |done].
    simpl. by rewrite !bool_decide_true.
Qed.

Lemma like_unlike_witness :
  let d := set_posts (λ _, {[ 20%N := mkPostRow 2 None Public 0 ]}) two_users in
  let d1 := snd (like_post (mkClock 1 1) 30 1 20 d) in
  liked_by d 20 1 = false ∧ like_count d1 20 = like_count d 20 + 1 ∧ liked_by d1 20 1 = true ∧
  like_post (mkClock 2 2) 31 1 20 d1 = (Ok None, d1) ∧ unlike_post 1 20 d1 = (Ok true, d).
Proof.
  apply (like_unlike (mkClock 1 1) 30 1 20
    (set_posts (λ _, {[ 20%N := mkPostRow 2 None Public 0 ]}) two_users)
    (mkLike 30 1 20 1)).
  vm_compute. reflexivity.
Defined.
