(* ===== verification/World.v ===== *)
(** * The stores of the service

    [World] is everything a request can change: the Postgres database, Redis, the
    SQS queue of media jobs and the S3 bucket. [on_db] and [on_redis] run an
    operation of one store inside it. *)

From S2P Require Import Prelude Sql Domain Schema Redis.
From stdpp Require Import options.

(** [MediaJob] of [src/jobs/media_processor.rs]. *)
Record MediaJob := mkMediaJob {
  job_upload_id : Uuid; job_owner_id : Uuid; job_original_key : string }.
Global Instance MediaJob_eq_dec : EqDecision MediaJob.
Proof. solve_decision. Defined.

(** An S3 object: its content type and its bytes. *)
Record Object := mkObject { obj_content_type : string; obj_data : string }.

Record World := mkWorld {
  w_db : Db;
  w_redis : Redis;
  w_queue : list MediaJob;   (* messages not yet deleted *)
  w_queue_up : bool;
  w_objects : gmap string Object;
  w_storage_up : bool }.

Definition set_w_db (d : Db) (w : World) : World :=
  mkWorld d (w_redis w) (w_queue w) (w_queue_up w) (w_objects w) (w_storage_up w).
Definition set_w_redis (r : Redis) (w : World) : World :=
  mkWorld (w_db w) r (w_queue w) (w_queue_up w) (w_objects w) (w_storage_up w).
Definition set_w_queue (q : list MediaJob) (w : World) : World :=
  mkWorld (w_db w) (w_redis w) q (w_queue_up w) (w_objects w) (w_storage_up w).
Definition set_w_objects (o : gmap string Object) (w : World) : World :=
  mkWorld (w_db w) (w_redis w) (w_queue w) (w_queue_up w) o (w_storage_up w).

Definition on_db {E A} (m : M Db E A) : M World E A := λ w,
  let '(r, d) := m (w_db w) in (r, set_w_db d w).
Definition on_redis {E A} (m : M Redis E A) : M World E A := λ w,
  let '(r, s) := m (w_redis w) in (r, set_w_redis s w).

(** [match m.await { Ok(x) => .., Err(err) => .. }]: the error as a value. *)
Definition try_ {S E E' A} (m : M S E A) : M S E' (Result E A) := λ s,
  let '(r, s') := m s in (Ok r, s').

Lemma set_w_db_id w : set_w_db (w_db w) w = w.
Proof. by destruct w. Qed.
Lemma set_w_redis_id w : set_w_redis (w_redis w) w = w.
Proof. by destruct w. Qed.
Lemma set_w_redis_twice r r' w : set_w_redis r' (set_w_redis r w) = set_w_redis r' w.
Proof. by destruct w. Qed.
