(* ===== verification/Feed.v ===== *)
(** * Home feed

    [FeedService] of [src/app/feed.rs]: fan-out on read with a cached first page.
    [serde_json] is the interface [FeedCodec]. *)

From S2P Require Import Prelude Text Sql Keyset Domain Schema Redis Social Posts World.
From stdpp Require Import options.

#[local] Open Scope Z_scope.

Definition FEED_CACHE_TTL_SECONDS : Z := 30.

Record CachedHomeFeed := mkCached {
  cached_posts : list Post; next_cursor_nanos : option Z; next_cursor_id : option Uuid }.

Abbreviation Page := (list Post * option Key)%type (only parsing).

(** [unix_timestamp_nanos] of an instant in microseconds. *)
Definition unix_timestamp_nanos (t : Time) : Z := t * 1000.

(** [from_unix_timestamp_nanos]: [None] outside the years -9999 to 9999. *)
Definition time_min : Z := seconds (-377705116800).
Definition time_max : Z := seconds 253402300799 + 999999.
Definition from_unix_timestamp_nanos (n : Z) : option Time :=
  let t := n / 1000 in
  if (time_min <=? t) && (t <=? time_max) then Some t else None.

Definition from_page (posts : list Post) (next_cursor : option Key) : CachedHomeFeed :=
  mkCached posts ((λ k : Key, unix_timestamp_nanos k.1) <$> next_cursor)
    ((λ k : Key, k.2) <$> next_cursor).

Definition into_page (c : CachedHomeFeed) : option Page :=
  match next_cursor_nanos c, next_cursor_id c with
  | Some nanos, Some id =>
      t ← from_unix_timestamp_nanos nanos; Some (cached_posts c, Some (t, id))
  | None, None => Some (cached_posts c, None)
  | _, _ => None
  end.

Class FeedCodec := {
  to_json : CachedHomeFeed → option string;
  from_json : string → option CachedHomeFeed }.

(** [serde_json] reads back what it wrote. *)
Class FeedCodecLaws `{FeedCodec} : Prop :=
  from_to_json c s : to_json c = Some s → from_json s = Some c.

Definition feed_key (user_id : Uuid) : string := "feed:home:" +:+ uuid_str user_id.

(** The [WHERE] clause: own posts, and those of followed accounts unless one of
    the two blocks the other. *)
Definition in_feed (d : Db) (user_id : Uuid) (p : PostRow) : bool :=
  bool_decide (p_owner_id p = user_id)
  || (follows_edge d user_id (p_owner_id p) && negb (blocked_pair d (p_owner_id p) user_id)).

Definition feed_rows (d : Db) (user_id : Uuid) : list Post :=
  select (λ k p, owner ← active_user d (p_owner_id p);
                 if in_feed d user_id p
                 then Some (post_of d k p owner (media_ids_of d k) None None) else None) (posts d).

(** The page read from the database: one row more than asked for, which becomes
    the next cursor. *)
Definition feed_page (d : Db) (user_id : Uuid) (cursor : option Key) (limit : Z) : Page :=
  page_of post_key limit (keyset post_key Desc cursor (limit + 1) (feed_rows d user_id)).

Section feed.
Context `{FeedCodec}.

(** The cache lookup: [None] on a miss, an unreadable entry, or a Redis error. *)
Definition cached_page (rnow : Time) (user_id : Uuid) : M World DbError (option Page) :=
  r ← try_ (on_redis (redis_get rnow (feed_key user_id)));
  mret (match r with
        | Ok (Some (RText payload)) => from_json payload ≫= into_page
        | _ => None
        end).

Definition store_page (rnow : Time) (user_id : Uuid) (page : Page) : M World DbError unit :=
  match to_json (from_page page.1 page.2) with
  | Some payload =>
      best_effort (on_redis (redis_set_ex rnow (feed_key user_id) (RText payload)
                               FEED_CACHE_TTL_SECONDS))
  | None => mret tt
  end.

Definition get_home_feed (rnow : Time) (user_id : Uuid) (cursor : option Key) (limit : Z) :
    M World DbError Page :=
  let should_cache := bool_decide (cursor = None) in
  hit ← (if should_cache then cached_page rnow user_id else mret None);
  match hit with
  | Some page => mret page
  | None =>
      page ← reads (λ w, feed_page (w_db w) user_id cursor limit);
      _ ← (if should_cache then store_page rnow user_id page else mret tt);
      mret page
  end.

Definition refresh_home_feed (user_id : Uuid) : M World DbError unit :=
  best_effort (on_redis (redis_del (feed_key user_id))).
End feed.

(** ** The rows of the feed *)

Lemma feed_rows_ids d u : NoDup (post_id <$> feed_rows d u).
Proof.
  apply select_NoDup. intros k p r.
  destruct (active_user d _); simpl; [|done]. case_match; naive_solver.
Qed.
Lemma feed_rows_keys d u : NoDup (post_key <$> feed_rows d u).
Proof. by eapply NoDup_keys; [|apply feed_rows_ids]. Qed.

Lemma elem_of_feed_rows d u x :
  x ∈ feed_rows d u ↔
  ∃ p owner, posts d !! post_id x = Some p ∧ active_user d (p_owner_id p) = Some owner ∧
    in_feed d u p = true ∧ x = post_of d (post_id x) p owner (media_ids_of d (post_id x)) None None.
Proof.
  unfold feed_rows. rewrite elem_of_select. split.
  - intros (k & p & Hk & Hf). destruct (active_user d (p_owner_id p)) as [owner|] eqn:Ho; [|done].
    simpl in Hf. destruct (in_feed d u p) eqn:Hi; [|done]. injection Hf as <-. simpl. eauto 6.
  - intros (p & owner & Hk & Ho & Hi & Hx). exists (post_id x), p. split; [done|].
    rewrite Ho. simpl. rewrite Hi. congruence.
Qed.

(** A page is cut out of the full feed. *)
Lemma feed_page_cut d u c n :
  let full := walk post_key Desc c (feed_rows d u) in
  feed_page d u c (Z.of_nat n) = (take n full, post_key <$> full !! n).
Proof.
  intros full. unfold feed_page.
  destruct (decide (length full ≤ n)%nat) as [Hle|Hgt].
  - rewrite page_of_last by done. fold full. rewrite take_ge, lookup_ge_None_2 by done. done.
  - destruct (lookup_lt_is_Some_2 full n) as [x Hx]; [lia|]. rewrite Hx.
    apply (page_of_more _ _ Desc c n (take n full) x (drop (S n) full)).
    + fold full. symmetry. by apply take_drop_middle.
    + rewrite length_take. lia.
Qed.

Section reading.
Context `{FeedCodec}.

(** No usable entry in the cache: Redis is down, or holds nothing live and
    readable under the user's key. *)
Definition cache_miss (rnow : Time) (u : Uuid) (w : World) : Prop :=
  fst (cached_page rnow u w) = Ok None.

Lemma cached_page_keeps rnow u w : snd (cached_page rnow u w) = w.
Proof.
  unfold cached_page, try_, on_redis, redis_get, connected. unfold_m. cbv beta.
  destruct (redis_up (w_redis w)); simpl; apply set_w_redis_id.
Qed.

Lemma cached_page_run rnow u w :
  cached_page rnow u w =
  (Ok (if redis_up (w_redis w)
       then match fst <$> live (store (w_redis w)) rnow (feed_key u) with
            | Some (RText payload) => from_json payload ≫= into_page
            | _ => None
            end
       else None), w).
Proof.
  rewrite (surjective_pairing (cached_page rnow u w)), cached_page_keeps. f_equal.
  unfold cached_page, try_, on_redis, redis_get, connected. unfold_m. cbv beta.
  by destruct (redis_up (w_redis w)).
Qed.

Lemma store_page_db rnow u page w : w_db (snd (store_page rnow u page w)) = w_db w.
Proof.
  unfold store_page. destruct (to_json _); [|done].
  unfold best_effort, on_redis. by destruct (redis_set_ex _ _ _ _ _).
Qed.

(** Past the first page the cache is not consulted; without an entry the page
    comes from the database. *)
Lemma get_home_feed_db rnow u c limit w :
  (c = None → cache_miss rnow u w) →
  fst (get_home_feed rnow u c limit w) = Ok (feed_page (w_db w) u c limit) ∧
  w_db (snd (get_home_feed rnow u c limit w)) = w_db w.
Proof.
  intros Hmiss. unfold get_home_feed. destruct c as [k|]; [done|].
  specialize (Hmiss eq_refl). unfold cache_miss in Hmiss.
  rewrite bool_decide_true by done. unfold_m. cbv beta.
  rewrite cached_page_run in Hmiss |- *. cbn [fst] in Hmiss. injection Hmiss as ->.
  cbv beta iota. pose proof (store_page_db rnow u (feed_page (w_db w) u None limit) w) as Hs.
  destruct (store_page rnow u _ w) as [[]w'] eqn:Hst; simpl in *; [done|].
  exfalso. unfold store_page, best_effort in Hst. by destruct (to_json _).
Qed.

(** With an entry the page comes from the cache. *)
Lemma get_home_feed_hit rnow u limit page w :
  fst (cached_page rnow u w) = Ok (Some page) → get_home_feed rnow u None limit w = (Ok page, w).
Proof.
  intros Hhit. unfold get_home_feed. rewrite bool_decide_true by done. unfold_m. cbv beta.
  rewrite cached_page_run in Hhit |- *. cbn [fst] in Hhit. by injection Hhit as ->.
Qed.

(** C29: what the home feed shows. A page that is not the first, or a first page with no
    usable entry in the cache, is read from the database and cut out of the full feed:
    newest first, each post once, exactly the posts after the cursor that belong to the
    reader or to somebody the reader follows and whose account is not deleted; every one
    of them is a post [get_post] shows the reader, and the cursor handed out is the key
    of the first post left out. A first page that is in the cache is handed out as it
    was stored, whatever the limit asked for and whatever the database says by then, and
    nothing changes. *)
Theorem home_feed_exact rnow u c n w :
  (social_inv (w_db w) → (c = None → cache_miss rnow u w) →
   ∃ full, fst (get_home_feed rnow u c (Z.of_nat n) w)
           = Ok (take n full, post_key <$> full !! n) ∧
     StronglySorted (λ x y, precedes Desc (post_key x) (post_key y)) full ∧
     (∀ x, x ∈ full ↔
        after_cursor post_key Desc c x = true ∧
        (post_owner_id x = u ∨ follows_edge (w_db w) u (post_owner_id x) = true) ∧
        ∃ y, get_post (post_id x) (Some u) (w_db w) = (Ok (Some y), w_db w) ∧ x = without_counts y)) ∧
  (∀ page, c = None → fst (cached_page rnow u w) = Ok (Some page) →
   get_home_feed rnow u c (Z.of_nat n) w = (Ok page, w)).
Proof.
  split; [|intros page -> Hhit; by apply get_home_feed_hit].
  intros Hsoc Hmiss. exists (walk post_key Desc c (feed_rows (w_db w) u)). split_and!.
  - rewrite (proj1 (get_home_feed_db rnow u c (Z.of_nat n) w Hmiss)). by rewrite feed_page_cut.
  - apply walk_strict, feed_rows_keys.
  - intros x. rewrite elem_of_walk, (and_comm (x ∈ _)). apply and_iff_compat_l.
    set (d := w_db w) in *. rewrite elem_of_feed_rows. unfold get_post, reads, in_feed. split.
    + intros (p & owner & Hk & Ho & Hi & Hx). rewrite Hk. cbn [mbind option_bind].
      rewrite Ho. cbn [mbind option_bind].
      assert (Hown : post_owner_id x = p_owner_id p) by (by rewrite Hx). rewrite Hown.
      apply orb_true_iff in Hi.
      assert (Hv : visible_to d (Some u) p = true).
      { unfold visible_to. destruct Hi as [Hi%bool_decide_eq_true|Hi].
        - rewrite Hi, (bool_decide_true (u = u)) by done. rewrite orb_true_r. simpl.
          unfold blocked_pair. by rewrite !(inv_no_self_block _ Hsoc).
        - apply andb_true_iff in Hi as [Hf Hb]. rewrite Hf, Hb, !andb_true_r.
          destruct (p_visibility p); simpl; [done|]. by rewrite orb_true_r. }
      rewrite Hv. split.
      { destruct Hi as [Hi%bool_decide_eq_true|[Hf _]%andb_true_iff]; [by left|by right]. }
      eexists. split; [done|]. by rewrite Hx at 1.
    + intros (Hrel & y & Hy & Hx).
      destruct (posts d !! post_id x) as [p|] eqn:Hk; cbn [mbind option_bind] in Hy; [|done].
      destruct (active_user d (p_owner_id p)) as [owner|] eqn:Ho;
        cbn [mbind option_bind] in Hy; [|done].
      destruct (visible_to d (Some u) p) eqn:Hv; [|done]. injection Hy as <-.
      assert (Hown : post_owner_id x = p_owner_id p) by (by rewrite Hx). rewrite Hown in Hrel.
      exists p, owner. split_and!; try done. apply orb_true_iff.
      destruct Hrel as [Hrel|Hrel]; [left; by apply bool_decide_eq_true|right].
      rewrite Hrel. simpl. rewrite blocked_pair_sym. apply negb_true_iff.
      by apply (inv_no_edge_when_blocked _ Hsoc).
Qed.

(** ** Walking through the feed *)

(** A client that asks for the next page until there is no cursor left. *)
Fixpoint browse_feed (fuel : nat) (rnow : Time) (u : Uuid) (c : option Key) (limit : Z) (w : World) :
    list Post :=
  match fuel with
  | O => []
  | S fuel' =>
      match get_home_feed rnow u c limit w with
      | (Ok (items, next), w') =>
          items ++ match next with
                   | None => []
                   | Some k => browse_feed fuel' rnow u (Some k) limit w'
                   end
      | (Err _, _) => []
      end
  end.

Lemma browse_feed_browse fuel rnow u c limit w :
  (c = None → cache_miss rnow u w) →
  browse_feed fuel rnow u c limit w = browse post_key fuel Desc limit c (feed_rows (w_db w) u).
Proof.
  revert c w. induction fuel as [|fuel IH]; intros c w Hmiss; [done|]. simpl.
  destruct (get_home_feed_db rnow u c limit w Hmiss) as [Hr Hd].
  destruct (get_home_feed rnow u c limit w) as [o w']. simpl in Hr, Hd. subst o.
  unfold feed_page. destruct (page_of post_key limit _) as [items [k|]]; [|done].
  f_equal. rewrite IH by done. by rewrite Hd.
Qed.

(** A client that follows the cursors through an unchanging feed never sees
    every post of it: the post at position [i] of the feed is delivered exactly
    when [i mod (n + 1)] is not [n], since each page's surplus post becomes the
    cursor and the next page starts behind it. *)
Theorem feed_pagination_skips rnow u n w fuel i x :
  let full := walk post_key Desc None (feed_rows (w_db w) u) in
  cache_miss rnow u w → (length full < fuel)%nat → full !! i = Some x →
  x ∈ browse_feed fuel rnow u None (Z.of_nat n) w ↔ (i mod (S n) ≠ n)%nat.
Proof.
  intros full Hmiss Hf Hi. rewrite browse_feed_browse by done.
  rewrite browse_drop_every by (try done; apply feed_rows_keys).
  apply drop_every_lookup; [|done].
  eapply NoDup_fmap_1, walk_keys, feed_rows_keys.
Qed.

(** ** The cache *)

Definition representable (page : Page) : Prop :=
  ∀ k, page.2 = Some k → time_min ≤ k.1 ≤ time_max.

Lemma into_from_page page : representable page → into_page (from_page page.1 page.2) = Some page.
Proof.
  destruct page as [ps [[t id]|]]; intros Hr; [|done]. unfold into_page, from_page. simpl.
  unfold from_unix_timestamp_nanos, unix_timestamp_nanos. rewrite Z.div_mul by done.
  destruct (Hr (t, id) eq_refl) as [H1 H2]. simpl in *.
  by rewrite (proj2 (Z.leb_le _ _) H1), (proj2 (Z.leb_le _ _) H2).
Qed.

(** The cached first page. When the page could be stored, every request for
    the first page in the next 30 seconds is answered with it, even if the
    database has changed and even if it asks for another number of posts;
    afterwards, or after [refresh_home_feed], the page is read afresh. *)
Theorem feed_cache_serves_page `{!FeedCodecLaws} rnow u n w page payload w1 rnow' n' d' :
  redis_up (w_redis w) = true → cache_miss rnow u w →
  get_home_feed rnow u None n w = (Ok page, w1) →
  to_json (from_page page.1 page.2) = Some payload → representable page →
  let later := set_w_db d' w1 in
  (rnow' < rnow + seconds 30 → get_home_feed rnow' u None n' later = (Ok page, later)) ∧
  (rnow + seconds 30 ≤ rnow' →
     fst (get_home_feed rnow' u None n' later) = Ok (feed_page d' u None n')) ∧
  fst (get_home_feed rnow' u None n' (snd (refresh_home_feed u later))) = Ok (feed_page d' u None n').
Proof using All.
  intros Hup Hmiss Hrun Hj Hrep later.
  assert (Hw1 : w_redis w1 = set_store (<[feed_key u := (RText payload, Some (rnow + seconds 30))]>)
                               (w_redis w)).
  { unfold get_home_feed in Hrun. rewrite bool_decide_true in Hrun by done.
    unfold_m. rewrite cached_page_run in *. unfold cache_miss in Hmiss.
    rewrite cached_page_run in Hmiss. simpl in Hmiss. injection Hmiss as Hm.
    rewrite Hm in Hrun. cbv beta iota in Hrun. unfold store_page in Hrun.
    destruct (to_json (from_page (feed_page (w_db w) u None n).1 _)) as [pl|] eqn:Hp.
    - unfold best_effort, on_redis, redis_set_ex, connected in Hrun. unfold_m.
      rewrite Hup in Hrun. simpl in Hrun. injection Hrun as <- <-. simpl.
      rewrite Hj in Hp. by injection Hp as ->.
    - injection Hrun as <- <-. congruence. }
  assert (Hlive : live (store (w_redis later)) rnow' (feed_key u)
                  = if decide (rnow + seconds 30 ≤ rnow') then None
                    else Some (RText payload, Some (rnow + seconds 30))).
  { unfold live, later. simpl. rewrite Hw1. simpl. by rewrite lookup_insert_eq. }
  assert (Hup1 : redis_up (w_redis later) = true) by (unfold later; simpl; by rewrite Hw1).
  split_and!.
  - intros Hlt. unfold get_home_feed. rewrite bool_decide_true by done. unfold_m. cbv beta.
    rewrite cached_page_run, Hup1, Hlive, decide_False by lia. simpl.
    rewrite (from_to_json _ _ Hj). simpl. by rewrite into_from_page.
  - intros Hge. apply (get_home_feed_db rnow' u None n' later). intros _.
    unfold cache_miss. rewrite cached_page_run, Hup1, Hlive, decide_True by done. done.
  - set (fresh := snd (refresh_home_feed u later)).
    assert (Hfresh : fresh = set_w_redis (set_store (delete (feed_key u)) (w_redis later)) later).
    { unfold fresh, refresh_home_feed, best_effort, on_redis, redis_del, connected.
      unfold_m. by rewrite Hup1. }
    rewrite Hfresh. apply (get_home_feed_db rnow' u None n'). intros _.
    unfold cache_miss. rewrite cached_page_run. simpl. unfold live. rewrite lookup_delete_eq.
    by destruct (redis_up (w_redis w1)).
Qed.
End reading.

(** ** Concrete runs *)

Global Instance Media_eq_dec : EqDecision Media.
Proof. solve_decision. Defined.
Global Instance Post_eq_dec : EqDecision Post.
Proof. solve_decision. Defined.
Global Instance CachedHomeFeed_eq_dec : EqDecision CachedHomeFeed.
Proof. solve_decision. Defined.

(** Three posts of user 2, whom user 1 follows. *)
Definition feed_db : Db :=
  set_posts (λ _, {[ 20%N := mkPostRow 2 None Public 10; 21%N := mkPostRow 2 None FollowersOnly 20;
                     22%N := mkPostRow 2 None Public 30 ]})
  (set_follows (λ _, {[ (1%N, 2%N) := 5 ]}) two_users).
Definition feed_world : World := mkWorld feed_db (mkRedis true ∅) [] true ∅ true.
Definition feed_post (id : Uuid) (t : Time) (v : PostVisibility) : Post :=
  mkPost id 2 (Some "bob") (Some "Bob") [] None None t v None None None None None.
Definition first_page : Page := ([feed_post 22 30 Public], Some (20, 21%N)).

(** A codec that knows one page. *)
Definition one_page_codec : FeedCodec := {|
  to_json c := if decide (c = from_page first_page.1 first_page.2) then Some "page" else None;
  from_json s := if decide (s = "page") then Some (from_page first_page.1 first_page.2) else None |}.
Lemma one_page_laws : @FeedCodecLaws one_page_codec.
Proof. intros c s. simpl. case_decide; [|done]. intros [= <-]. by subst. Qed.

Lemma social_inv_feed_db : social_inv feed_db.
Proof.
  split.
  - intros a b _. unfold blocked_pair, has_key. simpl. by rewrite !lookup_empty.
  - intros a. apply has_key_false. simpl. apply lookup_singleton_None. congruence.
  - done.
  - intros u. unfold follower_count. simpl. rewrite <-insert_empty, count_where_insert_fresh by done.
    rewrite count_where_empty. unfold MAX_FOLLOWERS. case_bool_decide; lia.
Qed.

Lemma home_feed_exact_witness :
  (∃ full, fst (@get_home_feed one_page_codec 0 1 None (Z.of_nat 1) feed_world)
           = Ok (take 1 full, post_key <$> full !! 1%nat) ∧
     StronglySorted (λ x y, precedes Desc (post_key x) (post_key y)) full ∧
     (∀ x, x ∈ full ↔
        after_cursor post_key Desc None x = true ∧
        (post_owner_id x = 1%N ∨ follows_edge (w_db feed_world) 1 (post_owner_id x) = true) ∧
        ∃ y, get_post (post_id x) (Some 1%N) (w_db feed_world) = (Ok (Some y), w_db feed_world) ∧
             x = without_counts y)) ∧
  let w1 := snd (@get_home_feed one_page_codec 0 1 None 1 feed_world) in
  @get_home_feed one_page_codec (seconds 10) 1 None (Z.of_nat 50) w1 = (Ok first_page, w1).
Proof.
  split.
  - destruct (@home_feed_exact one_page_codec 0 1 None 1 feed_world) as [Hmiss _]. apply Hmiss.
    + apply social_inv_feed_db.
    + intros _. vm_compute. reflexivity.
  - intros w1. destruct (@home_feed_exact one_page_codec (seconds 10) 1 None 50 w1) as [_ Hhit]. apply Hhit.
    + reflexivity.
    + vm_compute. reflexivity.
Defined.

Lemma feed_pagination_skips_witness :
  feed_post 21 20 FollowersOnly ∈ @browse_feed one_page_codec 9 0 1 None (Z.of_nat 1) feed_world
  ↔ (1 mod 2 ≠ 1)%nat.
Proof.
  apply (@feed_pagination_skips one_page_codec 0 1 1 feed_world 9 1).
  - vm_compute. reflexivity.
  - apply Nat.ltb_lt. vm_compute. reflexivity.
  - vm_compute. reflexivity.
Defined.

Lemma feed_cache_serves_page_witness :
  let w1 := snd (@get_home_feed one_page_codec 0 1 None 1 feed_world) in
  let later := set_w_db two_users w1 in
  (seconds 10 < 0 + seconds 30 →
     @get_home_feed one_page_codec (seconds 10) 1 None 50 later = (Ok first_page, later)) ∧
  (0 + seconds 30 ≤ seconds 10 →
     fst (@get_home_feed one_page_codec (seconds 10) 1 None 50 later)
     = Ok (feed_page two_users 1 None 50)) ∧
  fst (@get_home_feed one_page_codec (seconds 10) 1 None 50 (snd (refresh_home_feed 1 later)))
  = Ok (feed_page two_users 1 None 50).
Proof.
  apply (@feed_cache_serves_page one_page_codec one_page_laws 0 1 1 feed_world first_page "page"
    (snd (@get_home_feed one_page_codec 0 1 None 1 feed_world)) (seconds 10) 50 two_users).
  - reflexivity.
  - vm_compute. reflexivity.
  - vm_compute. reflexivity.
  - vm_compute. reflexivity.
  - intros k [= <-]. unfold time_min, time_max, seconds. simpl. lia.
Defined.
