(* ===== verification/FeedRaces.v ===== *)
(** * The feed cache under concurrent requests

    [get_home_feed] ([src/app/feed.rs]) looks into the cache, queries the database and
    stores the page as three separate commands, and the invalidation of a feed
    ([refresh_home_feed], called by [invalidate_viewer_feeds] of [src/http/handlers.rs])
    is one more. This file interleaves these commands freely, with time passing and the
    database changing in between: a page is never served later than 30 seconds after it
    was stored, but a page that was computed before an invalidation and stored after it
    survives the invalidation. *)

From S2P Require Import Prelude Text Sql Keyset Domain Schema Redis Social Posts World Feed.
From stdpp Require Import options.

#[local] Open Scope Z_scope.

(** A request for the first page: before the lookup, after a miss, after the query. *)
Inductive Reader :=
| Asked (u : Uuid) (limit : Z)
| Missed (u : Uuid) (limit : Z)
| Computed (u : Uuid) (limit : Z) (at_ : Time) (d : Db).

Record Served := mkServed { sv_user : Uuid; sv_page : Page; sv_at : Time }.

(** The stores, the clock, the requests under way, the pages served, and every state
    of the database with the instants at which it was current. *)
Record FeedPool := mkFeedPool {
  fp_world : World; fp_clock : Time; fp_readers : gmap N Reader;
  fp_served : list Served; fp_timeline : list (Time * Db) }.

Inductive FeedMove :=
| Ask (i : N) (u : Uuid) (limit : Z)
| LookUp (i : N)
| QueryDb (i : N)
| Store (i : N)
| HangUp (i : N)                        (* the client hangs up *)
| WriteDb (f : Db → Db)                (* any other request commits *)
| Invalidate (u : Uuid)
| Evict (k : string)                   (* Redis drops an entry *)
| Switch (up : bool)                   (* Redis goes down or comes back *)
| Tick (dt : Z).

Section moves.
Context `{FeedCodec}.
(** The longest a request may take from its query to its [SETEX]. *)
Context (D : Z).

Definition set_world (w : World) (p : FeedPool) : FeedPool :=
  mkFeedPool w (fp_clock p) (fp_readers p) (fp_served p) ((fp_clock p, w_db w) :: fp_timeline p).
Definition set_reader (i : N) (r : Reader) (p : FeedPool) : FeedPool :=
  mkFeedPool (fp_world p) (fp_clock p) (<[i := r]> (fp_readers p)) (fp_served p) (fp_timeline p).
Definition answer (i : N) (u : Uuid) (page : Page) (p : FeedPool) : FeedPool :=
  mkFeedPool (fp_world p) (fp_clock p) (delete i (fp_readers p)) (mkServed u page (fp_clock p) :: fp_served p) (fp_timeline p).

Definition feed_move (m : FeedMove) (p : FeedPool) : option FeedPool :=
  match m with
  | Ask i u limit => match fp_readers p !! i with None => Some (set_reader i (Asked u limit) p) | Some _ => None end
  | LookUp i =>
      match fp_readers p !! i with
      | Some (Asked u limit) =>
          match fst (cached_page (fp_clock p) u (fp_world p)) with
          | Ok (Some page) => Some (answer i u page p)
          | _ => Some (set_reader i (Missed u limit) p)
          end
      | _ => None
      end
  | QueryDb i =>
      match fp_readers p !! i with
      | Some (Missed u limit) => Some (set_reader i (Computed u limit (fp_clock p) (w_db (fp_world p))) p)
      | _ => None
      end
  | Store i =>
      match fp_readers p !! i with
      | Some (Computed u limit t d) =>
          let page := feed_page d u None limit in
          if fp_clock p <=? t + D
          then Some (answer i u page (set_world (snd (store_page (fp_clock p) u page (fp_world p))) p))
          else None
      | _ => None
      end
  | HangUp i => Some (mkFeedPool (fp_world p) (fp_clock p) (delete i (fp_readers p)) (fp_served p) (fp_timeline p))
  | WriteDb f => Some (set_world (set_w_db (f (w_db (fp_world p))) (fp_world p)) p)
  | Invalidate u => Some (set_world (snd (refresh_home_feed u (fp_world p))) p)
  | Evict k => Some (set_world (set_w_redis (set_store (delete k) (w_redis (fp_world p))) (fp_world p)) p)
  | Switch up => Some (set_world (set_w_redis (mkRedis up (store (w_redis (fp_world p)))) (fp_world p)) p)
  | Tick dt =>
      if 0 <=? dt
      then Some (mkFeedPool (fp_world p) (fp_clock p + dt) (fp_readers p) (fp_served p)
                   ((fp_clock p + dt, w_db (fp_world p)) :: fp_timeline p))
      else None
  end.
Fixpoint feed_moves (ms : list FeedMove) (p : FeedPool) : option FeedPool :=
  match ms with [] => Some p | m :: ms' => p' ← feed_move m p; feed_moves ms' p' end.

Definition quiet_pool (now : Time) (w : World) : FeedPool := mkFeedPool w now ∅ [] [(now, w_db w)].
End moves.

(** ** How old a page can be *)

Lemma into_from_page_inj page page' : into_page (from_page page.1 page.2) = Some page' → page' = page.
Proof.
  destruct page as [ps [[t id]|]]; unfold into_page, from_page, from_unix_timestamp_nanos, unix_timestamp_nanos; simpl; [|by intros [= <-]].
  rewrite Z.div_mul by done. case_match; [|done]. by intros [= <-].
Qed.
Lemma feed_key_inj u v : valid_uuid u → valid_uuid v → feed_key u = feed_key v → u = v.
Proof. intros Hu Hv He. unfold feed_key in He. apply (inj (String.append _)) in He. by apply uuid_str_inj. Qed.

Section staleness.
Context `{FeedCodecLaws} (D : Z).

(** [page] is what the database held for [u] at [t]. *)
Definition true_at (p : FeedPool) (u : Uuid) (page : Page) (t : Time) : Prop :=
  ∃ d limit, (t, d) ∈ fp_timeline p ∧ page = feed_page d u None limit.

Record feed_inv (p : FeedPool) : Prop := {
  fi_now : (fp_clock p, w_db (fp_world p)) ∈ fp_timeline p;
  fi_reader i r : fp_readers p !! i = Some r →
    match r with
    | Asked u _ | Missed u _ => valid_uuid u
    | Computed u _ t d => valid_uuid u ∧ (t, d) ∈ fp_timeline p ∧ t ≤ fp_clock p
    end;
  fi_entry u v e : valid_uuid u → store (w_redis (fp_world p)) !! feed_key u = Some (v, e) →
    ∃ t page payload, true_at p u page t ∧ v = RText payload ∧ from_json payload = Some (from_page page.1 page.2) ∧
      ∃ x, e = Some x ∧ x ≤ t + D + seconds FEED_CACHE_TTL_SECONDS;
  fi_served s : s ∈ fp_served p → ∃ t, true_at p (sv_user s) (sv_page s) t ∧ sv_at s ≤ t + D + seconds FEED_CACHE_TTL_SECONDS }.

(** The timeline only grows. *)
Lemma true_at_grows p p' u page t : fp_timeline p ⊆ fp_timeline p' → true_at p u page t → true_at p' u page t.
Proof. intros Hs (d & limit & Hin & ->). exists d, limit. split; [by apply Hs|done]. Qed.

(** Moves that keep the cache, the readers and the served pages, or lose some. *)
Lemma feed_inv_shrink p p' :
  feed_inv p → fp_timeline p ⊆ fp_timeline p' → (fp_clock p', w_db (fp_world p')) ∈ fp_timeline p' →
  fp_clock p ≤ fp_clock p' → fp_served p' = fp_served p →
  (∀ i r, fp_readers p' !! i = Some r → fp_readers p !! i = Some r) →
  (∀ k x, store (w_redis (fp_world p')) !! k = Some x → store (w_redis (fp_world p)) !! k = Some x) → feed_inv p'.
Proof.
  intros [Hn Hr He Hs] Ht Hnow Hc Hserved Hreaders Hstore. split; [done| | |].
  - intros i r Hi%Hreaders%Hr. destruct r as [| |u l t d]; [done|done|]. destruct Hi as (? & ? & ?). split_and!; [done|by apply Ht|lia].
  - intros u v e Hu Hk%Hstore. destruct (He u v e Hu Hk) as (t & page & payload & H1 & Hrest).
    exists t, page, payload. split; [by eapply true_at_grows|done].
  - intros s. rewrite Hserved. intros (t & H1 & H2)%Hs. exists t. split; [by eapply true_at_grows|done].
Qed.
Lemma feed_inv_set_reader p i r :
  feed_inv p →
  match r with Asked u _ | Missed u _ => valid_uuid u
  | Computed u _ t d => valid_uuid u ∧ (t, d) ∈ fp_timeline p ∧ t ≤ fp_clock p end →
  feed_inv (set_reader i r p).
Proof.
  intros [Hn Hr He Hs] Hok. split; [done| |done|done]. simpl. intros j r' [[<- <-]|[_ Hj]]%lookup_insert_Some; [done|by eapply Hr].
Qed.
Lemma feed_inv_answer p i u page t :
  feed_inv p → true_at p u page t → fp_clock p ≤ t + D + seconds FEED_CACHE_TTL_SECONDS → feed_inv (answer i u page p).
Proof.
  intros [Hn Hr He Hs] Ht Hc. split; [done| |done|].
  - simpl. intros j r [_ Hj]%lookup_delete_Some. by eapply Hr.
  - intros s [->|Hin]%elem_of_cons; [by exists t|by apply Hs].
Qed.

(** Storing a page that was computed at [t]. *)
Lemma feed_inv_store p u d limit t :
  feed_inv p → valid_uuid u → (t, d) ∈ fp_timeline p → fp_clock p ≤ t + D →
  let page := feed_page d u None limit in
  feed_inv (set_world (snd (store_page (fp_clock p) u page (fp_world p))) p).
Proof using All.
  intros Hp Hu Ht Hc page.
  assert (Hdb : w_db (snd (store_page (fp_clock p) u page (fp_world p))) = w_db (fp_world p)) by apply store_page_db.
  assert (Hcases : store (w_redis (snd (store_page (fp_clock p) u page (fp_world p)))) = store (w_redis (fp_world p)) ∨
    ∃ payload, to_json (from_page page.1 page.2) = Some payload ∧
      store (w_redis (snd (store_page (fp_clock p) u page (fp_world p))))
      = <[feed_key u := (RText payload, Some (fp_clock p + seconds FEED_CACHE_TTL_SECONDS))]> (store (w_redis (fp_world p)))).
  { unfold store_page. destruct (to_json _) as [payload|]; [|by left].
    unfold best_effort, on_redis, redis_set_ex, connected. unfold_m. cbn.
    destruct (redis_up (w_redis (fp_world p))); cbn; [right; by exists payload|by left]. }
  set (p' := set_world _ p). assert (Hgrow : fp_timeline p ⊆ fp_timeline p') by (intros x Hx; by right).
  assert (Hin : true_at p' u page t) by (exists d, limit; split; [by apply Hgrow|done]).
  destruct Hcases as [Hsame|(payload & Hj & Hput)].
  { eapply feed_inv_shrink; [exact Hp|done|left|done|done|done|]. simpl. by rewrite Hsame. }
  destruct Hp as [Hn Hr He Hs]. split; [left| | |].
  - intros i r Hi%Hr. destruct r as [| |v l t' d']; [done|done|]. destruct Hi as (? & ? & ?). split_and!; [done|by apply Hgrow|done].
  - intros v x e Hv. unfold p'. cbn [fp_world set_world]. rewrite Hput. intros [[Hk [= <- <-]]|[_ Hk]]%lookup_insert_Some.
    + apply feed_key_inj in Hk as <-; [|done..]. exists t, page, payload. split_and!; [done|done|by apply from_to_json|].
      eexists. split; [done|lia].
    + destruct (He v x e Hv Hk) as (t' & page' & payload' & H1 & Hrest). exists t', page', payload'.
      split; [by eapply true_at_grows|done].
  - intros s' (t' & H1 & H2)%Hs. exists t'. split; [by eapply true_at_grows|done].
Qed.

Lemma cached_page_true p u page :
  feed_inv p → valid_uuid u → fst (cached_page (fp_clock p) u (fp_world p)) = Ok (Some page) →
  ∃ t, true_at p u page t ∧ fp_clock p ≤ t + D + seconds FEED_CACHE_TTL_SECONDS.
Proof.
  intros Hp Hu. rewrite cached_page_run. simpl. destruct (redis_up _); [|done]. unfold live.
  destruct (store (w_redis (fp_world p)) !! feed_key u) as [[v e]|] eqn:Hk; [|done].
  destruct (fi_entry _ Hp u v e Hu Hk) as (t & page0 & payload & Ht & -> & Hj & x & -> & Hx).
  case_decide as Hlive; [done|]. simpl. rewrite Hj. simpl. intros [= Hi]. apply into_from_page_inj in Hi as ->.
  exists t. split; [done|lia].
Qed.

Lemma feed_move_inv m p p' :
  (∀ i u l, m = Ask i u l → valid_uuid u) → 0 ≤ D → feed_inv p → feed_move D m p = Some p' → feed_inv p'.
Proof using All.
  intros Hask HD Hp. destruct m as [i u l|i|i|i|i|f|u|k|up|dt]; simpl.
  - destruct (fp_readers p !! i); [done|]. intros [= <-]. apply feed_inv_set_reader; [done|by eapply Hask].
  - destruct (fp_readers p !! i) as [[u l| |]|] eqn:Hi; try done. pose proof (fi_reader _ Hp _ _ Hi) as Hu. simpl in Hu.
    destruct (fst (cached_page (fp_clock p) u (fp_world p))) as [[page|]|] eqn:Hc; intros [= <-]; try by apply feed_inv_set_reader.
    destruct (cached_page_true _ _ _ Hp Hu Hc) as (t & Ht & Hle). by eapply feed_inv_answer.
  - destruct (fp_readers p !! i) as [[|u l|]|] eqn:Hi; try done. pose proof (fi_reader _ Hp _ _ Hi) as Hu. simpl in Hu.
    intros [= <-]. apply feed_inv_set_reader; [done|]. split; [done|]. split; [apply (fi_now _ Hp)|lia].
  - destruct (fp_readers p !! i) as [[| |u l t d]|] eqn:Hi; try done. destruct (fi_reader _ Hp _ _ Hi) as (Hu & Hin & Hle).
    destruct (Z.leb_spec (fp_clock p) (t + D)) as [Hc|]; [|done]. intros [= <-].
    apply (feed_inv_answer _ _ _ _ t); [by apply (feed_inv_store p u d l t)| |].
    + exists d, l. split; [by right|done].
    + unfold FEED_CACHE_TTL_SECONDS, seconds. simpl. lia.
  - intros [= <-]. eapply feed_inv_shrink; [exact Hp|done|apply (fi_now _ Hp)|done|done| |done].
    simpl. intros j r [_ Hj]%lookup_delete_Some. done.
  - intros [= <-]. eapply feed_inv_shrink; [exact Hp|by right|left|done|done|done|done].
  - intros [= <-]. eapply feed_inv_shrink; [exact Hp|by right|left|done|done|done|]. simpl.
    unfold refresh_home_feed, best_effort, on_redis, redis_del, connected. unfold_m. cbn.
    destruct (redis_up (w_redis (fp_world p))); cbn; [|done]. by intros k x [_ ?]%lookup_delete_Some.
  - intros [= <-]. eapply feed_inv_shrink; [exact Hp|by right|left|done|done|done|]. simpl. by intros k' x [_ ?]%lookup_delete_Some.
  - intros [= <-]. eapply feed_inv_shrink; [exact Hp|by right|left|done|done|done|done].
  - destruct (Z.leb_spec 0 dt); [|done]. intros [= <-].
    eapply feed_inv_shrink; [exact Hp|by right|left|simpl; lia|done|done|done].
Qed.

(** C23: how stale a cached feed can be. However lookups, queries, stores,
    invalidations, expiries, outages of Redis and changes of the database interleave,
    every first page served to [u] is the page the database held for [u] at some
    instant, and that instant is at most [D] and 30 seconds before it is served, where
    [D] is the longest a request takes from its query to its [SETEX]. *)
Theorem feed_staleness_bounded ms now w p :
  0 ≤ D → (∀ u, valid_uuid u → store (w_redis w) !! feed_key u = None) →
  (∀ i u l, Ask i u l ∈ ms → valid_uuid u) →
  feed_moves D ms (quiet_pool now w) = Some p →
  ∀ s, s ∈ fp_served p → ∃ t d limit,
    (t, d) ∈ fp_timeline p ∧ sv_page s = feed_page d (sv_user s) None limit ∧
    sv_at s ≤ t + D + seconds 30.
Proof using All.
  intros HD Hempty Hask Hrun.
  assert (Hp : feed_inv p).
  { assert (H1 : feed_inv (quiet_pool now w)).
    { split; simpl; [left|by intros i r ?%lookup_empty_Some| |by intros s ?%elem_of_nil].
      intros u v e Hu. by rewrite Hempty. }
    revert Hask Hrun H1. generalize (quiet_pool now w). induction ms as [|m ms IH]; intros q Hask; simpl; [by intros [= ->]|].
    destruct (feed_move D m q) as [q'|] eqn:Hm; simpl; [|done]. intros Hrun Hq.
    apply (IH q'); [|done|].
    - intros i u l Hin. apply (Hask i u l). by right.
    - eapply feed_move_inv; [|done..]. intros i u l ->. apply (Hask i u l). left. }
  intros s Hs. destruct (fi_served _ Hp s Hs) as (t & (d & limit & Hin & He) & Hle). by exists t, d, limit.
Qed.
End staleness.

(** The three commands of a request, one after the other, are [get_home_feed]. *)
Definition feed_request (u : Uuid) (limit : Z) (hit : bool) : list FeedMove :=
  [Ask 1 u limit; LookUp 1] ++ (if hit then [] else [QueryDb 1; Store 1]).
Lemma feed_steps_alone `{FeedCodec} D now u limit w :
  0 ≤ D →
  ∃ hit p page, feed_moves D (feed_request u limit hit) (quiet_pool now w) = Some p ∧
    fp_served p = [mkServed u page now] ∧ get_home_feed now u None limit w = (Ok page, fp_world p).
Proof.
  intros HD. unfold get_home_feed. rewrite bool_decide_true by done. unfold_m. cbv beta.
  pose proof (cached_page_keeps now u w) as Hk. destruct (cached_page now u w) as [[o|e] w1] eqn:Hc; simpl in Hk; subst w1.
  2: { by rewrite cached_page_run in Hc. }
  destruct o as [page|].
  - exists true. unfold feed_request. simpl. rewrite lookup_empty. simpl. rewrite lookup_insert_eq, Hc. simpl. by eexists _, page.
  - exists false. unfold feed_request. simpl. rewrite lookup_empty. simpl. rewrite lookup_insert_eq, Hc. simpl.
    rewrite lookup_insert_eq. simpl. rewrite lookup_insert_eq, (proj2 (Z.leb_le _ _)) by lia. simpl.
    eexists _, _. split; [done|]. split; [done|]. simpl. unfold store_page. by destruct (to_json _).
Qed.

(** ** An invalidation that is overtaken *)

(** User 1 reads the feed; between the query and the store user 2 blocks user 1, and
    the handler of the block drops the cached feeds of both. *)
Definition block_meets_read : list FeedMove :=
  [Ask 1 1 1; LookUp 1; QueryDb 1;
   WriteDb (λ d, snd (block (mkClock 1 1) 2 1 d)); Invalidate 2; Invalidate 1;
   Store 1; Ask 2 1 1; LookUp 2].
Definition after_feed (ms : list FeedMove) : FeedPool :=
  default (quiet_pool 0 feed_world) (@feed_moves one_page_codec 0 ms (quiet_pool 0 feed_world)).

(** The read after an invalidation need not reflect the change. The run above is
    possible without any time passing: the second read of user 1, asked after the block
    and after the invalidation, is served the post of the blocker from the cache, while
    the database holds an empty feed. *)
Theorem invalidation_overtaken :
  let p := after_feed block_meets_read in
  @feed_moves one_page_codec 0 block_meets_read (quiet_pool 0 feed_world) ≠ None ∧
  fp_served p = [mkServed 1 first_page 0; mkServed 1 first_page 0] ∧
  blocked_pair (w_db (fp_world p)) 1 2 = true ∧
  feed_page (w_db (fp_world p)) 1 None 1 = ([], None).
Proof. vm_compute. split_and!; (reflexivity || discriminate). Qed.

(** ** Concrete runs *)

Lemma feed_staleness_bounded_witness :
  let p := after_feed block_meets_read in
  length (fp_served p) = 2%nat ∧
  Forall (λ s, ∃ t d limit,
    (t, d) ∈ fp_timeline p ∧ sv_page s = feed_page d (sv_user s) None limit ∧ sv_at s ≤ t + 0 + seconds 30) (fp_served p).
Proof.
  intros p. split; [by vm_compute|]. apply Forall_forall.
  apply (@feed_staleness_bounded one_page_codec one_page_laws 0 block_meets_read 0 feed_world p).
  - done.
  - done.
  - intros i u l Hin.
    assert (Hall : Forall (λ m, match m with Ask _ u _ => valid_uuid u | _ => True end) block_meets_read).
    { unfold block_meets_read, valid_uuid. repeat constructor. }
    rewrite Forall_forall in Hall. by specialize (Hall _ Hin).
  - unfold p, after_feed. destruct (feed_moves _ _ _) eqn:Hs; [done|]. by vm_compute in Hs.
Defined.
