(* ===== verification/Stories.v ===== *)
(** * Stories

    [StoryService] of [src/app/stories.rs]: stories that expire, their views and
    reactions with the counters kept on the story row, highlights, and the cached
    stories feed. Each CTE statement is one atomic step; what it writes stays
    written when its final join finds no row. *)

From S2P Require Import Prelude Text Sql Keyset Domain Schema Redis Social World.
From stdpp Require Import options.

#[local] Open Scope Z_scope.

Inductive StoryError :=
| MediaNotFound
| StoryMediaNotOwned
| StoryNotFound
| StoryUnknownVisibility (v : string)
| StoryDb (e : DbError).

Definition STORY_TTL_HOURS : Z := 24.
Definition STORIES_FEED_CACHE_TTL : Z := 60.

Definition get_story_owner (story_id : Uuid) : M Db StoryError (option Uuid) :=
  reads (λ d, s_user_id <$> stories d !! story_id).

Definition row_to_story (id : Uuid) (s : StoryRow) (u : UserRow) : Story :=
  mkStory id (s_user_id s) (Some (u_handle u)) (Some (u_display_name u)) (u_avatar_key u) None
    (s_media_id s) None (s_caption s) (s_created_at s) (s_expires_at s) (s_visibility s)
    (s_view_count s) (s_reaction_count s).

Definition create_story (clk : Clock) (new_id user_id media_id : Uuid) (caption : option string)
    (visibility : StoryVisibility) : M Db StoryError Story :=
  d ← get_db;
  _ ← match m_owner_id <$> media d !! media_id with
      | Some owner => if bool_decide (owner = user_id) then mret tt else throw StoryMediaNotOwned
      | None => throw MediaNotFound
      end;
  let expires_at := app_now clk + seconds (STORY_TTL_HOURS * 3600) in
  let row := mkStoryRow user_id media_id caption (db_now clk) expires_at visibility 0 0 in
  _ ← guard_else (negb (has_key new_id (stories d))) (StoryDb (UniqueViolation "stories_pkey"));
  _ ← guard_else (user_exists d user_id) (StoryDb (ForeignKeyViolation "stories_user_id_fkey"));
  _ ← modifies (set_stories (<[new_id := row]>));
  ok_or (row_to_story new_id row <$> active_user d user_id) (StoryDb RowNotFound).

(** The two follow edges "friends" and "close friends" both ask for. *)
Definition mutual (d : Db) (a b : Uuid) : bool := follows_edge d a b && follows_edge d b a.

(** The visibility clause of [get_story] and [get_user_stories]. *)
Definition story_visible (now : Time) (d : Db) (viewer : Uuid) (s : StoryRow) : bool :=
  (now <? s_expires_at s)
  && negb (blocked_pair d (s_user_id s) viewer)
  && (bool_decide (s_visibility s = StoryPublic)
      || bool_decide (s_user_id s = viewer)
      || ((bool_decide (s_visibility s = FriendsOnly)
           || bool_decide (s_visibility s = CloseFriendsOnly))
          && mutual d viewer (s_user_id s))).

(** The clause of the feed: followed accounts, without the "own story" case. *)
Definition story_in_feed (now : Time) (d : Db) (viewer : Uuid) (s : StoryRow) : bool :=
  (now <? s_expires_at s)
  && follows_edge d viewer (s_user_id s)
  && negb (blocked_pair d (s_user_id s) viewer)
  && (bool_decide (s_visibility s = StoryPublic)
      || ((bool_decide (s_visibility s = FriendsOnly)
           || bool_decide (s_visibility s = CloseFriendsOnly))
          && mutual d viewer (s_user_id s))).

(** Rows of a story query with their author, when not deleted. *)
Definition story_rows (P : StoryRow → bool) (d : Db) : list Story :=
  select (λ k s, if P s then row_to_story k s <$> active_user d (s_user_id s) else None) (stories d).

Definition story_key (s : Story) : Key := (story_created_at s, story_id s).

Definition get_user_stories (clk : Clock) (user_id viewer_id : Uuid) (cursor : option Key)
    (limit : Z) : M Db StoryError (list Story) :=
  reads (λ d, keyset story_key Asc cursor limit
    (story_rows (λ s, bool_decide (s_user_id s = user_id)
                      && story_visible (app_now clk) d viewer_id s) d)).

Definition get_story (clk : Clock) (story_id viewer_id : Uuid) : M Db StoryError (option Story) :=
  reads (λ d, s ← stories d !! story_id;
              if story_visible (app_now clk) d viewer_id s
              then row_to_story story_id s <$> active_user d (s_user_id s) else None).

Definition delete_story (story_id user_id : Uuid) : M Db StoryError bool :=
  d ← get_db;
  match stories d !! story_id with
  | Some s =>
      if bool_decide (s_user_id s = user_id)
      then _ ← modifies (delete_story_rows (λ k _, bool_decide (k = story_id))); mret true
      else mret false
  | None => mret false
  end.

Definition with_view_count (n : Z) (s : StoryRow) : StoryRow :=
  mkStoryRow (s_user_id s) (s_media_id s) (s_caption s) (s_created_at s) (s_expires_at s)
    (s_visibility s) n (s_reaction_count s).
Definition with_reaction_count (n : Z) (s : StoryRow) : StoryRow :=
  mkStoryRow (s_user_id s) (s_media_id s) (s_caption s) (s_created_at s) (s_expires_at s)
    (s_visibility s) (s_view_count s) n.

Definition mark_seen (clk : Clock) (story_id viewer_id : Uuid) : M Db StoryError bool :=
  d ← get_db;
  if has_key (story_id, viewer_id) (story_views d) then mret false
  else
    s ← ok_or (stories d !! story_id) (StoryDb (ForeignKeyViolation "story_views_story_id_fkey"));
    n ← map_err StoryDb (int4 (s_view_count s + 1));
    _ ← guard_else (user_exists d viewer_id)
          (StoryDb (ForeignKeyViolation "story_views_viewer_id_fkey"));
    _ ← modifies (set_story_views (<[(story_id, viewer_id) := db_now clk]>));
    _ ← modifies (set_stories (<[story_id := with_view_count n s]>));
    mret true.

Definition reaction_of (story_id user_id : Uuid) (r : ReactionRow) (u : UserRow) : StoryReaction :=
  mkStoryReaction (sr_id r) story_id user_id (Some (u_handle u)) (sr_emoji r) (sr_created_at r).

Definition add_reaction (clk : Clock) (new_id story_id user_id : Uuid) (emoji : string) :
    M Db StoryError StoryReaction :=
  d ← get_db;
  _ ← guard_else (Nat.leb (char_count emoji) 10) (StoryDb StringTooLong);
  r ← match story_reactions d !! (story_id, user_id) with
      | Some old =>
          let r := mkReactionRow (sr_id old) emoji (sr_created_at old) in
          _ ← modifies (set_story_reactions (<[(story_id, user_id) := r]>));
          mret r
      | None =>
          let r := mkReactionRow new_id emoji (db_now clk) in
          _ ← guard_else (negb (exists_where (λ _ x, bool_decide (sr_id x = new_id))
                                  (story_reactions d)))
                (StoryDb (UniqueViolation "story_reactions_pkey"));
          s ← ok_or (stories d !! story_id)
                (StoryDb (ForeignKeyViolation "story_reactions_story_id_fkey"));
          n ← map_err StoryDb (int4 (s_reaction_count s + 1));
          _ ← guard_else (user_exists d user_id)
                (StoryDb (ForeignKeyViolation "story_reactions_user_id_fkey"));
          _ ← modifies (set_story_reactions (<[(story_id, user_id) := r]>));
          _ ← modifies (set_stories (<[story_id := with_reaction_count n s]>));
          mret r
      end;
  ok_or (reaction_of story_id user_id r <$> active_user d user_id) (StoryDb RowNotFound).

Definition remove_reaction (story_id user_id : Uuid) : M Db StoryError bool :=
  d ← get_db;
  match story_reactions d !! (story_id, user_id) with
  | None => mret false
  | Some _ =>
      _ ← modifies (set_story_reactions (delete (story_id, user_id)));
      match stories d !! story_id with
      | Some s =>
          _ ← modifies (set_stories
                (<[story_id := with_reaction_count (Z.max (s_reaction_count s - 1) 0) s]>));
          mret true
      | None => mret false
      end
  end.

Definition reactions_on (d : Db) (story_id : Uuid) : list StoryReaction :=
  select (λ k r, if decide (k.1 = story_id)
                 then reaction_of k.1 k.2 r <$> active_user d k.2 else None) (story_reactions d).
Definition reaction_key (r : StoryReaction) : Key := (reaction_created_at r, reaction_id r).

Definition list_reactions (story_id : Uuid) (cursor : option Key) (limit : Z) :
    M Db StoryError (list StoryReaction) :=
  reads (λ d, keyset reaction_key Desc cursor limit (reactions_on d story_id)).

Definition views_on (d : Db) (story_id : Uuid) : list StoryView :=
  select (λ k t, if decide (k.1 = story_id)
                 then (λ u, mkStoryView k.2 (Some (u_handle u)) (Some (u_display_name u))
                              (u_avatar_key u) None t) <$> active_user d k.2
                 else None) (story_views d).
Definition view_key (v : StoryView) : Key := (view_viewed_at v, view_viewer_id v).

Definition list_viewers (story_id : Uuid) (cursor : option Key) (limit : Z) :
    M Db StoryError (list StoryView) :=
  reads (λ d, keyset view_key Desc cursor limit (views_on d story_id)).

(** [GROUP BY emoji ORDER BY count DESC]. *)
Definition emoji_counts (d : Db) (story_id : Uuid) : list EmojiCount :=
  let emojis := remove_dups (select (λ k r, if decide (k.1 = story_id) then Some (sr_emoji r)
                                            else None) (story_reactions d)) in
  order_by (λ e, (emoji_count e, 0%N)) Desc
    ((λ e, mkEmojiCount e (count_where
        (λ k r, bool_decide (k.1 = story_id) && bool_decide (sr_emoji r = e))
        (story_reactions d))) <$> emojis).

(** [ORDER BY viewed_at DESC LIMIT 200]. *)
Definition recent_viewers (d : Db) (story_id : Uuid) : list Uuid :=
  take 200 (order_by (λ p : Z * N, (p.1, 0%N)) Desc
    (select (λ k t, if decide (k.1 = story_id) then Some (t, k.2) else None) (story_views d))).*2.

Definition get_metrics (story_id user_id : Uuid) : M Db StoryError (option StoryMetrics) :=
  reads (λ d,
    s ← stories d !! story_id;
    if decide (s_user_id s = user_id)
    then Some (mkStoryMetrics story_id (s_view_count s) (s_reaction_count s)
                 (emoji_counts d story_id) (recent_viewers d story_id))
    else None).

Definition highlight_of (id : Uuid) (h : HighlightRow) : StoryHighlight :=
  mkStoryHighlight id (h_user_id h) (h_name h) (h_cover_story_id h) (h_created_at h) (h_updated_at h).

(** The highlight the UNIQUE (user_id, name) finds. *)
Definition find_highlight (d : Db) (user_id : Uuid) (name : string) : option (Uuid * HighlightRow) :=
  head (select (λ k h, if decide (h_user_id h = user_id ∧ h_name h = name) then Some (k, h) else None)
          (story_highlights d)).

(** [COALESCE(MAX(position) + 1, 0)]. *)
Definition next_position (d : Db) (highlight_id : Uuid) : Z :=
  match select (λ k p, if decide (k.1 = highlight_id) then Some p else None)
          (story_highlight_items d) with
  | [] => 0
  | p :: ps => foldr Z.max p ps + 1
  end.

(** Two statements, each committed on its own. *)
Definition add_to_highlight (clk : Clock) (new_id user_id story_id : Uuid) (highlight_name : string) :
    M Db StoryError StoryHighlight :=
  d ← get_db;
  _ ← match s_user_id <$> stories d !! story_id with
      | Some owner => if bool_decide (owner = user_id) then mret tt else throw StoryNotFound
      | None => throw StoryNotFound
      end;
  _ ← guard_else (Nat.leb (char_count highlight_name) 50) (StoryDb StringTooLong);
  hl ← match find_highlight d user_id highlight_name with
       | Some (hid, h) =>
           let h' := mkHighlightRow (h_user_id h) (h_name h)
                       (match h_cover_story_id h with Some c => Some c | None => Some story_id end)
                       (h_created_at h) (db_now clk) in
           _ ← modifies (set_story_highlights (<[hid := h']>)); mret (hid, h')
       | None =>
           let h' := mkHighlightRow user_id highlight_name (Some story_id) (db_now clk) (db_now clk) in
           _ ← guard_else (negb (has_key new_id (story_highlights d)))
                 (StoryDb (UniqueViolation "story_highlights_pkey"));
           _ ← guard_else (user_exists d user_id)
                 (StoryDb (ForeignKeyViolation "story_highlights_user_id_fkey"));
           _ ← modifies (set_story_highlights (<[new_id := h']>)); mret (new_id, h')
       end;
  d1 ← get_db;
  position ← map_err StoryDb (int4 (next_position d1 hl.1));
  _ ← (if has_key (hl.1, story_id) (story_highlight_items d1) then mret tt
       else modifies (set_story_highlight_items (<[(hl.1, story_id) := position]>)));
  mret (highlight_of hl.1 hl.2).

Definition highlights_of (d : Db) (user_id : Uuid) : list StoryHighlight :=
  select (λ k h, if decide (h_user_id h = user_id) then Some (highlight_of k h) else None)
    (story_highlights d).
Definition highlight_key (h : StoryHighlight) : Key := (highlight_created_at h, highlight_id h).

Definition get_user_highlights (user_id : Uuid) (cursor : option Key) (limit : Z) :
    M Db StoryError (list StoryHighlight) :=
  reads (λ d, keyset highlight_key Asc cursor limit (highlights_of d user_id)).

(** ** The cached feed *)

Class StoriesCodec := {
  stories_to_json : list Story → option string;
  stories_from_json : string → option (list Story) }.

Definition stories_feed_key (user_id : Uuid) (limit : Z) : string :=
  "feed:stories:" +:+ uuid_str user_id +:+ ":" +:+ pretty limit.

(** The part before the [*] of the invalidation pattern. *)
Definition stories_feed_prefix (user_id : Uuid) : string :=
  "feed:stories:" +:+ uuid_str user_id +:+ ":".

Definition stories_page (now : Time) (d : Db) (user_id : Uuid) (cursor : option Key) (limit : Z) :
    list Story :=
  keyset story_key Desc cursor limit (story_rows (story_in_feed now d user_id) d).

Section stories_feed.
Context `{StoriesCodec}.

Definition get_stories_feed (clk : Clock) (rnow : Time) (user_id : Uuid) (cursor : option Key)
    (limit : Z) : M World StoryError (list Story) :=
  let should_cache := bool_decide (cursor = None) in
  let key := stories_feed_key user_id limit in
  hit ← (if should_cache
         then r ← try_ (on_redis (redis_get rnow key));
              mret (match r with
                    | Ok (Some (RText payload)) => stories_from_json payload
                    | _ => None
                    end)
         else mret None);
  match hit with
  | Some stories => mret stories
  | None =>
      page ← reads (λ w, stories_page (app_now clk) (w_db w) user_id cursor limit);
      _ ← (if should_cache
           then match stories_to_json page with
                | Some payload =>
                    best_effort (on_redis (redis_set_ex rnow key (RText payload)
                                             STORIES_FEED_CACHE_TTL))
                | None => mret tt
                end
           else mret tt);
      mret page
  end.

(** The pattern is the prefix and [*]; [replies] are the server's [SCAN] replies. *)
Definition invalidate_stories_feed {E} (replies : list (list string)) (user_id : Uuid) :
    M World E unit :=
  best_effort (on_redis (delete_pattern replies)).
End stories_feed.

(** ** The counters on the story row *)

Definition views_count (d : Db) (id : Uuid) : Z :=
  count_where (λ k _, bool_decide (k.1 = id)) (story_views d).
Definition reactions_count (d : Db) (id : Uuid) : Z :=
  count_where (λ k _, bool_decide (k.1 = id)) (story_reactions d).

(** The denormalised counters agree with the rows, and no view or reaction
    outlives its story. *)
Record story_inv (d : Db) : Prop := {
  inv_views id s : stories d !! id = Some s → s_view_count s = views_count d id;
  inv_reactions id s : stories d !! id = Some s → s_reaction_count s = reactions_count d id;
  inv_views_fk k t : story_views d !! k = Some t → has_key k.1 (stories d) = true;
  inv_reactions_fk k r : story_reactions d !! k = Some r → has_key k.1 (stories d) = true }.

Lemma has_key_insert_mono {K V} `{Countable K} (k k' : K) (v : V) (m : gmap K V) :
  has_key k m = true → has_key k (<[k' := v]> m) = true.
Proof.
  rewrite !has_key_true. intros [x Hx]. destruct (decide (k = k')) as [->|Hne].
  - rewrite lookup_insert_eq. eauto.
  - rewrite lookup_insert_ne by done. eauto.
Qed.
Lemma has_key_insert_eq {K V} `{Countable K} (k : K) (v : V) (m : gmap K V) :
  has_key k (<[k := v]> m) = true.
Proof. apply has_key_true. rewrite lookup_insert_eq. eauto. Qed.

Lemma story_inv_new d id s :
  story_inv d → stories d !! id = None → s_view_count s = 0 → s_reaction_count s = 0 →
  story_inv (set_stories (<[id := s]>) d).
Proof.
  intros [H1 H2 H3 H4] Hid Hv Hr.
  assert (Hno : ∀ k : Uuid * Uuid, has_key k.1 (stories d) = true → k.1 ≠ id)
    by (intros k Hk He; rewrite He in Hk; apply has_key_true in Hk as [? ?]; congruence).
  split; simpl.
  - intros i x. rewrite lookup_insert_Some. intros [[<- <-]|[_ Hx]]; [|by apply H1].
    rewrite Hv. symmetry. apply count_where_zero. intros k t Hk%H3.
    by apply bool_decide_eq_false, Hno.
  - intros i x. rewrite lookup_insert_Some. intros [[<- <-]|[_ Hx]]; [|by apply H2].
    rewrite Hr. symmetry. apply count_where_zero. intros k t Hk%H4.
    by apply bool_decide_eq_false, Hno.
  - intros k t Hk. eapply has_key_insert_mono, H3, Hk.
  - intros k t Hk. eapply has_key_insert_mono, H4, Hk.
Qed.

Lemma story_inv_view d id v t s :
  story_inv d → stories d !! id = Some s → story_views d !! (id, v) = None →
  story_inv (set_stories (<[id := with_view_count (s_view_count s + 1) s]>)
               (set_story_views (<[(id, v) := t]>) d)).
Proof.
  intros [H1 H2 H3 H4] Hs Hv. split; simpl.
  - intros i x. unfold views_count. simpl. rewrite count_where_insert_fresh by done. simpl.
    rewrite lookup_insert_Some. intros [[<- <-]|[Hne Hx]].
    + simpl. rewrite bool_decide_true by done. rewrite (H1 _ _ Hs). done.
    + rewrite bool_decide_false, Z.add_0_r by done. by apply H1.
  - intros i x. rewrite lookup_insert_Some. intros [[<- <-]|[_ Hx]]; [exact (H2 _ _ Hs)|by apply H2].
  - intros k t'. rewrite lookup_insert_Some. intros [[<- _]|[_ Hk]].
    + apply has_key_insert_eq.
    + eapply has_key_insert_mono, H3, Hk.
  - intros k r Hk. eapply has_key_insert_mono, H4, Hk.
Qed.

Lemma story_inv_reaction_new d id u r s :
  story_inv d → stories d !! id = Some s → story_reactions d !! (id, u) = None →
  story_inv (set_stories (<[id := with_reaction_count (s_reaction_count s + 1) s]>)
               (set_story_reactions (<[(id, u) := r]>) d)).
Proof.
  intros [H1 H2 H3 H4] Hs Hv. split; simpl.
  - intros i x. rewrite lookup_insert_Some. intros [[<- <-]|[_ Hx]]; [exact (H1 _ _ Hs)|by apply H1].
  - intros i x. unfold reactions_count. simpl. rewrite count_where_insert_fresh by done. simpl.
    rewrite lookup_insert_Some. intros [[<- <-]|[Hne Hx]].
    + simpl. rewrite bool_decide_true by done. rewrite (H2 _ _ Hs). done.
    + rewrite bool_decide_false, Z.add_0_r by done. by apply H2.
  - intros k t Hk. eapply has_key_insert_mono, H3, Hk.
  - intros k r'. rewrite lookup_insert_Some. intros [[<- _]|[_ Hk]].
    + apply has_key_insert_eq.
    + eapply has_key_insert_mono, H4, Hk.
Qed.

Lemma story_inv_reaction_same d id u r r' :
  story_inv d → story_reactions d !! (id, u) = Some r →
  story_inv (set_story_reactions (<[(id, u) := r']>) d).
Proof.
  intros [H1 H2 H3 H4] Hr. split; simpl; [done| |done|].
  - intros i x Hx. unfold reactions_count. simpl.
    rewrite (count_where_insert_same _ _ _ r) by done. by apply H2.
  - intros k y. rewrite lookup_insert_Some. intros [[<- _]|[_ Hk]]; [|by eapply H4].
    by eapply (H4 _ _ Hr).
Qed.

Lemma story_inv_reaction_gone d id u r s :
  story_inv d → stories d !! id = Some s → story_reactions d !! (id, u) = Some r →
  story_inv (set_stories (<[id := with_reaction_count (Z.max (s_reaction_count s - 1) 0) s]>)
               (set_story_reactions (delete (id, u)) d)).
Proof.
  intros [H1 H2 H3 H4] Hs Hr.
  assert (Hc : ∀ i, count_where (λ k _, bool_decide (k.1 = i)) (delete (id, u) (story_reactions d))
                    = reactions_count d i - if bool_decide (id = i) then 1 else 0)
    by (intros i; by rewrite (count_where_delete _ _ _ _ Hr)).
  split; simpl.
  - intros i x. rewrite lookup_insert_Some. intros [[<- <-]|[_ Hx]]; [exact (H1 _ _ Hs)|by apply H1].
  - intros i x. unfold reactions_count. simpl. rewrite Hc, lookup_insert_Some.
    intros [[<- <-]|[Hne Hx]].
    + simpl. rewrite bool_decide_true, (H2 _ _ Hs) by done. specialize (Hc id).
      rewrite bool_decide_true in Hc by done.
      pose proof (count_where_nonneg (λ k _, bool_decide (k.1 = id))
        (delete (id, u) (story_reactions d))). lia.
    + rewrite bool_decide_false by done. rewrite (H2 _ _ Hx). lia.
  - intros k t Hk. eapply has_key_insert_mono, H3, Hk.
  - intros k y. rewrite lookup_delete_Some. intros [_ Hk]. eapply has_key_insert_mono, H4, Hk.
Qed.

(** Deleting stories, one or many, with the cascades. *)
Lemma story_inv_delete P d : story_inv d → story_inv (delete_story_rows P d).
Proof.
  intros [H1 H2 H3 H4]. unfold delete_story_rows.
  set (gone := λ id, match stories d !! id with Some s => P id s | None => false end).
  assert (Hkeep : ∀ id s, delete_where P (stories d) !! id = Some s →
                          stories d !! id = Some s ∧ gone id = false).
  { intros id s [Hs HP]%lookup_delete_where. unfold gone. by rewrite Hs. }
  assert (Hstay : ∀ id, has_key id (stories d) = true → gone id = false →
                        has_key id (delete_where P (stories d)) = true).
  { intros id [s Hs]%has_key_true Hg. unfold gone in Hg. rewrite Hs in Hg.
    apply has_key_true. exists s. by apply lookup_delete_where. }
  split; simpl; fold gone.
  - intros id s [Hs Hg]%Hkeep. rewrite (H1 _ _ Hs). unfold views_count. simpl.
    symmetry. apply count_where_delete_where. intros k v _ Hgk.
    apply bool_decide_eq_false. intros He. change (gone k.1 = true) in Hgk. congruence.
  - intros id s [Hs Hg]%Hkeep. rewrite (H2 _ _ Hs). unfold reactions_count. simpl.
    symmetry. apply count_where_delete_where. intros k v _ Hgk.
    apply bool_decide_eq_false. intros He. change (gone k.1 = true) in Hgk. congruence.
  - intros k t [Hk Hg]%lookup_delete_where. apply Hstay; [by eapply H3|done].
  - intros k r [Hk Hg]%lookup_delete_where. apply Hstay; [by eapply H4|done].
Qed.

(** One request that writes stories, views or reactions. *)
Inductive story_step : Db → Db → Prop :=
| step_create clk i u m c v d : story_step d (snd (create_story clk i u m c v d))
| step_delete i u d : story_step d (snd (delete_story i u d))
| step_seen clk i u d : story_step d (snd (mark_seen clk i u d))
| step_react clk n i u e d : story_step d (snd (add_reaction clk n i u e d))
| step_unreact i u d : story_step d (snd (remove_reaction i u d)).

Lemma story_step_inv d d' : story_step d d' → story_inv d → story_inv d'.
Proof.
  intros [clk i u m c v d0|i u d0|clk i u d0|clk n i u e d0|i u d0] Hd.
  - unfold create_story. run; bool_to_prop; try done; apply story_inv_new; try done;
      by apply has_key_false.
  - unfold delete_story. run; try done. by apply story_inv_delete.
  - unfold mark_seen, int4. run; bool_to_prop; try done.
    apply story_inv_view; try done. by apply has_key_false.
  - unfold add_reaction, int4. run; bool_to_prop; try done;
      first [by eapply story_inv_reaction_same | by apply story_inv_reaction_new].
  - unfold remove_reaction. run; bool_to_prop; try done.
    + by eapply story_inv_reaction_gone.
    + exfalso. match goal with H : story_reactions _ !! _ = Some _ |- _ =>
        apply (inv_reactions_fk _ Hd) in H; apply has_key_true in H as [? ?] end.
      simpl in *. congruence.
Qed.

(** On every database reachable from one that satisfies it, through any
    sequence of story, view and reaction requests, the counters a story shows are
    the number of its view rows and of its reaction rows; the [GREATEST] in
    [remove_reaction] never has to clamp. *)
Theorem story_counters_exact d d' :
  rtc story_step d d' → story_inv d → story_inv d'.
Proof. induction 1; eauto using story_step_inv. Qed.

(** ** Visibility *)

Lemma story_rows_ids P d : NoDup (story_id <$> story_rows P d).
Proof.
  apply select_NoDup. intros k s r. destruct (P s); [|done].
  destruct (active_user d _); simpl; naive_solver.
Qed.
Lemma story_rows_keys P d : NoDup (story_key <$> story_rows P d).
Proof. by eapply NoDup_keys; [|apply story_rows_ids]. Qed.

Lemma elem_of_story_rows P d x :
  x ∈ story_rows P d ↔
  ∃ s u, stories d !! story_id x = Some s ∧ P s = true ∧ active_user d (s_user_id s) = Some u ∧
         x = row_to_story (story_id x) s u.
Proof.
  unfold story_rows. rewrite elem_of_select. split.
  - intros (k & s & Hk & Hf). destruct (P s) eqn:HP; [|done].
    destruct (active_user d (s_user_id s)) as [u|] eqn:Hu; [|done]. injection Hf as <-. simpl. eauto 6.
  - intros (s & u & Hk & HP & Hu & Hx). exists (story_id x), s. split; [done|].
    rewrite HP, Hu. simpl. congruence.
Qed.

Lemma get_story_Some clk i v d x :
  fst (get_story clk i v d) = Ok (Some x) ↔
  ∃ s u, stories d !! i = Some s ∧ story_visible (app_now clk) d v s = true ∧
         active_user d (s_user_id s) = Some u ∧ x = row_to_story i s u.
Proof.
  unfold get_story, reads. cbn [fst]. split.
  - intros Hx. destruct (stories d !! i) as [s|]; simpl in Hx; [|done].
    destruct (story_visible _ _ _ _) eqn:Hv; [|done].
    destruct (active_user d (s_user_id s)) as [u|] eqn:Hu; simpl in Hx; [|done]. naive_solver.
  - intros (s & u & -> & Hv & Hu & ->). cbn [mbind option_bind]. by rewrite Hv, Hu.
Qed.

(** The feed's clause is the general one for followed accounts: nobody follows
    themselves. *)
Lemma story_in_feed_visible now d v s :
  social_inv d →
  story_in_feed now d v s = follows_edge d v (s_user_id s) && story_visible now d v s.
Proof.
  intros Hsoc. unfold story_in_feed, story_visible.
  destruct (follows_edge d v (s_user_id s)) eqn:Hf.
  - rewrite (bool_decide_false (s_user_id s = v)).
    + by rewrite orb_false_r, andb_true_r.
    + intros He. rewrite He in Hf. by rewrite (inv_no_self_follow _ Hsoc) in Hf.
  - by rewrite andb_false_r.
Qed.

(** The listings show what [get_story] shows. A page of a user's stories is a
    prefix of the full list of that user's stories which [get_story] would show
    the viewer now, oldest first; a page of the stories feed read from the
    database is a prefix of the list, newest first, of those by accounts the
    viewer follows. *)
Theorem story_listings_exact clk u viewer c n d :
  (∃ full, fst (get_user_stories clk u viewer c n d) = Ok (take (Z.to_nat n) full) ∧
     StronglySorted (λ x y, precedes Asc (story_key x) (story_key y)) full ∧
     ∀ x, x ∈ full ↔ story_user_id x = u ∧ after_cursor story_key Asc c x = true ∧
                     fst (get_story clk (story_id x) viewer d) = Ok (Some x)) ∧
  (social_inv d →
   ∃ full, stories_page (app_now clk) d viewer c n = take (Z.to_nat n) full ∧
     StronglySorted (λ x y, precedes Desc (story_key x) (story_key y)) full ∧
     ∀ x, x ∈ full ↔ follows_edge d viewer (story_user_id x) = true ∧
                     after_cursor story_key Desc c x = true ∧
                     fst (get_story clk (story_id x) viewer d) = Ok (Some x)).
Proof.
  split.
  - eexists (walk story_key Asc c (story_rows _ d)). split_and!; [done| |].
    { apply walk_strict, story_rows_keys. }
    intros x. rewrite elem_of_walk, elem_of_story_rows, get_story_Some. split.
    + intros [(s & o & Hs & HP & Hu & Hx) Hc]. bool_to_prop. split_and!; [|done|eauto 7].
      by rewrite Hx.
    + intros (Hu & Hc & s & o & Hs & Hv & Ho & Hx). split; [|done].
      exists s, o. split_and!; try done. rewrite Hv, andb_true_r.
      apply bool_decide_eq_true. rewrite <-Hu. by rewrite Hx.
  - intros Hsoc. eexists (walk story_key Desc c (story_rows _ d)). split_and!; [done| |].
    { apply walk_strict, story_rows_keys. }
    intros x. rewrite elem_of_walk, elem_of_story_rows, get_story_Some. split.
    + intros [(s & o & Hs & HP & Hu & Hx) Hc]. rewrite story_in_feed_visible in HP by done.
      bool_to_prop. assert (Hown : story_user_id x = s_user_id s) by (by rewrite Hx).
      rewrite Hown. eauto 9.
    + intros (Hf & Hc & s & o & Hs & Hv & Ho & Hx). split; [|done].
      exists s, o. split_and!; try done. rewrite story_in_feed_visible by done.
      assert (Hown : story_user_id x = s_user_id s) by (by rewrite Hx). rewrite Hown in Hf.
      by rewrite Hf, Hv.
Qed.

Lemma story_listings_exact_witness :
  let d := set_stories (λ _, {[ 40%N := mkStoryRow 2 7 None 10 100 StoryPublic 0 0 ]})
             (set_follows (λ _, {[ (1%N, 2%N) := 5 ]}) two_users) in
  fst (get_user_stories (mkClock 20 20) 2 1 None 5 d)
    = Ok [mkStory 40 2 (Some "bob") (Some "Bob") None None 7 None None 10 100 StoryPublic 0 0] ∧
  (∃ full, fst (get_user_stories (mkClock 20 20) 2 1 None 5 d) = Ok (take (Z.to_nat 5) full) ∧
     StronglySorted (λ x y, precedes Asc (story_key x) (story_key y)) full ∧
     ∀ x, x ∈ full ↔ story_user_id x = 2%N ∧ after_cursor story_key Asc None x = true ∧
                     fst (get_story (mkClock 20 20) (story_id x) 1 d) = Ok (Some x)).
Proof. split; [vm_compute; reflexivity|]. apply story_listings_exact. Defined.

(** ** Highlights *)

(** The items of a highlight have different positions. *)
Definition positions_distinct (d : Db) : Prop :=
  ∀ h s s' p, story_highlight_items d !! (h, s) = Some p →
              story_highlight_items d !! (h, s') = Some p → s = s'.

Lemma foldr_max_ge p ps q : q ∈ p :: ps → q ≤ foldr Z.max p ps.
Proof. induction ps as [|x ps IH]; simpl; rewrite !elem_of_cons in *; [set_solver by lia|].
  intros [->|[->|Hq]]; [|lia|]; [pose proof (IH ltac:(left; done)); lia|].
  pose proof (IH ltac:(by right)). lia. Qed.

(** The appended position is above every position in use. *)
Lemma next_position_above d h s p :
  story_highlight_items d !! (h, s) = Some p → p < next_position d h.
Proof.
  intros Hp. unfold next_position.
  assert (Hin : p ∈ select (λ k p, if decide (k.1 = h) then Some p else None)
                      (story_highlight_items d)).
  { apply elem_of_select. exists (h, s), p. split; [done|]. simpl. by rewrite decide_True. }
  destruct (select _ _) as [|q qs]; [set_solver|].
  apply foldr_max_ge in Hin. lia.
Qed.

Lemma add_to_highlight_items clk n u i name d :
  let d' := snd (add_to_highlight clk n u i name d) in
  story_highlight_items d' = story_highlight_items d ∨
  ∃ h, story_highlight_items d !! (h, i) = None ∧
       story_highlight_items d' = <[(h, i) := next_position d h]> (story_highlight_items d).
Proof.
  unfold add_to_highlight, int4. run; bool_to_prop; try (by left); right; simpl in *;
    match goal with H : has_key _ _ = false |- _ => apply has_key_false in H as Hfree end;
    eauto.
Qed.

(** Adding to a highlight appends: a new item gets a position above all the
    others of its highlight, an item that is already there stays where it is, so
    positions stay distinct and the order of a highlight never changes. *)
Theorem highlight_appends clk n u i name d :
  positions_distinct d →
  let d' := snd (add_to_highlight clk n u i name d) in
  positions_distinct d' ∧
  (∀ k p, story_highlight_items d !! k = Some p → story_highlight_items d' !! k = Some p) ∧
  (∀ h s p q, story_highlight_items d !! (h, s) = Some p →
              story_highlight_items d !! (h, i) = None →
              story_highlight_items d' !! (h, i) = Some q → p < q).
Proof.
  intros Hd d'. destruct (add_to_highlight_items clk n u i name d) as [He|(h & Hfree & He)];
    fold d' in He; unfold positions_distinct; rewrite He.
  - split_and!; [done..|]. intros; congruence.
  - split_and!.
    + intros h' s s' p. rewrite !lookup_insert_Some.
      intros [[[= <- <-] <-]|[? Hs]] [[[= <-] ?]|[? Hs']]; try done.
      * apply next_position_above in Hs'. lia.
      * subst. apply next_position_above in Hs. lia.
      * by eapply Hd.
    + intros k p Hk. rewrite lookup_insert_ne; [done|]. congruence.
    + intros h' s p q Hp Hno. rewrite lookup_insert_Some.
      intros [[[= <-] <-]|[_ ?]]; [|congruence]. by eapply next_position_above.
Qed.

Lemma highlight_appends_witness :
  let d := set_stories (λ _, {[ 40%N := mkStoryRow 2 7 None 10 100 StoryPublic 0 0;
                                41%N := mkStoryRow 2 7 None 11 100 StoryPublic 0 0 ]}) two_users in
  let d1 := snd (add_to_highlight (mkClock 20 20) 50 2 40 "best" d) in
  let d2 := snd (add_to_highlight (mkClock 21 21) 51 2 41 "best" d1) in
  story_highlight_items d2 !! (50%N, 41%N) = Some 1 ∧
  positions_distinct d2 ∧
  (∀ k p, story_highlight_items d1 !! k = Some p → story_highlight_items d2 !! k = Some p) ∧
  (∀ h s p q, story_highlight_items d1 !! (h, s) = Some p →
              story_highlight_items d1 !! (h, 41%N) = None →
              story_highlight_items d2 !! (h, 41%N) = Some q → p < q).
Proof.
  split; [vm_compute; reflexivity|].
  apply (highlight_appends (mkClock 21 21) 51 2 41 "best").
  apply (highlight_appends (mkClock 20 20) 50 2 40 "best").
  intros h s s' p. simpl. by rewrite lookup_empty.
Defined.

Lemma story_counters_exact_witness :
  let d := set_stories (λ _, {[ 40%N := mkStoryRow 2 7 None 10 100 StoryPublic 0 0 ]}) two_users in
  let d' := snd (mark_seen (mkClock 21 21) 40 1 (snd (mark_seen (mkClock 20 20) 40 1 d))) in
  s_view_count <$> stories d' !! 40%N = Some 1 ∧ story_inv d'.
Proof.
  split; [vm_compute; reflexivity|].
  apply (story_counters_exact
    (set_stories (λ _, {[ 40%N := mkStoryRow 2 7 None 10 100 StoryPublic 0 0 ]}) two_users)).
  - eapply rtc_l; [apply (step_seen (mkClock 20 20) 40 1)|].
    apply rtc_once, (step_seen (mkClock 21 21) 40 1).
  - split; simpl.
    + intros id s. rewrite lookup_singleton_Some. by intros [<- <-].
    + intros id s. rewrite lookup_singleton_Some. by intros [<- <-].
    + intros k t. by rewrite lookup_empty.
    + intros k t. by rewrite lookup_empty.
Defined.

(** ** Invalidation of the cached feed *)

Lemma stories_feed_prefix_literal u : literal (stories_feed_prefix u) = true.
Proof.
  unfold stories_feed_prefix. rewrite !literal_app.
  assert (Hu : ∀ s, all_chars is_hex_or_dash s = true → literal s = true).
  { induction s as [|c s IH]; simpl; [done|]. intros [Hc Hs]%andb_true_iff.
    rewrite IH by done. rewrite andb_true_r.
    apply andb_true_iff. split; apply negb_true_iff, bool_decide_eq_false; by intros ->. }
  by rewrite (Hu _ (uuid_str_chars u)).
Qed.

(** Invalidation is complete and exact. However the server cuts its [SCAN]
    into replies, after [invalidate_stories_feed] no cached page of the user is
    left, for any page size, and no other user's page is gone. *)
Theorem invalidate_stories_feed_exact replies u w :
  redis_up (w_redis w) = true →
  full_iteration (stories_feed_prefix u +:+ "*") (store (w_redis w)) replies →
  let w' := snd (invalidate_stories_feed (E := StoryError) replies u w) in
  (∀ n, store (w_redis w') !! stories_feed_key u n = None) ∧
  (∀ v n, valid_uuid u → valid_uuid v → v ≠ u →
     store (w_redis w') !! stories_feed_key v n = store (w_redis w) !! stories_feed_key v n).
Proof.
  intros Hup Hfull w'.
  assert (Hst : ∀ k, store (w_redis w') !! k
    = if glob (stories_feed_prefix u +:+ "*") k then None else store (w_redis w) !! k).
  { intros k. rewrite <-(delete_pattern_spec _ _ _ k Hup Hfull).
    unfold w', invalidate_stories_feed, best_effort, on_redis.
    by destruct (delete_pattern replies (w_redis w)). }
  assert (Hkey : ∀ v n, stories_feed_key v n = stories_feed_prefix v +:+ pretty n).
  { intros v n. unfold stories_feed_key, stories_feed_prefix. by rewrite !append_assoc. }
  split.
  - intros n. rewrite Hst, Hkey.
    rewrite (proj2 (glob_prefix _ _ (stories_feed_prefix_literal u))); eauto.
  - intros v n Hu Hv Hne. rewrite Hst.
    destruct (glob _ _) eqn:Hg; [exfalso|done].
    apply glob_prefix in Hg as [t Ht]; [|apply stories_feed_prefix_literal].
    rewrite Hkey in Ht. unfold stories_feed_prefix in Ht. rewrite !append_assoc in Ht.
    apply (inj (String.append _)) in Ht.
    apply append_inj_length in Ht as [Ht%uuid_str_inj _]; [done..|].
    by rewrite !uuid_str_length.
Qed.

Lemma invalidate_stories_feed_exact_witness :
  let m : gmap string (RVal * option Time) :=
    {[ stories_feed_key 1 20 := (RText "x", None); stories_feed_key 2 20 := (RText "y", None) ]} in
  let w := mkWorld empty_db (mkRedis true m) [] true ∅ true in
  let w' := snd (invalidate_stories_feed (E := StoryError) [[]; [stories_feed_key 1 20]] 1 w) in
  (∀ n, store (w_redis w') !! stories_feed_key 1 n = None) ∧
  (∀ v n, valid_uuid 1 → valid_uuid v → v ≠ 1%N →
     store (w_redis w') !! stories_feed_key v n = store (w_redis w) !! stories_feed_key v n).
Proof.
  apply (invalidate_stories_feed_exact [[]; [stories_feed_key 1 20]] 1
    (mkWorld empty_db (mkRedis true {[ stories_feed_key 1 20 := (RText "x", None);
                                       stories_feed_key 2 20 := (RText "y", None) ]}) [] true ∅ true)).
  - reflexivity.
  - split.
    + intros k. simpl. rewrite lookup_insert_is_Some, lookup_singleton_is_Some.
      intros [<-|[_ <-]] Hg; [left|]. vm_compute in Hg. done.
    + intros k Hk. simpl in Hk. apply list_elem_of_singleton in Hk as ->. vm_compute. done.
Defined.
