(* ===== verification/StoryRaces.v ===== *)
(** * Stories under concurrent requests

    [mark_seen], [add_reaction], [remove_reaction] and [delete_story] of
    [src/app/stories.rs], each one SQL statement with several parts, as programs: the
    rows and index entries they lock, the checks of foreign keys, and the cascade of a
    deletion. All parts of a statement share the snapshot taken when it starts; a row
    that is updated is read again in its latest version. Every interleaving keeps the
    counters of a story equal to its rows. A story exists before anybody can name it,
    so that creations are not among the programs. *)

From S2P Require Import Prelude Text Sql Domain Schema Isolation Social Users GraphRaces Stories.
From stdpp Require Import options.

#[local] Open Scope Z_scope.

(** ** The transactions *)

Inductive StoryAnswer :=
| Saw (s v : Uuid) (r : Result StoryError bool)
| Reacted (s u : Uuid) (r : Result StoryError StoryReaction)
| Unreacted (s u : Uuid) (r : Result StoryError bool)
| StoryDeleted (s u : Uuid) (r : Result StoryError bool).

(** [UPDATE stories SET counter = .. WHERE id = ..] of a story the snapshot shows; the
    result is whether a row was updated. *)
Definition update_story (failed : StoryError → StoryAnswer) (s : Uuid) (visible : bool)
    (f : StoryRow → Result DbError StoryRow) : Proc StoryAnswer bool :=
  if negb visible then mret false else
  _ ← lock (RStory s) ForNoKeyUpdate;
  latest ← query (λ d, stories d !! s);
  match latest with
  | None => mret false
  | Some row =>
      match f row with
      | Ok row' => _ ← exec (set_stories (<[s := row']>)); mret true
      | Err e => rollback (failed (StoryDb e))
      end
  end.
(** A value for an [integer] column. *)
Definition column (z : Z) : Result DbError Z := fst (int4 z tt).
Definition count_view (row : StoryRow) : Result DbError StoryRow :=
  match column (s_view_count row + 1) with Ok n => Ok (with_view_count n row) | Err e => Err e end.
(** [reaction_count + CASE WHEN is_new THEN 1 ELSE 0 END]. *)
Definition count_reaction (is_new : bool) (row : StoryRow) : Result DbError StoryRow :=
  if is_new
  then match column (s_reaction_count row + 1) with Ok n => Ok (with_reaction_count n row) | Err e => Err e end
  else Ok row.

Definition mark_seen_txn (clk : Clock) (s v : Uuid) : Txn StoryAnswer := script (
  let failed e := Saw s v (Err e) in
  visible ← query (λ d, has_key s (stories d));
  (* INSERT INTO story_views .. ON CONFLICT DO NOTHING RETURNING story_id *)
  inserted ← insert_row (RView s v) (λ d, has_key (s, v) (story_views d)) (set_story_views (<[(s, v) := db_now clk]>));
  if negb inserted then mret (Saw s v (Ok false)) else
  updated ← update_story failed s visible count_view;
  story_ok ← references (RStory s) (λ d, has_key s (stories d));
  if negb story_ok then rollback (failed (StoryDb (ForeignKeyViolation "story_views_story_id_fkey"))) else
  viewer_ok ← references (RUser v) (λ d, user_exists d v);
  if negb viewer_ok then rollback (failed (StoryDb (ForeignKeyViolation "story_views_viewer_id_fkey"))) else
  mret (Saw s v (Ok updated))).

(** [INSERT .. ON CONFLICT (story_id, user_id) DO UPDATE .. RETURNING .., (xmax = 0)]: when
    the row that stood in the way is gone by the time it is locked, the insertion is
    tried again, now with the lock on the key. *)
Fixpoint upsert_reaction (tries : nat) (failed : StoryError → StoryAnswer) (clk : Clock) (new_id s u : Uuid) (emoji : string) :
    Proc StoryAnswer (bool * ReactionRow) :=
  match tries with
  | O => rollback (failed (StoryDb RowNotFound))
  | S tries' =>
      let row := mkReactionRow new_id emoji (db_now clk) in
      inserted ← insert_row (RReaction s u) (λ d, has_key (s, u) (story_reactions d)) (set_story_reactions (<[(s, u) := row]>));
      if inserted : bool then
        new_key ← insert_row (RReactionId new_id)
                    (λ d, exists_where (λ k x, bool_decide (k ≠ (s, u)) && bool_decide (sr_id x = new_id)) (story_reactions d))
                    (λ d, d);
        if negb new_key then rollback (failed (StoryDb (UniqueViolation "story_reactions_pkey"))) else
        mret (true, row)
      else
        _ ← lock (RReaction s u) ForNoKeyUpdate;
        latest ← query (λ d, story_reactions d !! (s, u));
        match latest with
        | Some old =>
            let row := mkReactionRow (sr_id old) emoji (sr_created_at old) in
            _ ← exec (set_story_reactions (<[(s, u) := row]>));
            mret (false, row)
        | None => upsert_reaction tries' failed clk new_id s u emoji
        end
  end.

Definition add_reaction_txn (clk : Clock) (new_id s u : Uuid) (emoji : string) : Txn StoryAnswer := script (
  let failed e := Reacted s u (Err e) in
  if negb (Nat.leb (char_count emoji) 10) then rollback (failed (StoryDb StringTooLong)) else
  snapshot ← query (λ d, (has_key s (stories d), active_user d u));
  upserted ← upsert_reaction 2 failed clk new_id s u emoji;
  _ ← update_story failed s snapshot.1 (count_reaction upserted.1);
  story_ok ← (if upserted.1 : bool then references (RStory s) (λ d, has_key s (stories d)) else mret true);
  if negb story_ok then rollback (failed (StoryDb (ForeignKeyViolation "story_reactions_story_id_fkey"))) else
  user_ok ← (if upserted.1 : bool then references (RUser u) (λ d, user_exists d u) else mret true);
  if negb user_ok then rollback (failed (StoryDb (ForeignKeyViolation "story_reactions_user_id_fkey"))) else
  (* the final SELECT joins the user as of the snapshot; without one the statement has
     had its effect and the caller gets an error *)
  mret (Reacted s u (match snapshot.2 with
                     | Some user => Ok (reaction_of s u upserted.2 user)
                     | None => Err (StoryDb RowNotFound)
                     end))).

Definition uncount_reaction (row : StoryRow) : Result DbError StoryRow :=
  Ok (with_reaction_count (Z.max (s_reaction_count row - 1) 0) row).
Definition remove_reaction_txn (s u : Uuid) : Txn StoryAnswer := script (
  snapshot ← query (λ d, (has_key s (stories d), has_key (s, u) (story_reactions d)));
  deleted ← change_rows (λ k, RReaction k.1 k.2) ForUpdate (λ k d, has_key k (story_reactions d))
              (λ k, set_story_reactions (delete k)) (if snapshot.2 : bool then [(s, u)] else []);
  updated ← (if affected deleted then update_story (λ e, Unreacted s u (Err e)) s snapshot.1 uncount_reaction else mret false);
  mret (Unreacted s u (Ok updated))).

(** The story of [user] that a deletion names. *)
Definition owned_story (s u : Uuid) (d : Db) : bool :=
  match stories d !! s with Some row => bool_decide (s_user_id row = u) | None => false end.
Definition no_cover (h : HighlightRow) : HighlightRow :=
  mkHighlightRow (h_user_id h) (h_name h) None (h_created_at h) (h_updated_at h).
Definition covers (s : Uuid) (h : HighlightRow) : bool := bool_decide (h_cover_story_id h = Some s).

(** The trigger of a foreign key with [ON DELETE CASCADE]. *)
Definition delete_keys {V} (P : Uuid * Uuid → bool) (row : Uuid * Uuid → Row) (get : Db → gmap (Uuid * Uuid) V)
    (upd : (gmap (Uuid * Uuid) V → gmap (Uuid * Uuid) V) → Db → Db) : Proc StoryAnswer (list (Uuid * Uuid)) :=
  keys ← query (λ d, select (λ k _, if P k then Some k else None) (get d));
  change_rows row ForUpdate (λ k d, has_key k (get d)) (λ k, upd (delete k)) keys.
(** The one with [ON DELETE SET NULL]. *)
Definition clear_covers (s : Uuid) : Proc StoryAnswer (list Uuid) :=
  keys ← query (λ d, select (λ k h, if covers s h then Some k else None) (story_highlights d));
  change_rows RHighlight ForNoKeyUpdate
    (λ k d, match story_highlights d !! k with Some h => covers s h | None => false end)
    (λ k, set_story_highlights (alter no_cover k)) keys.

(** [DELETE FROM stories]; then the foreign keys: the views, reactions and highlight
    items of the story are deleted, and highlights lose it as their cover. *)
Definition delete_story_txn (s u : Uuid) : Txn StoryAnswer := script (
  seen ← query (owned_story s u);
  if negb seen then mret (StoryDeleted s u (Ok false)) else
  _ ← lock (RStory s) ForUpdate;
  still ← query (owned_story s u);
  if negb still then mret (StoryDeleted s u (Ok false)) else
  _ ← exec (set_stories (delete s));
  _ ← delete_keys (λ k, bool_decide (k.1 = s)) (λ k, RView k.1 k.2) story_views set_story_views;
  _ ← delete_keys (λ k, bool_decide (k.1 = s)) (λ k, RReaction k.1 k.2) story_reactions set_story_reactions;
  _ ← delete_keys (λ k, bool_decide (k.2 = s)) (λ k, RItem k.1 k.2) story_highlight_items set_story_highlight_items;
  _ ← clear_covers s;
  mret (StoryDeleted s u (Ok true))).

(** ** Alone, every program does what the sequential method does *)

Definition alone_is {B} (ans : Result StoryError B → StoryAnswer) (p : Txn StoryAnswer) (m : M Db StoryError B) : Prop :=
  ∀ d, run_alone p d = let '(r, d') := m d in (ans r, d').

Lemma alone_update_story failed s visible f k w d :
  visible = has_key s (stories (w d)) →
  alone (update_story failed s visible f k) w d =
  match stories (w d) !! s with
  | None => alone (k false) w d
  | Some row =>
      match f row with
      | Ok row' => alone (k true) (λ d, set_stories (<[s := row']>) (w d)) d
      | Err e => (failed (StoryDb e), d)
      end
  end.
Proof.
  intros ->. unfold update_story, mbind, Proc_bind, mret, Proc_ret, lock, query, exec, rollback, has_key.
  destruct (stories (w d) !! s) as [row|] eqn:Hs; [|by rewrite bool_decide_false by (by intros [])].
  rewrite bool_decide_true by done. cbn [negb alone]. rewrite Hs. by destruct (f row).
Qed.
Lemma int4_column {S} z (d : S) : int4 z d = (column z, d).
Proof. unfold column, int4. by destruct (in_i32 z). Qed.
Lemma has_key_lookup `{Countable K} {V} (k : K) (m : gmap K V) : has_key k m = match m !! k with Some _ => true | None => false end.
Proof. unfold has_key. by destruct (m !! k). Qed.

Lemma mark_seen_alone clk s v : alone_is (Saw s v) (mark_seen_txn clk s v) (mark_seen clk s v).
Proof.
  intros d. unfold mark_seen_txn, mark_seen. unfold_txn.
  destruct (has_key (s, v) (story_views d)) eqn:Hv; cbn [negb alone]; [done|].
  rewrite alone_update_story by done. cbn [stories set_story_views]. unfold count_view.
  destruct (stories d !! s) as [row|] eqn:Hs.
  - rewrite int4_column. destruct (column (s_view_count row + 1)) as [n|e]; [|done].
    rewrite alone_references. cbn [stories set_stories]. rewrite has_key_insert_eq. cbn [negb alone].
    rewrite alone_references. change (user_exists (set_stories _ _) v) with (user_exists d v).
    by destruct (user_exists d v).
  - rewrite alone_references. cbn [stories set_story_views]. by rewrite has_key_lookup, Hs.
Qed.
Lemma set_story_reactions_ext f g d : f (story_reactions d) = g (story_reactions d) → set_story_reactions f d = set_story_reactions g d.
Proof. intros He. unfold set_story_reactions. by rewrite He. Qed.
Lemma add_reaction_alone clk n s u e : alone_is (Reacted s u) (add_reaction_txn clk n s u e) (add_reaction clk n s u e).
Proof.
  intros d. unfold add_reaction_txn, add_reaction. unfold_txn.
  destruct (Nat.leb (char_count e) 10); cbn [negb alone]; [|done]. cbn [upsert_reaction fst snd].
  unfold mbind, Proc_bind, mret, Proc_ret, query, lock, exec, insert_row, rollback. cbn [alone]. rewrite !has_key_lookup.
  destruct (story_reactions d !! (s, u)) as [old|] eqn:Ho; cbn [alone].
  - rewrite alone_update_story by (cbn; by rewrite has_key_lookup). cbn [stories set_story_reactions].
    destruct (stories d !! s) as [row|] eqn:Hs; cbn [count_reaction alone negb fst snd]; [|by destruct (active_user d u)].
    assert (Hsame : ∀ x : Db, stories x = stories d → set_stories (<[s := row]>) x = x).
    { intros [] He. unfold set_stories. simpl in *. rewrite He. by rewrite insert_id. }
    rewrite Hsame by done. by destruct (active_user d u).
  - cbn [story_reactions set_story_reactions]. rewrite (exists_where_other sr_id (s, u) (mkReactionRow n e (db_now clk))) by done. cbn [sr_id].
    destruct (exists_where _ (story_reactions d)); cbn [negb alone]; [done|].
    rewrite alone_update_story by (cbn; by rewrite has_key_lookup). cbn [stories set_story_reactions count_reaction fst snd].
    destruct (stories d !! s) as [row|] eqn:Hs.
    + rewrite int4_column. destruct (column (s_reaction_count row + 1)) as [x|er]; [|done].
      rewrite alone_references. cbn [stories set_stories]. rewrite has_key_insert_eq. cbn [negb alone].
      rewrite alone_references. change (user_exists (set_stories _ _) u) with (user_exists d u).
      destruct (user_exists d u); cbn [negb alone]; [|done]. by destruct (active_user d u).
    + rewrite alone_references. cbn [stories set_story_reactions]. by rewrite has_key_lookup, Hs.
Qed.
Lemma remove_reaction_alone s u : alone_is (Unreacted s u) (remove_reaction_txn s u) (remove_reaction s u).
Proof.
  intros d. unfold remove_reaction_txn, remove_reaction. unfold_txn. cbn [fst snd]. rewrite !has_key_lookup.
  destruct (story_reactions d !! (s, u)) as [old|] eqn:Ho; cbn [change_rows alone affected]; [|done].
  unfold mbind, Proc_bind, mret, Proc_ret, query, lock, exec. cbn [alone]. rewrite has_key_lookup, Ho. cbn [alone app affected].
  rewrite alone_update_story by (cbn; by rewrite has_key_lookup). cbn [stories set_story_reactions].
  by destruct (stories d !! s).
Qed.

(** The rows a foreign key leads to. *)
Lemma alone_delete_keys {V} (P : Uuid * Uuid → bool) row (get : Db → gmap _ V) upd k w d :
  (∀ f d, get (upd f d) = f (get d)) → (∀ d, upd (λ _, get d) d = d) → (∀ f h d, upd (λ _, h) (upd f d) = upd (λ _, h) d) →
  ∃ dn, alone (delete_keys P row get upd k) w d = alone (k dn) (λ _, upd (λ _, delete_where (λ k _, P k) (get (w d))) (w d)) d.
Proof.
  intros Hg Hs Hu. eexists. unfold delete_keys, mbind, Proc_bind, query. cbn [alone]. etrans.
  - apply (alone_change_rows (λ _, true) (λ _, None) row ForUpdate _ get upd); [done..|]. intros. apply hits_all.
  - apply alone_ext. by rewrite sweep_delete, delete_selected.
Qed.
Lemma set_stories_ext f g d : f (stories d) = g (stories d) → set_stories f d = set_stories g d.
Proof. intros He. unfold set_stories. by rewrite He. Qed.
Lemma set_story_views_ext f g d : f (story_views d) = g (story_views d) → set_story_views f d = set_story_views g d.
Proof. intros He. unfold set_story_views. by rewrite He. Qed.
Lemma set_story_highlight_items_ext f g d :
  f (story_highlight_items d) = g (story_highlight_items d) → set_story_highlight_items f d = set_story_highlight_items g d.
Proof. intros He. unfold set_story_highlight_items. by rewrite He. Qed.
Lemma set_story_highlights_ext f g d :
  f (story_highlights d) = g (story_highlights d) → set_story_highlights f d = set_story_highlights g d.
Proof. intros He. unfold set_story_highlights. by rewrite He. Qed.
Lemma delete_where_ext `{Countable K} {V} (P Q : K → V → bool) m : (∀ k v, P k v = Q k v) → delete_where P m = delete_where Q m.
Proof. intros He. apply map_eq. intros k. apply option_eq. intros v. by rewrite !lookup_delete_where, He. Qed.
Lemma update_where_ext `{Countable K} {V} (P Q : K → V → bool) f m : (∀ k v, P k v = Q k v) → update_where P f m = update_where Q f m.
Proof. intros He. apply map_eq. intros k. rewrite !lookup_update_where. destruct (m !! k) as [v|]; simpl; [by rewrite He|done]. Qed.
Lemma delete_story_rows_one s row d :
  stories d !! s = Some row →
  delete_story_rows (λ k _, bool_decide (k = s)) d =
  set_story_highlights (update_where (λ _, covers s) no_cover)
  (set_story_highlight_items (delete_where (λ k _, bool_decide (k.2 = s)))
  (set_story_reactions (delete_where (λ k _, bool_decide (k.1 = s)))
  (set_story_views (delete_where (λ k _, bool_decide (k.1 = s)))
  (set_stories (delete s) d)))).
Proof.
  intros Hs. assert (Hg : ∀ k, (match stories d !! k with Some _ => bool_decide (k = s) | None => false end) = bool_decide (k = s)).
  { intros k. case_bool_decide as Hk; [by subst; rewrite Hs|by destruct (stories d !! k)]. }
  unfold delete_story_rows. cbv zeta.
  rewrite (set_stories_ext _ (delete s)).
  2: { apply map_eq. intros k. apply option_eq. intros r. rewrite lookup_delete_where, lookup_delete_Some.
       rewrite bool_decide_eq_false. naive_solver. }
  rewrite (set_story_views_ext _ (delete_where (λ k _, bool_decide (k.1 = s)))).
  2: { apply delete_where_ext. intros. apply Hg. }
  rewrite (set_story_reactions_ext _ (delete_where (λ k _, bool_decide (k.1 = s)))).
  2: { apply delete_where_ext. intros. apply Hg. }
  rewrite (set_story_highlight_items_ext _ (delete_where (λ k _, bool_decide (k.2 = s)))).
  2: { apply delete_where_ext. intros. apply Hg. }
  apply set_story_highlights_ext, update_where_ext. intros _ h. unfold covers, no_cover.
  destruct (h_cover_story_id h) as [c|]; [|done]. rewrite Hg. apply bool_decide_ext. naive_solver.
Qed.
Lemma delete_story_alone s u : alone_is (StoryDeleted s u) (delete_story_txn s u) (delete_story s u).
Proof.
  intros d. unfold delete_story_txn, delete_story, owned_story. unfold_txn.
  destruct (stories d !! s) as [row|] eqn:Hs; [|done].
  destruct (bool_decide (s_user_id row = u)) eqn:Hu; cbn [negb alone]; [|done].
  rewrite Hs, Hu. cbn [negb alone].
  do 3 match goal with |- alone (delete_keys ?P ?row ?get ?upd ?K) ?w d = _ =>
    destruct (alone_delete_keys P row get upd K w d) as [? ->]; [done|by intros []|done|] end.
  unfold clear_covers, mbind, Proc_bind, query. cbn [alone].
  etrans; [apply (alone_change_rows (covers s) (fmap no_cover) RHighlight ForNoKeyUpdate _ story_highlights set_story_highlights);
    [done|by intros []|done|done]|]. cbn [alone]. f_equal. symmetry. etrans; [by eapply delete_story_rows_one|].
  apply set_story_highlights_ext. symmetry. apply sweep_selected. intros h _. by unfold covers.
Qed.

(** On every branch, errors included. *)
Theorem story_programs_alone clk :
  (∀ s v, alone_is (Saw s v) (mark_seen_txn clk s v) (mark_seen clk s v)) ∧
  (∀ n s u e, alone_is (Reacted s u) (add_reaction_txn clk n s u e) (add_reaction clk n s u e)) ∧
  (∀ s u, alone_is (Unreacted s u) (remove_reaction_txn s u) (remove_reaction s u)) ∧
  (∀ s u, alone_is (StoryDeleted s u) (delete_story_txn s u) (delete_story s u)).
Proof. repeat split; intros; auto using mark_seen_alone, add_reaction_alone, remove_reaction_alone, delete_story_alone. Qed.

(** ** What a commit does *)

(** Everything that hangs on a story: its row, views, reactions, highlight items, and the
    highlights it is the cover of. *)
Definition same_story (s : Uuid) (d d' : Db) : Prop :=
  stories d !! s = stories d' !! s ∧ (∀ v, story_views d !! (s, v) = story_views d' !! (s, v)) ∧
  (∀ u, story_reactions d !! (s, u) = story_reactions d' !! (s, u)) ∧
  (∀ h, story_highlight_items d !! (h, s) = story_highlight_items d' !! (h, s)) ∧
  (∀ h r, covers s r = true → story_highlights d !! h = Some r ↔ story_highlights d' !! h = Some r).

(** What changes, changes under locks: above all under the lock of the story. *)
Record story_locks (L : Locks) (d d' : Db) : Prop := {
  sl_story s : exclusive L (RStory s) ∨ same_story s d d';
  sl_view s v : exclusive L (RView s v) ∨ story_views d !! (s, v) = story_views d' !! (s, v);
  sl_reaction s u : exclusive L (RReaction s u) ∨ story_reactions d !! (s, u) = story_reactions d' !! (s, u);
  sl_id k r' : story_reactions d' !! k = Some r' →
    exclusive L (RReactionId (sr_id r')) ∨ ∃ r, story_reactions d !! k = Some r ∧ sr_id r = sr_id r';
  sl_gone s : stories d !! s = None → stories d' !! s = None;
  sl_users : users d' = users d }.

(** The answers: an operation that reports a change is the sequential operation on the
    database of that moment; every other one changes nothing. A reaction that was stored
    for an account deleted meanwhile is reported as an error. *)
Definition story_effect (ans : StoryAnswer) (d d' : Db) : Prop :=
  match ans with
  | Saw s v (Ok true) => ∃ clk, mark_seen clk s v d = (Ok true, d')
  | Reacted s u (Ok _) => ∃ clk n e, d' = snd (add_reaction clk n s u e d)
  | Reacted s u (Err _) => d' = d ∨ ∃ clk n e, d' = snd (add_reaction clk n s u e d)
  | Unreacted s u (Ok true) => remove_reaction s u d = (Ok true, d')
  | StoryDeleted s u (Ok true) => delete_story s u d = (Ok true, d')
  | _ => d' = d
  end.
Definition story_commit (L : Locks) (ans : StoryAnswer) (d d' : Db) : Prop := story_effect ans d d' ∧ story_locks L d d'.
Notation rwp := (wp story_commit).
Notation rstable := (stable story_commit).

Lemma story_locks_same L d : story_locks L d d.
Proof. split; try done; [by right|by right|by right|]. intros k r Hr. right. eauto. Qed.
Lemma story_commit_inv L ans d d' : story_inv d → story_commit L ans d d' → story_inv d'.
Proof.
  intros Hd [He _]. assert (Hcl : ∀ x, story_step d x → story_inv x) by (intros x Hx; by eapply story_step_inv).
  destruct ans as [s v [[]|]|s u [|]|s u [[]|]|s u [[]|]]; simpl in He; try (by subst).
  - destruct He as [clk He]. apply Hcl. replace d' with (snd (mark_seen clk s v d)) by (by rewrite He). constructor.
  - destruct He as (clk & n & e & ->). apply Hcl. constructor.
  - destruct He as [->|(clk & n & em & ->)]; [done|]. apply Hcl. constructor.
  - apply Hcl. replace d' with (snd (remove_reaction s u d)) by (by rewrite He). constructor.
  - apply Hcl. replace d' with (snd (delete_story s u d)) by (by rewrite He). constructor.
Qed.

(** *** Facts that stay *)

Definition unchanging (ans : StoryAnswer) : Prop := ∀ d, story_effect ans d d.
Lemma wp_unchanging ans L w d : unchanging ans → rwp (TRollback ans) L w d.
Proof. intros Ha d' _. split; [apply Ha|apply story_locks_same]. Qed.
Lemma unchanging_commit ans L d : unchanging ans → rwp (TCommit ans) L (λ d, d) d.
Proof. intros Ha d' _. split; [apply Ha|apply story_locks_same]. Qed.
#[local] Hint Extern 0 (unchanging _) => (intros ?; simpl; (done || by left)) : core.
#[local] Hint Resolve wp_unchanging unchanging_commit exclusive_more : core.

Lemma exclusive_excl L L' r : compatible L L' → exclusive L r → exclusive L' r → False.
Proof. intros Hc [?|?] [?|?]; by eapply compatible_excl. Qed.
Lemma stable_inv L : rstable L story_inv.
Proof. intros d d' (L' & a & _ & Hg) Hd. by eapply story_commit_inv. Qed.
Lemma stable_gone L s : rstable L (λ d, stories d !! s = None).
Proof. intros d d' (L' & a & _ & _ & Hl) Hd. by apply (sl_gone _ _ _ Hl). Qed.
Lemma stable_user L u : rstable L (λ d, user_exists d u = true).
Proof. intros d d' (L' & a & _ & _ & Hl). unfold user_exists. by rewrite (sl_users _ _ _ Hl). Qed.
Lemma same_story_trans s d1 d2 d3 : same_story s d1 d2 → same_story s d2 d3 → same_story s d1 d3.
Proof.
  intros (H1 & H2 & H3 & H4 & H5) (H1' & H2' & H3' & H4' & H5'). split_and!; [congruence|..].
  - intros v. by rewrite H2.
  - intros u. by rewrite H3.
  - intros h. by rewrite H4.
  - intros h r Hr. by rewrite H5, H5'.
Qed.
Lemma same_story_refl s d : same_story s d d.
Proof. by split_and!. Qed.
(** The story with all that hangs on it, under its lock. *)
Lemma stable_story L s d0 : exclusive L (RStory s) → rstable L (same_story s d0).
Proof.
  intros Hl d d' (L' & a & Hc & _ & Hs) Hd. destruct (sl_story _ _ _ Hs s) as [He|He]; [by destruct (exclusive_excl L L' (RStory s))|].
  by eapply same_story_trans.
Qed.
Lemma stable_story_row L s v : exclusive L (RStory s) → rstable L (λ d, stories d !! s = v).
Proof.
  intros Hl d d' (L' & a & Hc & _ & Hs) <-. destruct (sl_story _ _ _ Hs s) as [He|(He & _)]; [by destruct (exclusive_excl L L' (RStory s))|done].
Qed.
Lemma stable_view L s v x : exclusive L (RView s v) → rstable L (λ d, story_views d !! (s, v) = x).
Proof.
  intros Hl d d' (L' & a & Hc & _ & Hs) <-. destruct (sl_view _ _ _ Hs s v) as [He|He]; [by destruct (exclusive_excl L L' (RView s v))|done].
Qed.
Lemma stable_reaction L s u x : exclusive L (RReaction s u) → rstable L (λ d, story_reactions d !! (s, u) = x).
Proof.
  intros Hl d d' (L' & a & Hc & _ & Hs) <-. destruct (sl_reaction _ _ _ Hs s u) as [He|He]; [by destruct (exclusive_excl L L' (RReaction s u))|done].
Qed.
Definition id_free (n : Uuid) (d : Db) : Prop := exists_where (λ _ x, bool_decide (sr_id x = n)) (story_reactions d) = false.
Lemma stable_id L n : exclusive L (RReactionId n) → rstable L (id_free n).
Proof.
  intros Hl d d' (L' & a & Hc & _ & Hs). unfold id_free. rewrite !exists_where_false. intros Hf k r' Hr'.
  apply bool_decide_eq_false. intros <-. destruct (sl_id _ _ _ Hs k r' Hr') as [He|(r & Hr & Hid)].
  - by destruct (exclusive_excl L L' (RReactionId (sr_id r'))).
  - specialize (Hf k r Hr). by rewrite Hid, bool_decide_true in Hf.
Qed.
Lemma stable_conj L P Q : rstable L P → rstable L Q → rstable L (λ d, P d ∧ Q d).
Proof. intros HP HQ d d' Hr [??]. split; [by eapply HP|by eapply HQ]. Qed.

(** *** The statements *)

(** The counters agree, and a story the snapshot did not show does not exist. *)
Definition base (s : Uuid) (visible : bool) (L : Locks) (d : Db) : Prop :=
  story_inv d ∧ (visible = false → stories d !! s = None).
Lemma base_stable s visible L : rstable L (base s visible L).
Proof.
  intros d d' Hr [Hi Hv]. split; [by eapply stable_inv|]. intros He. eapply (stable_gone L s); [done|by apply Hv].
Qed.
Lemma base_more s visible L l d : base s visible L d → base s visible (l :: L) d.
Proof. done. Qed.
#[local] Hint Resolve base_stable base_more : core.

Section update.
Context (P : Locks → Db → Prop) (HP : ∀ L, rstable L (P L)) (HPm : ∀ L l d, P L d → P (l :: L) d).
Lemma wp_update_story failed s visible f k L w d :
  (∀ d, stories (w d) = stories d) → (∀ e, unchanging (failed e)) → P L d →
  (visible = false → rwp (k false) L w d) →
  (∀ L' d', P L' d' → stories d' !! s = None → rwp (k false) L' w d') →
  (∀ row row' L' d', P L' d' → exclusive L' (RStory s) → stories d' !! s = Some row → f row = Ok row' →
     rwp (k true) L' (λ d, set_stories (<[s := row']>) (w d)) d') →
  rwp (update_story failed s visible f k) L w d.
Proof using HP HPm.
  intros Hw Hf Hd Hno Hnone Hrow. unfold update_story, mbind, Proc_bind, mret, Proc_ret.
  destruct visible; simpl negb; cbv iota; [|by apply Hno].
  apply (wp_lock _ P HP HPm); [done|]. intros d1 H1. apply (wp_query _ P HP); [done|]. intros d2 H2. rewrite Hw.
  destruct (stories d2 !! s) as [row|] eqn:Hs; [|by apply Hnone].
  destruct (f row) as [row'|e] eqn:Hfr; [|by apply wp_unchanging].
  apply (wp_exec _ (λ L d, P L d ∧ exclusive L (RStory s) ∧ stories d !! s = Some row)).
  - intros L' x y Hr (Hx & Hl & Hs'). split; [by eapply HP|]. split; [done|]. by eapply (stable_story_row L' s (Some row)).
  - split; [done|]. split; [right; left|done].
  - intros d3 (H3 & Hl & Hs3). by eapply Hrow.
Qed.
End update.
(** A foreign key to a story that does not exist. *)
Lemma wp_no_story s k L w d :
  (∀ d, stories (w d) = stories d) → stories d !! s = None → (∀ d', rwp (k false) L w d') →
  rwp (references (RStory s) (λ d, has_key s (stories d)) k) L w d.
Proof.
  intros Hw Hs Hk. apply (wp_references _ (λ _ d, stories d !! s = None) (λ _ _, False));
    [intros L'; apply stable_gone|by intros ????|done| |done|by intros L1 d1 [[-> _]|[_ []]]|done].
  intros d' Hs'. rewrite Hw, has_key_lookup, Hs'. done.
Qed.

Lemma only_story s L d d' :
  exclusive L (RStory s) → (∀ s', s' ≠ s → same_story s' d d') → ∀ s', exclusive L (RStory s') ∨ same_story s' d d'.
Proof. intros Hl Ho s'. destruct (decide (s' = s)) as [->|]; [by left|right; auto]. Qed.

(** *** [mark_seen] *)

Lemma saw_commit clk s v row n L d :
  exclusive L (RView s v) → exclusive L (RStory s) → story_views d !! (s, v) = None → stories d !! s = Some row →
  column (s_view_count row + 1) = Ok n → user_exists d v = true →
  story_commit L (Saw s v (Ok true)) d
    (set_stories (<[s := with_view_count n row]>) (set_story_views (<[(s, v) := db_now clk]>) d)).
Proof.
  intros Hlv Hls Hv Hs Hn Hu. split.
  - exists clk. unfold mark_seen. unfold_m. rewrite has_key_lookup, Hv. unfold ok_or. rewrite Hs. unfold map_err.
    rewrite int4_column, Hn. by rewrite Hu.
  - split; simpl.
    + apply (only_story s); [done|]. intros s' Hne. split_and!; simpl; try done.
      * by rewrite lookup_insert_ne.
      * intros v'. by rewrite lookup_insert_ne by congruence.
    + intros s' v'. destruct (decide ((s', v') = (s, v))) as [[= -> ->]|]; [by left|right]. by rewrite lookup_insert_ne.
    + by right.
    + eauto.
    + intros s' Hs'. by rewrite lookup_insert_ne by congruence.
    + done.
Qed.
Lemma mark_seen_valid clk s v : valid story_commit story_inv (mark_seen_txn clk s v).
Proof.
  intros d Hd. unfold mark_seen_txn, script, mbind, Proc_bind, mret, Proc_ret.
  apply (wp_query _ (λ _, story_inv)); [apply stable_inv|done|]. intros d1 H1.
  set (visible := has_key s (stories d1)).
  assert (Hb : base s visible [] d1). { split; [done|]. by intros ?%has_key_false. }
  apply (wp_insert _ (base s visible)); [done|done| |].
  { intros d2 H2 _. by apply unchanging_commit. }
  intros d2 H2 Hfree. simpl negb. cbv iota. apply has_key_false in Hfree.
  set (P L d := base s visible L d ∧ (exclusive L (RView s v) ∧ story_views d !! (s, v) = None)).
  assert (HP : ∀ L, rstable L (P L)).
  { intros L x y Hr (Hx & Hl & Hv). split; [by eapply base_stable|]. split; [done|]. by eapply (stable_view L s v None). }
  assert (HPm : ∀ L l d, P L d → P (l :: L) d) by (intros L l x (Hx & Hl & Hv); split; auto).
  assert (HP2 : P [(RView s v, ForUpdate)] d2) by (split; [done|split; [left; left|done]]).
  apply (wp_update_story P HP HPm); [done|auto|done| | |].
  - intros Hnv. apply wp_no_story; [done|by apply H2|]. intros. by apply wp_unchanging.
  - intros L3 d3 H3 Hs3. apply wp_no_story; [done|done|]. intros. by apply wp_unchanging.
  - intros row row' L3 d3 H3 Hl3 Hs3 Hrow. unfold count_view in Hrow.
    destruct (column (s_view_count row + 1)) as [n|] eqn:Hn; simplify_eq.
    set (Q L d := P L d ∧ (exclusive L (RStory s) ∧ stories d !! s = Some row)).
    assert (HQ : ∀ L, rstable L (Q L)).
    { intros L x y Hr (Hx & Hl & Hs). split; [by eapply HP|]. split; [done|]. by eapply (stable_story_row L s (Some row)). }
    assert (HQm : ∀ L l d, Q L d → Q (l :: L) d) by (intros L l x (Hx & Hl & Hs); split; auto).
    set (R L d := Q L d ∧ user_exists d v = true).
    assert (HR : ∀ L, rstable L (R L)) by (intros L; apply stable_conj; [apply HQ|apply stable_user]).
    assert (HRm : ∀ L l d, R L d → R (l :: L) d) by (intros L l x [Hx Hu]; split; auto).
    apply (wp_references _ Q Q); [done..|by split| |].
    { intros. by apply wp_unchanging. }
    intros d4 H4. simpl negb. cbv iota. apply (wp_references _ Q R); [done..|by split|done| |].
    { intros. by apply wp_unchanging. }
    intros d5 H5. simpl negb. cbv iota. intros d6 Hdr.
    destruct (stable_drifts _ _ _ _ _ (HR _) Hdr H5) as [[[_ [Hlv Hv]] [Hls Hs]] Hu]. by apply saw_commit.
Qed.

(** *** [remove_reaction] *)

(** A change of one reaction of a story, and of the row of the story. *)
Lemma reaction_locks L s u f row d :
  exclusive L (RReaction s u) → exclusive L (RStory s) → is_Some (stories d !! s) →
  (∀ k, k ≠ (s, u) → f (story_reactions d) !! k = story_reactions d !! k) →
  (∀ r', f (story_reactions d) !! (s, u) = Some r' →
     exclusive L (RReactionId (sr_id r')) ∨ ∃ r, story_reactions d !! (s, u) = Some r ∧ sr_id r = sr_id r') →
  story_locks L d (set_stories (<[s := row]>) (set_story_reactions f d)).
Proof.
  intros Hlr Hls [r0 Hs] Hf Hid. split; simpl.
  - apply (only_story s); [done|]. intros s' Hne. split_and!; simpl; try done.
    + by rewrite lookup_insert_ne.
    + intros u'. by rewrite Hf by congruence.
  - by right.
  - intros s' u'. destruct (decide ((s', u') = (s, u))) as [[= -> ->]|]; [by left|right]. by rewrite Hf.
  - intros k r' Hr'. destruct (decide (k = (s, u))) as [->|]; [by apply Hid|]. rewrite Hf in Hr' by done. eauto.
  - intros s' Hs'. by rewrite lookup_insert_ne by congruence.
  - done.
Qed.
Lemma unreacted_commit s u old row L d :
  exclusive L (RReaction s u) → exclusive L (RStory s) → story_reactions d !! (s, u) = Some old → stories d !! s = Some row →
  story_commit L (Unreacted s u (Ok true)) d
    (set_stories (<[s := with_reaction_count (Z.max (s_reaction_count row - 1) 0) row]>) (set_story_reactions (delete (s, u)) d)).
Proof.
  intros Hlr Hls Hr Hs. split.
  - simpl. unfold remove_reaction. unfold_m. by rewrite Hr, Hs.
  - apply reaction_locks with (u := u); [done|done|by rewrite Hs| |].
    + intros k Hk. by rewrite lookup_delete_ne.
    + intros r'. by rewrite lookup_delete_eq.
Qed.

(** A reaction under its lock. *)
Definition reacted (s u : Uuid) (visible : bool) (r : ReactionRow) (L : Locks) (d : Db) : Prop :=
  base s visible L d ∧ exclusive L (RReaction s u) ∧ story_reactions d !! (s, u) = Some r.
Lemma reacted_stable s u visible r L : rstable L (reacted s u visible r L).
Proof.
  intros x y Hr (Hx & Hl & Hv). split; [by eapply base_stable|]. split; [done|]. by eapply (stable_reaction L s u (Some r)).
Qed.
Lemma reacted_more s u visible r L l d : reacted s u visible r L d → reacted s u visible r (l :: L) d.
Proof. intros (Hx & Hl & Hv). split; auto. Qed.
Lemma reacted_story s u visible r L d : reacted s u visible r L d → stories d !! s ≠ None ∧ visible = true.
Proof.
  intros ([Hi Hv] & _ & Hr). apply (inv_reactions_fk _ Hi) in Hr. simpl in Hr. apply has_key_true in Hr as [row Hrow].
  split; [congruence|]. destruct visible; [done|]. by rewrite Hv in Hrow.
Qed.
#[local] Hint Resolve reacted_stable reacted_more : core.

(** Changing the counter of a story whose reaction is held. *)
Lemma wp_reacted_update failed s u visible r f k L w d :
  (∀ d, stories (w d) = stories d) → (∀ e, unchanging (failed e)) → reacted s u visible r L d →
  (∀ row row' L' d', exclusive L' (RReaction s u) → exclusive L' (RStory s) → story_reactions d' !! (s, u) = Some r →
     stories d' !! s = Some row → f row = Ok row' → rwp (k true) L' (λ d, set_stories (<[s := row']>) (w d)) d') →
  rwp (update_story failed s visible f k) L w d.
Proof.
  intros Hw Hf Hd Hk. pose proof (reacted_story _ _ _ _ _ _ Hd) as [_ ->].
  apply (wp_update_story (reacted s u true r)); [auto|auto|done|done|done|done| |].
  - intros L' d' Hr' Hn. by destruct (reacted_story _ _ _ _ _ _ Hr').
  - intros row row' L' d' (_ & Hl & Hr) Hls Hs Hfr. by eapply Hk.
Qed.
Lemma remove_reaction_valid s u : valid story_commit story_inv (remove_reaction_txn s u).
Proof.
  intros d Hd. unfold remove_reaction_txn, script, mbind, Proc_bind, mret, Proc_ret.
  apply (wp_query _ (λ _, story_inv)); [apply stable_inv|done|]. intros d1 H1. cbn [fst snd].
  set (visible := has_key s (stories d1)).
  assert (Hb : base s visible [] d1). { split; [done|]. by intros ?%has_key_false. }
  destruct (has_key (s, u) (story_reactions d1)); cbn [change_rows affected]; [|by apply unchanging_commit].
  unfold mbind, Proc_bind, mret, Proc_ret. apply (wp_lock _ (base s visible)); [done|done|done|]. intros d2 H2.
  apply (wp_query _ (base s visible)); [done|done|]. intros d3 H3.
  destruct (has_key (s, u) (story_reactions d3)) eqn:Hh; cbn [affected app]; [|by apply unchanging_commit].
  apply has_key_true in Hh as [r Hr].
  apply (wp_exec _ (reacted s u visible r)); [auto|split; [done|split; [left; left|done]]|]. intros d4 H4. cbn [affected app].
  apply (wp_reacted_update _ s u visible r); [done|auto|done|].
  intros row row' L5 d5 Hl Hls Hr5 Hs5 [= <-] d6 Hdr.
  destruct (stable_drifts _ _ _ _ _ (stable_conj _ _ _ (stable_reaction L5 s u (Some r) Hl) (stable_story_row L5 s (Some row) Hls)) Hdr
    (conj Hr5 Hs5)) as [Hr6 Hs6].
  by eapply unreacted_commit.
Qed.

(** *** [add_reaction] *)

Lemma reacted_effect clk n s u e r d d' : d' = snd (add_reaction clk n s u e d) → story_effect (Reacted s u r) d d'.
Proof. intros Hd. destruct r; simpl; [|right]; by exists clk, n, e. Qed.

(** A new reaction: its key and its id are claimed. *)
Definition reacting (s u n : Uuid) (visible : bool) (L : Locks) (d : Db) : Prop :=
  base s visible L d ∧ (exclusive L (RReaction s u) ∧ story_reactions d !! (s, u) = None) ∧
  (exclusive L (RReactionId n) ∧ id_free n d).
Lemma reacting_stable s u n visible L : rstable L (reacting s u n visible L).
Proof.
  intros x y Hr (Hx & [Hl Hv] & [Hl' Hn]). split; [by eapply base_stable|]. split.
  - split; [done|]. by eapply (stable_reaction L s u None).
  - split; [done|]. by eapply (stable_id L n).
Qed.
Lemma reacting_more s u n visible L l d : reacting s u n visible L d → reacting s u n visible (l :: L) d.
Proof. intros (Hx & [Hl Hv] & [Hl' Hn]). split_and!; auto. Qed.
#[local] Hint Resolve reacting_stable reacting_more : core.

Lemma reacted_new_commit clk n s u e r row c L d :
  Nat.leb (char_count e) 10 = true → exclusive L (RReaction s u) → exclusive L (RReactionId n) → exclusive L (RStory s) →
  story_reactions d !! (s, u) = None → id_free n d → stories d !! s = Some row →
  column (s_reaction_count row + 1) = Ok c → user_exists d u = true →
  story_commit L (Reacted s u r) d
    (set_stories (<[s := with_reaction_count c row]>)
      (set_story_reactions (<[(s, u) := mkReactionRow n e (db_now clk)]>) d)).
Proof.
  intros He Hlr Hli Hls Hr Hid Hs Hc Hu. split.
  - apply (reacted_effect clk n _ _ e). unfold add_reaction. unfold_m. rewrite He, Hr. unfold id_free in Hid. rewrite Hid.
    rewrite Hs. cbn [negb]. rewrite int4_column, Hc, Hu. by destruct (active_user d u).
  - apply reaction_locks with (u := u); [done|done|by rewrite Hs| |].
    + intros k Hk. by rewrite lookup_insert_ne.
    + intros r'. rewrite lookup_insert_eq. intros [= <-]. by left.
Qed.
Lemma reacted_old_commit (clk : Clock) (n s u : Uuid) e r old row L d :
  Nat.leb (char_count e) 10 = true → exclusive L (RReaction s u) → exclusive L (RStory s) →
  story_reactions d !! (s, u) = Some old → stories d !! s = Some row →
  story_commit L (Reacted s u r) d
    (set_stories (<[s := row]>) (set_story_reactions (<[(s, u) := mkReactionRow (sr_id old) e (sr_created_at old)]>) d)).
Proof.
  intros He Hlr Hls Hr Hs. split.
  - apply (reacted_effect clk n _ _ e). unfold add_reaction. unfold_m. rewrite He, Hr. unfold ok_or. simpl.
    assert (Hsame : ∀ f, set_stories (<[s := row]>) (set_story_reactions f d) = set_story_reactions f d).
    { intros f. unfold set_stories. simpl. by rewrite insert_id. }
    rewrite Hsame. by destruct (active_user d u).
  - apply reaction_locks with (u := u); [done|done|by rewrite Hs| |].
    + intros k Hk. by rewrite lookup_insert_ne.
    + intros r'. rewrite lookup_insert_eq. intros [= <-]. right. by exists old.
Qed.

Lemma wp_upsert tries failed clk n s u e visible k L d :
  (∀ er, unchanging (failed er)) → base s visible L d →
  (∀ L' d', reacting s u n visible L' d' →
     rwp (k (true, mkReactionRow n e (db_now clk))) L' (set_story_reactions (<[(s, u) := mkReactionRow n e (db_now clk)]>)) d') →
  (∀ old L' d', reacted s u visible old L' d' →
     rwp (k (false, mkReactionRow (sr_id old) e (sr_created_at old))) L'
       (set_story_reactions (<[(s, u) := mkReactionRow (sr_id old) e (sr_created_at old)]>)) d') →
  rwp (upsert_reaction tries failed clk n s u e k) L (λ d, d) d.
Proof.
  intros Hf Hd Hnew Hold. revert L d Hd. induction tries as [|tries IH]; intros L d Hd; [by apply wp_unchanging|].
  cbn [upsert_reaction]. unfold mbind, Proc_bind, mret, Proc_ret. apply (wp_insert _ (base s visible)); [done|done| |].
  - intros d1 H1 _. cbv iota. apply (wp_lock _ (base s visible)); [done|done|done|]. intros d2 H2.
    apply (wp_query _ (base s visible)); [done|done|]. intros d3 H3.
    destruct (story_reactions d3 !! (s, u)) as [old|] eqn:Ho; [|by apply IH].
    apply (wp_exec _ (reacted s u visible old)); [auto|split; [done|split; [right; left|done]]|]. intros d4 H4. by apply Hold.
  - intros d1 H1 Hfree. cbv iota. apply has_key_false in Hfree.
    set (P L d := base s visible L d ∧ exclusive L (RReaction s u) ∧ story_reactions d !! (s, u) = None).
    assert (HP : ∀ L, rstable L (P L)).
    { intros L' x y Hr (Hx & Hl & Hv). split; [by eapply base_stable|]. split; [done|]. by eapply (stable_reaction L' s u None). }
    apply (wp_insert _ P HP); [split; [done|split; [left; left|done]]| |].
    { intros. by apply wp_unchanging. }
    intros d2 (H2 & Hl2 & Hr2) Hid. simpl negb. cbv iota. apply Hnew. cbn [story_reactions set_story_reactions] in Hid.
    rewrite (exists_where_other sr_id (s, u) (mkReactionRow n e (db_now clk))) in Hid by done. cbn [sr_id] in Hid.
    split; [done|]. split; [split; [by apply exclusive_more|done]|]. split; [left; left|done].
Qed.

Lemma add_reaction_valid clk n s u e : valid story_commit story_inv (add_reaction_txn clk n s u e).
Proof.
  intros d Hd. unfold add_reaction_txn, script. destruct (Nat.leb (char_count e) 10) eqn:He; simpl negb; cbv iota; [|by apply wp_unchanging].
  unfold mbind, Proc_bind, mret, Proc_ret.
  apply (wp_query _ (λ _, story_inv)); [apply stable_inv|done|]. intros d1 H1. cbn [fst snd].
  set (visible := has_key s (stories d1)).
  assert (Hb : base s visible [] d1). { split; [done|]. by intros ?%has_key_false. }
  apply (wp_upsert _ _ _ _ _ _ _ visible); [auto|done| |].
  - intros L2 d2 H2. cbn [fst snd].
    apply (wp_update_story (reacting s u n visible)); [auto|auto|done|auto|done| | |].
    + intros Hnv. apply wp_no_story; [done|by apply H2|]. intros. by apply wp_unchanging.
    + intros L3 d3 H3 Hs3. apply wp_no_story; [done|done|]. intros. by apply wp_unchanging.
    + intros row row' L3 d3 H3 Hl3 Hs3 Hrow. cbn [count_reaction] in Hrow.
      destruct (column (s_reaction_count row + 1)) as [c|] eqn:Hc; simplify_eq.
      set (Q L d := reacting s u n visible L d ∧ (exclusive L (RStory s) ∧ stories d !! s = Some row)).
      assert (HQ : ∀ L, rstable L (Q L)).
      { intros L x y Hr (Hx & Hl & Hs). split; [by eapply reacting_stable|]. split; [done|]. by eapply (stable_story_row L s (Some row)). }
      assert (HQm : ∀ L l d, Q L d → Q (l :: L) d) by (intros L l x (Hx & Hl & Hs); split; auto).
      set (R L d := Q L d ∧ user_exists d u = true).
      assert (HR : ∀ L, rstable L (R L)) by (intros L; apply stable_conj; [apply HQ|apply stable_user]).
      assert (HRm : ∀ L l d, R L d → R (l :: L) d) by (intros L l x [Hx Hu]; split; auto).
      apply (wp_references _ Q Q); [done..|by split| |]; [intros; by apply wp_unchanging|].
      intros d4 H4. simpl negb. cbv iota. apply (wp_references _ Q R); [done..|by split|done| |]; [intros; by apply wp_unchanging|].
      intros d5 H5. simpl negb. cbv iota. intros d6 Hdr.
      destruct (stable_drifts _ _ _ _ _ (HR _) Hdr H5) as [[(_ & [Hlr Hr] & [Hli Hid]) [Hls Hs]] Hu]. by apply reacted_new_commit.
  - intros old L2 d2 H2. cbn [fst snd]. apply (wp_reacted_update _ s u visible old); [done|auto|done|].
    intros row row' L3 d3 Hl Hls Hr3 Hs3 [= <-] d4 Hdr.
    destruct (stable_drifts _ _ _ _ _ (stable_conj _ _ _ (stable_reaction L3 s u (Some old) Hl) (stable_story_row L3 s (Some row) Hls)) Hdr
      (conj Hr3 Hs3)) as [Hr4 Hs4].
    by apply (reacted_old_commit clk n).
Qed.

(** *** [delete_story] *)

(** A loop over all the rows [keys] that a frozen part of the database holds. *)
Lemma wp_cascade {K} `{EqDecision K} (F : Locks → Db → Prop) (row : K → Row) m matches change (keys : list K) k L w d :
  (∀ L, rstable L (F L)) → (∀ L l d, F L d → F (l :: L) d) →
  (∀ L d dn x, F L d → dn ⊆ keys → x ∈ keys → matches x (changed change dn (w d)) = bool_decide (x ∉ dn)) →
  F L d →
  (∀ ks dn L' d', F L' d' → dn ⊆ keys → keys ⊆ dn → (∀ x, x ∈ dn → (row x, m) ∈ L') →
     rwp (k ks) L' (λ d, changed change dn (w d)) d') →
  rwp (change_rows row m matches change keys k) L w d.
Proof.
  intros HF HFm Hm Hd Hk.
  apply (wp_change_rows _ row m matches change (λ t dn L d, F L d ∧ t ⊆ keys ∧ dn ⊆ keys ∧
    (∀ x, x ∈ keys → x ∈ t ∨ x ∈ dn) ∧ ∀ x, x ∈ dn → (row x, m) ∈ L) keys [] k L w d).
  - intros t dn L' x y Hr (Hx & Hrest). split; [by eapply HF|done].
  - intros t dn L' lk x (Hx & Ht & Hdn & Hc & Hl). split_and!; auto. intros z Hz. apply list_elem_of_further. auto.
  - intros x t dn L' d' Hlx (Hx & Ht & Hdn & Hc & Hl). assert (Hxk : x ∈ keys) by (apply Ht; left).
    rewrite (Hm L' d' dn x Hx Hdn Hxk). case_bool_decide as Hin.
    + split_and!; [done|set_solver|set_solver| |].
      * intros z [[->|Hz]%elem_of_cons|Hz]%Hc; [right; left|by left|right; by right].
      * intros z [->|Hz]%elem_of_cons; auto.
    + split_and!; [done|set_solver|done| |done].
      intros z [[->|Hz]%elem_of_cons|Hz]%Hc; auto.
  - split_and!; [done|done|set_solver|by left|]. by intros x ?%elem_of_nil.
  - intros ks dn L' d' (Hx & _ & Hdn & Hc & Hl). apply Hk; [done|done| |done].
    intros x [Hn|?]%Hc; [by apply elem_of_nil in Hn|done].
Qed.

(** What the loops have done to a table. *)
Lemma foldr_delete_where `{Countable K} {V} (P : K → bool) (ks : list K) (m : gmap K V) :
  (∀ k, k ∈ ks → P k = true) → (∀ k v, m !! k = Some v → P k = true → k ∈ ks) →
  foldr delete m ks = delete_where (λ k _, P k) m.
Proof.
  intros H1 H2. rewrite <-delete_selected, <-!sweep_delete. apply map_eq. intros k. rewrite !lookup_sweep by done. unfold hits.
  destruct (m !! k) as [v|] eqn:Hk; [|by rewrite !andb_false_r]. rewrite !andb_true_r.
  rewrite (bool_decide_ext (k ∈ ks) (k ∈ select (λ k _, if P k then Some k else None) m)); [done|].
  rewrite elem_of_select. split.
  - intros Hin. exists k, v. by rewrite (H1 k Hin).
  - intros (k' & v' & Hk' & Hs). destruct (P k') eqn:HP; [|done]. injection Hs as ->. by eapply H2.
Qed.
Lemma lookup_foldr_alter (ks : list Uuid) (m : gmap Uuid HighlightRow) k :
  foldr (alter no_cover) m ks !! k = (if bool_decide (k ∈ ks) then no_cover else id) <$> m !! k.
Proof.
  induction ks as [|x ks IH]; [rewrite bool_decide_false by apply not_elem_of_nil; by rewrite option_fmap_id|].
  simpl. destruct (decide (x = k)) as [->|Hne].
  - rewrite lookup_alter_eq, IH, (bool_decide_true (k ∈ k :: ks)) by left. destruct (m !! k); simpl; [|done]. by case_bool_decide.
  - rewrite lookup_alter_ne, IH by done. by rewrite (bool_decide_ext (k ∈ x :: ks) (k ∈ ks)) by set_solver.
Qed.
Lemma foldr_alter_where s (ks : list Uuid) (m : gmap Uuid HighlightRow) :
  (∀ k, k ∈ ks → ∃ h, m !! k = Some h ∧ covers s h = true) → (∀ k h, m !! k = Some h → covers s h = true → k ∈ ks) →
  foldr (alter no_cover) m ks = update_where (λ _, covers s) no_cover m.
Proof.
  intros H1 H2. apply map_eq. intros k. rewrite lookup_foldr_alter, lookup_update_where.
  destruct (m !! k) as [h|] eqn:Hk; simpl; [|done]. destruct (covers s h) eqn:Hc.
  - by rewrite bool_decide_true by (by eapply H2).
  - rewrite bool_decide_false; [done|]. intros (h' & Hk' & Hc')%H1. congruence.
Qed.
Lemma changed_set {K T} (set : (T → T) → Db → Db) (f : K → T → T) (ks : list K) d :
  (∀ d, set (λ m, m) d = d) → (∀ g h d, set g (set h d) = set (λ m, g (h m)) d) →
  changed (λ k, set (f k)) ks d = set (λ m, foldr f m ks) d.
Proof. intros Hid Hcomp. induction ks as [|x ks IH]; simpl; [by rewrite Hid|]. by rewrite IH, Hcomp. Qed.

Definition without_story (s : Uuid) (d : Db) : Db :=
  set_story_highlights (update_where (λ _, covers s) no_cover)
  (set_story_highlight_items (delete_where (λ k _, bool_decide (k.2 = s)))
  (set_story_reactions (delete_where (λ k _, bool_decide (k.1 = s)))
  (set_story_views (delete_where (λ k _, bool_decide (k.1 = s)))
  (set_stories (delete s) d)))).
Lemma lookup_delete_key `{Countable K} {V} (P : K → bool) (m : gmap K V) k :
  delete_where (λ k _, P k) m !! k = if P k then None else m !! k.
Proof.
  destruct (P k) eqn:HP; [apply lookup_delete_where_None; naive_solver|]. apply option_eq. intros v. rewrite lookup_delete_where. naive_solver.
Qed.
Lemma deleted_commit s u row L d :
  stories d !! s = Some row → s_user_id row = u → exclusive L (RStory s) →
  (∀ v x, story_views d !! (s, v) = Some x → exclusive L (RView s v)) →
  (∀ v x, story_reactions d !! (s, v) = Some x → exclusive L (RReaction s v)) →
  story_commit L (StoryDeleted s u (Ok true)) d (without_story s d).
Proof.
  intros Hs Hu Hls Hlv Hlr. split.
  - simpl. unfold delete_story. unfold_m. rewrite Hs, bool_decide_true by done. by rewrite (delete_story_rows_one s row).
  - split; cbn [without_story stories story_views story_reactions story_highlight_items story_highlights users set_story_highlights
      set_story_highlight_items set_story_reactions set_story_views set_stories].
    + apply (only_story s); [done|]. intros s' Hne.
      split_and!; cbn [without_story stories story_views story_reactions story_highlight_items story_highlights set_story_highlights
        set_story_highlight_items set_story_reactions set_story_views set_stories].
      * by rewrite lookup_delete_ne.
      * intros v. by rewrite lookup_delete_key, bool_decide_false.
      * intros v. by rewrite lookup_delete_key, bool_decide_false.
      * intros h. by rewrite lookup_delete_key, bool_decide_false.
      * intros h r Hr. rewrite lookup_update_where. destruct (story_highlights d !! h) as [h0|]; simpl; [|done].
        destruct (covers s h0) eqn:Hc; [|done]. unfold covers in *. rewrite bool_decide_eq_true in Hr, Hc.
        split; [congruence|]. intros [= <-]. done.
    + intros s' v. rewrite lookup_delete_key. case_bool_decide as Hk; [simpl in Hk; subst s'|by right].
      destruct (story_views d !! (s, v)) eqn:Hv; [left; eauto|by right].
    + intros s' v. rewrite lookup_delete_key. case_bool_decide as Hk; [simpl in Hk; subst s'|by right].
      destruct (story_reactions d !! (s, v)) eqn:Hv; [left; eauto|by right].
    + intros k r' [Hk _]%lookup_delete_where. eauto.
    + intros s' Hs'. by rewrite lookup_delete_None; right.
    + done.
Qed.

(** The deleted story and all that hangs on it stay as they were when it was locked. *)
Definition frozen (s : Uuid) (d1 : Db) (L : Locks) (d : Db) : Prop := (RStory s, ForUpdate) ∈ L ∧ same_story s d1 d.
Lemma frozen_stable s d1 L : rstable L (frozen s d1 L).
Proof. intros x y Hr [Hl Hx]. split; [done|]. eapply (stable_story L s d1); [by left|done..]. Qed.
Lemma frozen_more s d1 L l d : frozen s d1 L d → frozen s d1 (l :: L) d.
Proof. intros [Hl Hx]. split; [by apply list_elem_of_further|done]. Qed.
#[local] Hint Resolve frozen_stable frozen_more : core.

Lemma elem_of_keys `{Countable K} {V} (P : K → bool) (m : gmap K V) k :
  k ∈ select (λ k _, if P k then Some k else None) m ↔ P k = true ∧ is_Some (m !! k).
Proof.
  rewrite elem_of_select. split; [|intros [HP [v Hv]]; exists k, v; by rewrite HP].
  intros (k' & v & Hk & Hs). destruct (P k') eqn:HP; [|done]. injection Hs as ->. eauto.
Qed.
(** The rows of a table are locked and gone. *)
Definition cleared {K} (F : Locks → Db → Prop) (row : K → Row) (dn : list K) (L : Locks) (d : Db) : Prop :=
  F L d ∧ ∀ x, x ∈ dn → (row x, ForUpdate) ∈ L.
Lemma cleared_stable {K} F (row : K → Row) dn L : rstable L (F L) → rstable L (cleared F row dn L).
Proof. intros HF x y Hr [Hx Hl]. split; [by eapply HF|done]. Qed.
Lemma cleared_more {K} F (row : K → Row) dn L l d : (∀ L l d, F L d → F (l :: L) d) → cleared F row dn L d → cleared F row dn (l :: L) d.
Proof. intros HF [Hx Hl]. split; [auto|]. intros x Hin. by apply list_elem_of_further, Hl. Qed.
#[local] Hint Resolve cleared_stable cleared_more : core.

Section cascade.
Context (F : Locks → Db → Prop) (HF : ∀ L, rstable L (F L)) (HFm : ∀ L l d, F L d → F (l :: L) d) (d1 : Db).
Lemma wp_delete_keys {V} (P : Uuid * Uuid → bool) row (get : Db → gmap _ V) upd k L w d :
  (∀ d, upd (λ m, m) d = d) → (∀ g h d, upd g (upd h d) = upd (λ m, g (h m)) d) → (∀ f d, get (upd f d) = f (get d)) →
  (∀ d, get (w d) = get d) → (∀ L d x, F L d → P x = true → get d !! x = get d1 !! x) → F L d →
  (∀ ks dn L' d', cleared F row dn L' d' → (∀ x, x ∈ dn → P x = true) → (∀ x v, get d1 !! x = Some v → P x = true → x ∈ dn) →
     rwp (k ks) L' (λ d, upd (λ m, foldr delete m dn) (w d)) d') →
  rwp (delete_keys P row get upd k) L w d.
Proof using HF HFm.
  intros Hid Hcomp Hget Hw Hsame Hd0 Hk. unfold delete_keys, mbind, Proc_bind.
  apply (wp_query _ F HF); [done|]. clear Hd0 d. intros d Hd. rewrite Hw.
  assert (Hch : ∀ dn x, changed (λ k, upd (delete k)) dn x = upd (λ m, foldr delete m dn) x).
  { intros dn x. by apply (changed_set upd (λ k m, delete k m)). }
  apply (wp_cascade F); [done|done| |done|].
  - intros L' d' dn x Hd' Hdn [HP Hx]%elem_of_keys. rewrite Hch, Hget, has_key_foldr_delete, Hw.
    rewrite (Hsame L d x Hd HP), <-(Hsame L' d' x Hd' HP) in Hx. apply has_key_true in Hx as ->.
    rewrite andb_true_r. by rewrite bool_decide_not.
  - intros ks dn L' d' Hd' Hdn Hall Hlk. apply (wp_ext _ _ _ (λ d, upd (λ m, foldr delete m dn) (w d))).
    + intros x. symmetry. apply Hch.
    + apply (Hk ks dn); [by split| |].
      * intros x Hx. apply Hdn, elem_of_keys in Hx. by destruct Hx.
      * intros x v Hv HP. apply Hall, elem_of_keys. split; [done|]. rewrite (Hsame L d x Hd HP), Hv. eauto.
Qed.
Lemma wp_clear_covers s k L w d :
  (∀ d, story_highlights (w d) = story_highlights d) →
  (∀ L d h r, F L d → covers s r = true → story_highlights d !! h = Some r ↔ story_highlights d1 !! h = Some r) → F L d →
  (∀ ks dn L' d', F L' d' → (∀ x, x ∈ dn ↔ ∃ h, story_highlights d1 !! x = Some h ∧ covers s h = true) →
     rwp (k ks) L' (λ d, set_story_highlights (λ m, foldr (alter no_cover) m dn) (w d)) d') →
  rwp (clear_covers s k) L w d.
Proof using HF HFm.
  intros Hw Hsame Hd0 Hk. unfold clear_covers, mbind, Proc_bind.
  apply (wp_query _ F HF); [done|]. clear Hd0 d. intros d Hd. rewrite Hw.
  assert (Hch : ∀ dn x, changed (λ k, set_story_highlights (alter no_cover k)) dn x = set_story_highlights (λ m, foldr (alter no_cover) m dn) x).
  { intros dn x. apply (changed_set set_story_highlights (λ k m, alter no_cover k m)); [by intros []|done]. }
  assert (Hkeys : ∀ x, x ∈ select (λ k h, if covers s h then Some k else None) (story_highlights d) ↔
    ∃ h, story_highlights d1 !! x = Some h ∧ covers s h = true).
  { intros x. rewrite elem_of_select. split.
    - intros (x' & h & Hx & Hs). destruct (covers s h) eqn:Hc; [|done]. injection Hs as ->. exists h. by rewrite <-(Hsame L d).
    - intros (h & Hx & Hc). exists x, h. by rewrite Hc, (Hsame L d). }
  apply (wp_cascade F); [done|done| |done|].
  - intros L' d' dn x Hd' Hdn (h & Hx & Hc)%Hkeys. rewrite Hch. cbn [story_highlights set_story_highlights].
    rewrite lookup_foldr_alter, Hw. apply (Hsame L' d') in Hx as ->; [|done..]. simpl.
    rewrite bool_decide_not. by case_bool_decide; simpl.
  - intros ks dn L' d' Hd' Hdn Hall _. eapply wp_ext; [intros x; symmetry; apply Hch|]. apply (Hk ks dn); [done|].
    intros x. rewrite <-Hkeys. split; [apply Hdn|apply Hall].
Qed.
End cascade.

(** The writes of the whole cascade. *)
Lemma without_story_writes s dn1 dn2 dn3 dn4 d1 d :
  same_story s d1 d →
  (∀ x, x ∈ dn1 → bool_decide (x.1 = s) = true) → (∀ x v, story_views d1 !! x = Some v → bool_decide (x.1 = s) = true → x ∈ dn1) →
  (∀ x, x ∈ dn2 → bool_decide (x.1 = s) = true) → (∀ x v, story_reactions d1 !! x = Some v → bool_decide (x.1 = s) = true → x ∈ dn2) →
  (∀ x, x ∈ dn3 → bool_decide (x.2 = s) = true) → (∀ x v, story_highlight_items d1 !! x = Some v → bool_decide (x.2 = s) = true → x ∈ dn3) →
  (∀ x, x ∈ dn4 ↔ ∃ h, story_highlights d1 !! x = Some h ∧ covers s h = true) →
  set_story_highlights (λ m, foldr (alter no_cover) m dn4)
    (set_story_highlight_items (λ m, foldr delete m dn3)
      (set_story_reactions (λ m, foldr delete m dn2) (set_story_views (λ m, foldr delete m dn1) (set_stories (delete s) d))))
  = without_story s d.
Proof.
  intros (_ & Hv & Hr & Hi & Hh) H1 H1' H2 H2' H3 H3' H4. unfold without_story.
  rewrite (set_story_views_ext _ (delete_where (λ k _, bool_decide (k.1 = s)))).
  2: { apply foldr_delete_where; [done|]. intros [s' v] x Hx Hs. pose proof Hs as He. apply bool_decide_eq_true in He. simpl in He. subst s'.
       eapply H1'; [|done]. rewrite Hv. exact Hx. }
  rewrite (set_story_reactions_ext _ (delete_where (λ k _, bool_decide (k.1 = s)))).
  2: { apply foldr_delete_where; [done|]. intros [s' v] x Hx Hs. pose proof Hs as He. apply bool_decide_eq_true in He. simpl in He. subst s'.
       eapply H2'; [|done]. rewrite Hr. exact Hx. }
  rewrite (set_story_highlight_items_ext _ (delete_where (λ k _, bool_decide (k.2 = s)))).
  2: { apply foldr_delete_where; [done|]. intros [h s'] x Hx Hs. pose proof Hs as He. apply bool_decide_eq_true in He. simpl in He. subst s'.
       eapply H3'; [|done]. rewrite Hi. exact Hx. }
  apply set_story_highlights_ext. apply foldr_alter_where.
  - intros k (h & Hk & Hc)%H4. exists h. split; [|done]. by apply Hh.
  - intros k h Hk Hc. apply H4. exists h. split; [|done]. by apply Hh.
Qed.

Lemma delete_story_valid s u : valid story_commit story_inv (delete_story_txn s u).
Proof.
  intros d Hd. unfold delete_story_txn, script, mbind, Proc_bind, mret, Proc_ret.
  apply (wp_query _ (λ _ _, True)); [by intros ????|done|]. intros d0 _.
  destruct (owned_story s u d0); simpl negb; cbv iota; [|by apply unchanging_commit].
  apply (wp_lock _ (λ _ _, True)); [by intros ????|done|done|]. intros d1' _.
  apply (wp_query _ (λ L _, (RStory s, ForUpdate) ∈ L)); [by intros ????|left|]. intros d1 Hl1.
  destruct (owned_story s u d1) eqn:Ho; simpl negb; cbv iota; [|by apply unchanging_commit].
  unfold owned_story in Ho. destruct (stories d1 !! s) as [row|] eqn:Hrow; [|done]. apply bool_decide_eq_true in Ho.
  apply (wp_exec _ (frozen s d1)); [auto|split; [done|apply same_story_refl]|]. intros d2 H2.
  apply (wp_delete_keys (frozen s d1) (frozen_stable s d1) (frozen_more s d1) d1); [by intros []|done|done|done| |done|].
  { intros L' x [s' v] [_ (_ & Hv & _)] He. apply bool_decide_eq_true in He. simpl in He. by subst s'. }
  intros _ dn1 L3 d3 H3 Hin1 Hall1.
  eapply (wp_delete_keys (cleared (frozen s d1) (λ k, RView k.1 k.2) dn1)); [auto|auto|by intros []|done|done|done| |exact H3|].
  { intros L' x [s' v] [[_ (_ & _ & Hv & _)] _] He. apply bool_decide_eq_true in He. simpl in He. by subst s'. }
  intros _ dn2 L4 d4 H4 Hin2 Hall2.
  eapply (wp_delete_keys (cleared (cleared (frozen s d1) (λ k, RView k.1 k.2) dn1) (λ k, RReaction k.1 k.2) dn2)); [auto|auto|by intros []|done|done|done| |exact H4|].
  { intros L' x [h s'] [[[_ (_ & _ & _ & Hv & _)] _] _] He. apply bool_decide_eq_true in He. simpl in He. by subst s'. }
  intros _ dn3 L5 d5 [H5 _] Hin3 Hall3.
  eapply (wp_clear_covers (cleared (cleared (frozen s d1) (λ k, RView k.1 k.2) dn1) (λ k, RReaction k.1 k.2) dn2)); [auto|auto|done| |exact H5|].
  { intros L' x h r [[[_ (_ & _ & _ & _ & Hv)] _] _] Hc. symmetry. by apply Hv. }
  intros _ dn4 L6 d6 H6 Hin4 d7 Hdr.
  destruct (stable_drifts _ _ _ _ _ (cleared_stable _ _ dn2 L6 (cleared_stable _ _ dn1 L6 (frozen_stable s d1 L6))) Hdr H6)
    as [[[Hls Hsame] Hl1'] Hl2].
  rewrite (without_story_writes s dn1 dn2 dn3 dn4 d1 d7) by done. destruct Hsame as (Hs & Hv & Hr & _).
  apply (deleted_commit s u row); [by rewrite <-Hs|done|by left| |].
  - intros v x Hx. left. apply (Hl1' (s, v)). eapply Hall1; [by rewrite Hv|]. by apply bool_decide_eq_true.
  - intros v x Hx. left. apply (Hl2 (s, v)). eapply Hall2; [by rewrite Hr|]. by apply bool_decide_eq_true.
Qed.

(** ** The theorems *)

Inductive story_request : Txn StoryAnswer → Prop :=
| req_seen clk s v : story_request (mark_seen_txn clk s v)
| req_react clk n s u e : story_request (add_reaction_txn clk n s u e)
| req_unreact s u : story_request (remove_reaction_txn s u)
| req_delete_story s u : story_request (delete_story_txn s u).
Lemma story_request_valid p : story_request p → valid story_commit story_inv p.
Proof. intros []; auto using mark_seen_valid, add_reaction_valid, remove_reaction_valid, delete_story_valid. Qed.

(** The viewers that were told it was their first view of the story. *)
Definition first_views (id : Uuid) (as_ : list StoryAnswer) : list Uuid :=
  omap (λ a, match a with Saw s v (Ok true) => if decide (s = id) then Some v else None | _ => None end) as_.
Lemma first_views_cons id a as_ : first_views id (a :: as_) = first_views id [a] ++ first_views id as_.
Proof. unfold first_views. cbn. by case_match. Qed.

(** What one answer did to the views of a story that is still there. *)
Definition views_by (id : Uuid) (vs : list Uuid) (d d' : Db) : Prop :=
  ∀ r r', stories d !! id = Some r → stories d' !! id = Some r' →
  s_view_count r' = s_view_count r + Z.of_nat (length vs) ∧ (∀ v, v ∈ vs → story_views d !! (id, v) = None) ∧
  ∀ v, is_Some (story_views d' !! (id, v)) ↔ v ∈ vs ∨ is_Some (story_views d !! (id, v)).
Lemma views_by_same id d d' :
  (∀ r, stories d' !! id = Some r → s_view_count <$> stories d !! id = Some (s_view_count r)) →
  (∀ v, stories d' !! id ≠ None → story_views d' !! (id, v) = story_views d !! (id, v)) → views_by id [] d d'.
Proof.
  intros Hc Hv r r' Hr Hr'. specialize (Hc _ Hr'). rewrite Hr in Hc. injection Hc as Hc. simpl. split_and!; [lia| |].
  - by intros v ?%elem_of_nil.
  - intros v. rewrite Hv by congruence. set_solver.
Qed.
Lemma mark_seen_views clk s v d d' id :
  mark_seen clk s v d = (Ok true, d') → views_by id (if decide (s = id) then [v] else []) d d'.
Proof.
  unfold mark_seen, int4. run; try done; intros [= <-] r r'; simpl; bool_to_prop.
  - rewrite lookup_insert_eq. intros Hr [= <-]. simplify_eq. simpl. split; [lia|].
    split; [intros w ->%list_elem_of_singleton; by apply has_key_false|]. intros w. rewrite list_elem_of_singleton.
    destruct (decide (w = v)) as [->|Hne]; [rewrite lookup_insert_eq; naive_solver|rewrite lookup_insert_ne by congruence; naive_solver].
  - rewrite lookup_insert_ne by done. intros Hr Hr'. simplify_eq. simpl. split; [lia|].
    split; [by intros w ?%elem_of_nil|]. intros w. rewrite lookup_insert_ne by congruence. set_solver.
Qed.
Lemma add_reaction_views clk n s u e d id : views_by id [] d (snd (add_reaction clk n s u e d)).
Proof.
  apply views_by_same; unfold add_reaction, int4; run; try done; intros row; simpl; try (by intros ->).
  all: rewrite lookup_insert_Some; intros [[<- <-]|[_ ->]]; [|done];
    match goal with Hs : stories _ !! _ = Some _ |- _ => by rewrite Hs end.
Qed.
Lemma remove_reaction_views s u d id : views_by id [] d (snd (remove_reaction s u d)).
Proof.
  apply views_by_same; unfold remove_reaction; run; try done; intros row; simpl; try (by intros ->).
  rewrite lookup_insert_Some; intros [[<- <-]|[_ ->]]; [|done];
    match goal with Hs : stories _ !! _ = Some _ |- _ => by rewrite Hs end.
Qed.
Lemma delete_story_views s u d id : views_by id [] d (snd (delete_story s u d)).
Proof.
  apply views_by_same; unfold delete_story; run; try done; try (by intros r ->); erewrite delete_story_rows_one by done; simpl.
  - intros r [_ ->]%lookup_delete_Some. done.
  - intros v Hn. rewrite lookup_delete_key, bool_decide_false; [done|]. simpl. intros ->. by rewrite lookup_delete_eq in Hn.
Qed.
Lemma views_step L ans d d' id : story_commit L ans d d' → views_by id (first_views id [ans]) d d'.
Proof.
  intros [He _]. unfold first_views. cbn.
  destruct ans as [s v [[]|]|s u [|]|s u [[]|]|s u [[]|]]; simpl in He; try (subst d'; apply views_by_same; [by intros r ->|done]).
  - destruct He as [clk He]. apply mark_seen_views with (id := id) in He. by case_decide.
  - destruct He as (clk & n & e & ->). apply add_reaction_views.
  - destruct He as [->|(clk & n & em & ->)]; [apply views_by_same; [by intros r ->|done]|apply add_reaction_views].
  - replace d' with (snd (remove_reaction s u d)) by (by rewrite He). apply remove_reaction_views.
  - replace d' with (snd (delete_story s u d)) by (by rewrite He). apply delete_story_views.
Qed.
Lemma views_replay d0 as_ d id r r' :
  replay story_commit d0 as_ d → stories d0 !! id = Some r → stories d !! id = Some r' →
  s_view_count r' = s_view_count r + Z.of_nat (length (first_views id as_)) ∧ NoDup (first_views id as_) ∧
  ∀ v, is_Some (story_views d !! (id, v)) ↔ v ∈ first_views id as_ ∨ is_Some (story_views d0 !! (id, v)).
Proof.
  intros Hrep Hr. revert r'. induction Hrep as [|as_ a L d d' Hrep IH Hst]; intros r' Hr'.
  - simplify_eq. split; [simpl; lia|]. split; [apply NoDup_nil_2|]. set_solver.
  - destruct (stories d !! id) as [r1|] eqn:Hr1; [|destruct Hst as [_ Hl]; apply (sl_gone _ _ _ Hl) in Hr1; congruence].
    destruct (IH r1 eq_refl) as (Hc & Hnd & Hv). destruct (views_step _ _ _ _ id Hst r1 r' Hr1 Hr') as (Hc' & Hn' & Hv').
    rewrite first_views_cons, length_app. split; [lia|]. split.
    + apply NoDup_app. split; [|split; [|done]].
      * unfold first_views. cbn. case_match; [apply NoDup_singleton|apply NoDup_nil_2].
      * intros v Hin Hin'. apply Hn' in Hin. destruct (proj2 (Hv v) (or_introl Hin')). congruence.
    + intros v. rewrite Hv', Hv, elem_of_app. tauto.
Qed.

(** C16: the counters of a story are right under concurrency. However views, reactions,
    their removals and deletions of stories interleave, part by part of their statements,
    and wherever they are cut off: the counters a story shows are the numbers of its
    view and reaction rows, and no row outlives its story; the committed database is
    explained by the answers, each that reports a change having done exactly what the
    operation does alone; and as long as a story lives its view counter has grown by one
    for every viewer that was told it was their first view, each viewer at most once. *)
Theorem concurrent_story_counters ms d s :
  story_inv d → (∀ i p, Begin i p ∈ ms → story_request p) → schedule ms (idle_machine d) = Some s →
  story_inv (committed s) ∧ replay story_commit d (answered s) (committed s) ∧
  ∀ id r r', stories d !! id = Some r → stories (committed s) !! id = Some r' →
    s_view_count r' = s_view_count r + Z.of_nat (length (first_views id (answered s))) ∧
    NoDup (first_views id (answered s)) ∧
    ∀ v, is_Some (story_views (committed s) !! (id, v)) ↔ v ∈ first_views id (answered s) ∨ is_Some (story_views d !! (id, v)).
Proof.
  intros Hd Hms Hs. assert (Hrep : replay story_commit d (answered s) (committed s)).
  { eapply (schedule_replay _ story_inv); [|done| |done]; [intros ????; apply story_commit_inv|]. eauto using story_request_valid. }
  split; [|split; [done|intros; by eapply views_replay]]. clear Hs. induction Hrep; [done|]. by eapply story_commit_inv.
Qed.

(** ** Two stories appended to a highlight at once *)

Inductive HighlightAnswer := Appended (highlight story : Uuid) (position : Z) | AlreadyIn | AppendFailed (e : StoryError).

(** The last statement of [add_to_highlight]: [INSERT .. SELECT $1, $2,
    COALESCE(MAX(position) + 1, 0) .. ON CONFLICT (highlight_id, story_id) DO NOTHING]. *)
Definition append_item_txn (h s : Uuid) : Txn HighlightAnswer := script (
  position ← query (λ d, column (next_position d h));
  match position with
  | Err e => rollback (AppendFailed (StoryDb e))
  | Ok position =>
      inserted ← insert_row (RItem h s) (λ d, has_key (h, s) (story_highlight_items d))
                   (set_story_highlight_items (<[(h, s) := position]>));
      if negb inserted then mret AlreadyIn else
      highlight_ok ← references (RHighlight h) (λ d, has_key h (story_highlights d));
      if negb highlight_ok then rollback (AppendFailed (StoryDb (ForeignKeyViolation "story_highlight_items_highlight_id_fkey"))) else
      story_ok ← references (RStory s) (λ d, has_key s (stories d));
      if negb story_ok then rollback (AppendFailed (StoryDb (ForeignKeyViolation "story_highlight_items_story_id_fkey"))) else
      mret (Appended h s position)
  end).

(** Alone, the statement appends: the position is after all others. *)
Lemma append_item_alone h s d :
  has_key (h, s) (story_highlight_items d) = false → has_key h (story_highlights d) = true → has_key s (stories d) = true →
  run_alone (append_item_txn h s) d =
  match column (next_position d h) with
  | Ok p => (Appended h s p, set_story_highlight_items (<[(h, s) := p]>) d)
  | Err e => (AppendFailed (StoryDb e), d)
  end.
Proof.
  intros Hi Hh Hs. unfold append_item_txn. unfold_txn. destruct (column (next_position d h)) as [p|e]; cbn [alone]; [|done].
  rewrite Hi. cbn [negb alone]. rewrite alone_references. cbn [story_highlights set_story_highlight_items]. rewrite Hh. cbn [negb alone].
  rewrite alone_references. cbn [stories set_story_highlight_items]. by rewrite Hs.
Qed.

(** A highlight of user 2 and two of their stories. *)
Definition a_highlight : Db :=
  set_story_highlights (λ _, {[ 70%N := mkHighlightRow 2 "trip" None 5 5 ]})
    (set_stories (λ _, <[40%N := mkStoryRow 2 7 None 10 100 StoryPublic 0 0]> {[ 41%N := mkStoryRow 2 7 None 11 100 StoryPublic 0 0 ]}) two_users).
Definition two_appends : list (PoolMove HighlightAnswer) :=
  [Begin 1 (append_item_txn 70 40); Begin 2 (append_item_txn 70 41); Step 1; Step 2] ++ replicate 8 (Step 1) ++ replicate 8 (Step 2).

(** Computing the position in the statement that inserts the item does not keep
    concurrent appends apart. Both statements take their snapshot before either commits,
    nothing makes one wait for the other, and both stories end up at position 0 of the
    highlight; one after the other they get the positions 0 and 1. *)
Theorem concurrent_appends_collide :
  let s := default (idle_machine a_highlight) (schedule two_appends (idle_machine a_highlight)) in
  schedule two_appends (idle_machine a_highlight) ≠ None ∧
  answered s = [Appended 70 41 0; Appended 70 40 0] ∧
  story_highlight_items (committed s) !! (70%N, 40%N) = Some 0 ∧ story_highlight_items (committed s) !! (70%N, 41%N) = Some 0 ∧
  let d1 := snd (run_alone (append_item_txn 70 40) a_highlight) in
  fst (run_alone (append_item_txn 70 40) a_highlight) = Appended 70 40 0 ∧
  fst (run_alone (append_item_txn 70 41) d1) = Appended 70 41 1.
Proof. vm_compute. split_and!; (reflexivity || discriminate). Qed.

(** ** Concrete runs *)

Definition one_story : Db := set_stories (λ _, {[ 40%N := mkStoryRow 2 7 None 10 100 StoryPublic 0 0 ]}) two_users.
Lemma one_story_inv : story_inv one_story.
Proof.
  split; simpl.
  - intros id r. rewrite lookup_singleton_Some. by intros [<- <-].
  - intros id r. rewrite lookup_singleton_Some. by intros [<- <-].
  - intros k t. by rewrite lookup_empty.
  - intros k t. by rewrite lookup_empty.
Qed.
(** Two viewers at once, one of whom reacts: both views are inserted before either counter
    is raised. *)
Definition two_views : list (PoolMove StoryAnswer) :=
  [Begin 1 (mark_seen_txn (mkClock 20 20) 40 1); Begin 2 (mark_seen_txn (mkClock 21 21) 40 2);
   Begin 3 (add_reaction_txn (mkClock 22 22) 9 40 1 "x")]
  ++ replicate 2 (Step 1) ++ replicate 2 (Step 2) ++ replicate 3 (Step 3) ++ replicate 10 (Step 1) ++ replicate 10 (Step 2)
  ++ replicate 10 (Step 3).
Definition after_views (ms : list (PoolMove StoryAnswer)) (d : Db) : Machine StoryAnswer :=
  default (idle_machine d) (schedule ms (idle_machine d)).
Lemma concurrent_story_counters_witness :
  let s := after_views two_views one_story in
  first_views 40 (answered s) = [2%N; 1%N] ∧
  (s_view_count <$> stories (committed s) !! 40%N) = Some 2 ∧ (s_reaction_count <$> stories (committed s) !! 40%N) = Some 1 ∧
  story_inv (committed s).
Proof.
  intros s. split; [vm_compute; reflexivity|]. split; [vm_compute; reflexivity|]. split; [vm_compute; reflexivity|].
  apply (concurrent_story_counters two_views one_story s); [apply one_story_inv| |].
  - intros i p Hp. unfold two_views in Hp. rewrite !elem_of_app, !elem_of_cons in Hp.
    destruct Hp as [[[= -> ->]|[[= -> ->]|[[= -> ->]|[]%elem_of_nil]]]|Hp]; [constructor|constructor|constructor|].
    destruct Hp as [Hp|[Hp|[Hp|[Hp|[Hp|Hp]]]]]; by apply elem_of_replicate in Hp as [??].
  - unfold s, after_views. destruct (schedule two_views (idle_machine one_story)) eqn:Hs; [done|]. by vm_compute in Hs.
Defined.
