(* ===== verification/Moderation.v ===== *)
(** * Moderation

    [ModerationService] of [src/app/moderation.rs]: reports on users and posts, the
    takedowns of an administrator, and the audit log each of them writes in the
    same transaction. *)

From S2P Require Import Prelude Sql Keyset Domain Schema.
From stdpp Require Import options.

#[local] Open Scope Z_scope.

(** [INSERT INTO moderation_actions ..]. *)
Definition insert_action (clk : Clock) (new_id : Uuid) (actor_id : option Uuid) (target_type : string)
    (target_id : Uuid) (reason : option string) : M Db DbError unit :=
  d ← get_db;
  _ ← guard_else (negb (has_key new_id (moderation_actions d))) (UniqueViolation "moderation_actions_pkey");
  _ ← guard_else (match actor_id with Some a => user_exists d a | None => true end)
        (ForeignKeyViolation "moderation_actions_actor_id_fkey");
  modifies (set_moderation_actions
    (<[new_id := mkActionRow actor_id target_type target_id reason (db_now clk)]>)).

Definition flag_user (clk : Clock) (flag_id action_id reporter_id target_id : Uuid)
    (reason : option string) : M Db DbError UserFlag :=
  transaction (
    d ← get_db;
    _ ← guard_else (negb (exists_where (λ _ f, bool_decide (f_id f = flag_id)) (user_flags d)))
          (UniqueViolation "user_flags_pkey");
    _ ← guard_else (negb (has_key (reporter_id, target_id) (user_flags d)))
          (UniqueViolation "ux_user_flags_reporter_target");
    _ ← guard_else (user_exists d reporter_id) (ForeignKeyViolation "user_flags_reporter_id_fkey");
    _ ← guard_else (user_exists d target_id) (ForeignKeyViolation "user_flags_target_id_fkey");
    _ ← modifies (set_user_flags
          (<[(reporter_id, target_id) := mkFlagRow flag_id reason (db_now clk)]>));
    _ ← insert_action clk action_id (Some reporter_id) "user_flag" target_id reason;
    mret (Commit (mkUserFlag flag_id reporter_id target_id reason (db_now clk)))).

Definition flag_post (clk : Clock) (flag_id action_id reporter_id post_id : Uuid)
    (reason : option string) : M Db DbError PostFlag :=
  transaction (
    d ← get_db;
    _ ← guard_else (negb (exists_where (λ _ f, bool_decide (f_id f = flag_id)) (post_flags d)))
          (UniqueViolation "post_flags_pkey");
    _ ← guard_else (negb (has_key (reporter_id, post_id) (post_flags d)))
          (UniqueViolation "ux_post_flags_reporter_post");
    _ ← guard_else (user_exists d reporter_id) (ForeignKeyViolation "post_flags_reporter_id_fkey");
    _ ← guard_else (has_key post_id (posts d)) (ForeignKeyViolation "post_flags_post_id_fkey");
    _ ← modifies (set_post_flags
          (<[(reporter_id, post_id) := mkFlagRow flag_id reason (db_now clk)]>));
    _ ← insert_action clk action_id (Some reporter_id) "post_flag" post_id reason;
    mret (Commit (mkPostFlag flag_id reporter_id post_id reason (db_now clk)))).

(** The owner of the removed post, or [None] when there was none. *)
Definition takedown_post (clk : Clock) (action_id : Uuid) (actor_id : option Uuid) (post_id : Uuid)
    (reason : option string) : M Db DbError (option Uuid) :=
  transaction (
    d ← get_db;
    match posts d !! post_id with
    | None => mret (Rollback None)
    | Some p =>
        _ ← modifies (delete_post_rows post_id);
        _ ← insert_action clk action_id actor_id "post" post_id reason;
        mret (Commit (Some (p_owner_id p)))
    end).

Definition takedown_comment (clk : Clock) (action_id : Uuid) (actor_id : option Uuid)
    (comment_id : Uuid) (reason : option string) : M Db DbError (option Uuid) :=
  transaction (
    d ← get_db;
    match comments d !! comment_id with
    | None => mret (Rollback None)
    | Some c =>
        _ ← modifies (set_comments (delete comment_id));
        _ ← insert_action clk action_id actor_id "comment" comment_id reason;
        mret (Commit (Some (c_user_id c)))
    end).

Definition action_of (id : Uuid) (a : ActionRow) : ModerationAction :=
  mkModerationAction id (a_actor_id a) (a_target_type a) (a_target_id a) (a_reason a) (a_created_at a).
Definition action_key (a : ModerationAction) : Key := (action_created_at a, action_id a).

Definition list_audit (cursor : option Key) (limit : Z) : M Db DbError (list ModerationAction) :=
  reads (λ d, keyset action_key Desc cursor limit
                (select (λ k a, Some (action_of k a)) (moderation_actions d))).

(** ** The moderation log *)

Inductive ModOp :=
| FlagUser (flag_id action_id reporter_id target_id : Uuid) (reason : option string)
| FlagPost (flag_id action_id reporter_id post_id : Uuid) (reason : option string)
| TakedownPost (action_id : Uuid) (actor_id : option Uuid) (post_id : Uuid) (reason : option string)
| TakedownComment (action_id : Uuid) (actor_id : option Uuid) (comment_id : Uuid) (reason : option string).

(** Run one operation; [true] when it took effect. *)
Definition mod_step (clk : Clock) (op : ModOp) (d : Db) : bool * Db :=
  match op with
  | FlagUser f a r t reason =>
      let '(res, d') := flag_user clk f a r t reason d in (is_ok res, d')
  | FlagPost f a r p reason =>
      let '(res, d') := flag_post clk f a r p reason d in (is_ok res, d')
  | TakedownPost a u p reason =>
      let '(res, d') := takedown_post clk a u p reason d in
      (match res with Ok (Some _) => true | _ => false end, d')
  | TakedownComment a u c reason =>
      let '(res, d') := takedown_comment clk a u c reason d in
      (match res with Ok (Some _) => true | _ => false end, d')
  end.

Fixpoint mod_run (ops : list (Clock * ModOp)) (d : Db) : nat * Db :=
  match ops with
  | [] => (0%nat, d)
  | (clk, op) :: ops =>
      let '(b, d1) := mod_step clk op d in
      let '(n, d2) := mod_run ops d1 in
      ((if b then 1 else 0) + n, d2)%nat
  end.

(** The audit row an operation is recorded by. *)
Definition op_action_id (op : ModOp) : Uuid :=
  match op with
  | FlagUser _ a _ _ _ | FlagPost _ a _ _ _ | TakedownPost a _ _ _ | TakedownComment a _ _ _ => a
  end.
Definition op_action (clk : Clock) (op : ModOp) : ActionRow :=
  match op with
  | FlagUser _ _ r t reason => mkActionRow (Some r) "user_flag" t reason (db_now clk)
  | FlagPost _ _ r p reason => mkActionRow (Some r) "post_flag" p reason (db_now clk)
  | TakedownPost _ u p reason => mkActionRow u "post" p reason (db_now clk)
  | TakedownComment _ u c reason => mkActionRow u "comment" c reason (db_now clk)
  end.

(** Each report on record has its line in the log. *)
Definition audited (d : Db) : Prop :=
  (∀ r t f, user_flags d !! (r, t) = Some f →
     ∃ id, moderation_actions d !! id =
             Some (mkActionRow (Some r) "user_flag" t (f_reason f) (f_created_at f))) ∧
  (∀ r p f, post_flags d !! (r, p) = Some f →
     ∃ id, moderation_actions d !! id =
             Some (mkActionRow (Some r) "post_flag" p (f_reason f) (f_created_at f))).

(** An operation either takes effect with its log line, or changes nothing. *)
Lemma mod_step_logs clk op d :
  let '(b, d') := mod_step clk op d in
  if b then moderation_actions d !! op_action_id op = None ∧
            moderation_actions d' = <[op_action_id op := op_action clk op]> (moderation_actions d)
  else d' = d.
Proof.
  destruct op; simpl;
    unfold flag_user, flag_post, takedown_post, takedown_comment, insert_action; run; try done;
    bool_to_prop; split; try done; by apply has_key_false.
Qed.

(** Every report present after a step was there before or is the step's own. *)
Lemma mod_step_flags clk op d :
  let d' := snd (mod_step clk op d) in
  (∀ r t f, user_flags d' !! (r, t) = Some f →
     user_flags d !! (r, t) = Some f ∨
     fst (mod_step clk op d) = true ∧
     op_action clk op = mkActionRow (Some r) "user_flag" t (f_reason f) (f_created_at f)) ∧
  (∀ r p f, post_flags d' !! (r, p) = Some f →
     post_flags d !! (r, p) = Some f ∨
     fst (mod_step clk op d) = true ∧
     op_action clk op = mkActionRow (Some r) "post_flag" p (f_reason f) (f_created_at f)).
Proof.
  destruct op; simpl;
    unfold flag_user, flag_post, takedown_post, takedown_comment, insert_action; run;
    split; intros r t f Hf; simpl in *; auto.
  1, 2: apply lookup_insert_Some in Hf as [[[= <- <-] <-]|[_ Hf]]; auto.
  all: apply lookup_delete_where in Hf as [Hf _]; auto.
Qed.

Lemma mod_step_audited clk op d : audited d → audited (snd (mod_step clk op d)).
Proof.
  intros [Hu Hp]. pose proof (mod_step_logs clk op d) as Hlog.
  destruct (mod_step_flags clk op d) as [Fu Fp].
  destruct (mod_step clk op d) as [[] d']; simpl in *; [|by subst].
  destruct Hlog as [Hfresh Hlog]. split; rewrite Hlog.
  - intros r t f [Hf|[_ <-]]%Fu; [|exists (op_action_id op); apply lookup_insert_eq].
    destruct (Hu _ _ _ Hf) as [id Hid]. exists id. rewrite lookup_insert_ne; congruence.
  - intros r t f [Hf|[_ <-]]%Fp; [|exists (op_action_id op); apply lookup_insert_eq].
    destruct (Hp _ _ _ Hf) as [id Hid]. exists id. rewrite lookup_insert_ne; congruence.
Qed.

(** The audit log is complete and append-only: over any sequence of reports
    and takedowns the log gains exactly one line per operation that took effect,
    never loses or rewrites a line, and every report on record (at most one per
    reporter and target) keeps a line with its reporter, target, reason and time. *)
Theorem moderation_audit_trail ops d :
  audited d →
  let '(n, d') := mod_run ops d in
  audited d' ∧ moderation_actions d ⊆ moderation_actions d' ∧
  size (moderation_actions d') = (size (moderation_actions d) + n)%nat.
Proof.
  revert d. induction ops as [|[clk op] ops IH]; intros d Hd; simpl; [split_and!; [done|done|lia]|].
  pose proof (mod_step_audited clk op d Hd) as Hd1. pose proof (mod_step_logs clk op d) as Hlog.
  destruct (mod_step clk op d) as [b d1]. specialize (IH d1 Hd1).
  destruct (mod_run ops d1) as [n d2]. destruct IH as (? & Hsub & Hsize).
  destruct b; [|subst d1; split_and!; [done|done|lia]]. destruct Hlog as [Hfresh Hlog].
  split_and!; [done| |].
  - etrans; [|exact Hsub]. rewrite Hlog. by apply insert_subseteq.
  - rewrite Hsize, Hlog, map_size_insert_None by done. lia.
Qed.

Definition flagged_db : Db :=
  set_users (λ _, {[ 1%N := mkUserRow "ann" "a@x" "Ann" None None 0 "h" None;
                     2%N := mkUserRow "bob" "b@x" "Bob" None None 0 "h" None ]}) empty_db.

(** The second report of the same pair is refused and leaves no line. *)
Lemma moderation_audit_trail_witness :
  let ops := [(mkClock 1 1, FlagUser 10 20 1 2 (Some "spam")); (mkClock 2 2, FlagUser 11 21 1 2 None)]%N in
  audited (snd (mod_run ops flagged_db)) ∧
  size (moderation_actions (snd (mod_run ops flagged_db))) = 1%nat.
Proof.
  intros ops. pose proof (moderation_audit_trail ops flagged_db) as H.
  assert (fst (mod_run ops flagged_db) = 1%nat) as Hn by (vm_compute; reflexivity).
  destruct (mod_run ops flagged_db) as [n d']. simpl in *. subst n.
  destruct H as (Ha & _ & Hs); [split; intros ??? [=]|]. split; [exact Ha|exact Hs].
Defined.

(** A takedown removes the post with everything that hangs on it. *)
Lemma takedown_post_removes clk a u p reason d o d' :
  takedown_post clk a u p reason d = (Ok (Some o), d') →
  posts d' = delete p (posts d) ∧ (p_owner_id <$> posts d !! p) = Some o ∧
  (∀ k m, post_media d' !! k = Some m → k.1 ≠ p) ∧
  (∀ k l, likes d' !! k = Some l → l_post_id l ≠ p) ∧
  (∀ k c, comments d' !! k = Some c → c_post_id c ≠ p) ∧
  (∀ k f, post_flags d' !! k = Some f → k.2 ≠ p).
Proof.
  unfold takedown_post, insert_action. run; intros [= <- <-]; simpl;
    (split_and!; [done|done|..]; intros ??[_ ?]%lookup_delete_where; by bool_to_prop).
Qed.
