(* ===== verification/PostRaces.v ===== *)
(** * Posts, likes, comments and moderation under concurrent requests

    The methods of [src/app/moderation.rs], of [src/app/engagement.rs] and [delete_post]
    of [src/app/posts.rs] as programs: inserts with the unique indexes they claim and
    the foreign keys they lock, deletions with their cascade row by row, and the line in
    the audit log. However they interleave, no row outlives its post, no report is on
    record without its line, the log gains exactly one line for every operation that
    took effect, and a post or comment is removed by one request only. *)

From S2P Require Import Prelude Sql Domain Schema Isolation Social Posts Engagement Moderation GraphRaces StoryRaces.
From stdpp Require Import options.

#[local] Open Scope Z_scope.

(** ** Deleting the rows that match *)

Section delete_rows.
Context {A : Type} `{Countable K} {V X : Type} `{EqDecision X}.
(** Rows are locked by a label that names their unique key. *)
Context (P : K → V → bool) (lab : K → V → X) (key : X → K) (row : X → Row).
Context (get : Db → gmap K V) (upd : (gmap K V → gmap K V) → Db → Db).

Definition still_there (x : X) (m : gmap K V) : bool :=
  match m !! key x with Some v => P (key x) v && bool_decide (lab (key x) v = x) | None => false end.
Definition matching (m : gmap K V) : list X := select (λ k v, if P k v then Some (lab k v) else None) m.
Definition delete_rows : Proc A (list X) :=
  xs ← query (λ d, matching (get d));
  change_rows row ForUpdate (λ x d, still_there x (get d)) (λ x, upd (delete (key x))) xs.
Definition drop_keys (xs : list X) (m : gmap K V) : gmap K V := foldr (λ x, delete (key x)) m xs.

Lemma lookup_drop_keys xs m k : drop_keys xs m !! k = if bool_decide (k ∈ key <$> xs) then None else m !! k.
Proof.
  clear P lab row get upd.
  induction xs as [|x xs IH]; [by rewrite bool_decide_false by apply not_elem_of_nil|].
  change (drop_keys (x :: xs) m) with (delete (key x) (drop_keys xs m)). rewrite fmap_cons.
  destruct (decide (key x = k)) as [<-|Hne]; [by rewrite lookup_delete_eq, bool_decide_true by left|].
  rewrite lookup_delete_ne, IH by done. by rewrite (bool_decide_ext (k ∈ key x :: (key <$> xs)) (k ∈ key <$> xs)) by set_solver.
Qed.

Context (key_lab : ∀ k v, key (lab k v) = k).
Context (upd_id : ∀ d, upd (λ m, m) d = d) (upd_upd : ∀ g h d, upd g (upd h d) = upd (λ m, g (h m)) d).
Context (get_upd : ∀ f d, get (upd f d) = f (get d)) (upd_ext : ∀ f g d, f (get d) = g (get d) → upd f d = upd g d).

Lemma elem_of_matching x m : x ∈ matching m ↔ still_there x m = true.
Proof using key_lab.
  unfold matching, still_there. rewrite elem_of_select. split.
  - intros (k & v & Hk & Hs). destruct (P k v) eqn:HP; [|done]. injection Hs as <-. rewrite key_lab, Hk, HP. by apply bool_decide_eq_true.
  - destruct (m !! key x) as [v|] eqn:Hk; [|done]. intros [HP Hl]%andb_prop. apply bool_decide_eq_true in Hl.
    exists (key x), v. by rewrite HP, Hl.
Qed.
Lemma matching_NoDup m : NoDup (key <$> matching m).
Proof using key_lab. apply select_NoDup. intros k v x. destruct (P k v); [|done]. intros [= <-]. apply key_lab. Qed.
Lemma drop_matching xs m :
  (∀ x, x ∈ xs → still_there x m = true) → (∀ k v, m !! k = Some v → P k v = true → lab k v ∈ xs) →
  drop_keys xs m = delete_where P m.
Proof using key_lab.
  intros H1 H2. apply map_eq. intros k. rewrite lookup_drop_keys. case_bool_decide as Hk.
  - apply list_elem_of_fmap in Hk as (x & -> & Hx). symmetry. apply lookup_delete_where_None. intros v Hv.
    specialize (H1 x Hx). unfold still_there in H1. rewrite Hv in H1. by apply andb_prop in H1 as [? _].
  - apply option_eq. intros v. rewrite lookup_delete_where. split; [|by intros [? _]]. intros Hv. split; [done|].
    destruct (P k v) eqn:HP; [|done]. destruct Hk. apply list_elem_of_fmap. exists (lab k v). split; [by rewrite key_lab|eauto].
Qed.
(** Alone, all rows that match go. *)
Lemma alone_delete_rows (k : list X → Txn A) w d :
  alone (delete_rows k) w d = alone (k (matching (get (w d)))) (λ _, upd (delete_where P) (w d)) d.
Proof using key_lab upd_id upd_upd get_upd upd_ext.
  unfold delete_rows, mbind, Proc_bind, query. cbn [alone]. etrans.
  - assert (Hgen : ∀ xs (k : list X → Txn A) w, (∀ x, x ∈ xs → still_there x (get (w d)) = true) → NoDup (key <$> xs) →
      alone (change_rows row ForUpdate (λ x d, still_there x (get d)) (λ x, upd (delete (key x))) xs k) w d =
      alone (k xs) (λ _, upd (drop_keys (reverse xs)) (w d)) d).
    { clear k w. induction xs as [|x xs IH]; intros k w Hst Hnd; cbn [change_rows].
      { apply alone_ext. symmetry. apply upd_id. }
      unfold mbind, Proc_bind, mret, Proc_ret, lock, query, exec. cbn [alone]. rewrite Hst by left. cbn [alone].
      rewrite fmap_cons, NoDup_cons in Hnd. destruct Hnd as [Hx Hnd]. rewrite IH; [| |done].
      - simpl. apply alone_ext. rewrite upd_upd, reverse_cons. apply upd_ext. unfold drop_keys. by rewrite foldr_app.
      - intros y Hy. specialize (Hst y (list_elem_of_further _ _ _ Hy)). unfold still_there in *. rewrite get_upd.
        rewrite lookup_delete_ne; [done|]. intros He. destruct Hx. rewrite He. by apply list_elem_of_fmap_2. }
    apply Hgen; [by intros x ?%elem_of_matching|apply matching_NoDup].
  - apply alone_ext, upd_ext. apply drop_matching.
    + by intros x ?%elem_of_reverse%elem_of_matching.
    + intros k' v Hk HP. apply elem_of_reverse, elem_of_matching. unfold still_there. rewrite key_lab, Hk, HP. by apply bool_decide_eq_true.
Qed.

(** Among others, the rows that match when the lock of what they hang on is held: none
    is added, and a row that is locked stays. *)
Section wp.
Context (G : Locks → A → Db → Db → Prop) (F : Locks → Db → Prop).
Context (HF : ∀ L, stable G L (F L)) (HFm : ∀ L l d, F L d → F (l :: L) d).
Context (no_new : ∀ L d d', rely G L d d' → F L d → ∀ k v, get d' !! k = Some v → P k v = true → get d !! k = Some v).
Context (held : ∀ L k v, (row (lab k v), ForUpdate) ∈ L → stable G L (λ d, get d !! k = Some v)).
(** The rows [dn] are locked; they, and no others, match. *)
Definition dropped (dn : list X) (L : Locks) (d : Db) : Prop :=
  F L d ∧ (∀ x, x ∈ dn → (row x, ForUpdate) ∈ L ∧ still_there x (get d) = true) ∧
  ∀ k v, get d !! k = Some v → P k v = true → lab k v ∈ dn.
Definition dropping (t dn : list X) (L : Locks) (d : Db) : Prop :=
  F L d ∧ (∀ x, x ∈ dn → (row x, ForUpdate) ∈ L ∧ still_there x (get d) = true) ∧
  ∀ k v, get d !! k = Some v → P k v = true → lab k v ∈ t ∨ lab k v ∈ dn.
Lemma dropping_stable t dn L : stable G L (dropping t dn L).
Proof using HF no_new held key_lab.
  intros d d' Hr (Hd & Hdn & Hcov). split; [by eapply HF|]. split.
  - intros x Hx. destruct (Hdn x Hx) as [Hl Hst]. split; [done|]. unfold still_there in *.
    destruct (get d !! key x) as [v|] eqn:Hv; [|done]. pose proof Hst as [_ Hlab]%andb_prop. apply bool_decide_eq_true in Hlab.
    by rewrite (held L (key x) v ltac:(by rewrite Hlab) d d' Hr Hv).
  - intros k v Hv HP. apply Hcov; [|done]. by eapply no_new.
Qed.
Lemma dropping_more t dn L l d : dropping t dn L d → dropping t dn (l :: L) d.
Proof using HFm. intros (Hd & Hdn & Hcov). split_and!; [auto| |done]. intros x [??]%Hdn. split; [by apply list_elem_of_further|done]. Qed.
Lemma dropped_stable dn L : stable G L (dropped dn L).
Proof using HF no_new held key_lab.
  intros d d' Hr (Hd & Hdn & Hcov). destruct (dropping_stable [] dn L d d' Hr) as (? & ? & Hc); [by split_and!; auto|].
  split_and!; [done|done|]. intros k v Hv HP. by destruct (Hc k v Hv HP) as [?%elem_of_nil|].
Qed.
Lemma dropped_more dn L l d : dropped dn L d → dropped dn (l :: L) d.
Proof using HFm. intros (Hd & Hdn & Hcov). split_and!; [auto| |done]. intros x [??]%Hdn. split; [by apply list_elem_of_further|done]. Qed.
Lemma dropped_where dn L d : dropped dn L d → upd (drop_keys dn) d = upd (delete_where P) d.
Proof using upd_ext key_lab. intros (_ & Hdn & Hcov). apply upd_ext, drop_matching; [|done]. by intros x [_ ?]%Hdn. Qed.

Lemma wp_delete_rows k L w d :
  (∀ d, get (w d) = get d) → F L d →
  (∀ ks L' d', dropped (reverse ks) L' d' → wp G (k ks) L' (λ d, upd (drop_keys (reverse ks)) (w d)) d') →
  wp G (delete_rows k) L w d.
Proof using HF HFm no_new held key_lab upd_id upd_upd get_upd.
  intros Hw Hd Hk. unfold delete_rows, mbind, Proc_bind. apply (wp_query _ F HF); [done|]. clear d Hd. intros d Hd. rewrite Hw.
  assert (Hch : ∀ dn x, changed (λ x, upd (delete (key x))) dn x = upd (drop_keys dn) x).
  { intros dn x. by apply (changed_set upd (λ x m, delete (key x) m)). }
  apply (wp_change_rows_exact _ row ForUpdate _ _ dropping (matching (get d)) [] k L w d).
  - apply dropping_stable.
  - apply dropping_more.
  - intros x t dn L' d' Hl (Hd' & Hdn & Hcov). rewrite Hch, get_upd, Hw.
    assert (Hx : still_there x (drop_keys dn (get d')) = if bool_decide (key x ∈ key <$> dn) then false else still_there x (get d')).
    { unfold still_there. rewrite lookup_drop_keys. by case_bool_decide. }
    rewrite Hx. case_bool_decide as Hin; [|destruct (still_there x (get d')) eqn:Hst].
    + split_and!; [done|done|]. intros k' v Hv HP. destruct (Hcov k' v Hv HP) as [[He|Ht]%elem_of_cons|]; [|auto..]. right.
      apply list_elem_of_fmap in Hin as (y & Hy & Hyin). destruct (Hdn y Hyin) as [_ Hst]. unfold still_there in Hst.
      rewrite <-Hy, <-He, key_lab, Hv in Hst. apply andb_prop in Hst as [_ Hlab]. apply bool_decide_eq_true in Hlab. by rewrite Hlab.
    + split_and!; [done| |].
      * intros y [->|Hy]%elem_of_cons; [done|by apply Hdn].
      * intros k' v Hv HP. destruct (Hcov k' v Hv HP) as [[He|Ht]%elem_of_cons|]; [right; rewrite He; left|auto|right; by right].
    + split_and!; [done|done|]. intros k' v Hv HP. destruct (Hcov k' v Hv HP) as [[He|Ht]%elem_of_cons|]; [|auto..].
      rewrite <-He in Hst. unfold still_there in Hst. rewrite key_lab, Hv, HP in Hst. by apply bool_decide_eq_false in Hst.
  - split_and!; [done|by intros x ?%elem_of_nil|]. intros k' v Hv HP. left. apply elem_of_matching. unfold still_there.
    rewrite key_lab, Hv, HP. by apply bool_decide_eq_true.
  - intros ks L' d' (Hd' & Hdn & Hcov). rewrite app_nil_r in *. eapply wp_ext; [intros x; symmetry; apply Hch|].
    apply Hk. split_and!; [done|done|]. intros k' v Hv HP. by destruct (Hcov k' v Hv HP) as [?%elem_of_nil|].
Qed.
End wp.
End delete_rows.

(** ** The transactions *)

Inductive PostOp :=
| Moderate (op : ModOp)
| OwnerDeletes (post owner : Uuid)
| AuthorDeletes (comment post user : Uuid)
| Like (new_id user post : Uuid)
| Unlike (user post : Uuid)
| CommentOn (new_id user post : Uuid) (body : string).
Inductive PostResult :=
| GotUserFlag (r : Result DbError UserFlag) | GotPostFlag (r : Result DbError PostFlag)
| GotOwner (r : Result DbError (option Uuid)) | GotBool (r : Result DbError bool)
| GotLike (r : Result DbError (option Domain.Like)) | GotComment (r : Result DbError Comment).
Inductive PostAnswer := Answer (clk : Clock) (op : PostOp) (r : PostResult).

Definition insert_action_txn (failed : DbError → PostAnswer) (clk : Clock) (new_id : Uuid) (actor_id : option Uuid)
    (target_type : string) (target_id : Uuid) (reason : option string) : Proc PostAnswer unit :=
  inserted ← insert_row (RAction new_id) (λ d, has_key new_id (moderation_actions d))
               (set_moderation_actions (<[new_id := mkActionRow actor_id target_type target_id reason (db_now clk)]>));
  if negb inserted then rollback (failed (UniqueViolation "moderation_actions_pkey")) else
  actor_ok ← match actor_id with Some a => references (RUser a) (λ d, user_exists d a) | None => mret true end;
  if negb actor_ok then rollback (failed (ForeignKeyViolation "moderation_actions_actor_id_fkey")) else mret tt.

Definition flag_user_txn (clk : Clock) (flag_id action_id reporter_id target_id : Uuid) (reason : option string) : Txn PostAnswer :=
  let answer r := Answer clk (Moderate (FlagUser flag_id action_id reporter_id target_id reason)) (GotUserFlag r) in
  script (
    new_id ← insert_row (RUserFlagId flag_id) (λ d, exists_where (λ _ f, bool_decide (f_id f = flag_id)) (user_flags d)) (λ d, d);
    if negb new_id then rollback (answer (Err (UniqueViolation "user_flags_pkey"))) else
    new_pair ← insert_row (RUserFlag reporter_id target_id) (λ d, has_key (reporter_id, target_id) (user_flags d))
                 (set_user_flags (<[(reporter_id, target_id) := mkFlagRow flag_id reason (db_now clk)]>));
    if negb new_pair then rollback (answer (Err (UniqueViolation "ux_user_flags_reporter_target"))) else
    reporter_ok ← references (RUser reporter_id) (λ d, user_exists d reporter_id);
    if negb reporter_ok then rollback (answer (Err (ForeignKeyViolation "user_flags_reporter_id_fkey"))) else
    target_ok ← references (RUser target_id) (λ d, user_exists d target_id);
    if negb target_ok then rollback (answer (Err (ForeignKeyViolation "user_flags_target_id_fkey"))) else
    _ ← insert_action_txn (λ e, answer (Err e)) clk action_id (Some reporter_id) "user_flag" target_id reason;
    mret (answer (Ok (mkUserFlag flag_id reporter_id target_id reason (db_now clk))))).

Definition flag_post_txn (clk : Clock) (flag_id action_id reporter_id post_id : Uuid) (reason : option string) : Txn PostAnswer :=
  let answer r := Answer clk (Moderate (FlagPost flag_id action_id reporter_id post_id reason)) (GotPostFlag r) in
  script (
    new_id ← insert_row (RPostFlagId flag_id) (λ d, exists_where (λ _ f, bool_decide (f_id f = flag_id)) (post_flags d)) (λ d, d);
    if negb new_id then rollback (answer (Err (UniqueViolation "post_flags_pkey"))) else
    new_pair ← insert_row (RPostFlag reporter_id post_id) (λ d, has_key (reporter_id, post_id) (post_flags d))
                 (set_post_flags (<[(reporter_id, post_id) := mkFlagRow flag_id reason (db_now clk)]>));
    if negb new_pair then rollback (answer (Err (UniqueViolation "ux_post_flags_reporter_post"))) else
    reporter_ok ← references (RUser reporter_id) (λ d, user_exists d reporter_id);
    if negb reporter_ok then rollback (answer (Err (ForeignKeyViolation "post_flags_reporter_id_fkey"))) else
    post_ok ← references (RPost post_id) (λ d, has_key post_id (posts d));
    if negb post_ok then rollback (answer (Err (ForeignKeyViolation "post_flags_post_id_fkey"))) else
    _ ← insert_action_txn (λ e, answer (Err e)) clk action_id (Some reporter_id) "post_flag" post_id reason;
    mret (answer (Ok (mkPostFlag flag_id reporter_id post_id reason (db_now clk))))).

(** The cascade of a deleted post: media, likes, comments and reports. *)
Definition like_label (k : Uuid) (l : LikeRow) : Uuid * (Uuid * Uuid) := (k, (l_user_id l, l_post_id l)).
Definition delete_media_rows (p : Uuid) : Proc PostAnswer (list (Uuid * Uuid)) :=
  delete_rows (λ k _, bool_decide (k.1 = p)) (λ k _, k) id (λ k, RPostMedia k.1 k.2) post_media set_post_media.
Definition delete_likes (P : LikeRow → bool) : Proc PostAnswer (list (Uuid * (Uuid * Uuid))) :=
  delete_rows (λ _, P) like_label fst (λ x, RLike x.2.1 x.2.2) likes set_likes.
Definition delete_comments (p : Uuid) : Proc PostAnswer (list Uuid) :=
  delete_rows (λ _ c, bool_decide (c_post_id c = p)) (λ k _, k) id RComment comments set_comments.
Definition delete_flags (p : Uuid) : Proc PostAnswer (list (Uuid * Uuid)) :=
  delete_rows (λ k _, bool_decide (k.2 = p)) (λ k _, k) id (λ k, RPostFlag k.1 k.2) post_flags set_post_flags.
(** [DELETE FROM posts WHERE id = p AND ..]: the row it deleted, after the cascade. *)
Definition delete_post_proc (p : Uuid) (mine : PostRow → bool) : Proc PostAnswer (option PostRow) :=
  let hit d := match posts d !! p with Some r => if mine r then Some r else None | None => None end in
  seen ← query hit;
  match seen with
  | None => mret None
  | Some _ =>
      _ ← lock (RPost p) ForUpdate;
      latest ← query hit;
      match latest with
      | None => mret None
      | Some r =>
          _ ← exec (set_posts (delete p));
          _ ← delete_media_rows p;
          _ ← delete_likes (λ l, bool_decide (l_post_id l = p));
          _ ← delete_comments p;
          _ ← delete_flags p;
          mret (Some r)
      end
  end.
Definition delete_comment_proc (c : Uuid) (mine : CommentRow → bool) : Proc PostAnswer (option CommentRow) :=
  let hit d := match comments d !! c with Some r => if mine r then Some r else None | None => None end in
  seen ← query hit;
  match seen with
  | None => mret None
  | Some _ =>
      _ ← lock (RComment c) ForUpdate;
      latest ← query hit;
      match latest with
      | None => mret None
      | Some r => _ ← exec (set_comments (delete c)); mret (Some r)
      end
  end.

Definition takedown_post_txn (clk : Clock) (action_id : Uuid) (actor_id : option Uuid) (post_id : Uuid) (reason : option string) :
    Txn PostAnswer :=
  let answer r := Answer clk (Moderate (TakedownPost action_id actor_id post_id reason)) (GotOwner r) in
  script (
    deleted ← delete_post_proc post_id (λ _, true);
    match deleted with
    | None => rollback (answer (Ok None))
    | Some p =>
        _ ← insert_action_txn (λ e, answer (Err e)) clk action_id actor_id "post" post_id reason;
        mret (answer (Ok (Some (p_owner_id p))))
    end).
Definition takedown_comment_txn (clk : Clock) (action_id : Uuid) (actor_id : option Uuid) (comment_id : Uuid) (reason : option string) :
    Txn PostAnswer :=
  let answer r := Answer clk (Moderate (TakedownComment action_id actor_id comment_id reason)) (GotOwner r) in
  script (
    deleted ← delete_comment_proc comment_id (λ _, true);
    match deleted with
    | None => rollback (answer (Ok None))
    | Some c =>
        _ ← insert_action_txn (λ e, answer (Err e)) clk action_id actor_id "comment" comment_id reason;
        mret (answer (Ok (Some (c_user_id c))))
    end).
Definition delete_post_txn (clk : Clock) (post_id owner_id : Uuid) : Txn PostAnswer := script (
  deleted ← delete_post_proc post_id (λ p, bool_decide (p_owner_id p = owner_id));
  mret (Answer clk (OwnerDeletes post_id owner_id) (GotBool (Ok (match deleted with Some _ => true | None => false end))))).
Definition delete_comment_txn (clk : Clock) (comment_id post_id user_id : Uuid) : Txn PostAnswer := script (
  deleted ← delete_comment_proc comment_id (λ c, bool_decide (c_post_id c = post_id) && bool_decide (c_user_id c = user_id));
  mret (Answer clk (AuthorDeletes comment_id post_id user_id)
          (GotBool (Ok (match deleted with Some _ => true | None => false end))))).

(** [INSERT INTO likes .. ON CONFLICT DO NOTHING]. *)
Definition like_post_txn (clk : Clock) (new_id user_id post_id : Uuid) : Txn PostAnswer :=
  let answer r := Answer clk (Like new_id user_id post_id) (GotLike r) in
  script (
    let row := mkLikeRow user_id post_id (db_now clk) in
    new_key ← insert_row (RLikeId new_id) (λ d, has_key new_id (likes d)) (λ d, d);
    if negb new_key then mret (answer (Ok None)) else
    new_pair ← insert_row (RLike user_id post_id) (λ d, has_liked d user_id post_id) (set_likes (<[new_id := row]>));
    if negb new_pair then mret (answer (Ok None)) else
    user_ok ← references (RUser user_id) (λ d, user_exists d user_id);
    if negb user_ok then rollback (answer (Err (ForeignKeyViolation "likes_user_id_fkey"))) else
    post_ok ← references (RPost post_id) (λ d, has_key post_id (posts d));
    if negb post_ok then rollback (answer (Err (ForeignKeyViolation "likes_post_id_fkey"))) else
    mret (answer (Ok (Some (like_of new_id row))))).
Definition unlike_post_txn (clk : Clock) (user_id post_id : Uuid) : Txn PostAnswer := script (
  deleted ← delete_likes (λ l, bool_decide (l_user_id l = user_id) && bool_decide (l_post_id l = post_id));
  mret (Answer clk (Unlike user_id post_id) (GotBool (Ok (affected deleted))))).
(** The author is joined as of the snapshot of the statement. *)
Definition comment_post_txn (clk : Clock) (new_id user_id post_id : Uuid) (body : string) : Txn PostAnswer :=
  let answer r := Answer clk (CommentOn new_id user_id post_id body) (GotComment r) in
  script (
    let row := mkCommentRow user_id post_id body (db_now clk) in
    joined ← query (λ d, comment_of d new_id row);
    inserted ← insert_row (RComment new_id) (λ d, has_key new_id (comments d)) (set_comments (<[new_id := row]>));
    if negb inserted then rollback (answer (Err (UniqueViolation "comments_pkey"))) else
    user_ok ← references (RUser user_id) (λ d, user_exists d user_id);
    if negb user_ok then rollback (answer (Err (ForeignKeyViolation "comments_user_id_fkey"))) else
    post_ok ← references (RPost post_id) (λ d, has_key post_id (posts d));
    if negb post_ok then rollback (answer (Err (ForeignKeyViolation "comments_post_id_fkey"))) else
    mret (answer (match joined with Some c => Ok c | None => Err RowNotFound end))).

(** ** Alone, every program does what the sequential method does *)

Definition post_txn (clk : Clock) (op : PostOp) : Txn PostAnswer :=
  match op with
  | Moderate (FlagUser f a r t reason) => flag_user_txn clk f a r t reason
  | Moderate (FlagPost f a r p reason) => flag_post_txn clk f a r p reason
  | Moderate (TakedownPost a u p reason) => takedown_post_txn clk a u p reason
  | Moderate (TakedownComment a u c reason) => takedown_comment_txn clk a u c reason
  | OwnerDeletes p o => delete_post_txn clk p o
  | AuthorDeletes c p u => delete_comment_txn clk c p u
  | Like n u p => like_post_txn clk n u p
  | Unlike u p => unlike_post_txn clk u p
  | CommentOn n u p body => comment_post_txn clk n u p body
  end.
Definition as_result {E B} (f : Result E B → PostResult) (r : Result E B * Db) : PostResult * Db := (f r.1, r.2).
Definition post_method (clk : Clock) (op : PostOp) (d : Db) : PostResult * Db :=
  match op with
  | Moderate (FlagUser f a r t reason) => as_result GotUserFlag (flag_user clk f a r t reason d)
  | Moderate (FlagPost f a r p reason) => as_result GotPostFlag (flag_post clk f a r p reason d)
  | Moderate (TakedownPost a u p reason) => as_result GotOwner (takedown_post clk a u p reason d)
  | Moderate (TakedownComment a u c reason) => as_result GotOwner (takedown_comment clk a u c reason d)
  | OwnerDeletes p o => as_result (λ r, GotBool (match r with Ok b => Ok b | Err _ => Ok false end)) (delete_post p o d)
  | AuthorDeletes c p u => as_result GotBool (delete_comment c p u d)
  | Like n u p => as_result GotLike (like_post clk n u p d)
  | Unlike u p => as_result GotBool (unlike_post u p d)
  | CommentOn n u p body => as_result GotComment (comment_post clk n u p body d)
  end.

Lemma alone_insert_action failed clk new_id actor_id ty target reason k w d :
  alone (insert_action_txn failed clk new_id actor_id ty target reason k) w d =
  match insert_action clk new_id actor_id ty target reason (w d) with
  | (Ok _, d') => alone (k tt) (λ _, d') d
  | (Err e, _) => (failed e, d)
  end.
Proof.
  unfold insert_action_txn, insert_action, mbind, Proc_bind, mret, Proc_ret, rollback, insert_row. unfold_m. cbn [alone].
  destruct (has_key new_id (moderation_actions (w d))); cbn [negb alone]; [done|].
  destruct actor_id as [a|]; cbn [negb alone]; [|by apply alone_ext].
  rewrite alone_references. change (user_exists (set_moderation_actions _ _) a) with (user_exists (w d) a).
  destruct (user_exists (w d) a); cbn [negb alone]; [by apply alone_ext|done].
Qed.
Lemma set_post_media_ext f g d : f (post_media d) = g (post_media d) → set_post_media f d = set_post_media g d.
Proof. intros He. unfold set_post_media. by rewrite He. Qed.
Lemma set_likes_ext f g d : f (likes d) = g (likes d) → set_likes f d = set_likes g d.
Proof. intros He. unfold set_likes. by rewrite He. Qed.
Lemma set_comments_ext f g d : f (comments d) = g (comments d) → set_comments f d = set_comments g d.
Proof. intros He. unfold set_comments. by rewrite He. Qed.
Lemma set_post_flags_ext f g d : f (post_flags d) = g (post_flags d) → set_post_flags f d = set_post_flags g d.
Proof. intros He. unfold set_post_flags. by rewrite He. Qed.
#[local] Hint Resolve set_post_media_ext set_likes_ext set_comments_ext set_post_flags_ext : core.
Lemma alone_delete_likes P (k : list (Uuid * (Uuid * Uuid)) → Txn PostAnswer) w d :
  alone (delete_likes P k) w d =
  alone (k (matching (λ _, P) like_label (likes (w d)))) (λ _, set_likes (delete_where (λ _, P)) (w d)) d.
Proof. apply alone_delete_rows; auto; by intros []. Qed.
Lemma alone_delete_post p mine k w d :
  alone (delete_post_proc p mine k) w d =
  match posts (w d) !! p with
  | Some r => if mine r then alone (k (Some r)) (λ _, delete_post_rows p (w d)) d else alone (k None) w d
  | None => alone (k None) w d
  end.
Proof.
  unfold delete_post_proc, mbind, Proc_bind, mret, Proc_ret, lock, query, exec. cbn [alone].
  destruct (posts (w d) !! p) as [r|] eqn:Hp; [|done]. destruct (mine r) eqn:Hm; [|done]. cbn [alone]. rewrite Hp, Hm. cbn [alone].
  unfold delete_media_rows, delete_comments, delete_flags. rewrite alone_delete_rows by (auto; by intros []).
  rewrite alone_delete_likes. rewrite !alone_delete_rows by (auto; by intros []). by apply alone_ext.
Qed.
Lemma alone_delete_comment c mine k w d :
  alone (delete_comment_proc c mine k) w d =
  match comments (w d) !! c with
  | Some r => if mine r then alone (k (Some r)) (λ _, set_comments (delete c) (w d)) d else alone (k None) w d
  | None => alone (k None) w d
  end.
Proof.
  unfold delete_comment_proc, mbind, Proc_bind, mret, Proc_ret, lock, query, exec. cbn [alone].
  destruct (comments (w d) !! c) as [r|] eqn:Hp; [|done]. destruct (mine r) eqn:Hm; [|done]. cbn [alone]. rewrite Hp, Hm. cbn [alone].
  by apply alone_ext.
Qed.
Lemma affected_matching u p d :
  affected (matching (λ _ l, bool_decide (l_user_id l = u) && bool_decide (l_post_id l = p)) like_label (likes d)) = has_liked d u p.
Proof.
  destruct (has_liked d u p) eqn:Hl.
  - apply has_liked_true in Hl as (i & l & Hi & Hu & Hp).
    assert (Hin : like_label i l ∈ matching (λ _ l, bool_decide (l_user_id l = u) && bool_decide (l_post_id l = p)) like_label (likes d)).
    { apply (elem_of_matching _ _ fst); [done|]. unfold still_there. simpl. rewrite Hi, !bool_decide_true by done. done. }
    destruct (matching _ _ _); [by apply elem_of_nil in Hin|done].
  - destruct (matching _ _ _) as [|x xs] eqn:Hm; [done|]. assert (Hin : x ∈ x :: xs) by left. rewrite <-Hm in Hin.
    apply (elem_of_matching _ _ fst) in Hin; [|done]. unfold still_there in Hin. destruct (likes d !! x.1) as [l|] eqn:Hx; [|done].
    apply andb_prop in Hin as [Hb _]. bool_to_prop. rewrite <-not_true_iff_false in Hl. destruct Hl. apply has_liked_true. eauto.
Qed.

Definition post_alone_is (clk : Clock) (op : PostOp) : Prop :=
  ∀ d, run_alone (post_txn clk op) d = let '(r, d') := post_method clk op d in (Answer clk op r, d').
Lemma flag_user_alone clk f a r t reason : post_alone_is clk (Moderate (FlagUser f a r t reason)).
Proof.
  intros d. unfold post_txn, post_method, flag_user_txn, flag_user. unfold_txn. unfold_m.
  destruct (exists_where _ (user_flags d)); cbn [negb alone]; [done|].
  destruct (has_key (r, t) (user_flags d)); cbn [negb alone]; [done|].
  rewrite alone_references. change (user_exists (set_user_flags _ _) r) with (user_exists d r).
  destruct (user_exists d r) eqn:Hr; cbn [negb alone]; [|done].
  rewrite alone_references. change (user_exists (set_user_flags _ _) t) with (user_exists d t).
  destruct (user_exists d t); cbn [negb alone]; [|done]. rewrite alone_insert_action.
  destruct (insert_action clk a (Some r) "user_flag" t reason _) as [[[]|e] d']; done.
Qed.
Lemma flag_post_alone clk f a r p reason : post_alone_is clk (Moderate (FlagPost f a r p reason)).
Proof.
  intros d. unfold post_txn, post_method, flag_post_txn, flag_post. unfold_txn. unfold_m.
  destruct (exists_where _ (post_flags d)); cbn [negb alone]; [done|].
  destruct (has_key (r, p) (post_flags d)); cbn [negb alone]; [done|].
  rewrite alone_references. change (user_exists (set_post_flags _ _) r) with (user_exists d r).
  destruct (user_exists d r) eqn:Hr; cbn [negb alone]; [|done].
  rewrite alone_references. cbn [posts set_post_flags]. destruct (has_key p (posts d)); cbn [negb alone]; [|done].
  rewrite alone_insert_action. destruct (insert_action clk a (Some r) "post_flag" p reason _) as [[[]|e] d']; done.
Qed.
Lemma takedown_post_alone clk a u p reason : post_alone_is clk (Moderate (TakedownPost a u p reason)).
Proof.
  intros d. unfold run_alone, post_txn, post_method, takedown_post_txn, takedown_post, script. unfold mbind at 1, Proc_bind. unfold_m.
  rewrite alone_delete_post. destruct (posts d !! p) as [row|]; [|done]. unfold mbind, Proc_bind, mret, Proc_ret. rewrite alone_insert_action.
  destruct (insert_action clk a u "post" p reason _) as [[[]|e] d']; done.
Qed.
Lemma takedown_comment_alone clk a u c reason : post_alone_is clk (Moderate (TakedownComment a u c reason)).
Proof.
  intros d. unfold run_alone, post_txn, post_method, takedown_comment_txn, takedown_comment, script. unfold mbind at 1, Proc_bind. unfold_m.
  rewrite alone_delete_comment. destruct (comments d !! c) as [row|]; [|done]. unfold mbind, Proc_bind, mret, Proc_ret.
  rewrite alone_insert_action. destruct (insert_action clk a u "comment" c reason _) as [[[]|e] d']; done.
Qed.
Lemma deletions_alone clk :
  (∀ p o, post_alone_is clk (OwnerDeletes p o)) ∧ (∀ c p u, post_alone_is clk (AuthorDeletes c p u)).
Proof.
  split; intros; intros d; unfold run_alone, post_txn, post_method.
  - unfold delete_post_txn, delete_post, script, mbind, Proc_bind. unfold_m. rewrite alone_delete_post.
    destruct (posts d !! p) as [row|]; [|done]. by destruct (bool_decide (p_owner_id row = o)).
  - unfold delete_comment_txn, delete_comment, script, mbind, Proc_bind. unfold_m. rewrite alone_delete_comment.
    destruct (comments d !! c) as [row|]; [|done]. by destruct (_ && _).
Qed.
Lemma like_post_alone clk n u p : post_alone_is clk (Like n u p).
Proof.
  intros d. unfold post_txn, post_method, like_post_txn, like_post. unfold_txn. unfold_m.
  destruct (has_key n (likes d)); cbn [negb alone orb]; [done|]. destruct (has_liked d u p); cbn [negb alone]; [done|].
  rewrite alone_references. change (user_exists (set_likes _ _) u) with (user_exists d u).
  destruct (user_exists d u); cbn [negb alone]; [|done].
  rewrite alone_references. cbn [posts set_likes]. by destruct (has_key p (posts d)).
Qed.
Lemma unlike_post_alone clk u p : post_alone_is clk (Unlike u p).
Proof.
  intros d. unfold run_alone, post_txn, post_method, unlike_post_txn, unlike_post, script, mbind, Proc_bind. unfold_m.
  rewrite alone_delete_likes. unfold mret, Proc_ret. cbn [alone]. by rewrite affected_matching.
Qed.
Lemma comment_post_alone clk n u p body : post_alone_is clk (CommentOn n u p body).
Proof.
  intros d. unfold post_txn, post_method, comment_post_txn, comment_post. unfold_txn. unfold_m.
  destruct (has_key n (comments d)); cbn [negb alone]; [done|].
  rewrite alone_references. change (user_exists (set_comments _ _) u) with (user_exists d u).
  destruct (user_exists d u); cbn [negb alone]; [|done].
  rewrite alone_references. cbn [posts set_comments]. destruct (has_key p (posts d)); cbn [negb alone]; [|done].
  by destruct (comment_of d n _).
Qed.
(** On every branch, errors included. *)
Theorem post_programs_alone clk op : post_alone_is clk op.
Proof.
  destruct op as [[]| | | | |]; first [apply flag_user_alone | apply flag_post_alone | apply takedown_post_alone
    | apply takedown_comment_alone | apply deletions_alone | apply like_post_alone | apply unlike_post_alone | apply comment_post_alone].
Qed.

(** ** What a commit does *)

(** A table changes row by row: a row goes or comes under the lock of its unique key. *)
Definition changes `{Countable K} {V} (lockrow : K → V → Row) (claims : K → V → Locks → Prop) (L : Locks) (m m' : gmap K V) : Prop :=
  ∀ k, m' !! k = m !! k ∨ (∃ v, m !! k = Some v ∧ m' !! k = None ∧ (lockrow k v, ForUpdate) ∈ L) ∨
       (∃ v, m !! k = None ∧ m' !! k = Some v ∧ (lockrow k v, ForUpdate) ∈ L ∧ claims k v L).
(** Whoever adds a row to a post holds a lock on the post. *)
Definition touched (p : Uuid) (L : Locks) : Prop := ∃ m, (RPost p, m) ∈ L.
Record post_locks (L : Locks) (d d' : Db) : Prop := {
  pl_posts : changes (λ k _, RPost k) (λ _ _ _, False) L (posts d) (posts d');
  pl_media : changes (λ k _, RPostMedia k.1 k.2) (λ _ _ _, False) L (post_media d) (post_media d');
  pl_likes : changes (λ _ l, RLike (l_user_id l) (l_post_id l)) (λ k l L, (RLikeId k, ForUpdate) ∈ L ∧ touched (l_post_id l) L)
               L (likes d) (likes d');
  pl_comments : changes (λ k _, RComment k) (λ _ c L, touched (c_post_id c) L) L (comments d) (comments d');
  pl_post_flags : changes (λ k _, RPostFlag k.1 k.2) (λ k f L, (RPostFlagId (f_id f), ForUpdate) ∈ L ∧ touched k.2 L)
                    L (post_flags d) (post_flags d');
  pl_user_flags : changes (λ k _, RUserFlag k.1 k.2) (λ _ f L, (RUserFlagId (f_id f), ForUpdate) ∈ L) L (user_flags d) (user_flags d');
  pl_actions : changes (λ k _, RAction k) (λ _ _ _, True) L (moderation_actions d) (moderation_actions d');
  pl_users : users d' = users d }.

(** The answers that report a change. *)
Definition effective (r : PostResult) : bool :=
  match r with
  | GotUserFlag (Ok _) | GotPostFlag (Ok _) | GotOwner (Ok (Some _)) | GotBool (Ok true) | GotLike (Ok (Some _)) | GotComment (Ok _) => true
  | _ => false
  end.
(** An answer that reports a change is that of the method on the database of that moment;
    every other one changes nothing. *)
Definition post_effect (a : PostAnswer) (d d' : Db) : Prop :=
  let '(Answer clk op r) := a in if effective r then post_method clk op d = (r, d') else d' = d.
Definition post_commit (L : Locks) (a : PostAnswer) (d d' : Db) : Prop := post_effect a d d' ∧ post_locks L d d'.
Notation pwp := (wp post_commit).
Notation pstable := (stable post_commit).

Section changes.
Context `{Countable K} {V : Type} (lockrow : K → V → Row) (claims : K → V → Locks → Prop) (L : Locks).
Lemma changes_refl m : changes lockrow claims L m m.
Proof. intros k. by left. Qed.
Lemma changes_insert m k v : m !! k = None → (lockrow k v, ForUpdate) ∈ L → claims k v L → changes lockrow claims L m (<[k := v]> m).
Proof.
  intros Hk Hl Hc k'. destruct (decide (k = k')) as [<-|]; [right; right; exists v; by rewrite lookup_insert_eq|].
  left. by rewrite lookup_insert_ne.
Qed.
Lemma changes_delete m k v : m !! k = Some v → (lockrow k v, ForUpdate) ∈ L → changes lockrow claims L m (delete k m).
Proof.
  intros Hk Hl k'. destruct (decide (k = k')) as [<-|]; [right; left; exists v; by rewrite lookup_delete_eq|].
  left. by rewrite lookup_delete_ne.
Qed.
Lemma changes_delete_where P m :
  (∀ k v, m !! k = Some v → P k v = true → (lockrow k v, ForUpdate) ∈ L) → changes lockrow claims L m (delete_where P m).
Proof.
  intros Hl k. destruct (m !! k) as [v|] eqn:Hk; [|left; apply lookup_delete_where_None; congruence].
  destruct (P k v) eqn:HP; [right; left; exists v|left; by apply lookup_delete_where].
  split_and!; [done|apply lookup_delete_where_None; congruence|eauto].
Qed.
End changes.
#[local] Hint Resolve changes_refl : core.
Lemma post_locks_refl L d : post_locks L d d.
Proof. split; auto. Qed.

(** *** Facts that stay *)

Lemma locked_excl L L' r m m' : compatible L L' → (r, m) ∈ L → (r, m') ∈ L' → mode_conflicts m m' = true → False.
Proof. intros. by eapply compatible_excl. Qed.
(** Facts that other transactions cannot undo, and more locks even less. *)
Definition kept (Q : Locks → Db → Prop) : Prop := (∀ L, pstable L (Q L)) ∧ ∀ L l d, Q L d → Q (l :: L) d.
Definition both (Q R : Locks → Db → Prop) (L : Locks) (d : Db) : Prop := Q L d ∧ R L d.
Lemma kept_and Q R : kept Q → kept R → kept (both Q R).
Proof. intros [HQ HQm] [HR HRm]. split; [intros L d d' Hr [??]; split; [by eapply HQ|by eapply HR]|intros ??? [??]; split; auto]. Qed.
Definition anything (L : Locks) (d : Db) : Prop := True.
Lemma kept_true : kept anything.
Proof. done. Qed.

Definition free_row `{Countable K} {V} (get : Db → gmap K V) (r : Row) (taken : K → V → bool) (L : Locks) (d : Db) : Prop :=
  (r, ForUpdate) ∈ L ∧ ∀ k v, get d !! k = Some v → taken k v = false.
Lemma kept_free `{Countable K} {V} (get : Db → gmap K V) r taken lockrow claims :
  (∀ L d d', post_locks L d d' → changes lockrow claims L (get d) (get d')) →
  (∀ k v L, taken k v = true → (lockrow k v, ForUpdate) ∈ L → claims k v L → (r, ForUpdate) ∈ L) → kept (free_row get r taken).
Proof.
  intros Hch Hcl. split; [|intros L l d [Hl Hf]; split; [by apply list_elem_of_further|done]].
  intros L d d' (L' & a & Hc & _ & Hpl) [Hl Hf]. split; [done|]. intros k v Hv. specialize (Hch _ _ _ Hpl k).
  destruct Hch as [He|[(v' & _ & Hn & _)|(v' & _ & Hv' & Hl' & Hc')]]; [apply Hf; congruence|congruence|].
  rewrite Hv in Hv'. injection Hv' as <-. destruct (taken k v) eqn:Ht; [|done]. exfalso. by apply (locked_excl L L' r ForUpdate ForUpdate); [..|by eapply Hcl|].
Qed.
Definition user_there (u : Uuid) (L : Locks) (d : Db) : Prop := user_exists d u = true.
Lemma kept_user u : kept (user_there u).
Proof. split; [|done]. intros L d d' (L' & a & _ & _ & Hpl). unfold user_there, user_exists. by rewrite (pl_users _ _ _ Hpl). Qed.
Definition actor_there (actor : option Uuid) (L : Locks) (d : Db) : Prop := ∀ u, actor = Some u → user_there u L d.
Lemma kept_actor actor : kept (actor_there actor).
Proof. split; [|done]. intros L d d' Hr Hd u Hu. eapply (proj1 (kept_user u)); [done|by apply Hd]. Qed.
Definition users_are (us : gmap Uuid UserRow) (L : Locks) (d : Db) : Prop := users d = us.
Lemma kept_users us : kept (users_are us).
Proof. split; [|done]. intros L d d' (L' & a & _ & _ & Hpl) <-. apply (pl_users _ _ _ Hpl). Qed.
Definition post_there (p : Uuid) (L : Locks) (d : Db) : Prop := (RPost p, ForKeyShare) ∈ L ∧ has_key p (posts d) = true.
Lemma kept_post p : kept (post_there p).
Proof.
  split; [|intros L l d [Hl Hf]; split; [by apply list_elem_of_further|done]].
  intros L d d' (L' & a & Hc & _ & Hpl) [Hl Hp]. split; [done|]. apply has_key_true in Hp as [r Hr]. apply has_key_true.
  destruct (pl_posts _ _ _ Hpl p) as [He|[(v & _ & _ & Hl')|(v & _ & _ & _ & [])]]; [rewrite He; eauto|].
  exfalso. by eapply (locked_excl L L' (RPost p)).
Qed.

Definition free_action (a : Uuid) := free_row moderation_actions (RAction a) (λ k _, bool_decide (k = a)).
Definition free_user_flag_id (f : Uuid) := free_row user_flags (RUserFlagId f) (λ _ x, bool_decide (f_id x = f)).
Definition free_user_flag (r t : Uuid) := free_row user_flags (RUserFlag r t) (λ k _, bool_decide (k = (r, t))).
Definition free_post_flag_id (f : Uuid) := free_row post_flags (RPostFlagId f) (λ _ x, bool_decide (f_id x = f)).
Definition free_post_flag (r p : Uuid) := free_row post_flags (RPostFlag r p) (λ k _, bool_decide (k = (r, p))).
Definition free_like_id (n : Uuid) := free_row likes (RLikeId n) (λ k _, bool_decide (k = n)).
Definition free_like (u p : Uuid) :=
  free_row likes (RLike u p) (λ _ l, bool_decide (l_user_id l = u) && bool_decide (l_post_id l = p)).
Definition free_comment (n : Uuid) := free_row comments (RComment n) (λ k _, bool_decide (k = n)).
Lemma kept_free_rows :
  (∀ a, kept (free_action a)) ∧ (∀ f, kept (free_user_flag_id f)) ∧ (∀ r t, kept (free_user_flag r t)) ∧
  (∀ f, kept (free_post_flag_id f)) ∧ (∀ r p, kept (free_post_flag r p)) ∧
  (∀ n, kept (free_like_id n)) ∧ (∀ u p, kept (free_like u p)) ∧ (∀ n, kept (free_comment n)).
Proof.
  split_and!; intros; (eapply kept_free; [intros L d d' Hpl; apply Hpl|]); intros k v L Ht Hl Hc; simpl in *; bool_to_prop; subst; try done;
    by destruct Hc.
Qed.
#[local] Hint Resolve kept_and kept_true kept_user kept_actor kept_users kept_post : kept.
#[local] Hint Extern 1 (kept (free_row _ _ _)) => apply kept_free_rows : kept.
#[local] Hint Extern 1 (kept (free_action _)) => apply kept_free_rows : kept.

(** *** The statements *)

Lemma wp_refused clk op r L w d : effective r = false → pwp (TRollback (Answer clk op r)) L w d.
Proof. intros Hr d' _. split; [simpl; by rewrite Hr|apply post_locks_refl]. Qed.
Lemma wp_unaffected clk op r L d : effective r = false → pwp (TCommit (Answer clk op r)) L (λ d, d) d.
Proof. intros Hr d' _. split; [simpl; by rewrite Hr|apply post_locks_refl]. Qed.

Section rules.
Context (Q : Locks → Db → Prop) (HQ : kept Q).
Lemma pwp_insert `{Countable K} {V} (get : Db → gmap K V) r (taken : K → V → bool) exists_ w' k L w d :
  kept (free_row get r taken) → (∀ d, exists_ (w d) = false → ∀ k v, get d !! k = Some v → taken k v = false) → Q L d →
  (∀ L d, pwp (k false) L w d) →
  (∀ L d, both Q (free_row get r taken) L d → pwp (k true) L (λ d, w' (w d)) d) →
  pwp (insert_row r exists_ w' k) L w d.
Proof using HQ.
  destruct HQ as [Hs Hm]. intros Hk Ht Hd Hno Hyes. apply (wp_insert _ Q Hs); [done|auto|].
  intros d' Hd' He. apply Hyes. split; [auto|]. split; [left|]. by apply Ht.
Qed.
Lemma pwp_user u k L w d :
  (∀ d, users (w d) = users d) → Q L d → (∀ L d, pwp (k false) L w d) →
  (∀ L d, both Q (user_there u) L d → pwp (k true) L w d) → pwp (references (RUser u) (λ d, user_exists d u) k) L w d.
Proof using HQ.
  intros Hw Hd Hno Hyes. pose proof (kept_and _ _ HQ (kept_user u)) as [Hs' Hm']. destruct HQ as [Hs Hm].
  apply (wp_references _ Q (both Q (user_there u))); auto.
  intros d' Hd' He. split; [done|]. unfold user_exists in He. by rewrite Hw in He.
Qed.
Lemma pwp_post p k L w d :
  (∀ d, posts (w d) = posts d) → Q L d → (∀ L d, pwp (k false) L w d) →
  (∀ L d, both Q (post_there p) L d → pwp (k true) L w d) → pwp (references (RPost p) (λ d, has_key p (posts d)) k) L w d.
Proof using HQ.
  intros Hw Hd Hno Hyes. destruct HQ as [Hs Hm]. apply (wp_references_live _ Q Q); auto.
  intros d' Hd' He. apply Hyes. split; [done|]. rewrite Hw in He. split; [left|done].
Qed.
End rules.
Lemma pwp_action Q failed clk a actor ty target reason k L w d :
  kept Q → (∀ d, moderation_actions (w d) = moderation_actions d ∧ users (w d) = users d) → Q L d →
  (∀ e L w d, pwp (TRollback (failed e)) L w d) →
  (∀ L d, both (both Q (free_action a)) (actor_there actor) L d →
     pwp (k tt) L (λ d, set_moderation_actions (<[a := mkActionRow actor ty target reason (db_now clk)]>) (w d)) d) →
  pwp (insert_action_txn failed clk a actor ty target reason k) L w d.
Proof.
  intros HQ Hw Hd Hf Hk. unfold insert_action_txn, mbind, Proc_bind, mret, Proc_ret, rollback.
  apply (pwp_insert Q HQ moderation_actions _ (λ k _, bool_decide (k = a))); [apply kept_free_rows| |done|intros; apply Hf|].
  { intros d' He%has_key_false k' v Hv. rewrite (proj1 (Hw d')) in He. apply bool_decide_eq_false. congruence. }
  clear L d Hd. intros L d Hd. simpl negb. cbv iota. destruct actor as [u|].
  - apply (pwp_user (both Q (free_action a))); [auto with kept|intros; apply Hw|done|intros; apply Hf|].
    clear L d Hd. intros L d [Hd Hu]. apply Hk. split; [done|]. by intros ? [= <-].
  - apply Hk. by split.
Qed.
(** The end of a transaction: what is known holds at the moment it commits. *)
Lemma pwp_commit Q a L w d : kept Q → Q L d → (∀ d, Q L d → post_commit L a d (w d)) → pwp (TCommit a) L w d.
Proof. intros [Hs _] Hd Hc d' Hdr. apply Hc. by eapply stable_drifts. Qed.

(** *** Insertions *)

Lemma free_no_key `{Countable K} {V} (get : Db → gmap K V) r x L d : free_row get r (λ k _, bool_decide (k = x)) L d → get d !! x = None.
Proof. intros [_ Hf]. destruct (get d !! x) as [v|] eqn:Hx; [|done]. specialize (Hf x v Hx). by apply bool_decide_eq_false in Hf. Qed.
Lemma no_key_free `{Countable K} {V} (m : gmap K V) x : has_key x m = false → ∀ k v, m !! k = Some v → bool_decide (k = x) = false.
Proof. intros He%has_key_false k v Hv. apply bool_decide_eq_false. congruence. Qed.
Lemma free_exists `{Countable K} {V} (get : Db → gmap K V) r (P : K → V → bool) L d : free_row get r P L d → exists_where P (get d) = false.
Proof. intros [_ Hf]. by apply exists_where_false. Qed.
(** After the reports of a user or a post: the line in the log, and the commit. *)
Lemma insert_action_ok clk a actor ty target reason L d d0 :
  moderation_actions d0 = moderation_actions d → users d0 = users d → free_action a L d → (∀ u, actor = Some u → user_there u L d) →
  insert_action clk a actor ty target reason d0
  = (Ok tt, set_moderation_actions (<[a := mkActionRow actor ty target reason (db_now clk)]>) d0).
Proof.
  intros Hm Hu Hf%free_no_key Ha. unfold insert_action. unfold_m. rewrite Hm, has_key_lookup, Hf. simpl. destruct actor as [u|]; [|done].
  unfold user_exists. rewrite Hu. specialize (Ha u eq_refl). unfold user_there, user_exists in Ha. by rewrite Ha.
Qed.
Lemma changes_action L a v d : free_action a L d → changes (λ k _, RAction k) (λ _ _ _, True) L (moderation_actions d) (<[a := v]> (moderation_actions d)).
Proof. intros Hf. apply changes_insert; [by eapply free_no_key|apply Hf|done]. Qed.
#[local] Hint Resolve changes_action : core.

(** One statement after another: what is known before the next one is what the last one
    left. *)
Ltac kept := by auto 20 with kept.
Ltac refused := by intros; apply wp_refused.
Ltac next := clear; intros L d Hd; simpl negb; cbv iota.
Ltac claim table used := eapply pwp_insert with (get := table) (taken := used);
  [|apply kept_free_rows|first [intros d'; apply no_key_free|by intros d'; unfold has_liked; rewrite exists_where_false]|eassumption| |]; [kept| |next].
Ltac user_key := eapply pwp_user; [|done|eassumption|refused|]; [kept|next].
Ltac post_key := eapply pwp_post; [|done|eassumption|refused|]; [kept|next].
Ltac log_line := eapply pwp_action; [|done|eassumption|refused|]; [kept|next].
Ltac at_commit := eapply pwp_commit; [|eassumption|]; [kept|]; clear; intros d Hd.
Lemma flag_user_valid I clk f a r t reason : valid post_commit I (flag_user_txn clk f a r t reason).
Proof.
  intros d _. assert (Hd : anything [] d) by done. unfold flag_user_txn, script, mbind, Proc_bind, mret, Proc_ret, rollback.
  claim user_flags (λ (_ : Uuid * Uuid) x, bool_decide (f_id x = f)); [refused|].
  claim user_flags (λ k (_ : FlagRow), bool_decide (k = (r, t))); [refused|]. user_key. user_key.
  log_line. at_commit.
  destruct Hd as [[[[[[_ Hid] Hpair] Hr] Ht] Hact] Hactor]. pose proof (free_no_key _ _ _ _ _ Hpair) as Hn. split; [|split; simpl; auto].
  - simpl. unfold flag_user. unfold_m. rewrite (free_exists _ _ _ _ _ Hid), has_key_lookup, Hn, Hr, Ht. simpl.
    by erewrite insert_action_ok.
  - apply changes_insert; [done|apply Hpair|apply Hid].
Qed.
Lemma flag_post_valid I clk f a r p reason : valid post_commit I (flag_post_txn clk f a r p reason).
Proof.
  intros d _. assert (Hd : anything [] d) by done. unfold flag_post_txn, script, mbind, Proc_bind, mret, Proc_ret, rollback.
  claim post_flags (λ (_ : Uuid * Uuid) x, bool_decide (f_id x = f)); [refused|].
  claim post_flags (λ k (_ : FlagRow), bool_decide (k = (r, p))); [refused|]. user_key. post_key. log_line. at_commit.
  destruct Hd as [[[[[[_ Hid] Hpair] Hr] [Hlp Hp]] Hact] Hactor]. pose proof (free_no_key _ _ _ _ _ Hpair) as Hn. split; [|split; simpl; auto].
  - simpl. unfold flag_post. unfold_m. rewrite (free_exists _ _ _ _ _ Hid), has_key_lookup, Hn, Hr, Hp. simpl.
    by erewrite insert_action_ok.
  - apply changes_insert; [done|apply Hpair|]. split; [apply Hid|by exists ForKeyShare].
Qed.
Lemma like_post_valid I clk n u p : valid post_commit I (like_post_txn clk n u p).
Proof.
  intros d _. assert (Hd : anything [] d) by done. unfold like_post_txn, script, mbind, Proc_bind, mret, Proc_ret, rollback.
  claim likes (λ k (_ : LikeRow), bool_decide (k = n)); [by intros; apply wp_unaffected|].
  claim likes (λ (_ : Uuid) l, bool_decide (l_user_id l = u) && bool_decide (l_post_id l = p)); [by intros; apply wp_unaffected|].
  user_key. post_key. at_commit. destruct Hd as [[[[_ Hid] Hpair] Hu] [Hlp Hp]]. pose proof (free_no_key _ _ _ _ _ Hid) as Hn.
  split; [|split; simpl; auto].
  - simpl. unfold like_post. unfold_m. rewrite has_key_lookup, Hn. unfold has_liked. by rewrite (free_exists _ _ _ _ _ Hpair), Hu, Hp.
  - apply changes_insert; [done|apply Hpair|]. split; [apply Hid|by exists ForKeyShare].
Qed.
Lemma comment_post_valid I clk n u p body : valid post_commit I (comment_post_txn clk n u p body).
Proof.
  intros d _. unfold comment_post_txn, script, mbind, Proc_bind, mret, Proc_ret, rollback.
  apply (wp_query _ anything); [by apply kept_true|done|]. clear d. intros d0 _.
  pose (Hd := eq_refl (users d0) : users_are (users d0) [] d0). clearbody Hd.
  eapply pwp_insert with (get := comments) (taken := λ k (_ : CommentRow), bool_decide (k = n));
    [|apply kept_free_rows|intros d'; apply no_key_free|eassumption|refused|]; [kept|]. clear Hd. intros L d Hd. simpl negb. cbv iota.
  eapply pwp_user; [|done|eassumption|refused|]; [kept|]. clear L d Hd. intros L d Hd. simpl negb. cbv iota.
  eapply pwp_post; [|done|eassumption|refused|]; [kept|]. clear L d Hd. intros L d Hd. simpl negb. cbv iota.
  at_commit. destruct Hd as [[[Hus Hid] Hu] [Hlp Hp]]. pose proof (free_no_key _ _ _ _ _ Hid) as Hn. unfold users_are in Hus.
  unfold comment_of. rewrite <-Hus. simpl. pose proof Hu as [row Hrow]%has_key_true. rewrite Hrow.
  split; [|split; simpl; auto].
  - simpl. unfold comment_post. unfold_m. rewrite has_key_lookup, Hn. rewrite Hu, Hp. unfold comment_of, ok_or. simpl. by rewrite Hrow.
  - apply changes_insert; [done|apply Hid|]. by exists ForKeyShare.
Qed.

(** *** Deletions *)

Definition held_row `{Countable K} {V} (get : Db → gmap K V) (r : Row) (k : K) (v : V) (L : Locks) (d : Db) : Prop :=
  (r, ForUpdate) ∈ L ∧ get d !! k = Some v.
Lemma kept_held `{Countable K} {V} (get : Db → gmap K V) lockrow claims k v :
  (∀ L d d', post_locks L d d' → changes lockrow claims L (get d) (get d')) → kept (held_row get (lockrow k v) k v).
Proof.
  intros Hch. split; [|intros L l d [Hl Hf]; split; [by apply list_elem_of_further|done]].
  intros L d d' (L' & a & Hc & _ & Hpl) [Hl Hk]. split; [done|].
  destruct (Hch _ _ _ Hpl k) as [->|[(v' & Hv & _ & Hl')|(v' & Hv & _)]]; [done| |congruence].
  exfalso. rewrite Hk in Hv. injection Hv as <-. by eapply (locked_excl L L' (lockrow k v)).
Qed.
Lemma pwp_delete_comment c mine k d :
  (∀ L d, pwp (k None) L (λ d, d) d) →
  (∀ r L d, mine r = true → held_row comments (RComment c) c r L d → pwp (k (Some r)) L (λ d, set_comments (delete c) d) d) →
  pwp (delete_comment_proc c mine k) [] (λ d, d) d.
Proof.
  intros Hno Hyes. unfold delete_comment_proc, mbind, Proc_bind, mret, Proc_ret. destruct kept_true as [Ht Htm].
  apply (wp_query _ anything Ht); [done|]. clear d. intros d _. destruct (match comments d !! c with Some _ => _ | None => _ end); [|apply Hno].
  apply (wp_lock _ (λ _ _, True)); [by intros ????|done|done|]. clear d. intros d _.
  apply (wp_query _ (λ L _, (RComment c, ForUpdate) ∈ L)); [by intros ????|left|]. clear d. intros d Hl.
  destruct (comments d !! c) as [r|] eqn:Hr; [|apply Hno]. destruct (mine r) eqn:Hm; [|apply Hno].
  assert (Hk : kept (held_row comments (RComment c) c r)) by (apply (kept_held comments (λ k _, RComment k) _ c r pl_comments)).
  apply (wp_exec _ (held_row comments (RComment c) c r)); [apply Hk|by split|]. intros d' Hd'. by apply Hyes.
Qed.

(** A table of rows that hang on posts: while the post [p] is locked no row of it is added,
    and rows that are locked stay. *)
Section cascade.
Context (p : Uuid) `{Countable K} {V X : Type} `{EqDecision X}.
Context (P : K → V → bool) (lab : K → V → X) (row : X → Row) (get : Db → gmap K V) (claims : K → V → Locks → Prop).
Context (Hch : ∀ L d d', post_locks L d d' → changes (λ k v, row (lab k v)) claims L (get d) (get d')).
Context (Htouch : ∀ k v L, P k v = true → claims k v L → touched p L).
Lemma cascade_no_new (F : Locks → Db → Prop) :
  (∀ L d, F L d → (RPost p, ForUpdate) ∈ L) →
  ∀ L d d', rely post_commit L d d' → F L d → ∀ k v, get d' !! k = Some v → P k v = true → get d !! k = Some v.
Proof using Hch Htouch.
  intros HF L d d' (L' & a & Hc & _ & Hpl) Hd k v Hv HP.
  destruct (Hch _ _ _ Hpl k) as [He|[(v' & _ & Hn & _)|(v' & _ & Hv' & _ & Hcl)]]; [congruence|congruence|].
  rewrite Hv in Hv'. injection Hv' as <-. destruct (Htouch _ _ _ HP Hcl) as [m Hm]. exfalso.
  eapply (locked_excl L L' (RPost p)); [done|by eapply HF|done|by destruct m].
Qed.
Lemma cascade_held L k v : (row (lab k v), ForUpdate) ∈ L → pstable L (λ d, get d !! k = Some v).
Proof using Hch.
  intros Hl d d' Hr Hk. assert (Hd : held_row get (row (lab k v)) k v L d) by done.
  eapply (proj1 (kept_held get (λ k v, row (lab k v)) claims k v Hch) L) in Hd; [by apply Hd|done].
Qed.

Context (key : X → K) (upd : (gmap K V → gmap K V) → Db → Db) (F : Locks → Db → Prop).
Context (key_lab : ∀ k v, key (lab k v) = k) (HF : kept F) (HFp : ∀ L d, F L d → (RPost p, ForUpdate) ∈ L).
Notation rows_dropped := (dropped P lab key row get F).
Lemma kept_dropped dn : kept (rows_dropped dn).
Proof using Hch Htouch key_lab HF HFp.
  destruct HF as [Hs Hm]. split.
  - intros L. apply dropped_stable; [done|done|by apply cascade_no_new|apply cascade_held].
  - intros L l d. by apply dropped_more.
Qed.
Lemma pwp_cascade k L w d :
  (∀ d, upd (λ m, m) d = d) → (∀ g h d, upd g (upd h d) = upd (λ m, g (h m)) d) → (∀ f d, get (upd f d) = f (get d)) →
  (∀ d, get (w d) = get d) → F L d →
  (∀ ks L d, rows_dropped (reverse ks) L d → pwp (k ks) L (λ d, upd (drop_keys key (reverse ks)) (w d)) d) →
  pwp (delete_rows P lab key row get upd k) L w d.
Proof using Hch Htouch key_lab HF HFp.
  intros Hid Hcomp Hget Hw Hd Hk. destruct HF as [Hs Hm].
  apply (wp_delete_rows P lab key row get upd key_lab Hid Hcomp Hget post_commit F Hs Hm); [by apply cascade_no_new|apply cascade_held|done|done|done].
Qed.
(** What is known of the dropped rows when the transaction commits. *)
Lemma dropped_facts dn L d :
  rows_dropped dn L d →
  F L d ∧ drop_keys key dn (get d) = delete_where P (get d) ∧
  ∀ k v, get d !! k = Some v → P k v = true → (row (lab k v), ForUpdate) ∈ L.
Proof using key_lab.
  intros (Hd & Hdn & Hcov). split; [done|]. split; [apply (drop_matching P lab); [done| |done]; by intros x [_ ?]%Hdn|].
  intros k v Hv HP. by apply Hdn, Hcov.
Qed.
End cascade.

(** The four tables, under the lock of the post. *)
Definition under (p : Uuid) (F : Locks → Db → Prop) : Prop := kept F ∧ ∀ L d, F L d → (RPost p, ForUpdate) ∈ L.
Definition media_dropped (p : Uuid) F (ks : list (Uuid * Uuid)) :=
  dropped (λ (k : Uuid * Uuid) _, bool_decide (k.1 = p)) (λ k _, k) id (λ k, RPostMedia k.1 k.2) post_media F (reverse ks).
Definition likes_dropped (p : Uuid) F (ks : list (Uuid * (Uuid * Uuid))) :=
  dropped (λ _ l, bool_decide (l_post_id l = p)) like_label fst (λ x, RLike x.2.1 x.2.2) likes F (reverse ks).
Definition comments_dropped (p : Uuid) F (ks : list Uuid) :=
  dropped (λ _ c, bool_decide (c_post_id c = p)) (λ k _, k) id RComment comments F (reverse ks).
Definition flags_dropped (p : Uuid) F (ks : list (Uuid * Uuid)) :=
  dropped (λ (k : Uuid * Uuid) _, bool_decide (k.2 = p)) (λ k _, k) id (λ k, RPostFlag k.1 k.2) post_flags F (reverse ks).

Lemma touch_media (p : Uuid) (k : Uuid * Uuid) (v : Z) (L' : Locks) : bool_decide (k.1 = p) = true → False → touched p L'.
Proof. done. Qed.
Lemma touch_likes (p : Uuid) (k : Uuid) l L' :
  bool_decide (l_post_id l = p) = true → (RLikeId k, ForUpdate) ∈ L' ∧ touched (l_post_id l) L' → touched p L'.
Proof. by intros <-%bool_decide_eq_true [_ ?]. Qed.
Lemma touch_comments (p : Uuid) (k : Uuid) c L' : bool_decide (c_post_id c = p) = true → touched (c_post_id c) L' → touched p L'.
Proof. by intros <-%bool_decide_eq_true ?. Qed.
Lemma touch_flags (p : Uuid) (k : Uuid * Uuid) f L' :
  bool_decide (k.2 = p) = true → (RPostFlagId (f_id f), ForUpdate) ∈ L' ∧ touched k.2 L' → touched p L'.
Proof. by intros <-%bool_decide_eq_true [_ ?]. Qed.

Section cascade_steps.
Context (p : Uuid) (F : Locks → Db → Prop) (HF : under p F) (w : Db → Db) (L : Locks) (d : Db).
Lemma under_media ks : under p (media_dropped p F ks).
Proof using HF.
  destruct HF as [Hk Hp]. split; [|intros L' d' [? _]; eauto].
  by apply (kept_dropped p _ _ _ _ _ pl_media (touch_media p)).
Qed.
Lemma under_likes ks : under p (likes_dropped p F ks).
Proof using HF.
  destruct HF as [Hk Hp]. split; [|intros L' d' [? _]; eauto].
  by apply (kept_dropped p (λ (_ : Uuid) l, bool_decide (l_post_id l = p)) like_label (λ x, RLike x.2.1 x.2.2) _ _ pl_likes (touch_likes p)).
Qed.
Lemma under_comments ks : under p (comments_dropped p F ks).
Proof using HF.
  destruct HF as [Hk Hp]. split; [|intros L' d' [? _]; eauto].
  by apply (kept_dropped p (λ (_ : Uuid) c, bool_decide (c_post_id c = p)) (λ k _, k) RComment _ _ pl_comments (touch_comments p)).
Qed.
Lemma under_flags ks : under p (flags_dropped p F ks).
Proof using HF.
  destruct HF as [Hk Hp]. split; [|intros L' d' [? _]; eauto].
  by apply (kept_dropped p _ _ _ _ _ pl_post_flags (touch_flags p)).
Qed.
Lemma pwp_media k :
  (∀ d, post_media (w d) = post_media d) → F L d →
  (∀ ks L d, media_dropped p F ks L d → pwp (k ks) L (λ d, set_post_media (drop_keys id (reverse ks)) (w d)) d) →
  pwp (delete_media_rows p k) L w d.
Proof using HF. destruct HF as [Hk Hp]. intros. apply (pwp_cascade p _ _ _ _ _ pl_media (touch_media p) id _ F); auto; by intros []. Qed.
Lemma pwp_likes k :
  (∀ d, likes (w d) = likes d) → F L d →
  (∀ ks L d, likes_dropped p F ks L d → pwp (k ks) L (λ d, set_likes (drop_keys fst (reverse ks)) (w d)) d) →
  pwp (delete_likes (λ l, bool_decide (l_post_id l = p)) k) L w d.
Proof using HF.
  destruct HF as [Hk Hp]. intros.
  apply (pwp_cascade p (λ (_ : Uuid) l, bool_decide (l_post_id l = p)) like_label (λ x, RLike x.2.1 x.2.2) _ _ pl_likes (touch_likes p) fst _ F);
    auto; by intros [].
Qed.
Lemma pwp_comments k :
  (∀ d, comments (w d) = comments d) → F L d →
  (∀ ks L d, comments_dropped p F ks L d → pwp (k ks) L (λ d, set_comments (drop_keys id (reverse ks)) (w d)) d) →
  pwp (delete_comments p k) L w d.
Proof using HF.
  destruct HF as [Hk Hp]. intros.
  apply (pwp_cascade p (λ (_ : Uuid) c, bool_decide (c_post_id c = p)) (λ k _, k) RComment _ _ pl_comments (touch_comments p) id _ F); auto; by intros [].
Qed.
Lemma pwp_flags k :
  (∀ d, post_flags (w d) = post_flags d) → F L d →
  (∀ ks L d, flags_dropped p F ks L d → pwp (k ks) L (λ d, set_post_flags (drop_keys id (reverse ks)) (w d)) d) →
  pwp (delete_flags p k) L w d.
Proof using HF. destruct HF as [Hk Hp]. intros. apply (pwp_cascade p _ _ _ _ _ pl_post_flags (touch_flags p) id _ F); auto; by intros []. Qed.
End cascade_steps.
#[local] Hint Resolve under_media under_likes under_comments under_flags : core.

(** All that is known of a post that is being deleted: its row, and the locks on it and on
    everything that hangs on it. *)
Definition deleting (p : Uuid) (r : PostRow) (L : Locks) (d : Db) : Prop :=
  posts d !! p = Some r ∧ post_locks L d (delete_post_rows p d).
Lemma under_held p r : under p (held_row posts (RPost p) p r).
Proof. split; [apply (kept_held posts (λ k _, RPost k) _ p r pl_posts)|by intros ?? []]. Qed.
#[local] Hint Resolve under_held : core.

(** The cascade is complete when the transaction commits. *)
Lemma cascade_done p r ks1 ks2 ks3 ks4 L d :
  flags_dropped p (comments_dropped p (likes_dropped p (media_dropped p (held_row posts (RPost p) p r) ks1) ks2) ks3) ks4 L d →
  deleting p r L d ∧
  set_post_flags (drop_keys id (reverse ks4)) (set_comments (drop_keys id (reverse ks3)) (set_likes (drop_keys fst (reverse ks2))
    (set_post_media (drop_keys id (reverse ks1)) (set_posts (delete p) d)))) = delete_post_rows p d.
Proof.
  intros H4. apply dropped_facts in H4 as (H3 & E4 & L4); [|done]. apply dropped_facts in H3 as (H2 & E3 & L3); [|done].
  apply dropped_facts in H2 as (H1 & E2 & L2); [|done]. apply dropped_facts in H1 as ([Hl Hr] & E1 & L1); [|done]. split.
  - split; [done|]. split; simpl; auto; [by eapply changes_delete|by apply changes_delete_where..].
  - unfold delete_post_rows. rewrite (set_post_media_ext _ _ (set_posts (delete p) d) E1).
    rewrite (set_likes_ext _ _ (set_post_media _ (set_posts (delete p) d)) E2).
    rewrite (set_comments_ext _ _ (set_likes _ (set_post_media _ (set_posts (delete p) d))) E3).
    apply set_post_flags_ext, E4.
Qed.
Lemma pwp_delete_post p mine k d :
  (∀ L d, pwp (k None) L (λ d, d) d) →
  (∀ r Q w L d, mine r = true → kept Q → (∀ d, moderation_actions (w d) = moderation_actions d ∧ users (w d) = users d) →
     (∀ L d, Q L d → deleting p r L d ∧ w d = delete_post_rows p d) → Q L d → pwp (k (Some r)) L w d) →
  pwp (delete_post_proc p mine k) [] (λ d, d) d.
Proof.
  intros Hno Hyes. unfold delete_post_proc, mbind, Proc_bind, mret, Proc_ret. destruct kept_true as [Ht Htm].
  apply (wp_query _ anything Ht); [done|]. clear d. intros d _. destruct (match posts d !! p with Some _ => _ | None => _ end); [|apply Hno].
  apply (wp_lock _ (λ _ _, True)); [by intros ????|done|done|]. clear d. intros d _.
  apply (wp_query _ (λ L _, (RPost p, ForUpdate) ∈ L)); [by intros ????|left|]. clear d. intros d Hl.
  destruct (posts d !! p) as [r|] eqn:Hr; [|apply Hno]. destruct (mine r) eqn:Hm; [|apply Hno].
  apply (wp_exec _ (held_row posts (RPost p) p r)); [apply (under_held p r)|by split|]. clear d Hl Hr. intros d Hd.
  eapply pwp_media; [|done|exact Hd|]; [by auto|]. clear d Hd. intros ks1 L1 d Hd.
  eapply pwp_likes; [|done|exact Hd|]; [by auto|]. clear d Hd. intros ks2 L2 d Hd.
  eapply pwp_comments; [|done|exact Hd|]; [by auto|]. clear d Hd. intros ks3 L3 d Hd.
  eapply pwp_flags; [|done|exact Hd|]; [by auto|]. clear d Hd. intros ks4 L4 d Hd.
  eapply Hyes; [done| |done| |exact Hd]; [by apply under_flags; auto|]. intros L d'. apply cascade_done.
Qed.

Lemma post_locks_action L a v d d' :
  post_locks L d d' → moderation_actions d' = moderation_actions d → free_action a L d →
  post_locks L d (set_moderation_actions (<[a := v]>) d').
Proof. intros [] Hm Hf. split; simpl; try assumption. rewrite Hm. auto. Qed.
Lemma takedown_post_valid I clk a u p reason : valid post_commit I (takedown_post_txn clk a u p reason).
Proof.
  intros d _. unfold takedown_post_txn, script. unfold mbind at 1, Proc_bind. apply pwp_delete_post; [refused|].
  clear d. intros r Q w L d _ HQ Hw Hdel Hd. unfold mbind, Proc_bind, mret, Proc_ret.
  apply (pwp_action Q); [done|done|done|refused|]. clear L d Hd. intros L d Hd. eapply pwp_commit; [|exact Hd|]; [kept|].
  clear d Hd. intros d [[Hd Hact] Hactor]. destruct (Hdel L d Hd) as [[Hr Hpl] Hwd]. split.
  - simpl. unfold takedown_post. unfold_m. rewrite Hr. simpl. erewrite (insert_action_ok _ _ _ _ _ _ L d) by done. simpl. by rewrite Hwd.
  - rewrite Hwd. by apply post_locks_action.
Qed.
Lemma delete_post_valid I clk p o : valid post_commit I (delete_post_txn clk p o).
Proof.
  intros d _. unfold delete_post_txn, script, mbind, Proc_bind, mret, Proc_ret. apply pwp_delete_post; [by intros; apply wp_unaffected|].
  clear d. intros r Q w L d Hm HQ Hw Hdel Hd. eapply pwp_commit; [done|exact Hd|]. clear d Hd. intros d Hd.
  destruct (Hdel L d Hd) as [[Hr Hpl] ->]. split; [|done]. simpl. unfold delete_post. unfold_m. by rewrite Hr, Hm.
Qed.
Lemma changes_comment L c r d :
  held_row comments (RComment c) c r L d →
  changes (λ k _, RComment k) (λ _ c L, touched (c_post_id c) L) L (comments d) (delete c (comments d)).
Proof. intros [Hl Hr]. by eapply changes_delete. Qed.
#[local] Hint Resolve changes_comment : core.
Lemma kept_comment c r : kept (held_row comments (RComment c) c r).
Proof. apply (kept_held comments (λ k _, RComment k) _ c r pl_comments). Qed.
#[local] Hint Resolve kept_comment : kept.
Lemma takedown_comment_valid I clk a u c reason : valid post_commit I (takedown_comment_txn clk a u c reason).
Proof.
  intros d _. unfold takedown_comment_txn, script. unfold mbind at 1, Proc_bind. apply pwp_delete_comment; [refused|].
  clear d. intros r L d _ Hd. unfold mbind, Proc_bind, mret, Proc_ret.
  eapply pwp_action; [|done|exact Hd|refused|]; [kept|]. clear L d Hd. intros L d Hd. eapply pwp_commit; [|exact Hd|]; [kept|].
  clear d Hd. intros d [[Hd Hact] Hactor]. destruct (Hd) as [Hl Hr]. split; [|split; simpl; eauto].
  simpl. unfold takedown_comment. unfold_m. rewrite Hr. simpl. by erewrite (insert_action_ok _ _ _ _ _ _ L d).
Qed.
Lemma delete_comment_valid I clk c p u : valid post_commit I (delete_comment_txn clk c p u).
Proof.
  intros d _. unfold delete_comment_txn, script, mbind, Proc_bind, mret, Proc_ret.
  apply pwp_delete_comment; [by intros; apply wp_unaffected|]. clear d. intros r L d Hm Hd.
  eapply pwp_commit; [|exact Hd|]; [kept|]. clear d Hd. intros d Hd. destruct (Hd) as [Hl Hr]. split; [|split; simpl; eauto].
  simpl. unfold delete_comment. unfold_m. by rewrite Hr, Hm.
Qed.

(** ** The invariant *)

(** No row without its post, one like per user and post, no report without its line. *)
Record post_inv (d : Db) : Prop := {
  pi_refs : post_refs_ok d;
  pi_flags k f : post_flags d !! k = Some f → has_key k.2 (posts d) = true;
  pi_unique : likes_unique d;
  pi_audited : audited d }.

Lemma post_method_moderate clk op d : snd (post_method clk (Moderate op) d) = snd (mod_step clk op d).
Proof. destruct op; simpl; unfold as_result; simpl; match goal with |- context [let '(_, _) := ?x in _] => by destruct x end. Qed.
Lemma post_inv_delete p d : post_inv d → post_inv (delete_post_rows p d).
Proof.
  assert (Hkey : ∀ q, q ≠ p → has_key q (posts d) = true → has_key q (delete p (posts d)) = true).
  { intros q Hq. rewrite !has_key_true. by rewrite lookup_delete_ne. }
  intros [(Hm & Hl & Hc) Hf Hu [Hau Hap]]. split; simpl.
  - split_and!; intros k v; simpl; rewrite lookup_delete_where; intros [Hv Hp%bool_decide_eq_false]; eauto.
  - intros k v. rewrite lookup_delete_where. intros [Hv Hp%bool_decide_eq_false]. eauto.
  - intros i j l l'. simpl. rewrite !lookup_delete_where. intros [??] [??]. by eapply Hu.
  - split; simpl; [done|]. intros r q f [Hq _]%lookup_delete_where. by eapply Hap.
Qed.
(** An operation that leaves the posts alone. *)
Lemma post_inv_step d d' :
  post_inv d → posts d' = posts d → post_media d' = post_media d →
  (∀ k l, likes d' !! k = Some l → likes d !! k = Some l ∨ has_key (l_post_id l) (posts d) = true) → likes_unique d' →
  (∀ k c, comments d' !! k = Some c → comments d !! k = Some c ∨ has_key (c_post_id c) (posts d) = true) →
  (∀ k f, post_flags d' !! k = Some f → post_flags d !! k = Some f ∨ has_key k.2 (posts d) = true) → audited d' → post_inv d'.
Proof.
  intros [(Hm & Hl & Hc) Hf Hu Ha] Hp Hpm Hl' Hu' Hc' Hf' Ha'. unfold post_refs_ok in *. split; [split_and!| |done|done]; rewrite ?Hp, ?Hpm; [done|..].
  - intros k l [?|?]%Hl'; eauto.
  - intros k c [?|?]%Hc'; eauto.
  - intros k f [?|?]%Hf'; eauto.
Qed.
Lemma post_inv_log f d : post_inv d → audited (set_moderation_actions f d) → post_inv (set_moderation_actions f d).
Proof. intros [Hr Hf Hu _] Ha. by split. Qed.
Lemma insert_cases `{Countable K} {V} (Q : K → V → Prop) (k : K) (v : V) (m : gmap K V) :
  Q k v → ∀ k' v', <[k := v]> m !! k' = Some v' → m !! k' = Some v' ∨ Q k' v'.
Proof. intros HQ k' v' [[<- <-]|[_ ?]]%lookup_insert_Some; auto. Qed.
Lemma post_method_inv clk op d : post_inv d → post_inv (snd (post_method clk op d)).
Proof.
  intros Hd. destruct op as [op|p o|c p u|n u p|u p|n u p body].
  - rewrite post_method_moderate. pose proof (mod_step_audited clk op d (pi_audited _ Hd)) as Ha. revert Ha.
    destruct op as [f a r t reason|f a r p reason|a u p reason|a u c reason]; simpl;
      unfold flag_user, flag_post, takedown_post, takedown_comment, insert_action; run; intros Ha; simpl in *; try done; bool_to_prop.
    all: try (eapply post_inv_step; [exact Hd|..]; simpl; auto; [apply Hd|..]).
    + by apply (insert_cases (λ k _, has_key k.2 (posts d) = true)).
    + apply post_inv_log; [by apply post_inv_delete|done].
    + apply post_inv_log; [by apply post_inv_delete|done].
    + intros k c' [_ ?]%lookup_delete_Some. by left.
    + intros k c' [_ ?]%lookup_delete_Some. by left.
  - simpl. rewrite delete_post_spec. repeat (case_match; simpl; try done). by apply post_inv_delete.
  - simpl. unfold delete_comment. run; try done. eapply post_inv_step; [exact Hd|..]; simpl; auto; [apply Hd| |apply Hd].
    intros k c' [_ ?]%lookup_delete_Some. by left.
  - pose proof (like_post_unique clk n u p d (pi_unique _ Hd)) as Hu. revert Hu. simpl. unfold like_post. run; intros Hu; simpl in *; try done.
    eapply post_inv_step; [exact Hd|..]; simpl; auto; [|apply Hd]. by apply (insert_cases (λ _ l, has_key (l_post_id l) (posts d) = true)).
  - simpl. unfold unlike_post. unfold_m. simpl. eapply post_inv_step; [exact Hd|..]; simpl; auto; [| |apply Hd].
    + intros k l [? _]%lookup_delete_where. by left.
    + apply (unlike_post_unique u p d (pi_unique _ Hd)).
  - simpl. unfold comment_post. run; try done; (eapply post_inv_step; [exact Hd|..]; simpl; auto; [apply Hd| |apply Hd];
      by apply (insert_cases (λ _ c, has_key (c_post_id c) (posts d) = true))).
Qed.
Lemma post_commit_inv L a d d' : post_inv d → post_commit L a d d' → post_inv d'.
Proof.
  intros Hd [He _]. destruct a as [clk op r]. simpl in He. destruct (effective r); [|by subst].
  replace d' with (snd (post_method clk op d)) by (by rewrite He). by apply post_method_inv.
Qed.

(** *** [unlike_post] *)

(** With one like per user and post the statement finds one row or none. *)
Lemma matching_one P d k l :
  likes_unique d → likes d !! k = Some l → P l = true → (∀ l', P l' = true → l_user_id l' = l_user_id l ∧ l_post_id l' = l_post_id l) →
  delete_where (λ _, P) (likes d) = delete k (likes d).
Proof.
  intros Hu Hk HP Hone. apply map_eq. intros j. apply option_eq. intros l'. rewrite lookup_delete_where, lookup_delete_Some.
  split; intros [H1 H2]; split; try done.
  - intros <-. rewrite H1 in Hk. congruence.
  - destruct (P l') eqn:HP'; [|done]. destruct (Hone l' HP') as [H3 H4]. destruct H1. by eapply (Hu k j).
Qed.
Definition liked_by (u p : Uuid) (l : LikeRow) : bool := bool_decide (l_user_id l = u) && bool_decide (l_post_id l = p).
Definition unliking (u p : Uuid) (t dn : list (Uuid * (Uuid * Uuid))) (L : Locks) (d : Db) : Prop :=
  post_inv d ∧ (∀ x, x ∈ t → x.2 = (u, p)) ∧
  (dn = [] ∨ ∃ k l, dn = [(k, (u, p))] ∧ held_row likes (RLike (l_user_id l) (l_post_id l)) k l L d ∧ liked_by u p l = true).
Lemma kept_like k l : kept (held_row likes (RLike (l_user_id l) (l_post_id l)) k l).
Proof. apply (kept_held likes (λ _ l, RLike (l_user_id l) (l_post_id l)) _ k l pl_likes). Qed.
Lemma kept_unliking u p t dn : kept (unliking u p t dn).
Proof.
  split.
  - intros L d d' Hr (Hd & Ht & Hdn). split; [destruct Hr as (L' & a & _ & Hg); by eapply post_commit_inv|]. split; [done|].
    destruct Hdn as [|(k & l & -> & Hh & HP)]; [by left|right]. exists k, l. split_and!; [done| |done]. by eapply (proj1 (kept_like k l)).
  - intros L lk d (Hd & Ht & Hdn). split_and!; [done|done|]. destruct Hdn as [|(k & l & -> & Hh & HP)]; [by left|right].
    exists k, l. split_and!; [done| |done]. by apply (kept_like k l).
Qed.
Lemma unliking_step u p x t dn L d :
  (RLike x.2.1 x.2.2, ForUpdate) ∈ L → unliking u p (x :: t) dn L d →
  if still_there (λ _ : Uuid, liked_by u p) like_label fst x (likes (changed (λ x, set_likes (delete x.1)) dn d))
  then unliking u p t (x :: dn) L d else unliking u p t dn L d.
Proof.
  intros Hlk (Hd & Ht & Hdn). pose proof (Ht x (list_elem_of_here _ _)) as Hx. assert (Ht' : ∀ y, y ∈ t → y.2 = (u, p)) by set_solver.
  destruct Hdn as [->|(k & l & -> & [Hl Hk] & HP)]; simpl; destruct (still_there _ _ _ _ _) eqn:Hst; try (split_and!; [done|done|eauto]).
  - right. unfold still_there in Hst. destruct x as [k xx]. simpl in *. subst xx. destruct (likes d !! k) as [l|] eqn:Hk; [|done].
    apply andb_prop in Hst as [HP _]. exists k, l. split_and!; [done| |done].
    apply andb_prop in HP as [Hu%bool_decide_eq_true Hp%bool_decide_eq_true]. split; [by rewrite Hu, Hp|done].
  - exfalso. unfold still_there in Hst. simpl in Hst. destruct (delete k (likes d) !! x.1) as [l'|] eqn:Hk'; [|done].
    apply andb_prop in Hst as [HP' _]. apply lookup_delete_Some in Hk' as [Hne Hk']. unfold liked_by in *. bool_to_prop.
    destruct Hne. apply (pi_unique _ Hd k x.1 l l'); congruence.
  - right. exists k, l. by split_and!.
Qed.
Lemma unlike_post_valid clk u p : valid post_commit post_inv (unlike_post_txn clk u p).
Proof.
  intros d Hd. unfold unlike_post_txn, script, mbind, Proc_bind, mret, Proc_ret, delete_likes, delete_rows.
  assert (Hinv : ∀ L, pstable L post_inv) by (intros L x y (L' & a & _ & Hg) Hx; by eapply post_commit_inv).
  apply (wp_query _ (λ _, post_inv)); [done|done|]. clear d Hd. intros d Hd.
  apply (wp_change_rows_exact _ (λ x, RLike x.2.1 x.2.2) ForUpdate _ (λ x, set_likes (delete x.1)) (unliking u p) _ [] _ [] (λ d, d)).
  - intros t dn. apply (kept_unliking u p t dn).
  - intros t dn. apply (kept_unliking u p t dn).
  - apply unliking_step.
  - split_and!; [done| |by left]. intros x Hx. apply (elem_of_matching _ _ fst) in Hx; [|done]. unfold still_there in Hx.
    destruct (likes d !! x.1) as [l|]; [|done]. apply andb_prop in Hx as [HP Hlab%bool_decide_eq_true]. rewrite <-Hlab.
    apply andb_prop in HP as [Hu%bool_decide_eq_true Hp%bool_decide_eq_true]. simpl. by rewrite Hu, Hp.
  - clear d Hd. intros ks L d Hd. rewrite app_nil_r in *. eapply pwp_commit; [apply kept_unliking|exact Hd|]. clear d Hd.
    intros d (Hd & _ & [Hn|(k & l & Hn & [Hl Hk] & HP)]).
    + apply (f_equal reverse) in Hn. rewrite reverse_involutive in Hn. subst ks. by split; [|apply post_locks_refl].
    + rewrite Hn. apply (f_equal reverse) in Hn. rewrite reverse_involutive in Hn. subst ks. simpl. split.
      * simpl. unfold unlike_post. unfold_m. assert (has_liked d u p = true) as ->.
        { apply has_liked_true. unfold liked_by in HP. bool_to_prop. eauto. }
        unfold as_result. simpl. f_equal. apply set_likes_ext. apply (matching_one (liked_by u p) _ _ l); [apply Hd|done|done|].
        unfold liked_by in *. intros l' Hl'. bool_to_prop. naive_solver congruence.
      * split; simpl; auto. by eapply changes_delete.
Qed.

(** ** The theorem *)

Lemma post_txn_valid clk op : valid post_commit post_inv (post_txn clk op).
Proof.
  destruct op as [[]| | | | |];
    [apply flag_user_valid|apply flag_post_valid|apply takedown_post_valid|apply takedown_comment_valid|apply delete_post_valid
    |apply delete_comment_valid|apply like_post_valid|apply unlike_post_valid|apply comment_post_valid].
Qed.

(** The line of the audit log an answer stands for. *)
Definition logged (a : PostAnswer) : option (Uuid * ActionRow) :=
  match a with
  | Answer clk (Moderate op) r => if effective r then Some (op_action_id op, op_action clk op) else None
  | _ => None
  end.
(** The answers that report the removal of the post. *)
Definition removes (p : Uuid) (a : PostAnswer) : bool :=
  match a with
  | Answer _ (Moderate (TakedownPost _ _ q _)) r | Answer _ (OwnerDeletes q _) r => effective r && bool_decide (q = p)
  | _ => false
  end.

Lemma moderate_step clk op d r d' : post_method clk (Moderate op) d = (r, d') → mod_step clk op d = (effective r, d').
Proof.
  destruct op; simpl; unfold as_result; match goal with |- ((_ (?x).1), _) = _ → _ => destruct x as [[[]|] ?] end;
    by intros [= <- <-].
Qed.
Lemma post_commit_logs L a d d' :
  post_commit L a d d' →
  match logged a with
  | Some (id, row) => moderation_actions d !! id = None ∧ moderation_actions d' = <[id := row]> (moderation_actions d)
  | None => moderation_actions d' = moderation_actions d
  end.
Proof.
  intros [He _]. destruct a as [clk op r]. simpl in *. destruct (effective r) eqn:Hr; [|subst d'; by destruct op].
  destruct op as [op|p o|c p u|n u p|u p|n u p body].
  - apply moderate_step in He. pose proof (mod_step_logs clk op d) as Hl. by rewrite He, Hr in Hl.
  - simpl in He. rewrite delete_post_spec in He. unfold as_result in He. repeat case_match; by simplify_eq/=.
  - simpl in He. revert He. unfold as_result, delete_comment. run; by intros [= _ <-].
  - simpl in He. revert He. unfold as_result, like_post. run; by intros [= _ <-].
  - simpl in He. revert He. unfold as_result, unlike_post. unfold_m. by intros [= _ <-].
  - simpl in He. revert He. unfold as_result, comment_post. run; by intros [= _ <-].
Qed.
Lemma post_commit_posts L a d d' p :
  post_commit L a d d' →
  if removes p a then is_Some (posts d !! p) ∧ posts d' !! p = None else posts d' !! p = posts d !! p.
Proof.
  intros [He _]. destruct a as [clk op r]. simpl in *. destruct (effective r) eqn:Hr; [|subst d'; by destruct op as [[]| | | | |]].
  destruct op as [[f a0 r0 t reason|f a0 r0 q reason|a0 u q reason|a0 u c reason]|q o|c q u|n u q|u q|n u q body]; simpl in He |- *.
  all: revert He Hr; unfold as_result.
  all: unfold flag_user, flag_post, takedown_post, takedown_comment, insert_action, delete_comment, like_post, unlike_post, comment_post, delete_post.
  all: run; intros [= <- <-]; simpl in *; try done; intros _; case_bool_decide as Hq; subst;
    rewrite ?lookup_delete_eq, ?lookup_delete_ne by done; try done; eauto.
Qed.
Lemma filter_removes_cons p a as_ :
  filter (λ a, removes p a = true) (a :: as_) = (if removes p a then [a] else []) ++ filter (λ a, removes p a = true) as_.
Proof. rewrite filter_cons. destruct (removes p a); [by rewrite decide_True|by rewrite decide_False]. Qed.

Lemma replay_logs d as_ d' :
  replay post_commit d as_ d' →
  moderation_actions d ⊆ moderation_actions d' ∧
  size (moderation_actions d') = (size (moderation_actions d) + length (omap logged as_))%nat ∧
  ∀ id row, (id, row) ∈ omap logged as_ → moderation_actions d' !! id = Some row.
Proof.
  induction 1 as [|as_ a L d1 d' Hrep (Hsub & Hsz & Hin) Hst]; [split_and!; [done|simpl; lia|by intros ?? ?%elem_of_nil]|].
  apply post_commit_logs in Hst. cbn [omap list_omap]. destruct (logged a) as [[id row]|]; [|by rewrite Hst]. destruct Hst as [Hf ->].
  split_and!.
  - etrans; [done|]. by apply insert_subseteq.
  - rewrite map_size_insert_None by done. cbn [length]. lia.
  - intros id' row' [[= -> ->]|Hi]%elem_of_cons; [apply lookup_insert_eq|]. apply Hin in Hi. rewrite lookup_insert_ne; [done|congruence].
Qed.
Lemma replay_posts d as_ d' p :
  replay post_commit d as_ d' →
  (length (filter (λ a, removes p a = true) as_) ≤ 1)%nat ∧
  posts d' !! p = if decide (Exists (λ a, removes p a = true) as_) then None else posts d !! p.
Proof.
  induction 1 as [|as_ a L d1 d' Hrep [Hl Hp] Hst]; [split; [simpl; lia|rewrite decide_False; [done|by intros ?%Exists_nil]]|].
  apply (post_commit_posts _ _ _ _ p) in Hst. rewrite filter_removes_cons. destruct (removes p a) eqn:Hr.
  - destruct Hst as [[r Hr1] Hn]. rewrite (decide_True (P := Exists _ (a :: as_))) by (by apply Exists_cons; left).
    destruct (decide (Exists _ as_)) as [He|He]; [congruence|].
    split; [|done]. replace (filter _ as_) with (@nil PostAnswer); [simpl; lia|]. symmetry. apply elem_of_nil_inv.
    intros x [Hx Hin]%list_elem_of_filter. destruct He. apply Exists_exists. eauto.
  - split; [done|]. rewrite Hst, Hp. apply decide_ext. rewrite Exists_cons. naive_solver congruence.
Qed.

(** C17: moderation and engagement are consistent under concurrency. However reports,
    takedowns, deletions of posts and comments, likes and comments interleave, statement
    by statement and row by row of their cascades, and wherever they are cut off: every
    like, comment, image and report belongs to a post that exists, a user likes a post
    at most once, and every report has its line in the audit log; the committed database
    is explained by the answers; the log keeps every line and gains exactly those of the
    operations that took effect; and a post is removed by at most one request, the others
    are told that it was not there. *)
Theorem concurrent_moderation ms d s :
  post_inv d → (∀ i p, Begin i p ∈ ms → ∃ clk op, p = post_txn clk op) → schedule ms (idle_machine d) = Some s →
  post_inv (committed s) ∧ replay post_commit d (answered s) (committed s) ∧
  (moderation_actions d ⊆ moderation_actions (committed s) ∧
   size (moderation_actions (committed s)) = (size (moderation_actions d) + length (omap logged (answered s)))%nat ∧
   ∀ id row, (id, row) ∈ omap logged (answered s) → moderation_actions (committed s) !! id = Some row) ∧
  ∀ p, (length (filter (λ a, removes p a = true) (answered s)) ≤ 1)%nat ∧
       posts (committed s) !! p = if decide (Exists (λ a, removes p a = true) (answered s)) then None else posts d !! p.
Proof.
  intros Hd Hms Hs. assert (Hrep : replay post_commit d (answered s) (committed s)).
  { eapply (schedule_replay _ post_inv); [|done| |done]; [intros ????; apply post_commit_inv|].
    intros i p (clk & op & ->)%Hms. apply post_txn_valid. }
  split; [clear Hs; induction Hrep; [done|by eapply post_commit_inv]|]. split; [done|]. clear Hs Hms Hd.
  split; [by apply replay_logs|intros p; by apply replay_posts].
Qed.

(** ** Concrete runs *)

(** Two administrators take down the same post while it is being reported: both have
    seen it, and so has the foreign key of the report, before the first one deletes it. *)
Definition one_post : Db := set_posts (λ _, {[ 20%N := mkPostRow 1 None Public 5 ]}) two_users.
Lemma one_post_inv : post_inv one_post.
Proof. split; [split_and!| | |split]; repeat intro; simpl in *; match goal with H : ∅ !! _ = Some _ |- _ => by rewrite lookup_empty in H end. Qed.
Definition two_takedowns : list (PoolMove PostAnswer) :=
  [Begin 1 (post_txn (mkClock 9 9) (Moderate (TakedownPost 50 None 20 (Some "spam"))));
   Begin 2 (post_txn (mkClock 9 9) (Moderate (TakedownPost 51 None 20 None)));
   Begin 3 (post_txn (mkClock 9 9) (Moderate (FlagPost 60 52 2 20 None)))]
  ++ replicate 1 (Step 2) ++ replicate 6 (Step 3) ++ replicate 10 (Step 1) ++ replicate 3 (Step 2) ++ replicate 3 (Step 3).
Definition after_posts (ms : list (PoolMove PostAnswer)) (d : Db) : Machine PostAnswer :=
  default (idle_machine d) (schedule ms (idle_machine d)).
Lemma concurrent_moderation_witness :
  let s := after_posts two_takedowns one_post in
  map (λ '(Answer _ _ r), r) (answered s)
    = [GotPostFlag (Err (ForeignKeyViolation "post_flags_post_id_fkey")); GotOwner (Ok None); GotOwner (Ok (Some 1%N))] ∧
  post_inv (committed s) ∧ size (moderation_actions (committed s)) = 1%nat.
Proof.
  intros s. split; [vm_compute; reflexivity|].
  destruct (concurrent_moderation two_takedowns one_post s) as (Hi & _ & (_ & Hsz & _) & _); [apply one_post_inv| | |].
  - intros i p Hp. unfold two_takedowns in Hp. rewrite !elem_of_app, !elem_of_cons in Hp.
    destruct Hp as [[[= -> ->]|[[= -> ->]|[[= -> ->]|[]%elem_of_nil]]]|Hp]; 
      [by exists (mkClock 9 9), (Moderate (TakedownPost 50 None 20 (Some "spam"))) |by exists (mkClock 9 9), (Moderate (TakedownPost 51 None 20 None))
      |by exists (mkClock 9 9), (Moderate (FlagPost 60 52 2 20 None)) |].
    destruct Hp as [Hp|[Hp|[Hp|[Hp|Hp]]]]; by apply elem_of_replicate in Hp as [??].
  - unfold s, after_posts. destruct (schedule two_takedowns (idle_machine one_post)) eqn:Hs; [done|]. by vm_compute in Hs.
  - split; [done|]. rewrite Hsz. vm_compute. reflexivity.
Defined.
