(* ===== verification/Fingerprint.v ===== *)
(** * Device fingerprints

    [FingerprintService] of [src/app/fingerprint.rs]: which accounts a device was
    seen with, and the risk score that grows with their number. The hash of the
    raw fingerprint is SHA-256 of the [Crypto] interface. *)

From S2P Require Import Prelude Sql Domain Schema Crypto.
From stdpp Require Import options.

#[local] Open Scope Z_scope.

Record DeviceInfo := mkDeviceInfo {
  di_fingerprint_hash : string; di_user_ids : list Uuid; di_account_count : Z;
  di_risk_score : Z; di_is_blocked : bool }.

Definition hash_fingerprint `{Crypto} (fingerprint_data : string) : string := sha256_hex fingerprint_data.

(** The [match account_count] of [register_fingerprint]. *)
Definition risk_increase (account_count : Z) : Z :=
  if (0 <=? account_count) && (account_count <=? 2) then 5
  else if (3 <=? account_count) && (account_count <=? 5) then 15
  else if (6 <=? account_count) && (account_count <=? 10) then 30
  else 50.

(** [COALESCE($4, user_agent)]. *)
Definition coalesce {A} (new old : option A) : option A :=
  match new with Some x => Some x | None => old end.

Definition info_of (fingerprint_hash : string) (r : DeviceRow) : DeviceInfo :=
  mkDeviceInfo fingerprint_hash (d_user_ids r) (d_account_count r) (d_risk_score r) (d_is_blocked r).

(** The row the INSERT adds when the device is new. *)
Definition new_device (clk : Clock) (user_agent : option string) : DeviceRow :=
  mkDeviceRow (db_now clk) [] 0 0 false None None user_agent (db_now clk).

(** The row after a new account, and after a known or anonymous visit. *)
Definition with_account (clk : Clock) (user_id : Uuid) (user_agent : option string) (r : DeviceRow) :
    DeviceRow :=
  let ids := d_user_ids r ++ [user_id] in
  mkDeviceRow (db_now clk) ids (cast_i32 (Z.of_nat (length ids)))
    (Z.min (d_risk_score r + risk_increase (d_account_count r)) 100)
    (d_is_blocked r) (d_block_reason r) (d_blocked_at r) (coalesce user_agent (d_user_agent r))
    (db_now clk).
Definition seen_again (clk : Clock) (user_agent : option string) (r : DeviceRow) : DeviceRow :=
  mkDeviceRow (db_now clk) (d_user_ids r) (d_account_count r) (d_risk_score r) (d_is_blocked r)
    (d_block_reason r) (d_blocked_at r) (coalesce user_agent (d_user_agent r)) (d_updated_at r).

Definition register_fingerprint (clk : Clock) (fingerprint_hash : string) (user_id : option Uuid)
    (user_agent : option string) : M Db DbError DeviceInfo :=
  transaction (
    d ← get_db;
    _ ← (if has_key fingerprint_hash (device_fingerprints d) then mret tt
         else modifies (set_device_fingerprints (<[fingerprint_hash := new_device clk user_agent]>)));
    d ← get_db;
    row ← ok_or (device_fingerprints d !! fingerprint_hash) RowNotFound;
    if d_is_blocked row then mret (Commit (info_of fingerprint_hash row))
    else
      let updated :=
        match user_id with
        | Some u => if bool_decide (u ∈ d_user_ids row) then seen_again clk user_agent row
                    else with_account clk u user_agent row
        | None => seen_again clk user_agent row
        end in
      _ ← modifies (set_device_fingerprints (<[fingerprint_hash := updated]>));
      mret (Commit (info_of fingerprint_hash updated))).

Definition check_device_risk (fingerprint_hash : string) : M Db DbError (Z * bool) :=
  reads (λ d, match device_fingerprints d !! fingerprint_hash with
              | Some r => (d_risk_score r, d_is_blocked r)
              | None => (0, false)
              end).

Definition block_device (clk : Clock) (fingerprint_hash reason : string) : M Db DbError unit :=
  modifies (set_device_fingerprints (update_where (λ k _, bool_decide (k = fingerprint_hash))
    (λ r, mkDeviceRow (d_last_seen_at r) (d_user_ids r) (d_account_count r) (d_risk_score r) true
            (Some reason) (Some (db_now clk)) (d_user_agent r) (db_now clk)))).

(** SQL's [/] on integers truncates. *)
Definition unblock_device (clk : Clock) (fingerprint_hash : string) : M Db DbError unit :=
  modifies (set_device_fingerprints (update_where (λ k _, bool_decide (k = fingerprint_hash))
    (λ r, mkDeviceRow (d_last_seen_at r) (d_user_ids r) (d_account_count r) (d_risk_score r ÷ 2) false
            None None (d_user_agent r) (db_now clk)))).

(** [ORDER BY x DESC]: rows with the same [x] come in an order SQL leaves open,
    here the order of the table. *)
Definition desc_le (f : string * DeviceRow → Z) (a b : string * DeviceRow) : Prop := f b ≤ f a.
#[local] Instance desc_le_dec f : RelDecision (desc_le f) := λ a b, Z_le_dec (f b) (f a).
Definition desc_by (f : string * DeviceRow → Z) : list (string * DeviceRow) → list (string * DeviceRow) :=
  merge_sort (desc_le f).

Definition get_user_devices (user_id : Uuid) : M Db DbError (list DeviceInfo) :=
  reads (λ d, (λ kr, info_of kr.1 kr.2) <$>
    desc_by (λ kr, d_last_seen_at kr.2)
      (select (λ k r, if decide (user_id ∈ d_user_ids r) then Some (k, r) else None)
        (device_fingerprints d))).

Definition get_high_risk_devices (min_risk_score : Z) : M Db DbError (list DeviceInfo) :=
  reads (λ d, (λ kr, info_of kr.1 kr.2) <$>
    take 100 (desc_by (λ kr, d_risk_score kr.2)
      (select (λ k r, if (min_risk_score <=? d_risk_score r) && negb (d_is_blocked r)
                      then Some (k, r) else None)
        (device_fingerprints d)))).

(** ** The registry *)

Definition device_ok (r : DeviceRow) : Prop :=
  NoDup (d_user_ids r) ∧ d_account_count r = cast_i32 (Z.of_nat (length (d_user_ids r))) ∧
  0 ≤ d_risk_score r ≤ 100 ∧ (d_is_blocked r = false → d_block_reason r = None ∧ d_blocked_at r = None).
Definition device_inv (d : Db) : Prop :=
  map_Forall (λ _, device_ok) (device_fingerprints d).

Inductive DeviceOp :=
| Register (fingerprint_hash : string) (user_id : option Uuid) (user_agent : option string)
| BlockDevice (fingerprint_hash reason : string)
| UnblockDevice (fingerprint_hash : string).

Definition device_step (clk : Clock) (op : DeviceOp) : M Db DbError unit :=
  match op with
  | Register h u ua => best_effort (register_fingerprint clk h u ua)
  | BlockDevice h reason => block_device clk h reason
  | UnblockDevice h => unblock_device clk h
  end.

Definition device_run (ops : list (Clock * DeviceOp)) : M Db DbError unit :=
  for_each ops (λ co, device_step co.1 co.2).

Lemma risk_increase_bounds n : 5 ≤ risk_increase n ≤ 50.
Proof. unfold risk_increase. repeat case_match; lia. Qed.

Lemma device_ok_new clk ua : device_ok (new_device clk ua).
Proof. split_and!; simpl; [constructor|done|lia|lia|done]. Qed.
Lemma device_ok_seen clk ua r : device_ok r → device_ok (seen_again clk ua r).
Proof. done. Qed.
Lemma device_ok_account clk u ua r :
  u ∉ d_user_ids r → device_ok r → device_ok (with_account clk u ua r).
Proof.
  intros Hu (Hnd & Hc & Hr & Hb). pose proof (risk_increase_bounds (d_account_count r)).
  split_and!; simpl; [|done|lia|lia|done].
  apply NoDup_app. split_and!; [done|set_solver|apply NoDup_singleton].
Qed.
#[export] Hint Resolve device_ok_new device_ok_seen device_ok_account : ciel.

Lemma device_inv_insert h r d :
  device_ok r → device_inv d → device_inv (set_device_fingerprints (<[h := r]>) d).
Proof. intros Hr Hd. by apply map_Forall_insert_2. Qed.

Lemma register_inv clk h u ua : preserves device_inv (register_fingerprint clk h u ua).
Proof.
  intros d Hd. unfold register_fingerprint. run; bool_to_prop; try done.
  all: repeat apply device_inv_insert; try done; simpl in *.
  all: try (rewrite lookup_insert_eq in *; simplify_eq); auto with ciel.
  all: try (by match goal with H : device_fingerprints ?d !! _ = Some _, Hd : device_inv ?d |- _ =>
              apply Hd in H; auto with ciel end).
Qed.

Lemma device_step_inv clk op : preserves device_inv (device_step clk op).
Proof.
  destruct op as [h u ua|h reason|h]; [apply preserves_best_effort, register_inv|..].
  all: apply preserves_modifies; intros d Hd k r; simpl; rewrite lookup_update_where.
  all: destruct (device_fingerprints d !! k) as [r0|] eqn:Hk; simpl; [|done].
  all: pose proof (Hd _ _ Hk) as (? & ? & ? & ?).
  all: case_bool_decide; intros [= <-]; [|done]; split_and!; simpl; try done; try lia.
  - apply Z.quot_pos; lia.
  - apply Z.quot_le_upper_bound; lia.
Qed.

(** The visits of one device: when, by whom, with which browser. *)
Abbreviation Visit := (Clock * option Uuid * option string)%type (only parsing).
Definition visit_ops (h : string) (vs : list Visit) : list (Clock * DeviceOp) :=
  (λ v : Visit, (v.1.1, Register h v.1.2 v.2)) <$> vs.
Definition visitors (vs : list Visit) : gset N := list_to_set (omap (λ v : Visit, v.1.2) vs).

(** The score of a device seen with [n] accounts. *)
Definition ladder (n : Z) : Z :=
  if n <=? 3 then 5 * n else if n <=? 6 then 15 * n - 30 else if n <=? 7 then 90 else 100.

Lemma risk_ladder_step n :
  0 ≤ n → Z.min (ladder n + risk_increase n) 100 = ladder (n + 1).
Proof.
  intros Hn. unfold ladder, risk_increase. repeat case_match; bool_to_prop; lia.
Qed.

(** An unblocked device whose score follows the ladder for the accounts [us]. *)
Definition on_ladder (us : gset N) (r : DeviceRow) : Prop :=
  NoDup (d_user_ids r) ∧ list_to_set (d_user_ids r) = us ∧ d_is_blocked r = false ∧
  d_account_count r = Z.of_nat (size us) ∧ d_risk_score r = ladder (Z.of_nat (size us)).

Lemma on_ladder_new clk ua : on_ladder ∅ (new_device clk ua).
Proof. split_and!; simpl; [apply NoDup_nil_2|done|done|reflexivity|reflexivity]. Qed.

Lemma on_ladder_account us clk u ua r :
  u ∉ d_user_ids r → Z.of_nat (size (us ∪ {[u]})) ≤ i32_max → on_ladder us r →
  on_ladder (us ∪ {[u]}) (with_account clk u ua r).
Proof.
  intros Hu Hmax (Hnd & <- & Hb & Hc & Hr).
  assert (NoDup (d_user_ids r ++ [u])) as Hnd'.
  { apply NoDup_app. split_and!; [done|set_solver|apply NoDup_singleton]. }
  assert (list_to_set (C := gset N) (d_user_ids r ++ [u]) = list_to_set (d_user_ids r) ∪ {[u]}) as Hset
    by set_solver.
  rewrite size_list_to_set in * by done.
  assert (size (list_to_set (C := gset N) (d_user_ids r) ∪ {[u]}) = S (length (d_user_ids r))) as Hsize.
  { rewrite <-Hset, size_list_to_set, length_app by done. simpl. lia. }
  split_and!; simpl; [done|done|done|..]; rewrite Hsize, ?length_app; simpl.
  - rewrite cast_i32_small; lia.
  - rewrite Hr, Hc, risk_ladder_step by lia. f_equal. lia.
Qed.

(** One visit moves the device up the ladder exactly when the account is new. *)
Lemma register_ladder clk h u ua us d :
  Z.of_nat (size (us ∪ match u with Some u => {[u]} | None => ∅ end)) ≤ i32_max →
  match device_fingerprints d !! h with Some r => on_ladder us r | None => us = ∅ end →
  ∃ r, device_fingerprints (snd (register_fingerprint clk h u ua d)) !! h = Some r ∧
       on_ladder (us ∪ match u with Some u => {[u]} | None => ∅ end) r.
Proof.
  intros Hmax Hrow.
  assert (∃ r, on_ladder us r ∧ d_is_blocked r = false ∧
    device_fingerprints (snd (register_fingerprint clk h u ua d)) !! h =
    Some match u with
         | Some u => if bool_decide (u ∈ d_user_ids r) then seen_again clk ua r else with_account clk u ua r
         | None => seen_again clk ua r
         end) as (r & Hr & Hb & ->).
  { unfold register_fingerprint, has_key. unfold_m. run_step.
    destruct (device_fingerprints d !! h) as [r|] eqn:Hh; simpl.
    - exists r. rewrite Hh. pose proof Hrow as (? & ? & Hb & ?). rewrite Hb. simpl.
      by rewrite lookup_insert_eq.
    - exists (new_device clk ua). subst us. rewrite lookup_insert_eq. simpl.
      rewrite lookup_insert_eq. split; [apply on_ladder_new|done]. }
  eexists; split; [done|]. destruct u as [u|]; [|by rewrite union_empty_r_L].
  case_bool_decide as Hu; [|by apply on_ladder_account].
  replace (us ∪ {[u]}) with us; [done|]. destruct Hr as (_ & <- & _). set_solver.
Qed.

Lemma visits_ladder h vs us d :
  Z.of_nat (size (us ∪ visitors vs)) ≤ i32_max →
  match device_fingerprints d !! h with Some r => on_ladder us r | None => us = ∅ end →
  match device_fingerprints (snd (device_run (visit_ops h vs) d)) !! h with
  | Some r => on_ladder (us ∪ visitors vs) r
  | None => us ∪ visitors vs = ∅
  end.
Proof.
  revert us d. induction vs as [|[[clk u] ua] vs IH]; intros us d Hmax Hrow.
  { replace (us ∪ visitors []) with us by (unfold visitors; set_solver). done. }
  set (us' := us ∪ match u with Some u => {[u]} | None => ∅ end).
  assert (us ∪ visitors ((clk, u, ua) :: vs) = us' ∪ visitors vs) as Hus.
  { unfold us', visitors. destruct u; simpl; set_solver. }
  rewrite Hus in Hmax. rewrite Hus.
  destruct (register_ladder clk h u ua us d) as (r & Hr & Hl); [|done|].
  { fold us'. pose proof (subseteq_size us' (us' ∪ visitors vs) ltac:(set_solver)). lia. }
  apply (IH us' (snd (register_fingerprint clk h u ua d))); [done|]. by rewrite Hr.
Qed.

(** The risk score of a device is a function of how many different accounts
    used it: whatever the order and repetition of the visits, signed in or not, a
    device first seen at the start of the run and never blocked scores 5 per
    account up to three, 15 for each of the next three, 90 at seven and 100 from
    the eighth on, and its list of accounts is exactly the set of visitors. *)
Theorem device_risk_ladder h vs d :
  device_fingerprints d !! h = None → Z.of_nat (size (visitors vs)) ≤ i32_max →
  let d' := snd (device_run (visit_ops h vs) d) in
  check_device_risk h d' = (Ok (ladder (Z.of_nat (size (visitors vs))), false), d') ∧
  ∀ u, (∃ r, device_fingerprints d' !! h = Some r ∧ u ∈ d_user_ids r) ↔ u ∈ visitors vs.
Proof.
  intros Hnew Hmax d'. pose proof (visits_ladder h vs ∅ d) as H.
  rewrite Hnew, !union_empty_l_L in H. specialize (H Hmax eq_refl). fold d' in H.
  unfold check_device_risk, reads. destruct (device_fingerprints d' !! h) as [r|].
  - destruct H as (_ & Hus & Hb & _ & ->). rewrite Hb. split; [done|].
    intros u. rewrite <-Hus, elem_of_list_to_set. naive_solver.
  - rewrite H. split; [done|]. set_solver.
Qed.

Lemma device_risk_ladder_witness :
  let vs := [(mkClock 1 1, Some 1%N, None); (mkClock 2 2, None, None); (mkClock 3 3, Some 2%N, None);
             (mkClock 4 4, Some 1%N, None)] in
  fst (check_device_risk "fp" (snd (device_run (visit_ops "fp" vs) empty_db))) = Ok (10, false).
Proof.
  intros vs. destruct (device_risk_ladder "fp" vs empty_db) as [H _].
  - reflexivity.
  - vm_compute. discriminate.
  - rewrite H. vm_compute. reflexivity.
Defined.

(** The device registry stays well formed under every sequence of
    registrations, blocks and unblocks: accounts are listed once, the count column
    is the length of the list, the score stays within 0 and 100, an unblocked
    device carries no block reason; and while a device is blocked a registration
    changes nothing and reports the block. *)
Theorem device_registry_invariant ops d clk h u ua :
  device_inv d →
  let d' := snd (device_run ops d) in
  device_inv d' ∧
  ∀ r, device_fingerprints d' !! h = Some r → d_is_blocked r = true →
       register_fingerprint clk h u ua d' = (Ok (info_of h r), d').
Proof.
  intros Hd d'. split.
  - revert Hd. apply (preserves_for_each device_inv). intros [c op]. apply device_step_inv.
  - intros r Hr Hb. unfold register_fingerprint, has_key. unfold_m. run_step.
    rewrite Hr. simpl. by rewrite Hr, Hb.
Qed.

Lemma device_registry_invariant_witness :
  let ops := [(mkClock 1 1, Register "fp" (Some 1%N) None); (mkClock 2 2, BlockDevice "fp" "abuse")] in
  device_inv (snd (device_run ops empty_db)) ∧
  fst (register_fingerprint (mkClock 3 3) "fp" (Some 2%N) None (snd (device_run ops empty_db))) =
    Ok (mkDeviceInfo "fp" [1%N] 1 5 true).
Proof.
  intros ops.
  destruct (device_registry_invariant ops empty_db (mkClock 3 3) "fp" (Some 2%N) None) as [Hi Hb].
  { intros k r Hk. vm_compute in Hk. discriminate. }
  split; [exact Hi|].
  rewrite (Hb (mkDeviceRow 1 [1%N] 1 5 true (Some "abuse") (Some 2) None 2)); vm_compute; reflexivity.
Defined.
