(* ===== verification/DeviceRaces.v ===== *)
(** * Device fingerprints under concurrent requests

    [register_fingerprint], [block_device] and [unblock_device] of
    [src/app/fingerprint.rs] as programs. A registration first makes sure that the row
    exists, then locks it and decides on what it reads under the lock; blocks and
    unblocks are single updates of the row. However they interleave, the registry is
    the one the methods would have made one after another, in the order of the commits:
    no account of a device is lost and no step of its risk score is skipped. *)

From S2P Require Import Prelude Sql Domain Schema Isolation GraphRaces Fingerprint.
From stdpp Require Import options.

#[local] Open Scope Z_scope.

(** ** The transactions *)

(** How a request ended; only a registration returns something. The caller of a block or
    unblock is not told whether there was a row, here it is kept. *)
Inductive DeviceAnswer :=
| DeviceDone (clk : Clock) (op : DeviceOp) (info : option DeviceInfo)
| DeviceMissed (clk : Clock) (op : DeviceOp)
| DeviceFailed (e : DbError).

(** [UPDATE device_fingerprints SET .. WHERE fingerprint_hash = $1]: whether a row was
    updated. *)
Definition update_device_txn (h : string) (f : DeviceRow → DeviceRow) : Proc DeviceAnswer bool :=
  seen ← query (λ d, has_key h (device_fingerprints d));
  if negb seen then mret false else
  _ ← lock (RDevice h) ForNoKeyUpdate;
  row ← query (λ d, device_fingerprints d !! h);
  match row with
  | None => mret false
  | Some r => _ ← exec (set_device_fingerprints (<[h := f r]>)); mret true
  end.
(** [SELECT .. WHERE fingerprint_hash = $1 FOR UPDATE]. *)
Definition select_device_txn (h : string) : Proc DeviceAnswer (option DeviceRow) :=
  seen ← query (λ d, has_key h (device_fingerprints d));
  if negb seen then mret None else
  _ ← lock (RDevice h) ForUpdate;
  query (λ d, device_fingerprints d !! h).

(** The columns the update for a new account sets. *)
Definition account_columns (clk : Clock) (user_ids : list Uuid) (account_count risk_score : Z) (user_agent : option string)
    (r : DeviceRow) : DeviceRow :=
  mkDeviceRow (db_now clk) user_ids account_count risk_score (d_is_blocked r) (d_block_reason r) (d_blocked_at r)
    (coalesce user_agent (d_user_agent r)) (db_now clk).

Definition updated (clk : Clock) (op : DeviceOp) (found : bool) : DeviceAnswer :=
  if found then DeviceDone clk op None else DeviceMissed clk op.

Section programs.
Context (clk : Clock) (h : string).

(** What follows the insert. *)
Definition visit_stmts (user_id : option Uuid) (user_agent : option string) : Proc DeviceAnswer DeviceInfo :=
  row ← select_device_txn h;
  match row with
  | None => rollback (DeviceFailed RowNotFound)
  | Some r =>
      if d_is_blocked r then mret (info_of h r) else
      let new_account := match user_id with Some u => if bool_decide (u ∈ d_user_ids r) then None else Some u | None => None end in
      match new_account with
      | Some u =>
          let user_ids := d_user_ids r ++ [u] in
          let risk_score := Z.min (d_risk_score r + risk_increase (d_account_count r)) 100 in
          let new_account_count := cast_i32 (Z.of_nat (length user_ids)) in
          _ ← update_device_txn h (account_columns clk user_ids new_account_count risk_score user_agent);
          mret (mkDeviceInfo h user_ids new_account_count risk_score false)
      | None =>
          _ ← update_device_txn h (seen_again clk user_agent);
          mret (mkDeviceInfo h (d_user_ids r) (d_account_count r) (d_risk_score r) false)
      end
  end.
Definition register_fingerprint_txn (user_id : option Uuid) (user_agent : option string) : Txn DeviceAnswer := script (
  (* INSERT .. ON CONFLICT DO NOTHING *)
  _ ← insert_row (RDevice h) (λ d, has_key h (device_fingerprints d))
        (set_device_fingerprints (<[h := new_device clk user_agent]>));
  info ← visit_stmts user_id user_agent;
  mret (DeviceDone clk (Register h user_id user_agent) (Some info))).
Definition block_device_txn (reason : string) : Txn DeviceAnswer := script (
  found ← update_device_txn h (λ r,
            mkDeviceRow (d_last_seen_at r) (d_user_ids r) (d_account_count r) (d_risk_score r) true
              (Some reason) (Some (db_now clk)) (d_user_agent r) (db_now clk));
  mret (updated clk (BlockDevice h reason) found)).
Definition unblock_device_txn : Txn DeviceAnswer := script (
  found ← update_device_txn h (λ r,
            mkDeviceRow (d_last_seen_at r) (d_user_ids r) (d_account_count r) (d_risk_score r ÷ 2) false
              None None (d_user_agent r) (db_now clk));
  mret (updated clk (UnblockDevice h) found)).
End programs.
Definition device_txn (clk : Clock) (op : DeviceOp) : Txn DeviceAnswer :=
  match op with
  | Register h u ua => register_fingerprint_txn clk h u ua
  | BlockDevice h reason => block_device_txn clk h reason
  | UnblockDevice h => unblock_device_txn clk h
  end.
(** The method of a request, with its answer. *)
Definition device_method (clk : Clock) (op : DeviceOp) (d : Db) : DeviceAnswer * Db :=
  match op with
  | Register h u ua =>
      match register_fingerprint clk h u ua d with
      | (Ok info, d') => (DeviceDone clk op (Some info), d')
      | (Err e, d') => (DeviceFailed e, d')
      end
  | BlockDevice h reason => (updated clk op (has_key h (device_fingerprints d)), (block_device clk h reason d).2)
  | UnblockDevice h => (updated clk op (has_key h (device_fingerprints d)), (unblock_device clk h d).2)
  end.

(** ** What the methods do to the row *)

Definition put_device (h : string) (r : DeviceRow) : Db → Db := set_device_fingerprints (<[h := r]>).
Lemma put_device_twice h r r' d : put_device h r (put_device h r' d) = put_device h r d.
Proof. unfold put_device, set_device_fingerprints. simpl. by rewrite insert_insert_eq. Qed.
Definition update_device (h : string) (f : DeviceRow → DeviceRow) (d : Db) : Db :=
  match device_fingerprints d !! h with Some r => put_device h (f r) d | None => d end.
Lemma update_where_device h f d :
  set_device_fingerprints (update_where (λ k _, bool_decide (k = h)) f) d = update_device h f d.
Proof.
  unfold update_device, put_device.
  assert (Hm : ∀ g, g (device_fingerprints d) = update_where (λ k _, bool_decide (k = h)) f (device_fingerprints d) →
    set_device_fingerprints (update_where (λ k _, bool_decide (k = h)) f) d = set_device_fingerprints g d).
  { intros g Hg. unfold set_device_fingerprints. by rewrite Hg. }
  destruct (device_fingerprints d !! h) as [r|] eqn:Hr; [apply Hm|rewrite (Hm id); [by destruct d|]];
    apply map_eq; intros k; rewrite lookup_update_where.
  - destruct (decide (k = h)) as [->|Hk]; [by rewrite lookup_insert_eq, Hr; simpl; rewrite bool_decide_true|].
    rewrite lookup_insert_ne by done. destruct (device_fingerprints d !! k); [|done]. simpl. by rewrite bool_decide_false.
  - destruct (decide (k = h)) as [->|Hk]; [by simpl; rewrite Hr|].
    simpl. destruct (device_fingerprints d !! k); [|done]. simpl. by rewrite bool_decide_false.
Qed.
(** The row after a registration that was not refused. *)
Definition visited (clk : Clock) (u : option Uuid) (ua : option string) (r : DeviceRow) : DeviceRow :=
  match u with
  | Some u => if bool_decide (u ∈ d_user_ids r) then seen_again clk ua r else with_account clk u ua r
  | None => seen_again clk ua r
  end.
Lemma register_run clk h u ua d :
  register_fingerprint clk h u ua d =
  let r := default (new_device clk ua) (device_fingerprints d !! h) in
  if d_is_blocked r then (Ok (info_of h r), d) else (Ok (info_of h (visited clk u ua r)), put_device h (visited clk u ua r) d).
Proof.
  unfold register_fingerprint. unfold_m. unfold has_key. destruct (device_fingerprints d !! h) as [r|] eqn:Hr; simpl.
  - rewrite Hr. simpl. destruct (d_is_blocked r); [done|]. by simpl.
  - rewrite lookup_insert_eq. simpl. f_equal. apply put_device_twice.
Qed.

(** ** Alone, every program is its method *)

Lemma alone_update_device h f k w d :
  alone (update_device_txn h f k) w d =
  alone (k (has_key h (device_fingerprints (w d)))) (λ _, update_device h f (w d)) d.
Proof.
  unfold update_device_txn, update_device, has_key, mbind, Proc_bind, mret, Proc_ret, query, lock, exec. cbn [alone].
  destruct (device_fingerprints (w d) !! h) as [r|] eqn:Hr.
  - rewrite bool_decide_true by done. cbn [negb alone]. rewrite Hr. cbn [alone]. by apply alone_ext.
  - rewrite bool_decide_false by (by intros []). by apply alone_ext.
Qed.
Lemma alone_select_device h k w d :
  alone (select_device_txn h k) w d = alone (k (device_fingerprints (w d) !! h)) w d.
Proof.
  unfold select_device_txn, has_key, mbind, Proc_bind, mret, Proc_ret, query, lock. cbn [alone].
  destruct (device_fingerprints (w d) !! h) as [r|] eqn:Hr.
  - rewrite bool_decide_true by done. cbn [negb alone]. by rewrite Hr.
  - by rewrite bool_decide_false by (by intros []).
Qed.
Lemma alone_visit clk h u ua k w d r :
  device_fingerprints (w d) !! h = Some r →
  alone (visit_stmts clk h u ua k) w d =
  if d_is_blocked r then alone (k (info_of h r)) w d
  else alone (k (info_of h (visited clk u ua r))) (λ _, put_device h (visited clk u ua r) (w d)) d.
Proof.
  intros Hr. unfold visit_stmts, mbind, Proc_bind, mret, Proc_ret. rewrite alone_select_device, Hr.
  destruct (d_is_blocked r) eqn:Hb; [done|]. unfold visited.
  destruct u as [u|]; [destruct (bool_decide (u ∈ d_user_ids r))|]; cbv iota zeta; rewrite alone_update_device;
    unfold update_device; rewrite Hr; unfold info_of; simpl; rewrite Hb; done.
Qed.
Theorem device_programs_alone clk op d : run_alone (device_txn clk op) d = device_method clk op d.
Proof.
  destruct op as [h u ua|h reason|h]; unfold run_alone, device_txn, device_method.
  - rewrite register_run. unfold register_fingerprint_txn, script, mbind, Proc_bind, mret, Proc_ret, insert_row, has_key. cbn [alone].
    destruct (device_fingerprints d !! h) as [r|] eqn:Hr.
    + rewrite bool_decide_true by done. rewrite (alone_visit _ _ _ _ _ (λ d, d) _ r Hr). simpl. by destruct (d_is_blocked r).
    + rewrite bool_decide_false by (by intros []). rewrite (alone_visit _ _ _ _ _ _ _ (new_device clk ua)) by apply lookup_insert_eq.
      simpl. f_equal. apply put_device_twice.
  - unfold block_device_txn, script, mbind, Proc_bind, mret, Proc_ret, block_device. rewrite alone_update_device.
    unfold_m. simpl. by rewrite update_where_device.
  - unfold unblock_device_txn, script, mbind, Proc_bind, mret, Proc_ret, unblock_device. rewrite alone_update_device.
    unfold_m. simpl. by rewrite update_where_device.
Qed.

(** ** What a commit does *)

(** A commit is the method, applied to the database at that moment, or an update that
    found no row; no request fails, and rows change only under their locks. *)
Definition device_commit (L : Locks) (a : DeviceAnswer) (d d' : Db) : Prop :=
  match a with
  | DeviceDone clk op _ => device_method clk op d = (a, d')
  | DeviceMissed _ _ => d' = d
  | DeviceFailed _ => False
  end ∧
  ∀ h, device_fingerprints d !! h ≠ device_fingerprints d' !! h → exclusive L (RDevice h).

Global Instance DeviceRow_eq_dec : EqDecision DeviceRow.
Proof. solve_decision. Defined.
Notation dwp := (wp device_commit).
Notation dstable := (stable device_commit).

Lemma device_method_dom clk op d h :
  is_Some (device_fingerprints d !! h) → is_Some (device_fingerprints (device_method clk op d).2 !! h).
Proof.
  intros Hh. assert (Hput : ∀ h' r, is_Some (device_fingerprints (put_device h' r d) !! h)).
  { intros h' r. unfold put_device. simpl. destruct (decide (h' = h)) as [->|]; [rewrite lookup_insert_eq; by eexists|].
    by rewrite lookup_insert_ne. }
  assert (Hupd : ∀ h' f, is_Some (device_fingerprints (update_device h' f d) !! h)).
  { intros h' f. unfold update_device. by destruct (device_fingerprints d !! h'). }
  destruct op as [h' u ua|h' reason|h']; unfold device_method.
  - rewrite register_run. cbv zeta. destruct (d_is_blocked _); simpl; [done|apply Hput].
  - unfold block_device. unfold_m. cbn [snd]. rewrite update_where_device. apply Hupd.
  - unfold unblock_device. unfold_m. cbn [snd]. rewrite update_where_device. apply Hupd.
Qed.
(** Rows are never deleted, and a row one has locked stays as it is. *)
Lemma stable_known L h : dstable L (λ d, is_Some (device_fingerprints d !! h)).
Proof.
  intros d d' (L' & a & _ & Hm & _) Hh. destruct a as [clk op info|clk op|e]; [|by subst|done].
  pose proof (device_method_dom clk op d h Hh) as Hd. by rewrite Hm in Hd.
Qed.
Lemma stable_device L h v : exclusive L (RDevice h) → dstable L (λ d, device_fingerprints d !! h = v).
Proof. apply (stable_row device_commit RDevice device_fingerprints). by intros ???? [_ ?]. Qed.

Section owned.
Context (h : string) (v : option DeviceRow).

(** The transaction has locked the row of [h], which is [v], and its only pending write
    makes it [r]. *)
Definition owns_device (L : Locks) (d : Db) : Prop := exclusive L (RDevice h) ∧ device_fingerprints d !! h = v.
Definition row_becomes (r : DeviceRow) (w : Db → Db) : Prop :=
  ((∀ d, w d = d) ∧ v = Some r) ∨ ∀ d, w d = put_device h r d.
Lemma owns_device_stable L : dstable L (owns_device L).
Proof. intros d d' Hr [Hl Hd]. split; [done|]. by eapply (stable_device L h v). Qed.
Lemma owns_device_more L l d : owns_device L d → owns_device (l :: L) d.
Proof. intros [Hl Hd]. split; [by apply exclusive_more|done]. Qed.
Lemma becomes_lookup r w L d : row_becomes r w → owns_device L d → device_fingerprints (w d) !! h = Some r.
Proof. intros [[Hw Hv]|Hw] [_ Hd]; rewrite Hw; [by rewrite Hd|]. apply lookup_insert_eq. Qed.

(** An update of the row that is held. *)
Lemma wp_update_owned_device f k L w r d :
  row_becomes r w → owns_device L d →
  (∀ L' w' d', (∀ d, w' d = put_device h (f r) d) → owns_device L' d' → dwp (k true) L' w' d') →
  dwp (update_device_txn h f k) L w d.
Proof.
  intros Hw Hd Hk. unfold update_device_txn, mbind, Proc_bind, mret, Proc_ret.
  apply (wp_query _ owns_device); [apply owns_device_stable|done|]. intros d1 H1.
  rewrite (proj2 (has_key_true h _)) by (rewrite (becomes_lookup r w L d1 Hw H1); by eexists). simpl negb. cbv iota.
  apply (wp_lock _ owns_device); [apply owns_device_stable|apply owns_device_more|done|]. intros d2 H2.
  apply (wp_query _ owns_device); [apply owns_device_stable|done|]. intros d3 H3. rewrite (becomes_lookup r w _ d3 Hw H3).
  apply (wp_exec _ owns_device); [apply owns_device_stable|done|]. intros d4 H4. apply Hk; [|done].
  intros d5. destruct Hw as [[Hw _]|Hw]; rewrite Hw; [done|apply put_device_twice].
Qed.
(** A commit of the row, by the method that makes it. *)
Lemma device_commits clk op info r w L d :
  (∀ d, w d = put_device h r d) → owns_device L d →
  (∀ d, device_fingerprints d !! h = v → device_method clk op d = (DeviceDone clk op info, put_device h r d)) →
  dwp (TCommit (DeviceDone clk op info)) L w d.
Proof.
  intros Hw Hd Hm d' Hdr. destruct (stable_drifts _ _ _ _ _ (owns_device_stable L) Hdr Hd) as [Hl Hd']. rewrite Hw.
  split; [auto|]. intros h' Hne. unfold put_device in Hne. simpl in Hne.
  destruct (decide (h' = h)) as [->|]; [done|]. by rewrite lookup_insert_ne in Hne.
Qed.
End owned.

(** ** The programs *)

(** The row a registration works on: the one that was there, or the one it inserted. *)
Definition begun (clk : Clock) (h : string) (ua : option string) (v : option DeviceRow) (r : DeviceRow) (w : Db → Db) : Prop :=
  v = Some r ∧ (∀ d, w d = d) ∨ v = None ∧ r = new_device clk ua ∧ ∀ d, w d = put_device h r d.
Lemma begun_becomes clk h ua v r w : begun clk h ua v r w → row_becomes h v r w.
Proof. intros [[-> Hw]|(-> & -> & Hw)]; [by left|by right]. Qed.
Lemma begun_register clk h u ua v r w d :
  begun clk h ua v r w → device_fingerprints d !! h = v →
  device_method clk (Register h u ua) d =
  if d_is_blocked r then (DeviceDone clk (Register h u ua) (Some (info_of h r)), d)
  else (DeviceDone clk (Register h u ua) (Some (info_of h (visited clk u ua r))), put_device h (visited clk u ua r) d).
Proof.
  intros Hb Hd. unfold device_method. rewrite register_run, Hd.
  destruct Hb as [[-> _]|(-> & -> & _)]; simpl; [|done]. by destruct (d_is_blocked r).
Qed.
Lemma wp_select_device clk h ua k L w d :
  (∃ v r, begun clk h ua v r w ∧ owns_device h v L d) ∨ (∀ d, w d = d) ∧ is_Some (device_fingerprints d !! h) →
  (∀ L' d' v r, owns_device h v L' d' → begun clk h ua v r w → dwp (k (Some r)) L' w d') →
  dwp (select_device_txn h k) L w d.
Proof.
  intros Hstart Hk. unfold select_device_txn, mbind, Proc_bind, mret, Proc_ret.
  destruct Hstart as [(v & r & Hb & Hd)|[Hw Hd]].
  - pose proof (begun_becomes _ _ _ _ _ _ Hb) as Hw.
    apply (wp_query _ (owns_device h v)); [apply owns_device_stable|done|]. intros d1 H1.
    rewrite (proj2 (has_key_true h _)) by (rewrite (becomes_lookup h v r w L d1 Hw H1); by eexists). simpl negb. cbv iota.
    apply (wp_lock _ (owns_device h v)); [apply owns_device_stable|apply owns_device_more|done|]. intros d2 H2.
    apply (wp_query _ (owns_device h v)); [apply owns_device_stable|done|]. intros d3 H3.
    rewrite (becomes_lookup h v r w _ d3 Hw H3). by eapply Hk.
  - pose proof (λ L, stable_known L h) as Hs. apply (wp_query _ (λ _ d, is_Some (device_fingerprints d !! h))); [done|done|].
    intros d1 H1. rewrite Hw, (proj2 (has_key_true h _)) by done. simpl negb. cbv iota.
    apply (wp_lock _ (λ _ d, is_Some (device_fingerprints d !! h))); [done|done|done|]. intros d2 H2 d3 Hdr.
    destruct (stable_drifts _ _ _ _ _ (Hs _) Hdr H2) as [r Hr]. rewrite Hw, Hr. apply (Hk _ _ (Some r)).
    + split; [|done]. left. left.
    + by left.
Qed.
Lemma wp_visit clk h u ua L w d :
  (∃ v r, begun clk h ua v r w ∧ owns_device h v L d) ∨ (∀ d, w d = d) ∧ is_Some (device_fingerprints d !! h) →
  dwp (visit_stmts clk h u ua (λ info, TCommit (DeviceDone clk (Register h u ua) (Some info)))) L w d.
Proof.
  intros Hstart. unfold visit_stmts, mbind, Proc_bind, mret, Proc_ret. apply (wp_select_device clk h ua); [done|].
  clear L d Hstart. intros L d v r Hd Hb. pose proof (begun_becomes _ _ _ _ _ _ Hb) as Hw.
  destruct (d_is_blocked r) eqn:Hbl.
  - intros d' Hdr. destruct (stable_drifts _ _ _ _ _ (owns_device_stable h v L) Hdr Hd) as [_ Hd'].
    destruct Hb as [[-> Hid]|(-> & -> & _)]; [|done]. rewrite Hid. split; [|done].
    rewrite (begun_register clk h u ua (Some r) r w); [by rewrite Hbl|by left|done].
  - assert (Hcommit : ∀ info f L' w' d', (∀ d, w' d = put_device h (f r) d) → owns_device h v L' d' →
      f r = visited clk u ua r → info = info_of h (visited clk u ua r) →
      dwp (TCommit (DeviceDone clk (Register h u ua) (Some info))) L' w' d').
    { intros info f L' w' d' Hw' Hd' Hf ->. rewrite Hf in Hw'. eapply (device_commits h v clk (Register h u ua)); [done|done|].
      intros d2 H2. by rewrite (begun_register clk h u ua v r w), Hbl. }
    unfold visited in Hcommit. destruct u as [u|]; [destruct (bool_decide (u ∈ d_user_ids r))|]; cbv iota zeta.
    all: apply (wp_update_owned_device h v _ _ _ _ r); [done|done|]; intros L' w' d' Hw' Hd'.
    all: eapply Hcommit; [done|done|done|]; unfold info_of; simpl; by rewrite Hbl.
Qed.
Lemma wp_update_device clk op f h L d :
  (∀ d, is_Some (device_fingerprints d !! h) → device_method clk op d = (DeviceDone clk op None, update_device h f d)) →
  dwp (update_device_txn h f (λ found, TCommit (updated clk op found))) L (λ d, d) d.
Proof.
  intros Hm. unfold update_device_txn, mbind, Proc_bind, mret, Proc_ret, query. intros d1 _.
  destruct (has_key h (device_fingerprints d1)) eqn:Hk; [|by intros d2 _]. cbn [negb]. cbv iota.
  pose proof (λ L, stable_known L h) as Hs. apply has_key_true in Hk.
  apply (wp_lock _ (λ _ d, is_Some (device_fingerprints d !! h))); [done|done|done|]. intros d2 H2 d3 Hdr.
  destruct (stable_drifts _ _ _ _ _ (Hs _) Hdr H2) as [r Hr]. rewrite Hr.
  apply (wp_exec _ (owns_device h (Some r))); [apply owns_device_stable|split; [right; left|done]|]. intros d4 H4.
  apply (device_commits h (Some r) clk op None (f r)); [done|done|]. intros d5 H5. rewrite Hm by (rewrite H5; by eexists).
  unfold update_device. by rewrite H5.
Qed.
Lemma device_txn_valid I clk op : valid device_commit I (device_txn clk op).
Proof.
  intros d _. destruct op as [h u ua|h reason|h]; unfold device_txn.
  - unfold register_fingerprint_txn, script, mbind, Proc_bind, mret, Proc_ret. intros d1 _.
    destruct (has_key h (device_fingerprints d1)) eqn:Hk; apply wp_visit.
    + right. split; [done|]. by apply has_key_true.
    + left. exists None, (new_device clk ua). split; [by right|]. split; [left; left|]. by apply has_key_false.
  - apply wp_update_device. intros d1 Hd1. unfold device_method, block_device. unfold_m. cbn [snd].
    by rewrite update_where_device, (proj2 (has_key_true h _) Hd1).
  - apply wp_update_device. intros d1 Hd1. unfold device_method, unblock_device. unfold_m. cbn [snd].
    by rewrite update_where_device, (proj2 (has_key_true h _) Hd1).
Qed.

(** ** The theorem *)

(** The requests that took effect. *)
Definition took_effect (a : DeviceAnswer) : option (Clock * DeviceOp) :=
  match a with DeviceDone clk op _ => Some (clk, op) | _ => None end.
Definition op_device (op : DeviceOp) : string :=
  match op with Register h _ _ | BlockDevice h _ | UnblockDevice h => h end.
(** The accounts [h] was registered with, and that it was never blocked or unblocked. *)
Definition account_on (h : string) (a : DeviceAnswer) : option Uuid :=
  match a with DeviceDone _ (Register h' u _) _ => if decide (h' = h) then u else None | _ => None end.
Definition accounts_on (h : string) (as_ : list DeviceAnswer) : gset N := list_to_set (omap (account_on h) as_).
Definition only_registered (h : string) (a : DeviceAnswer) : Prop :=
  match a with DeviceDone _ op _ => match op with Register _ _ _ => True | _ => op_device op ≠ h end | _ => True end.

Lemma device_method_step clk op d a d' : device_method clk op d = (a, d') → d' = (device_step clk op d).2.
Proof.
  destruct op as [h u ua|h reason|h]; simpl; [|by intros [= _ <-]..]. unfold best_effort.
  destruct (register_fingerprint clk h u ua d) as [[info|e] d1]; by intros [= _ <-].
Qed.
Lemma device_method_other clk op d h :
  op_device op ≠ h → device_fingerprints (device_method clk op d).2 !! h = device_fingerprints d !! h.
Proof.
  intros Hne. assert (Hupd : ∀ f, device_fingerprints (update_device (op_device op) f d) !! h = device_fingerprints d !! h).
  { intros f. unfold update_device. destruct (device_fingerprints d !! op_device op); [|done]. by apply lookup_insert_ne. }
  destruct op as [h' u ua|h' reason|h']; unfold device_method; simpl in Hne.
  - rewrite register_run. cbv zeta. destruct (d_is_blocked _); [done|]. by apply lookup_insert_ne.
  - unfold block_device. unfold_m. cbn [snd]. by rewrite update_where_device.
  - unfold unblock_device. unfold_m. cbn [snd]. by rewrite update_where_device.
Qed.

Lemma device_step_ok clk op d : device_step clk op d = (Ok tt, (device_step clk op d).2).
Proof.
  destruct op as [h u ua|h reason|h]; [|done..]. simpl. unfold best_effort.
  by destruct (register_fingerprint clk h u ua d) as [[info|e] d'].
Qed.
Lemma device_run_snoc xs x d : (device_run (xs ++ [x]) d).2 = (device_step x.1 x.2 (device_run xs d).2).2.
Proof.
  unfold device_run. revert d. induction xs as [|y xs IH]; intros d; cbn [app for_each]; unfold mbind, M_bind; rewrite device_step_ok; [done|].
  apply IH.
Qed.

Lemma replay_serial d as_ d' :
  replay device_commit d as_ d' → d' = (device_run (omap took_effect (reverse as_)) d).2.
Proof.
  induction 1 as [|as_ a L d1 d' Hrep IH [Hst _]]; [done|]. rewrite reverse_cons, omap_app.
  destruct a as [clk op info|clk op|e]; cbn [omap list_omap took_effect]; [|by subst; rewrite app_nil_r|done].
  rewrite device_run_snoc, <-IH. by eapply device_method_step.
Qed.
Lemma replay_ladder h d as_ d' :
  replay device_commit d as_ d' → device_fingerprints d !! h = None → Forall (only_registered h) as_ →
  Z.of_nat (size (accounts_on h as_)) ≤ i32_max →
  match device_fingerprints d' !! h with
  | Some r => on_ladder (accounts_on h as_) r
  | None => accounts_on h as_ = ∅
  end.
Proof.
  intros Hrep Hnew. induction Hrep as [|as_ a L d1 d' Hrep IH [Hst _]]; intros Hf Hmax; [by rewrite Hnew|].
  inversion Hf as [|?? Ha Hf']; subst. assert (Hsub : accounts_on h as_ ⊆ accounts_on h (a :: as_)).
  { unfold accounts_on. cbn [omap list_omap]. destruct (account_on h a); set_solver. }
  specialize (IH Hf' ltac:(apply subseteq_size in Hsub; lia)).
  assert (Hsame : account_on h a = None → device_fingerprints d' !! h = device_fingerprints d1 !! h →
    match device_fingerprints d' !! h with
    | Some r => on_ladder (accounts_on h (a :: as_)) r
    | None => accounts_on h (a :: as_) = ∅
    end).
  { intros Hn ->. unfold accounts_on. cbn [omap list_omap]. by rewrite Hn. }
  destruct a as [clk op info|clk op|e]; [|by apply Hsame; [|subst]|done].
  assert (Hd' : d' = (device_method clk op d1).2) by (by rewrite Hst).
  destruct (decide (op_device op = h)) as [<-|Hne]; cycle 1.
  { apply Hsame; [|rewrite Hd'; by apply device_method_other]. destruct op; simpl in *; [by rewrite decide_False|done|done]. }
  destruct op as [h u ua|h reason|h]; simpl in *; [|done..].
  assert (Hacc : accounts_on h (DeviceDone clk (Register h u ua) info :: as_) =
    accounts_on h as_ ∪ match u with Some u => {[u]} | None => ∅ end).
  { unfold accounts_on. cbn [omap list_omap account_on]. rewrite decide_True by done. destruct u; set_solver. }
  rewrite Hacc in *. destruct (register_ladder clk h u ua (accounts_on h as_) d1 Hmax IH) as (r & Hr & Hl).
  rewrite (device_method_step _ (Register h u ua) _ _ _ Hst). simpl. unfold best_effort.
  destruct (register_fingerprint clk h u ua d1) as [[]]; simpl in *; by rewrite Hr.
Qed.

(** C18: device registrations are serializable. However registrations, blocks and
    unblocks of any devices interleave, statement by statement and cut off anywhere: no
    registration fails, the registry is the one the methods make when they are run one
    after another in the order of the commits (a block or unblock that found no row
    left out), every registration was told what its method returned there, and the
    registry stays well formed. In particular the risk score of a device that is new and
    never blocked is that of the ladder for the accounts that were registered with it. *)
Theorem concurrent_registrations ms d s :
  (∀ i p, Begin i p ∈ ms → ∃ clk op, p = device_txn clk op) → schedule ms (idle_machine d) = Some s →
  replay device_commit d (answered s) (committed s) ∧
  committed s = (device_run (omap took_effect (reverse (answered s))) d).2 ∧
  (device_inv d → device_inv (committed s)) ∧
  (∀ e, DeviceFailed e ∉ answered s) ∧
  ∀ h, device_fingerprints d !! h = None → Forall (only_registered h) (answered s) →
    Z.of_nat (size (accounts_on h (answered s))) ≤ i32_max →
    (check_device_risk h (committed s)).1 = Ok (ladder (Z.of_nat (size (accounts_on h (answered s)))), false).
Proof.
  intros Hms Hs. assert (Hrep : replay device_commit d (answered s) (committed s)).
  { eapply (schedule_replay _ (λ _, True)); [done|done| |done]. intros i p (clk & op & ->)%Hms. apply device_txn_valid. }
  clear Hms Hs. pose proof (replay_serial _ _ _ Hrep) as Hser. split_and!; [done|done| | |].
  - intros Hd. rewrite Hser. revert Hd. apply (preserves_for_each device_inv). intros [c op]. apply device_step_inv.
  - intros e. clear Hser. induction Hrep as [|as_ a L d1 d' Hrep IH [Hst _]]; [apply not_elem_of_nil|].
    intros [<-|?]%elem_of_cons; [done|by apply IH].
  - intros h Hnew Hf Hmax. pose proof (replay_ladder h _ _ _ Hrep Hnew Hf Hmax) as Hl. unfold check_device_risk, reads. simpl.
    destruct (device_fingerprints (committed s) !! h) as [r|]; [|by rewrite Hl].
    destruct Hl as (_ & _ & Hb & _ & Hr). by rewrite Hb, Hr.
Qed.

(** ** Concrete runs *)

(** Two accounts register the same new device at the same time while it is to be
    blocked: the second insert waits for the first commit, finds the row and goes on with
    it; the block looked before there was a row. *)
Definition first_visits : list (PoolMove DeviceAnswer) :=
  [Begin 1 (device_txn (mkClock 5 5) (Register "fp" (Some 1%N) None));
   Begin 2 (device_txn (mkClock 6 6) (Register "fp" (Some 2%N) None));
   Begin 3 (device_txn (mkClock 6 6) (BlockDevice "fp" "abuse"))]
  ++ [Step 1; Step 3] ++ replicate 8 (Step 1) ++ replicate 9 (Step 2) ++ [Step 3].
Lemma concurrent_registrations_witness :
  ∃ s, schedule first_visits (idle_machine empty_db) = Some s ∧ device_inv (committed s) ∧
    answered s = [DeviceMissed (mkClock 6 6) (BlockDevice "fp" "abuse");
                  DeviceDone (mkClock 6 6) (Register "fp" (Some 2%N) None) (Some (mkDeviceInfo "fp" [1%N; 2%N] 2 10 false));
                  DeviceDone (mkClock 5 5) (Register "fp" (Some 1%N) None) (Some (mkDeviceInfo "fp" [1%N] 1 5 false))] ∧
    (check_device_risk "fp" (committed s)).1 = Ok (10, false).
Proof.
  destruct (schedule first_visits (idle_machine empty_db)) as [s|] eqn:Hs; [|by vm_compute in Hs].
  assert (Ha : answered s = [DeviceMissed (mkClock 6 6) (BlockDevice "fp" "abuse");
                  DeviceDone (mkClock 6 6) (Register "fp" (Some 2%N) None) (Some (mkDeviceInfo "fp" [1%N; 2%N] 2 10 false));
                  DeviceDone (mkClock 5 5) (Register "fp" (Some 1%N) None) (Some (mkDeviceInfo "fp" [1%N] 1 5 false))])
    by (vm_compute in Hs; injection Hs as <-; reflexivity).
  destruct (concurrent_registrations first_visits empty_db s) as (_ & _ & Hi & _ & Hl); [|exact Hs|].
  - intros i p Hp. unfold first_visits in Hp. rewrite !elem_of_app, !elem_of_cons in Hp.
    destruct Hp as [[[= -> ->]|[[= -> ->]|[[= -> ->]|[]%elem_of_nil]]]|Hp];
      [by exists (mkClock 5 5), (Register "fp" (Some 1%N) None)|by exists (mkClock 6 6), (Register "fp" (Some 2%N) None)
      |by exists (mkClock 6 6), (BlockDevice "fp" "abuse")|].
    destruct Hp as [[Hp|[Hp|[]%elem_of_nil]]|[Hp|[Hp|[Hp|[]%elem_of_nil]]]];
      first [discriminate Hp|apply elem_of_replicate in Hp as [Hp _]; discriminate Hp].
  - exists s. split; [done|]. split; [apply Hi; intros k r Hk; vm_compute in Hk; discriminate|]. split; [exact Ha|].
    rewrite (Hl "fp"); rewrite ?Ha; [reflexivity|reflexivity|by repeat constructor|vm_compute; discriminate].
Defined.
