(* ===== verification/Transactions.v ===== *)
(** * The transaction programs and the methods

    The concurrent files ([GraphRaces], [SessionRaces], [TrustRaces], [InviteRaces],
    [StoryRaces], [PostRaces], [DeviceRaces]) write the methods of the services as
    programs of single statements and locks; the other files write them as functions on
    the whole database. This file compares the two: run on its own, a program leaves the
    database of its method and gives its answer. *)

From S2P Require Import Prelude Sql Domain Schema Isolation Social Users Trust Invites Crypto Auth.
From S2P Require Import Stories GraphRaces SessionRaces TrustRaces InviteRaces StoryRaces PostRaces DeviceRaces.
From stdpp Require Import options.

(** Run without interference, the transaction programs agree with the sequential models
    of the methods they stand for: the same database, and the same answer as far as the
    program's answer records it ([create_invite] answers with the code, [revoke_invite]
    tells success from everything else). The methods are [follow], [unfollow], [block],
    [unblock] and [delete_account]; [login], [refresh] and [revoke_refresh_token];
    [record_flag], [add_strike] and [recalculate_trust_level]; [signup], [create_invite],
    [create_admin_invite] and [revoke_invite]; [mark_seen], [add_reaction],
    [remove_reaction] and [delete_story]; the reports and takedowns of moderation,
    [delete_post], [like_post], [unlike_post], [comment_post] and [delete_comment];
    [register_fingerprint], [block_device] and [unblock_device]. *)
Theorem transactions_alone `{Crypto} cfg clk :
  ((∀ a b, alone_as (OpFollow a b) (follow_txn clk a b) (follow clk a b) id) ∧
   (∀ a b, alone_as (OpUnfollow a b) (unfollow_txn a b) (unfollow a b) id) ∧
   (∀ a b, alone_as (OpBlock a b) (block_txn clk a b) (block clk a b) id) ∧
   (∀ a b, alone_as (OpUnblock a b) (unblock_txn a b) (unblock a b) id) ∧
   (∀ u, alone_as (OpDelete u) (delete_account_txn clk u) (delete_account clk u) Db_)) ∧
  ((∀ dr token d, alone_gives pair_result (refresh_txn cfg clk dr token) d = refresh cfg clk dr token d) ∧
   (∀ dr identifier password d,
      alone_gives pair_result (login_txn cfg clk dr identifier password) d = login cfg clk dr identifier password d) ∧
   (∀ token d, alone_gives revoke_result (logout_txn cfg clk token) d = revoke_refresh_token cfg clk token d)) ∧
  (∀ u d,
   (trust_result (run_alone (record_flag_txn clk u) d).1, (run_alone (record_flag_txn clk u) d).2) = record_flag clk u d ∧
   (strike_result (run_alone (add_strike_txn clk u) d).1, (run_alone (add_strike_txn clk u) d).2) = add_strike clk u d ∧
   (trust_result (run_alone (recalculate_txn clk u) d).1, (run_alone (recalculate_txn clk u) d).2)
   = recalculate_trust_level clk u d) ∧
  (∀ salt id handle email display_name bio avatar_key password code,
     same_outcome signup_result (λ u, u) (signup_txn clk salt id handle email display_name bio avatar_key password code)
       (signup clk salt id handle email display_name bio avatar_key password code)) ∧
  (∀ draw u days_valid,
     same_outcome create_result code_text (create_invite_txn clk draw u days_valid) (create_invite clk draw u days_valid)) ∧
  (∀ draw days_valid,
     same_outcome create_result code_text (create_admin_invite_txn clk draw days_valid)
       (create_admin_invite clk draw days_valid)) ∧
  (∀ code u d,
     (match (run_alone (revoke_invite_txn code u) d).1 with RevokedCode _ => true | _ => false end,
      (run_alone (revoke_invite_txn code u) d).2)
     = match revoke_invite code u d with (Ok b, d') => (b, d') | (Err _, d') => (false, d') end) ∧
  (∀ s v, alone_is (Saw s v) (mark_seen_txn clk s v) (mark_seen clk s v)) ∧
  (∀ n s u e, alone_is (Reacted s u) (add_reaction_txn clk n s u e) (add_reaction clk n s u e)) ∧
  (∀ s u, alone_is (Unreacted s u) (remove_reaction_txn s u) (remove_reaction s u)) ∧
  (∀ s u, alone_is (StoryDeleted s u) (delete_story_txn s u) (delete_story s u)) ∧
  (∀ op, post_alone_is clk op) ∧
  (∀ op d, run_alone (device_txn clk op) d = device_method clk op d).
Proof.
  split; [apply graph_programs_alone|]. split; [apply session_programs_alone|].
  split; [intros; apply trust_programs_alone|].
  destruct (invite_programs_alone clk) as (Hs & Hc & Ha & Hr). repeat (split; [assumption|]).
  destruct (story_programs_alone clk) as (Hm & Hx & Hy & Hz). repeat (split; [assumption|]).
  split; [apply post_programs_alone|apply device_programs_alone].
Qed.
