(* ===== verification/ConnectionPool.v ===== *)
(** * The connection pool

    All services share one pool of database connections ([src/infra/db.rs]). A
    statement run on the pool takes a connection and gives it back; [begin] takes one
    for as long as the transaction lives; whoever finds none free waits until another
    request gives one back. Row locks belong to the connection of the transaction that
    took them. This file has the pool with its waiting requests and their row locks,
    how every method of the services uses connections, and two theorems: requests that
    use one connection at a time all come to an end without any time-out, and
    [create_invite], which asks for a second connection inside its transaction, can
    stop the whole pool. *)

From S2P Require Import Prelude Sql Domain Schema Isolation Trust Invites TrustRaces InviteRaces.
From stdpp Require Import relations options.

(** ** The pool *)

(** What a request does with the pool: take a connection, take a row lock on the
    connection it took last, give that connection back (with its locks). *)
Inductive Event := Take | Lock (l : Row * LockMode) | Put.

(** A request under way: the locks of every connection it holds, latest first, and what
    it still does. *)
Record Task := mkTask { connections : list Locks; todo : list Event }.
(** A pool of [capacity] connections; tasks are known by the order of their arrival. *)
Record Pool := mkPool { capacity : nat; tasks : list Task }.

Definition in_use (s : Pool) : nat := sum_list_with (length ∘ connections) (tasks s).
(** A connection whose transaction holds a lock that conflicts with [l]. *)
Definition holds (l : Row * LockMode) (locks : Locks) : bool := existsb (lock_conflicts l) locks.
Definition task_holds (l : Row * LockMode) (t : Task) : bool := existsb (holds l) (connections t).
Definition held_elsewhere (i : nat) (l : Row * LockMode) (s : Pool) : bool :=
  existsb (λ j, bool_decide (j ≠ i) && match tasks s !! j with Some t => task_holds l t | None => false end)
    (seq 0 (length (tasks s))).

Definition put_task (i : nat) (t : Task) (s : Pool) : Pool := mkPool (capacity s) (<[i := t]> (tasks s)).
(** The next thing task [i] does; [None] when it waits, or has nothing left to do. *)
Definition perform (i : nat) (s : Pool) : option Pool :=
  t ← tasks s !! i;
  match todo t, connections t with
  | Take :: es, cs => if (in_use s <? capacity s)%nat then Some (put_task i (mkTask ([] :: cs) es) s) else None
  | Lock l :: es, c :: cs =>
      if held_elsewhere i l s || existsb (holds l) cs then None
      else Some (put_task i (mkTask ((l :: c) :: cs) es) s)
  | Put :: es, _ :: cs => Some (put_task i (mkTask cs es) s)
  | _, _ => None
  end.
(** A request that is cut off gives everything back. *)
Definition cut_off (i : nat) (s : Pool) : Pool := put_task i (mkTask [] []) s.

Inductive PoolEvent := Arrive (es : list Event) | Go (i : nat) | CutOff (i : nat).
Definition pool_event (e : PoolEvent) (s : Pool) : option Pool :=
  match e with
  | Arrive es => Some (mkPool (capacity s) (tasks s ++ [mkTask [] es]))
  | Go i => perform i s
  | CutOff i => Some (cut_off i s)
  end.
Fixpoint pool_events (es : list PoolEvent) (s : Pool) : option Pool :=
  match es with [] => Some s | e :: es' => s' ← pool_event e s; pool_events es' s' end.
Definition idle_pool (n : nat) : Pool := mkPool n [].

Definition finished (t : Task) : Prop := todo t = [] ∧ connections t = [].
(** [i] wants a row lock that [j] stands in the way of. *)
Definition waits_for (s : Pool) (i j : nat) : Prop :=
  ∃ t l es t', tasks s !! i = Some t ∧ todo t = Lock l :: es ∧ i ≠ j ∧ tasks s !! j = Some t' ∧ task_holds l t' = true.
(** PostgreSQL looks for cycles among transactions that wait for row locks and cuts one
    of them off; it knows nothing of who waits for a connection. *)
Definition row_deadlock (s : Pool) (i : nat) : Prop := tc (waits_for s) i i.

(** Progress without any time-out: a request does something, or the deadlock detector
    cuts one off. *)
Inductive proceeds (s : Pool) : Pool → Prop :=
| proceeds_perform i s' : perform i s = Some s' → proceeds s s'
| proceeds_victim i : row_deadlock s i → proceeds s (cut_off i s).

(** ** One connection at a time *)

(** [open]: whether a connection is held. *)
Fixpoint flat (open : bool) (es : list Event) : bool :=
  match es with
  | [] => negb open
  | Take :: es => negb open && flat true es
  | Lock _ :: es => open && flat true es
  | Put :: es => open && flat false es
  end.
Definition flat_task (t : Task) : Prop :=
  (connections t = [] ∧ flat false (todo t) = true) ∨ (∃ c, connections t = [c] ∧ flat true (todo t) = true).
Record pool_ok (s : Pool) : Prop := {
  ok_capacity : (0 < capacity s)%nat;
  ok_in_use : (in_use s ≤ capacity s)%nat;
  ok_flat : Forall flat_task (tasks s) }.

Lemma in_use_put i t t' s :
  tasks s !! i = Some t → (in_use (put_task i t' s) + length (connections t) = in_use s + length (connections t'))%nat.
Proof.
  unfold in_use, put_task. simpl. generalize (tasks s) as ts. intros ts. revert i.
  induction ts as [|x ts IH]; intros [|i] Hi; simplify_eq/=; [lia|]. specialize (IH i Hi). lia.
Qed.
Lemma in_use_app ts ts' n : in_use (mkPool n (ts ++ ts')) = (in_use (mkPool n ts) + in_use (mkPool n ts'))%nat.
Proof. unfold in_use. simpl. by rewrite sum_list_with_app. Qed.

Lemma flat_task_put i t s : tasks s !! i = Some t → ∀ t', flat_task t' → Forall flat_task (tasks s) → Forall flat_task (tasks (put_task i t' s)).
Proof. intros Hi t' Ht' Hs. simpl. by apply Forall_insert. Qed.
Lemma perform_ok i s s' : pool_ok s → perform i s = Some s' → pool_ok s'.
Proof.
  intros [Hc Hu Hf]. unfold perform. destruct (tasks s !! i) as [t|] eqn:Hi; simpl; [|done].
  pose proof (proj1 (Forall_lookup _ _) Hf i t Hi) as Ht.
  assert (Hput : ∀ t', flat_task t' → (length (connections t') ≤ length (connections t))%nat ∨ (in_use s < capacity s)%nat →
    (length (connections t') ≤ 1 + length (connections t))%nat → pool_ok (put_task i t' s)).
  { intros t' Ht' Hl Hl1. split; [done| |by eapply flat_task_put].
    pose proof (in_use_put i t t' s Hi) as Hp. cbn [capacity put_task]. lia. }
  destruct t as [cs es], Ht as [[He Hfl]|(c & He & Hfl)]; simpl in *; subst cs;
    destruct es as [|[|l|] es]; simpl in *; try done.
  - destruct (Nat.ltb_spec (in_use s) (capacity s)); [|done]. intros [= <-].
    apply Hput; simpl; [right; by exists []|by right|lia].
  - destruct (_ || _); [done|]. intros [= <-]. apply Hput; simpl; [right; by exists (l :: c)|by left|lia].
  - intros [= <-]. apply Hput; simpl; [by left|left; lia|lia].
Qed.
Lemma cut_off_ok i s : pool_ok s → pool_ok (cut_off i s).
Proof.
  intros [Hc Hu Hf]. split; [done| |].
  - destruct (tasks s !! i) as [t|] eqn:Hi.
    + pose proof (in_use_put i t (mkTask [] []) s Hi). simpl in *. unfold cut_off. lia.
    + unfold cut_off, put_task, in_use in *. simpl. by rewrite list_insert_ge by (by apply lookup_ge_None).
  - simpl. apply Forall_insert; [done|]. by left.
Qed.
Lemma proceeds_ok s s' : pool_ok s → proceeds s s' → pool_ok s'.
Proof. intros Hs []; eauto using perform_ok, cut_off_ok. Qed.
Lemma pool_events_ok es s s' :
  (∀ script, Arrive script ∈ es → flat false script = true) → pool_ok s → pool_events es s = Some s' → pool_ok s'.
Proof.
  revert s. induction es as [|e es IH]; intros s Ha Hs; simpl; [by intros [= <-]|].
  destruct (pool_event e s) as [s1|] eqn:He; simpl; [|done]. apply IH; [set_solver|].
  destruct e as [script|i|i]; simpl in He; [|by eapply perform_ok|injection He as <-; by apply cut_off_ok].
  injection He as <-. destruct Hs as [Hc Hu Hf]. split; [done| |]; simpl.
  - rewrite in_use_app. unfold in_use in *. simpl. lia.
  - apply Forall_app. split; [done|]. apply Forall_singleton. left. split; [done|]. apply Ha. set_solver.
Qed.

(** *** Everybody who waits, waits for a lock of somebody who holds a connection *)

(** A relation that leads on from every element of a finite set runs into itself. *)
Lemma successors_cycle (R : nat → nat → Prop) (X : list nat) :
  X ≠ [] → (∀ i, i ∈ X → ∃ j, j ∈ X ∧ R i j) → ∃ i, i ∈ X ∧ tc R i i.
Proof.
  intros Hne Hsucc. assert (Hpath : ∀ n, ∃ p, length p = n ∧ NoDup p ∧ (∀ x, x ∈ p → x ∈ X) ∧
    (∀ x y, head p = Some y → x ∈ p → x = y ∨ tc R x y) ∨ ∃ i, i ∈ X ∧ tc R i i).
  { induction n as [|n (p & [(Hl & Hnd & Hin & Hr)|Hc])]; [exists []; left; split_and!; [done|constructor|set_solver|done]| |by exists []; right].
    destruct p as [|y p].
    - destruct X as [|x X]; [done|]. exists [x]. left. simpl in *. split_and!; [lia|apply NoDup_singleton|set_solver|].
      intros ?? [= ->] ->%list_elem_of_singleton. by left.
    - destruct (Hsucc y) as (z & Hz & Hyz); [apply Hin; left|].
      assert (Hreach : ∀ x, x ∈ y :: p → tc R x z).
      { intros x Hx. destruct (Hr x y eq_refl Hx) as [->|Ht]; [by apply tc_once|]. by eapply tc_r. }
      destruct (decide (z ∈ y :: p)) as [Hzp|Hzp]; [exists []; right; exists z; auto|].
      exists (z :: y :: p). left. split_and!; [simpl in *; lia|by constructor|set_solver|].
      intros x ? [= <-] [->|Hx]%elem_of_cons; [by left|right; by apply Hreach]. }
  destruct (Hpath (S (length X))) as (p & [(Hl & Hnd & Hin & _)|Hc]); [|done].
  exfalso. assert (length p ≤ length X)%nat; [|lia]. apply submseteq_length, NoDup_submseteq; [done|]. intros x Hx. by apply Hin.
Qed.

Lemma held_elsewhere_true i l s :
  held_elsewhere i l s = true ↔ ∃ j t, j ≠ i ∧ tasks s !! j = Some t ∧ task_holds l t = true.
Proof.
  unfold held_elsewhere. rewrite existsb_exists. setoid_rewrite andb_true_iff. setoid_rewrite bool_decide_eq_true. split.
  - intros (j & _ & Hne & Hj). destruct (tasks s !! j) as [t|] eqn:Ht; [|done]. eauto.
  - intros (j & t & Hne & Hj & Ht). exists j. rewrite Hj. split; [|done]. apply in_seq. apply lookup_lt_Some in Hj. lia.
Qed.
Definition has_connection (s : Pool) (i : nat) : Prop := ∃ t, tasks s !! i = Some t ∧ connections t ≠ [].
Global Instance has_connection_dec s i : Decision (has_connection s i).
Proof.
  unfold has_connection. destruct (tasks s !! i) as [t|]; [|right; by intros (? & ? & ?)].
  destruct (decide (connections t = [])) as [|]; [right; naive_solver|left; eauto].
Defined.
Lemma task_holds_connected l t : task_holds l t = true → connections t ≠ [].
Proof. unfold task_holds. by destruct (connections t). Qed.

Lemma in_use_pos s : (0 < in_use s)%nat → ∃ i, has_connection s i.
Proof.
  unfold in_use, has_connection. generalize (tasks s) as ts. induction ts as [|t ts IH]; simpl; [lia|].
  intros Hp. destruct (decide (connections t = [])) as [He|He]; [|by exists 0%nat, t].
  rewrite He in Hp. destruct IH as (i & t' & Hi); [done|]. by exists (S i), t'.
Qed.
(** In a pool where nobody can do anything, whoever holds a connection waits for the row
    lock of another who does. *)
Lemma stuck_waits s i :
  pool_ok s → (∀ j, perform j s = None) → has_connection s i → ∃ j, has_connection s j ∧ waits_for s i j.
Proof.
  intros Hs Hstuck (t & Hi & Hc). specialize (Hstuck i). unfold perform in Hstuck. rewrite Hi in Hstuck. simpl in Hstuck.
  destruct (proj1 (Forall_lookup _ _) (ok_flat _ Hs) i t Hi) as [[??]|(c & He & Hfl)]; [done|].
  rewrite He in Hstuck. destruct (todo t) as [|[|l|] es] eqn:Htodo; simpl in *; try done.
  rewrite orb_false_r in Hstuck. destruct (held_elsewhere i l s) eqn:Hh; [|done].
  apply held_elsewhere_true in Hh as (j & t' & Hne & Hj & Hl).
  exists j. split; [exists t'; split; [done|by eapply task_holds_connected]|]. exists t, l, es, t'. split_and!; auto.
Qed.
Lemma stuck_deadlock s i t :
  pool_ok s → (∀ j, perform j s = None) → tasks s !! i = Some t → ¬ finished t → ∃ j, row_deadlock s j.
Proof.
  intros Hs Hstuck Hi Ht. assert (Hcon : ∃ j, has_connection s j).
  { destruct (proj1 (Forall_lookup _ _) (ok_flat _ Hs) i t Hi) as [[He Hfl]|(c & He & Hfl)]; [|exists i, t; by rewrite He].
    pose proof (Hstuck i) as Hp. unfold perform in Hp. rewrite Hi in Hp. simpl in Hp. rewrite He in Hp.
    destruct (todo t) as [|[|l|] es] eqn:Htodo; simpl in *; try done; [by destruct Ht|].
    destruct (Nat.ltb_spec (in_use s) (capacity s)) as [|Hfull]; [done|]. apply in_use_pos. pose proof (ok_capacity _ Hs). lia. }
  destruct (successors_cycle (waits_for s) (filter (has_connection s) (seq 0 (length (tasks s))))) as (j & _ & Hj); [| |by exists j].
  - destruct Hcon as (j & Hj). intros He. apply (filter_nil_not_elem_of _ _ j He Hj). destruct Hj as (t' & Hj & _).
    apply list_elem_of_In, in_seq. apply lookup_lt_Some in Hj. lia.
  - intros j [Hj _]%list_elem_of_filter. destruct (stuck_waits s j Hs Hstuck Hj) as (k & Hk & Hw). exists k. split; [|done].
    apply list_elem_of_filter. split; [done|]. destruct Hk as (t' & Hk & _). apply list_elem_of_In, in_seq.
    apply lookup_lt_Some in Hk. lia.
Qed.

(** Every step uses up some of the work there is. *)
Definition work (s : Pool) : nat := sum_list_with (length ∘ todo) (tasks s).
Lemma work_put i t t' s :
  tasks s !! i = Some t → (work (put_task i t' s) + length (todo t) = work s + length (todo t'))%nat.
Proof.
  unfold work, put_task. simpl. generalize (tasks s) as ts. intros ts. revert i.
  induction ts as [|x ts IH]; intros [|i] Hi; simplify_eq/=; [lia|]. specialize (IH i Hi). lia.
Qed.
Lemma proceeds_work s s' : proceeds s s' → (work s' < work s)%nat.
Proof.
  intros [i s'' Hp|i Hd].
  - unfold perform in Hp. destruct (tasks s !! i) as [t|] eqn:Hi; simpl in Hp; [|done].
    destruct t as [[|c cs] [|[|l|] es]]; simpl in Hp; try done; repeat (case_match; try done); injection Hp as <-;
      match goal with |- (work (put_task _ ?t' _) < _)%nat => pose proof (work_put i _ t' s Hi) as Hw end; simpl in Hw; lia.
  - assert (∃ j, waits_for s i j) as (j & t & l & es & t' & Hi & He & _) by (inversion Hd; subst; eauto).
    pose proof (work_put i _ (mkTask [] []) s Hi) as Hw. rewrite He in Hw. simpl in Hw. unfold cut_off. lia.
Qed.

(** ** How the methods use connections *)

(** The shape of a method: a statement on the pool, a statement on the connection of
    the transaction, a transaction from [begin] to its end, one thing after another, and
    something that is done on some branches only, or any number of times. *)
Inductive Body :=
| OnPool
| OnTx
| InTx (b : Body)
| Then (b1 b2 : Body)
| Maybe (b : Body)
| Loop (b : Body)
| Nothing.

(** The events of a run of [b], with the row locks that its statements take; [false]
    when it returned early with an error. Errors can come from every statement, also
    from waiting for a connection in vain. *)
Inductive runs : Body → list Event → bool → Prop :=
| runs_pool ls ok : runs OnPool (Take :: (Lock <$> ls) ++ [Put]) ok
| runs_unconnected : runs OnPool [] false
| runs_tx ls ok : runs OnTx (Lock <$> ls) ok
| runs_in_tx b es ok ok' : runs b es ok → runs (InTx b) (Take :: es ++ [Put]) ok'
| runs_no_tx b : runs (InTx b) [] false
| runs_then b1 b2 es1 es2 ok : runs b1 es1 true → runs b2 es2 ok → runs (Then b1 b2) (es1 ++ es2) ok
| runs_then_failed b1 b2 es : runs b1 es false → runs (Then b1 b2) es false
| runs_maybe b es ok : runs b es ok → runs (Maybe b) es ok
| runs_skip b : runs (Maybe b) [] true
| runs_loop b es ok : runs (Maybe (Then b (Loop b))) es ok → runs (Loop b) es ok
| runs_nothing : runs Nothing [] true.

(** Connections are taken one at a time, and statements on a transaction are run inside
    one. *)
Fixpoint flat_body (open : bool) (b : Body) : bool :=
  match b with
  | OnPool => negb open
  | OnTx => open
  | InTx b => negb open && flat_body true b
  | Then b1 b2 => flat_body open b1 && flat_body open b2
  | Maybe b | Loop b => flat_body open b
  | Nothing => true
  end.
Lemma flat_locks (ls : list (Row * LockMode)) es : flat true es = true → flat true ((Lock <$> ls) ++ es) = true.
Proof. induction ls; simpl; auto. Qed.
(** What follows a run finds the connection as the run found it. *)
Lemma runs_flat b es ok : runs b es ok → ∀ open es', flat_body open b = true → flat open es' = true → flat open (es ++ es') = true.
Proof.
  induction 1 as [ls ok| |ls ok|b es ok ok' Hr IH|b|b1 b2 es1 es2 ok H1 IH1 H2 IH2|b1 b2 es H1 IH1|b es ok Hr IH|b|b es ok Hr IH|];
    intros open es' Hb He; simpl in *.
  - destruct open; [done|]. simpl. rewrite <-app_assoc. by apply flat_locks.
  - done.
  - destruct open; [|done]. by apply flat_locks.
  - destruct open; [done|]. simpl in *. rewrite <-app_assoc. by apply IH.
  - done.
  - apply andb_prop in Hb as [??]. rewrite <-app_assoc. auto.
  - apply andb_prop in Hb as [??]. auto.
  - auto.
  - done.
  - apply IH; [|done]. by rewrite Hb.
  - done.
Qed.

(** One thing after another; a transaction of several. *)
Definition steps (bs : list Body) : Body := foldr Then Nothing bs.
Definition tx (bs : list Body) : Body := InTx (steps bs).

(** [app/auth.rs], [app/trust.rs] and [app/invites.rs]. *)
Definition consume_invite_with_tx_body : Body := steps [OnTx; OnTx; Maybe (steps [OnTx; OnTx])].
Definition signup_body : Body := tx [OnTx; OnTx; consume_invite_with_tx_body].
Definition issue_token_pair_body : Body := tx [OnTx].
Definition login_body : Body := steps [OnPool; Maybe issue_token_pair_body].
Definition refresh_body : Body := tx [OnTx; Maybe OnTx; Maybe (steps [OnTx; OnTx])].
Definition recalculate_with_tx_body : Body := steps [OnTx; OnTx].
Definition add_strike_with_tx_body : Body := steps [OnTx; Maybe OnTx; recalculate_with_tx_body].
Definition record_flag_body : Body := tx [OnTx; Maybe add_strike_with_tx_body; Maybe recalculate_with_tx_body].
Definition record_activity_body : Body := steps [OnPool; Maybe (InTx recalculate_with_tx_body)].
(** Up to ten codes are tried, each with a statement on the pool. *)
Definition generate_unique_code_body : Body := steps (replicate 10 (Maybe OnPool)).
Definition create_invite_body : Body := tx [OnTx; Maybe (steps [generate_unique_code_body; OnTx; OnTx])].
Definition create_admin_invite_body : Body := steps [generate_unique_code_body; OnPool].
(** [app/social.rs], [app/users.rs], [app/posts.rs], [app/moderation.rs], [app/fingerprint.rs]. *)
Definition follow_body : Body := tx [OnTx; Maybe (steps [OnTx; Maybe OnTx])].
Definition block_body : Body := tx [OnTx; OnTx].
Definition delete_account_body : Body := tx [OnTx; Maybe (steps [OnTx; OnTx; OnTx])].
Definition create_post_body : Body := steps [OnPool; Maybe (tx [OnTx; Loop OnTx])].
Definition flag_body : Body := tx [OnTx; OnTx].
Definition takedown_body : Body := tx [OnTx; Maybe OnTx].
Definition register_fingerprint_body : Body := tx [OnTx; OnTx; Maybe OnTx].
(** [app/stories.rs]. *)
Definition create_story_body : Body := steps [OnPool; Maybe OnPool].
Definition get_metrics_body : Body := steps [OnPool; Maybe (steps [OnPool; OnPool])].
Definition add_to_highlight_body : Body := steps [OnPool; Maybe (steps [OnPool; OnPool])].
(** [jobs/*.rs]. *)
Definition process_media_body : Body := steps [OnPool; Maybe (tx [OnTx; OnTx]); Maybe OnPool].
Definition process_notification_body : Body := steps [Maybe OnPool; Maybe OnPool; Maybe OnPool].
Definition cleanup_body : Body := steps [OnPool; Maybe OnPool; Maybe OnPool; Maybe OnPool].

(** The methods: those above, and the others, which run one statement on the pool. *)
Inductive Call :=
| CSignup | CLogin | CRefresh | CRecalculate | CAddStrike | CRecordFlag | CRecordActivity | CConsumeInvite
| CCreateInvite | CCreateAdminInvite | CFollow | CBlock | CDeleteAccount | CCreatePost | CFlag | CTakedown
| CRegisterFingerprint | CCreateStory | CGetMetrics | CAddToHighlight | CProcessMedia | CProcessNotification | CCleanup
| COneStatement.
Global Instance Call_eq_dec : EqDecision Call.
Proof. solve_decision. Defined.
Definition call_body (c : Call) : Body :=
  match c with
  | CSignup => signup_body | CLogin => login_body | CRefresh => refresh_body
  | CRecalculate => InTx recalculate_with_tx_body | CAddStrike => InTx add_strike_with_tx_body
  | CRecordFlag => record_flag_body | CRecordActivity => record_activity_body
  | CConsumeInvite => InTx consume_invite_with_tx_body
  | CCreateInvite => create_invite_body | CCreateAdminInvite => create_admin_invite_body
  | CFollow => follow_body | CBlock => block_body | CDeleteAccount => delete_account_body
  | CCreatePost => create_post_body | CFlag => flag_body | CTakedown => takedown_body
  | CRegisterFingerprint => register_fingerprint_body
  | CCreateStory => create_story_body | CGetMetrics => get_metrics_body | CAddToHighlight => add_to_highlight_body
  | CProcessMedia => process_media_body | CProcessNotification => process_notification_body | CCleanup => cleanup_body
  | COneStatement => OnPool
  end.
(** A request or job: calls one after another; whether one fails is up to it, and so is
    what follows then. Statements that a handler runs side by side (the [join_all] that
    looks up the images of a page) are requests of their own: the handler holds no
    connection while it waits for them, and what it does next arrives later. *)
Inductive requests : list Call → list Event → Prop :=
| requests_nil : requests [] []
| requests_cons c cs es es' ok : runs (call_body c) es ok → requests cs es' → requests (c :: cs) (es ++ es').

Lemma only_create_invite_nests c : flat_body false (call_body c) = bool_decide (c ≠ CCreateInvite).
Proof. by destruct c. Qed.
Lemma requests_flat cs es : requests cs es → CCreateInvite ∉ cs → flat false es = true.
Proof.
  induction 1 as [|c cs es es' ok Hr Hrs IH]; intros Hn; [done|]. eapply runs_flat; [done| |apply IH; set_solver].
  rewrite only_create_invite_nests. apply bool_decide_eq_true. set_solver.
Qed.

(** ** Requests come to an end *)

Lemma perform_dec s : (∃ i s', perform i s = Some s') ∨ ∀ i, perform i s = None.
Proof.
  assert (Hlen : ∀ i, (length (tasks s) ≤ i)%nat → perform i s = None).
  { intros i Hi. unfold perform. by rewrite (proj2 (lookup_ge_None _ _) Hi). }
  cut (∀ n, (∃ i s', perform i s = Some s') ∨ ∀ i, (i < n)%nat → perform i s = None).
  { intros Hn. destruct (Hn (length (tasks s))) as [|Hno]; [by left|right; intros i].
    destruct (decide (i < length (tasks s))%nat); [by apply Hno|apply Hlen; lia]. }
  induction n as [|n [IH|IH]]; [right; lia|by left|]. destruct (perform n s) as [s'|] eqn:Hn; [left; eauto|right].
  intros i Hi. destruct (decide (i = n)) as [->|]; [done|apply IH; lia].
Qed.
Global Instance finished_dec t : Decision (finished t).
Proof.
  unfold finished. destruct (todo t), (connections t); [left|right|right|right]; naive_solver.
Defined.
Lemma proceeds_or_finished s : pool_ok s → Forall finished (tasks s) ∨ ∃ s', proceeds s s'.
Proof.
  intros Hs. destruct (perform_dec s) as [(i & s' & Hp)|Hstuck]; [right; eauto using proceeds|].
  destruct (decide (Forall finished (tasks s))) as [|Hn]; [by left|right].
  apply not_Forall_Exists, Exists_exists in Hn; [|apply _]. destruct Hn as (t & [i Hi]%list_elem_of_lookup & Ht).
  destruct (stuck_deadlock s i t Hs Hstuck Hi Ht) as [j Hj]. eauto using proceeds.
Qed.
Lemma proceeds_bounded k s s' : nsteps proceeds k s s' → (k + work s' ≤ work s)%nat.
Proof. induction 1 as [|k s s1 s2 H1 _ IH]; [lia|]. apply proceeds_work in H1. lia. Qed.
Lemma proceeds_drains s : pool_ok s → ∃ s', rtc proceeds s s' ∧ Forall finished (tasks s').
Proof.
  remember (work s) as n eqn:Hn. revert s Hn. induction (lt_wf n) as [n _ IH]. intros s -> Hs.
  destruct (proceeds_or_finished s Hs) as [Hf|(s1 & H1)]; [by exists s|].
  destruct (IH (work s1) (proceeds_work _ _ H1) s1 eq_refl) as (s2 & H2 & Hf); [by eapply proceeds_ok|].
  exists s2. split; [by eapply rtc_l|done].
Qed.

(** C19: requests that use one connection at a time never wait for ever, however small
    the pool. Whatever requests have arrived, got on and been cut off, as long as none of
    them creates an invite: no more connections are in use than the pool has, and from
    there on, without any time-out, every order in which requests get on ends after
    finitely many steps, and where it ends all requests are finished; the only ones cut
    off on the way are victims of a deadlock of row locks, which PostgreSQL resolves. *)
Theorem requests_drain n es s :
  (0 < n)%nat → (∀ script, Arrive script ∈ es → ∃ calls, requests calls script ∧ CCreateInvite ∉ calls) →
  pool_events es (idle_pool n) = Some s →
  (in_use s ≤ capacity s)%nat ∧
  (∀ k s', nsteps proceeds k s s' → (k ≤ work s)%nat) ∧
  (∀ s', rtc proceeds s s' → Forall finished (tasks s') ∨ ∃ s'', proceeds s' s'') ∧
  ∃ s', rtc proceeds s s' ∧ Forall finished (tasks s').
Proof.
  intros Hn Ha Hes. assert (Hs : pool_ok s).
  { apply (pool_events_ok es (idle_pool n)); [|split; [done|apply Nat.le_0_l|by apply Forall_nil]|done].
    intros script (calls & Hr & Hc)%Ha. by eapply requests_flat. }
  split_and!; [apply Hs| |intros s' Hss'|by apply proceeds_drains].
  - intros k s' Hk%proceeds_bounded. lia.
  - apply proceeds_or_finished. clear -Hs Hss'. induction Hss'; [done|]. eauto using proceeds_ok.
Qed.

(** ** A pool that stops *)

(** [create_invite]: the transaction locks the trust row; the check of a code takes a
    second connection; then the code, its creator and the trust row. *)
Definition invite_rest (code : string) (u : Uuid) : list Event :=
  [Put; Lock (RInvite code, ForUpdate); Lock (RUser u, ForKeyShare); Lock (RTrust u, ForNoKeyUpdate); Put].
Definition invite_script (r : Uuid * string) : list Event :=
  Take :: Lock (RTrust r.1, ForUpdate) :: Take :: invite_rest r.2 r.1.

(** The row locks a program takes on its own. *)
Fixpoint lock_trace {A} (p : Txn A) (w : Db → Db) (d : Db) : Locks :=
  match p with
  | TCommit _ | TRollback _ => []
  | TQuery k => lock_trace (k (w d)) w d
  | TLock r m k => (r, m) :: lock_trace k w d
  | TExec w' k => lock_trace k (λ d, w' (w d)) d
  | TInsert r taken w' k =>
      if taken (w d) then lock_trace (k false) w d
      else (r, ForUpdate) :: lock_trace (k true) (λ d, w' (w d)) d
  end.
Definition row_locks (es : list Event) : Locks := omap (λ e, match e with Lock l => Some l | _ => None end) es.

Lemma runs_skips n : runs (steps (replicate n (Maybe OnPool))) [] true.
Proof. induction n as [|n IH]; [apply runs_nothing|]. apply (runs_then _ _ [] []); [apply runs_skip|exact IH]. Qed.
(** The script is a run of the body of [create_invite], and its row locks are those of
    the program. *)
Lemma invite_script_requests r : requests [CCreateInvite] (invite_script r).
Proof.
  rewrite <-(app_nil_r (invite_script r)). eapply requests_cons; [|apply requests_nil].
  set (ok := true). destruct r as [u code].
  change (invite_script (u, code)) with
    (Take :: ([Lock (RTrust u, ForUpdate)] ++ ([Take; Put] ++
       ([Lock (RInvite code, ForUpdate); Lock (RUser u, ForKeyShare)] ++ [Lock (RTrust u, ForNoKeyUpdate)]) ++ []) ++ []) ++ [Put]).
  apply (runs_in_tx _ _ true ok), runs_then; [by apply (runs_tx [_])|]. apply runs_then; [|apply runs_nothing].
  apply runs_maybe, runs_then; [|rewrite <-app_assoc, app_nil_r; apply runs_then; [by apply (runs_tx [_; _])|]].
  - apply (runs_then _ _ [Take; Put] []); [apply runs_maybe, (runs_pool [])|apply (runs_skips 9)].
  - rewrite <-(app_nil_r [_]). apply runs_then; [by apply (runs_tx [_])|apply runs_nothing].
Qed.
Lemma lock_trace_generate_code draw i fuel k w d :
  lock_trace (generate_code_txn draw i fuel k) w d = lock_trace (k (first_free (w d) draw i fuel)) w d.
Proof.
  revert i. induction fuel as [|fuel IH]; intros i; [done|]. cbn [generate_code_txn first_free].
  unfold mbind, Proc_bind, mret, Proc_ret, query. cbn [lock_trace]. destruct (has_key _ _); [apply IH|done].
Qed.
Lemma invite_script_locks clk draw u days_valid d d' code :
  run_alone (create_invite_txn clk draw u days_valid) d = (Created u code, d') →
  row_locks (invite_script (u, code)) = lock_trace (create_invite_txn clk draw u days_valid) (λ d, d) d.
Proof.
  unfold run_alone, create_invite_txn, script. unfold mbind, Proc_bind, mret, Proc_ret, query, lock, rollback. cbn [alone lock_trace].
  destruct (has_key u (user_trust_scores d)) eqn:Hk; cbn [negb alone lock_trace]; [|done].
  destruct (user_trust_scores d !! u) as [r|] eqn:Hr; cbn [alone lock_trace]; [|done].
  destruct (_ <=? _)%Z; cbn [alone lock_trace]; [done|]. rewrite alone_generate_code, lock_trace_generate_code.
  destruct (first_free d draw 0 10) as [c|]; cbn [alone lock_trace]; [|done].
  unfold insert_invite_txn, update_trust_txn, references, mbind, Proc_bind, mret, Proc_ret, query, lock, exec, rollback, insert_row.
  destruct (Nat.leb _ _); cbn [negb alone lock_trace]; [|done].
  destruct (has_key c (invite_codes d)); cbn [negb alone lock_trace fresh_invite ic_created_by]; [done|].
  destruct (user_exists _ u) eqn:Hue; cbn [negb alone lock_trace]; [|done]. rewrite Hue. cbn [negb alone lock_trace]. cbn [user_trust_scores set_invite_codes].
  rewrite Hk. cbn [negb alone lock_trace]. cbn [user_trust_scores set_invite_codes]. rewrite Hr.
  destruct (bump_invites 1 0 0 r); cbn [alone lock_trace]; [|done]. by intros [= <- _].
Qed.

(** A request that waits in a pool that has stopped: for a second connection, with one
    row lock; for its first row lock; or for its first connection. *)
Definition waiting_task (t : Task) : Prop :=
  (∃ l es, t = mkTask [[l]] (Take :: es)) ∨ (∃ l es, t = mkTask [[]] (Lock l :: Take :: es)) ∨ connections t = [].
Record stopped (s : Pool) : Prop := {
  stopped_full : (in_use s = capacity s)%nat;
  stopped_tasks : Forall waiting_task (tasks s);
  stopped_all i : perform i s = None }.

(** Nobody who waits for a row lock holds one: there is nothing for the deadlock detector
    to find. *)
Lemma waiting_no_deadlock s i : Forall waiting_task (tasks s) → ¬ row_deadlock s i.
Proof.
  intros Hw Hd. assert (Hout : ∃ j, waits_for s i j) by (inversion Hd; subst; eauto).
  assert (Hin : ∃ j, waits_for s j i).
  { clear Hout. unfold row_deadlock in Hd. revert Hd. generalize i at 1. intros k Hk. induction Hk; eauto. }
  destruct Hout as (j & t & l & es & t' & Hi & Htodo & _), Hin as (k & u & l' & es' & u' & _ & _ & _ & Hi' & Hl).
  simplify_eq. destruct (proj1 (Forall_lookup _ _) Hw i t Hi) as [(l0 & es0 & ->)|[(l0 & es0 & ->)|He]].
  - done.
  - done.
  - by apply task_holds_connected in Hl.
Qed.
Lemma arrive_stopped s es : stopped s → stopped (mkPool (capacity s) (tasks s ++ [mkTask [] es])).
Proof.
  intros [Hf Hw Hp]. assert (Hu : in_use (mkPool (capacity s) (tasks s ++ [mkTask [] es])) = in_use s).
  { rewrite in_use_app. unfold in_use. simpl. lia. }
  split; [by rewrite Hu|apply Forall_app; split; [done|]; apply Forall_singleton; by right; right|].
  intros i. specialize (Hp i). unfold perform in *. rewrite Hu. cbn [tasks capacity].
  destruct (decide (i < length (tasks s))%nat) as [Hi|Hi].
  - rewrite lookup_app_l by done. destruct (tasks s !! i) as [t|] eqn:Ht; [|done]. simpl in *.
    destruct (todo t) as [|[|l|] es'], (connections t) as [|c cs]; simpl in *; try done; [by destruct (_ <? _)%nat..|].
    destruct (held_elsewhere i l s) eqn:Hh; simpl in Hp; [|destruct (existsb (holds l) cs); [by rewrite orb_true_r|done]].
    apply held_elsewhere_true in Hh as (j & t' & Hne & Hj & Hl).
    rewrite (proj2 (held_elsewhere_true i l (mkPool _ _))); [done|]. exists j, t'. split_and!; [done| |done].
    simpl. rewrite lookup_app_l; [done|]. by eapply lookup_lt_Some.
  - destruct ((tasks s ++ [mkTask [] es]) !! i) as [t|] eqn:Ht; [|done]. simpl in *. rewrite lookup_app_r in Ht by lia.
    apply list_lookup_singleton_Some in Ht as [_ <-]. simpl. rewrite Hf, Nat.ltb_irrefl. by destruct es as [|[]].
Qed.

(** *** Getting there *)

Record filling (s : Pool) : Prop := {
  filling_full : (in_use s = capacity s)%nat;
  filling_tasks : Forall (λ t, waiting_task t ∧ connections t ≠ []) (tasks s) }.
Lemma filling_perform i s s' : filling s → perform i s = Some s' → filling s' ∧ capacity s' = capacity s ∧ length (tasks s') = length (tasks s).
Proof.
  intros [Hf Hw]. unfold perform. destruct (tasks s !! i) as [t|] eqn:Hi; simpl; [|done].
  destruct (proj1 (Forall_lookup _ _) Hw i t Hi) as [[(l & es & ->)|[(l & es & ->)|He]] Hc]; simpl in *; [| |done].
  - by rewrite Hf, Nat.ltb_irrefl.
  - rewrite orb_false_r. destruct (held_elsewhere i l s); [done|]. intros [= <-]. split; [|simpl; by rewrite length_insert].
    pose proof (in_use_put i _ (mkTask [[l]] (Take :: es)) s Hi) as Hu. simpl in Hu. split; [cbn [capacity put_task]; lia|].
    simpl. apply Forall_insert; [done|]. split; [left; eauto|done].
Qed.
Lemma filling_stops s :
  filling s → ∃ ms s', (∀ e, e ∈ ms → ∃ i, e = Go i) ∧ pool_events ms s = Some s' ∧ filling s' ∧ stopped s' ∧
                       capacity s' = capacity s ∧ length (tasks s') = length (tasks s).
Proof.
  remember (work s) as n eqn:Hn. revert s Hn. induction (lt_wf n) as [n _ IH]. intros s -> Hs.
  destruct (perform_dec s) as [(i & s1 & Hp)|Hstuck].
  - destruct (filling_perform _ _ _ Hs Hp) as (Hs1 & Hc & Hl).
    destruct (IH (work s1) (proceeds_work _ _ (proceeds_perform _ _ _ Hp)) s1 eq_refl Hs1) as (ms & s' & Hms & He & Hfi & Hst & Hc' & Hl').
    exists (Go i :: ms), s'. simpl. rewrite Hp. simpl. split_and!; [set_solver|done|done|done|congruence|congruence].
  - exists [], s. split_and!; [set_solver|done|done| |done|done]. split; [apply Hs| |done].
    eapply Forall_impl; [apply Hs|]. by intros t [].
Qed.
Definition invite_begun (r : Uuid * string) : Task := mkTask [[]] (Lock (RTrust r.1, ForUpdate) :: Take :: invite_rest r.2 r.1).
Definition begin_invites (rs : list (Uuid * string)) : list PoolEvent :=
  concat (imap (λ i r, [Arrive (invite_script r); Go i]) rs).
Lemma in_use_begun n rs : in_use (mkPool n (invite_begun <$> rs)) = length rs.
Proof. unfold in_use. cbn [tasks]. induction rs as [|r rs IH]; [done|]. rewrite fmap_cons. cbn [sum_list_with]. by rewrite IH. Qed.
Lemma pool_events_app es1 es2 s : pool_events (es1 ++ es2) s = (s' ← pool_events es1 s; pool_events es2 s').
Proof. revert s. induction es1 as [|e es1 IH]; intros s; [done|]. simpl. by destruct (pool_event e s); simpl. Qed.
Lemma begin_invites_run n rs :
  (length rs ≤ n)%nat → pool_events (begin_invites rs) (idle_pool n) = Some (mkPool n (invite_begun <$> rs)).
Proof.
  induction rs as [|r rs IH] using rev_ind; intros Hl; [done|]. rewrite length_app in Hl. simpl in Hl.
  unfold begin_invites. rewrite imap_app, concat_app, pool_events_app. unfold begin_invites in IH. rewrite IH by lia. simpl.
  unfold perform. cbn [tasks capacity]. rewrite Nat.add_0_r, lookup_app_r by (by rewrite length_fmap).
  rewrite length_fmap, Nat.sub_diag. simpl. rewrite in_use_app, in_use_begun. unfold in_use at 1. simpl.
  rewrite (proj2 (Nat.ltb_lt _ _)) by lia. simpl. unfold put_task. simpl. rewrite fmap_app. do 2 f_equal.
  rewrite insert_app_r_alt by (by rewrite length_fmap). by rewrite length_fmap, Nat.sub_diag.
Qed.

Lemma stopped_stays more s s' :
  stopped s → (∀ i, CutOff i ∉ more) → pool_events more s = Some s' → stopped s' ∧ ∃ ts, tasks s' = tasks s ++ ts.
Proof.
  revert s. induction more as [|e more IH]; intros s Hs Hc; simpl.
  { intros [= <-]. split; [done|]. exists []. by rewrite app_nil_r. }
  destruct e as [es|i|i]; simpl; [|by rewrite (stopped_all _ Hs)|by destruct (Hc i); left].
  intros He. destruct (IH _ (arrive_stopped s es Hs)) as (Hs' & ts & Hts); [set_solver|done|].
  split; [done|]. exists (mkTask [] es :: ts). rewrite Hts. simpl. by rewrite <-app_assoc.
Qed.

(** C37: requests that create invites can stop the whole service. On a pool of [n]
    connections, any [n] such requests (of one user or of many) can get to a point where
    every connection belongs to one of them and each waits, for a second connection or
    for the trust row of another. From there, until one of them is cut off by a time-out,
    nothing happens any more: neither they nor any request that arrives later can do a
    single step, and there is no cycle of row locks that PostgreSQL could break up. *)
Theorem create_invite_stops_pool n rs :
  length rs = n →
  (∀ r, r ∈ rs → requests [CCreateInvite] (invite_script r)) ∧
  ∃ ms s, (∀ e, e ∈ ms → (∃ r, r ∈ rs ∧ e = Arrive (invite_script r)) ∨ ∃ i, e = Go i) ∧
    pool_events ms (idle_pool n) = Some s ∧ in_use s = n ∧ length (tasks s) = n ∧
    ∀ more s', (∀ i, CutOff i ∉ more) → pool_events more s = Some s' →
      (∀ i, perform i s' = None) ∧ (∀ i, ¬ row_deadlock s' i) ∧
      ∀ i, (i < n)%nat → ∃ t, tasks s' !! i = Some t ∧ ¬ finished t.
Proof.
  intros Hn. split; [intros r _; apply invite_script_requests|].
  pose proof (begin_invites_run n rs ltac:(lia)) as Hb.
  destruct (filling_stops (mkPool n (invite_begun <$> rs))) as (ms & s & Hms & He & Hfi & Hst & Hc & Hl).
  { split; [by rewrite in_use_begun|]. apply Forall_fmap, Forall_true. intros r. split; [|done]. right. left. by eexists _, _. }
  exists (begin_invites rs ++ ms), s. simpl in *. rewrite length_fmap in Hl. split_and!.
  - intros e [He'|He']%elem_of_app; [|right; by apply Hms]. unfold begin_invites in He'.
    apply list_elem_of_In, in_concat in He' as (l & Hl' & He'). apply list_elem_of_In in Hl', He'.
    apply elem_of_lookup_imap in Hl' as (i & r & -> & Hr). apply list_elem_of_lookup_2 in Hr. set_solver.
  - by rewrite pool_events_app, Hb.
  - rewrite (stopped_full _ Hst). done.
  - lia.
  - intros more s' Hm Hr. destruct (stopped_stays _ _ _ Hst Hm Hr) as (Hst' & ts & Hts). split; [apply Hst'|].
    split; [intros i; by apply waiting_no_deadlock, Hst'|]. intros i Hi.
    destruct (lookup_lt_is_Some_2 (tasks s) i) as [t Ht]; [lia|]. exists t. rewrite Hts, lookup_app_l by lia. split; [done|].
    destruct (proj1 (Forall_lookup _ _) (filling_tasks _ Hfi) i t Ht) as [_ Hcon]. by intros [].
Qed.

(** ** Concrete runs *)

(** Two requests on a pool of one connection: a user is reported while an administrator
    creates an invite. *)
Definition report_script : list Event :=
  Take :: ((Lock <$> [(RTrust 1, ForNoKeyUpdate)]) ++ [] ++ ((Lock <$> []) ++ (Lock <$> [(RTrust 1, ForNoKeyUpdate)]) ++ []) ++ []) ++ [Put].
Definition admin_script : list Event :=
  ((Take :: (Lock <$> []) ++ [Put]) ++ []) ++ (Take :: (Lock <$> [(RInvite "C", ForUpdate)]) ++ [Put]) ++ [].
Lemma report_script_requests : requests [CRecordFlag] report_script.
Proof.
  rewrite <-(app_nil_r report_script). eapply requests_cons; [|apply requests_nil].
  apply (runs_in_tx _ _ true true). apply runs_then; [apply runs_tx|]. apply runs_then; [apply runs_skip|].
  apply runs_then; [apply runs_maybe; repeat (apply runs_then; [apply runs_tx|]); apply runs_nothing|apply runs_nothing].
Qed.
Lemma admin_script_requests : requests [CCreateAdminInvite] admin_script.
Proof.
  rewrite <-(app_nil_r admin_script). apply requests_cons with (ok := true); [|apply requests_nil].
  apply runs_then; [|apply runs_then; [apply runs_pool|apply runs_nothing]].
  apply runs_then; [apply runs_maybe, runs_pool|apply (runs_skips 9)].
Qed.
Definition small_pool : list PoolEvent := [Arrive report_script; Arrive admin_script; Go 0; Go 0; Go 0].
Lemma requests_drain_witness :
  ∃ s s', pool_events small_pool (idle_pool 1) = Some s ∧ perform 1 s = None ∧ rtc proceeds s s' ∧ Forall finished (tasks s').
Proof.
  destruct (pool_events small_pool (idle_pool 1)) as [s|] eqn:Hs; [|by vm_compute in Hs].
  destruct (requests_drain 1 small_pool s) as (_ & _ & _ & s' & Hr & Hf); [lia| |done|].
  - intros script Hin. unfold small_pool in Hin. rewrite !elem_of_cons in Hin.
    destruct Hin as [[= ->]|[[= ->]|[|[|[|[]%elem_of_nil]]]]]; try done.
    + exists [CRecordFlag]. split; [apply report_script_requests|]. by intros ?%list_elem_of_singleton.
    + exists [CCreateAdminInvite]. split; [apply admin_script_requests|]. by intros ?%list_elem_of_singleton.
  - exists s, s'. split; [done|]. split; [|done]. vm_compute in Hs. injection Hs as <-. reflexivity.
Defined.
Lemma create_invite_stops_pool_witness :
  ∃ ms s, pool_events ms (idle_pool 2) = Some s ∧ ∀ i, perform i s = None.
Proof.
  destruct (create_invite_stops_pool 2 [(1%N, "A"); (1%N, "B")]) as (_ & ms & s & _ & Hs & _ & _ & Hm); [reflexivity|].
  exists ms, s. split; [exact Hs|]. apply (Hm [] s); [intros i; apply not_elem_of_nil|reflexivity].
Defined.
