(* ===== verification/Notifications.v ===== *)
(** * Notifications

    [NotificationService] of [src/app/notifications.rs] and the in-process worker
    of [src/jobs/notifications.rs] that feeds it from a bounded queue of
    best-effort jobs. *)

From S2P Require Import Prelude Text Sql Keyset Domain Schema.
From stdpp Require Import options.

#[local] Open Scope Z_scope.

Definition create (clk : Clock) (new_id user_id : Uuid) (notification_type : string) (payload : Json) :
    M Db DbError unit :=
  d ← get_db;
  _ ← guard_else (negb (has_key new_id (notifications d))) (UniqueViolation "notifications_pkey");
  _ ← guard_else (user_exists d user_id) (ForeignKeyViolation "notifications_user_id_fkey");
  modifies (set_notifications
    (<[new_id := mkNotificationRow user_id notification_type payload None (db_now clk)]>)).

(** [payload.as_object_mut()] and the three [insert]s. *)
Definition merge_actor (actor_id : Uuid) (u : UserRow) (payload : Json) : Json :=
  match payload with
  | JObject kvs =>
      JObject (json_insert "actor_display_name" (JString (u_display_name u))
               (json_insert "actor_handle" (JString (u_handle u))
                (json_insert "actor_id" (JString (uuid_str actor_id)) kvs)))
  | _ => payload
  end.

Definition create_if_not_self (clk : Clock) (new_id recipient_id actor_id : Uuid)
    (notification_type : string) (payload : Json) : M Db DbError unit :=
  if bool_decide (actor_id = recipient_id) then mret tt
  else
    d ← get_db;
    let payload := match users d !! actor_id with
                   | Some u => merge_actor actor_id u payload
                   | None => payload
                   end in
    create clk new_id recipient_id notification_type payload.

Definition notification_of (id : Uuid) (n : NotificationRow) : Notification :=
  mkNotification id (n_user_id n) (n_type n) (n_payload n) (n_read_at n) (n_created_at n).
Definition notification_key (n : Notification) : Key := (notif_created_at n, notif_id n).
Definition notifications_of (d : Db) (user_id : Uuid) : list Notification :=
  select (λ k n, if decide (n_user_id n = user_id) then Some (notification_of k n) else None)
    (notifications d).

(** [NotificationService::list]. *)
Definition list_notifications (user_id : Uuid) (cursor : option Key) (limit : Z) :
    M Db DbError (list Notification) :=
  reads (λ d, keyset notification_key Desc cursor limit (notifications_of d user_id)).

Definition mark_read (clk : Clock) (notification_id user_id : Uuid) : M Db DbError bool :=
  d ← get_db;
  match notifications d !! notification_id with
  | Some n =>
      if bool_decide (n_user_id n = user_id) && bool_decide (n_read_at n = None)
      then _ ← modifies (set_notifications (<[notification_id :=
                 mkNotificationRow (n_user_id n) (n_type n) (n_payload n) (Some (db_now clk))
                   (n_created_at n)]>));
           mret true
      else mret false
  | None => mret false
  end.

(** ** The worker *)

Inductive NotificationJob :=
| UserFollowed (followee_id actor_id : Uuid)
| PostLiked (post_id actor_id : Uuid)
| PostCommented (post_id actor_id : Uuid) (preview : string)
| StoryReaction (story_id actor_id : Uuid) (emoji : string).

Definition actor_handle (d : Db) (user_id : Uuid) : option string := u_handle <$> active_user d user_id.

(** [if let Some(handle) = handle { payload[key] = json!(handle) }]. *)
Definition with_handle (key : string) (handle : option string) (kvs : list (string * Json)) : Json :=
  JObject (match handle with Some h => json_insert key (JString h) kvs | None => kvs end).

Definition process_job (clk : Clock) (new_id : Uuid) (job : NotificationJob) : M Db DbError unit :=
  d ← get_db;
  match job with
  | UserFollowed followee_id actor_id =>
      create_if_not_self clk new_id followee_id actor_id "user_followed"
        (with_handle "follower_handle" (actor_handle d actor_id)
           [("follower_id", JString (uuid_str actor_id))])
  | PostLiked post_id actor_id =>
      match p_owner_id <$> posts d !! post_id with
      | Some owner_id =>
          create_if_not_self clk new_id owner_id actor_id "post_liked"
            (with_handle "liker_handle" (actor_handle d actor_id)
               [("post_id", JString (uuid_str post_id)); ("liker_id", JString (uuid_str actor_id))])
      | None => mret tt
      end
  | PostCommented post_id actor_id preview =>
      match p_owner_id <$> posts d !! post_id with
      | Some owner_id =>
          create_if_not_self clk new_id owner_id actor_id "post_commented"
            (with_handle "commenter_handle" (actor_handle d actor_id)
               [("post_id", JString (uuid_str post_id)); ("comment_preview", JString preview);
                ("commenter_id", JString (uuid_str actor_id))])
      | None => mret tt
      end
  | StoryReaction story_id actor_id emoji =>
      match s_user_id <$> stories d !! story_id with
      | Some owner_id =>
          create_if_not_self clk new_id owner_id actor_id "story_reaction"
            (with_handle "reactor_handle" (actor_handle d actor_id)
               [("story_id", JString (uuid_str story_id)); ("emoji", JString emoji);
                ("reactor_id", JString (uuid_str actor_id))])
      | None => mret tt
      end
  end.

(** [run_notification_worker] on the jobs it receives, those of the final drain
    included: a failing job is logged and the next one is taken. [jobs] pairs each
    job with the clock and the generated id of its run. *)
Definition run_notification_worker (jobs : list (Clock * Uuid * NotificationJob)) :
    M Db DbError unit :=
  for_each jobs (λ j, best_effort (process_job j.1.1 j.1.2 j.2)).

Definition job_actor (job : NotificationJob) : Uuid :=
  match job with
  | UserFollowed _ a | PostLiked _ a | PostCommented _ a _ | StoryReaction _ a _ => a
  end.

(** Whom a job is about. *)
Definition job_recipient (d : Db) (job : NotificationJob) : option Uuid :=
  match job with
  | UserFollowed u _ => Some u
  | PostLiked p _ | PostCommented p _ _ => p_owner_id <$> posts d !! p
  | StoryReaction s _ _ => s_user_id <$> stories d !! s
  end.

Lemma json_lookup_insert k v kvs : json_lookup k (JObject (json_insert k v kvs)) = Some v.
Proof. unfold json_lookup, json_insert. simpl. by rewrite decide_True. Qed.

Lemma json_lookup_insert_ne k k' v kvs :
  k' ≠ k → json_lookup k (JObject (json_insert k' v kvs)) = json_lookup k (JObject kvs).
Proof.
  intros Hne. unfold json_lookup, json_insert. simpl. rewrite decide_False by done.
  induction kvs as [|[x y] kvs IH]; [done|]. rewrite filter_cons. simpl.
  destruct (decide (x ≠ k')) as [Hx|Hx]; simpl.
  - destruct (decide (x = k)); [done|].
    destruct (list_find _ (filter _ kvs)) as [[]|], (list_find _ kvs) as [[]|];
      simpl in *; congruence.
  - apply dec_stable in Hx as ->. rewrite decide_False by done.
    destruct (list_find _ (filter _ kvs)) as [[]|], (list_find _ kvs) as [[]|];
      simpl in *; congruence.
Qed.

(** The payload names its actor. *)
Lemma merge_actor_id a u kvs :
  json_lookup "actor_id" (merge_actor a u (JObject kvs)) = Some (JString (uuid_str a)).
Proof.
  unfold merge_actor. rewrite !json_lookup_insert_ne by done. apply json_lookup_insert.
Qed.

(** Whom a job notifies: never the actor, and only an account that exists. *)
Definition job_target (d : Db) (job : NotificationJob) : option Uuid :=
  match job_recipient d job with
  | Some u => if bool_decide (job_actor job = u) then None
              else if user_exists d u then Some u else None
  | None => None
  end.

Definition job_type (job : NotificationJob) : string :=
  match job with
  | UserFollowed _ _ => "user_followed"
  | PostLiked _ _ => "post_liked"
  | PostCommented _ _ _ => "post_commented"
  | StoryReaction _ _ _ => "story_reaction"
  end.

(** A row the job can have written: for [u], unread, naming the actor. *)
Definition announces (d : Db) (clk : Clock) (job : NotificationJob) (u : Uuid) (r : NotificationRow) : Prop :=
  n_user_id r = u ∧ n_type r = job_type job ∧ n_read_at r = None ∧ n_created_at r = db_now clk ∧
  (is_Some (users d !! job_actor job) →
   json_lookup "actor_id" (n_payload r) = Some (JString (uuid_str (job_actor job)))).

(** What one job with a fresh id does to the table. *)
Lemma process_job_effect clk n job d :
  notifications d !! n = None →
  let d' := snd (process_job clk n job d) in
  match job_target d job with
  | Some u => ∃ r, announces d clk job u r ∧ d' = set_notifications (<[n := r]>) d
  | None => d' = d
  end.
Proof.
  intros Hn d'. apply has_key_false in Hn.
  unfold d', job_target, process_job, create_if_not_self, create, with_handle.
  destruct job; simpl; rewrite ?Hn; run; try congruence; bool_to_prop; try congruence.
  all: eexists; split; [|reflexivity]; split_and!; try reflexivity; simpl.
  all: intros [? Hu]; try congruence; apply merge_actor_id.
Qed.

(** Delivering a row disturbs neither the other rows nor what later jobs read. *)
Lemma job_target_stable f d job : job_target (set_notifications f d) job = job_target d job.
Proof. by destruct job. Qed.
Lemma announces_stable f d clk job u r :
  announces (set_notifications f d) clk job u r ↔ announces d clk job u r.
Proof. done. Qed.

Definition job_ids (jobs : list (Clock * Uuid * NotificationJob)) : list Uuid := (λ j, j.1.2) <$> jobs.

(** The table after a run, by induction over the queue. *)
Lemma worker_rows jobs d :
  NoDup (job_ids jobs) → (∀ id, id ∈ job_ids jobs → notifications d !! id = None) →
  ∃ t, run_notification_worker jobs d = (Ok tt, set_notifications (λ _, t) d) ∧
    (∀ id, id ∉ job_ids jobs → t !! id = notifications d !! id) ∧
    ∀ clk id job, (clk, id, job) ∈ jobs →
      match job_target d job with
      | Some u => ∃ r, t !! id = Some r ∧ announces d clk job u r
      | None => t !! id = None
      end.
Proof.
  revert d. induction jobs as [|[[clk n] job] jobs IH]; intros d Hnd Hfresh.
  { exists (notifications d). split_and!; [by destruct d|done|set_solver]. }
  apply NoDup_cons in Hnd as [Hn Hnd]. simpl in Hn.
  assert (notifications d !! n = None) as Hd by (apply Hfresh; left).
  pose proof (process_job_effect clk n job d Hd) as Heff. cbv zeta in Heff.
  unfold run_notification_worker. simpl. unfold mbind, M_bind, best_effort at 1. simpl.
  set (d1 := snd (process_job clk n job d)) in *.
  assert (∃ f, d1 = set_notifications f d ∧ (∀ id, id ≠ n → f (notifications d) !! id = notifications d !! id) ∧
    match job_target d job with
    | Some u => ∃ r, f (notifications d) !! n = Some r ∧ announces d clk job u r
    | None => f (notifications d) !! n = None
    end) as (f & Hd1 & Hother & Hthis).
  { destruct (job_target d job) as [u|].
    - destruct Heff as (r & Hr & ->). exists (<[n := r]>). split_and!; [done| |].
      + intros id Hid. by rewrite lookup_insert_ne.
      + exists r. by rewrite lookup_insert_eq.
    - exists id. rewrite Heff. split_and!; [by destruct d|done|done]. }
  rewrite Hd1. destruct (IH (set_notifications f d)) as (t & Hrun & Ht & Hjobs); [done| |].
  { intros id Hid. simpl. rewrite Hother by (intros ->; done). apply Hfresh. by right. }
  exists t. split_and!; [exact Hrun| |].
  - intros id Hid. simpl in Hid. rewrite Ht by set_solver. apply Hother. set_solver.
  - intros clk' id' job' [[= -> -> ->]|Hin]%elem_of_cons.
    + rewrite Ht by done. done.
    + exact (Hjobs _ _ _ Hin).
Qed.

(** The notification worker always finishes its queue, whatever single jobs do:
    each job whose subject still exists and is not its own actor leaves exactly one
    unread row, addressed to the followed user or the owner of the post or story and
    naming the actor in its payload; the other jobs leave none, no older row changes
    and no other table is touched. *)
Theorem notification_worker_exact jobs d :
  NoDup (job_ids jobs) → (∀ id, id ∈ job_ids jobs → notifications d !! id = None) →
  let '(res, d') := run_notification_worker jobs d in
  res = Ok tt ∧ d' = set_notifications (λ _, notifications d') d ∧
  (∀ id, id ∉ job_ids jobs → notifications d' !! id = notifications d !! id) ∧
  ∀ clk id job, (clk, id, job) ∈ jobs →
    match job_target d job with
    | Some u => u ≠ job_actor job ∧ ∃ r, notifications d' !! id = Some r ∧ announces d clk job u r
    | None => notifications d' !! id = None
    end.
Proof.
  intros Hnd Hfresh. destruct (worker_rows jobs d Hnd Hfresh) as (t & -> & Ht & Hjobs).
  split_and!; [done|done|exact Ht|]. intros clk id job Hin. specialize (Hjobs _ _ _ Hin).
  destruct (job_target d job) as [u|] eqn:Htgt; [|done]. split; [|done].
  unfold job_target in Htgt. run. bool_to_prop. congruence.
Qed.

Definition two_friends : Db :=
  set_users (λ _, {[ 1%N := mkUserRow "ann" "a@x" "Ann" None None 0 "h" None;
                     2%N := mkUserRow "bob" "b@x" "Bob" None None 0 "h" None ]}) empty_db.

Lemma notification_worker_exact_witness :
  let jobs := [(mkClock 5 5, 10%N, UserFollowed 1%N 2%N); (mkClock 6 6, 11%N, UserFollowed 1%N 1%N)] in
  ∃ r, notifications (snd (run_notification_worker jobs two_friends)) !! 10%N = Some r ∧ n_user_id r = 1%N.
Proof.
  intros jobs. pose proof (notification_worker_exact jobs two_friends) as H.
  destruct (run_notification_worker jobs two_friends) as [res d'].
  destruct H as (_ & _ & _ & H).
  - apply (bool_decide_unpack (NoDup (job_ids jobs))). vm_compute. exact I.
  - intros id _. vm_compute. destruct id; reflexivity.
  - destruct (H (mkClock 5 5) 10%N (UserFollowed 1%N 2%N)) as [_ (r & Hr & Hu & _)]; [left|].
    exists r. split; [exact Hr|exact Hu].
Defined.

(** [mark_read] marks an unread row of its owner once, and nothing else. *)
Lemma mark_read_once clk clk' n u d :
  let '(res, d1) := mark_read clk n u d in
  (res = Ok true → mark_read clk' n u d1 = (Ok false, d1)) ∧ (res ≠ Ok true → d1 = d).
Proof.
  unfold mark_read at 1. run; bool_to_prop; split; try done.
  intros _. unfold mark_read, mbind, M_bind. simpl. rewrite lookup_insert_eq. simpl.
  run; by bool_to_prop.
Qed.
