(* ===== verification/Shutdown.v ===== *)
(** * Shutting down

    The last part of [main] ([src/main.rs]): the signal, the cancellation of the
    background tasks, [join_background_tasks], and the graceful shutdown of the server;
    with [run_notification_worker] ([src/jobs/notifications.rs]) and the channel it
    shares with the handlers, command by command. A job that was accepted by the channel
    is processed once and in order, unless the join of the worker times out; but the
    server goes on accepting requests until every background task has been joined, and
    their notifications find the channel closed. *)

From S2P Require Import Prelude Sql Domain Schema Notifications.
From stdpp Require Import options.

#[local] Open Scope Z_scope.

(** ** The process *)

(** [tokio::select!] in the loop, a job in hand, the final drain, or gone. *)
Inductive WorkerPhase :=
| InLoop | Busy (job : NotificationJob) | Draining | DrainBusy (job : NotificationJob) | Stopped.

(** The server before the signal; after it, while the shutdown future joins the
    handles that are left, since an instant; after the future is done; and gone. *)
Inductive ServerPhase :=
| Serving | Joining (handles : list nat) (since : Time) | Finishing | Gone.

(** Handle 0 is the notification worker; [sp_done] are the other tasks that ended. *)
Record Process := mkProcess {
  sp_db : Db; sp_clock : Time;
  sp_server : ServerPhase; sp_cancelled : option Time;
  sp_worker : WorkerPhase; sp_queue : list NotificationJob; sp_closed : bool; sp_done : list nat;
  sp_requests : list Uuid;                       (* requests that are being served *)
  sp_timed_out : list nat;                       (* handles whose join timed out *)
  (* the history: jobs the channel took, jobs it refused, jobs that were processed *)
  sp_accepted : list NotificationJob; sp_refused : list NotificationJob;
  sp_processed : list (Clock * Uuid * NotificationJob) }.

Inductive ProcessMove :=
| Connect (r : Uuid)                             (* a request is accepted *)
| Notify (r : Uuid) (job : NotificationJob)      (* its handler calls [try_send] *)
| Reply (r : Uuid)
| Recv                                           (* [rx.recv()] wins the [select!] *)
| Process_ (c : Clock) (new_id : Uuid)           (* [process_job] returns *)
| SeeCancel                                      (* [shutdown.cancelled()] wins the [select!] *)
| TryRecv                                        (* the drain loop *)
| TaskEnds (h : nat)                             (* another background task stops *)
| Signal
| JoinNext                                       (* [timeout(10 s, h).await] returns *)
| Exit
| Wait (dt : Z).

Definition JOIN_TIMEOUT : Z := seconds 10.

Section process.
(** The capacity of the channel and the number of background tasks. *)
Context (capacity tasks : nat).

Definition ended (p : Process) (h : nat) : bool :=
  match h with O => match sp_worker p with Stopped => true | _ => false end | _ => bool_decide (h ∈ sp_done p) end.
(** The server accepts connections until the shutdown future is done. *)
Definition accepting (p : Process) : bool := match sp_server p with Serving | Joining _ _ => true | _ => false end.

Definition set_server (s : ServerPhase) (p : Process) : Process :=
  mkProcess (sp_db p) (sp_clock p) s (sp_cancelled p) (sp_worker p) (sp_queue p) (sp_closed p) (sp_done p)
    (sp_requests p) (sp_timed_out p) (sp_accepted p) (sp_refused p) (sp_processed p).
Definition set_worker (w : WorkerPhase) (q : list NotificationJob) (closed : bool) (p : Process) : Process :=
  mkProcess (sp_db p) (sp_clock p) (sp_server p) (sp_cancelled p) w q closed (sp_done p)
    (sp_requests p) (sp_timed_out p) (sp_accepted p) (sp_refused p) (sp_processed p).
Definition set_requests (rs : list Uuid) (p : Process) : Process :=
  mkProcess (sp_db p) (sp_clock p) (sp_server p) (sp_cancelled p) (sp_worker p) (sp_queue p) (sp_closed p) (sp_done p)
    rs (sp_timed_out p) (sp_accepted p) (sp_refused p) (sp_processed p).

(** [try_send]: refused by a closed or a full channel. *)
Definition send (job : NotificationJob) (p : Process) : Process :=
  let take := negb (sp_closed p) && (length (sp_queue p) <? capacity)%nat in
  mkProcess (sp_db p) (sp_clock p) (sp_server p) (sp_cancelled p) (sp_worker p)
    (if take then sp_queue p ++ [job] else sp_queue p) (sp_closed p) (sp_done p) (sp_requests p) (sp_timed_out p)
    (if take then sp_accepted p ++ [job] else sp_accepted p)
    (if take then sp_refused p else sp_refused p ++ [job]) (sp_processed p).
(** [process_job] returned; an error is logged. *)
Definition processed (c : Clock) (new_id : Uuid) (job : NotificationJob) (p : Process) : Process :=
  mkProcess (snd (best_effort (E' := DbError) (process_job c new_id job) (sp_db p))) (sp_clock p) (sp_server p) (sp_cancelled p)
    (match sp_worker p with DrainBusy _ => Draining | _ => InLoop end) (sp_queue p) (sp_closed p) (sp_done p)
    (sp_requests p) (sp_timed_out p) (sp_accepted p) (sp_refused p) (sp_processed p ++ [(c, new_id, job)]).
(** Joining the next handle, or the end of the shutdown future. *)
Definition next_join (handles : list nat) (p : Process) : ServerPhase :=
  match handles with [] => Finishing | _ => Joining handles (sp_clock p) end.

(** One turn of [run_notification_worker]: its [select!], and the drain. *)
Definition worker_move (m : ProcessMove) (p : Process) : option Process :=
  match m with
  | Recv => match sp_worker p, sp_queue p with InLoop, job :: q => Some (set_worker (Busy job) q (sp_closed p) p) | _, _ => None end
  | Process_ c new_id =>
      match sp_worker p with Busy job | DrainBusy job => Some (processed c new_id job p) | _ => None end
  | SeeCancel =>
      match sp_worker p, sp_cancelled p with
      | InLoop, Some _ => Some (set_worker Draining (sp_queue p) true p)      (* rx.close() *)
      | _, _ => None
      end
  | TryRecv =>
      match sp_worker p, sp_queue p with
      | Draining, job :: q => Some (set_worker (DrainBusy job) q (sp_closed p) p)
      | Draining, [] => Some (set_worker Stopped [] (sp_closed p) p)
      | _, _ => None
      end
  | _ => None
  end.

(** The shutdown future of [main], and the end of [axum::serve]. *)
Definition shutdown_move (m : ProcessMove) (p : Process) : option Process :=
  match m with
  | Signal =>
      match sp_server p with
      | Serving =>
          Some (mkProcess (sp_db p) (sp_clock p) (next_join (seq 0 tasks) p) (Some (sp_clock p)) (sp_worker p) (sp_queue p)
            (sp_closed p) (sp_done p) (sp_requests p) (sp_timed_out p) (sp_accepted p) (sp_refused p) (sp_processed p))
      | _ => None
      end
  | JoinNext =>
      match sp_server p with
      | Joining (h :: handles) since =>
          if ended p h then Some (set_server (next_join handles p) p)
          else if since + JOIN_TIMEOUT <=? sp_clock p
          then Some (mkProcess (sp_db p) (sp_clock p) (next_join handles p) (sp_cancelled p) (sp_worker p) (sp_queue p)
            (sp_closed p) (sp_done p) (sp_requests p) (h :: sp_timed_out p) (sp_accepted p) (sp_refused p) (sp_processed p))
          else None
      | _ => None
      end
  | Exit =>
      match sp_server p, sp_requests p with Finishing, [] => Some (set_server Gone p) | _, _ => None end
  | _ => None
  end.

(** What can happen while the process lives. *)
Definition live_move (m : ProcessMove) (p : Process) : option Process :=
  match m with
  | Connect r => if accepting p then Some (set_requests (r :: sp_requests p) p) else None
  | Notify r job => if bool_decide (r ∈ sp_requests p) then Some (send job p) else None
  | Reply r => Some (set_requests (filter (λ x, x ≠ r) (sp_requests p)) p)
  | Recv | Process_ _ _ | SeeCancel | TryRecv => worker_move m p
  | Signal | JoinNext | Exit => shutdown_move m p
  | TaskEnds h =>
      match h, sp_cancelled p with
      | S _, Some _ => Some (mkProcess (sp_db p) (sp_clock p) (sp_server p) (sp_cancelled p) (sp_worker p) (sp_queue p)
          (sp_closed p) (h :: sp_done p) (sp_requests p) (sp_timed_out p) (sp_accepted p) (sp_refused p) (sp_processed p))
      | _, _ => None
      end
  | Wait dt =>
      (* a timer that has run out is served before time goes on *)
      let late := match sp_server p with Joining _ since => since + JOIN_TIMEOUT <? sp_clock p + dt | _ => false end in
      if (0 <=? dt) && negb late
      then Some (mkProcess (sp_db p) (sp_clock p + dt) (sp_server p) (sp_cancelled p) (sp_worker p) (sp_queue p) (sp_closed p)
        (sp_done p) (sp_requests p) (sp_timed_out p) (sp_accepted p) (sp_refused p) (sp_processed p))
      else None
  end.
Definition process_move (m : ProcessMove) (p : Process) : option Process :=
  match sp_server p with Gone => None | _ => live_move m p end.
Fixpoint process_moves (ms : list ProcessMove) (p : Process) : option Process :=
  match ms with [] => Some p | m :: ms' => p' ← process_move m p; process_moves ms' p' end.

(** The process when [main] has started everything. *)
Definition started (now : Time) (d : Db) : Process :=
  mkProcess d now Serving None InLoop [] false [] [] [] [] [] [].
End process.

(** ** What survives a shutdown *)

Definition in_hand (p : Process) : list NotificationJob :=
  match sp_worker p with Busy job | DrainBusy job => [job] | _ => [] end.
(** The worker has ended, or its join is still ahead or timed out. *)
Definition worker_accounted (p : Process) : Prop :=
  match sp_server p with
  | Serving => True
  | Joining handles _ => O ∈ handles ∨ sp_worker p = Stopped ∨ O ∈ sp_timed_out p
  | Finishing | Gone => sp_worker p = Stopped ∨ O ∈ sp_timed_out p
  end.

Section shutdown.
Context (capacity tasks : nat) (Htasks : (0 < tasks)%nat) (d0 : Db).

(** The channel and the worker. *)
Record jobs_inv (p : Process) : Prop := {
  ji_jobs : sp_accepted p = map snd (sp_processed p) ++ in_hand p ++ sp_queue p;
  ji_db : sp_db p = snd (run_notification_worker (sp_processed p) d0);
  ji_stopped : sp_worker p = Stopped → sp_queue p = [];
  ji_closed : match sp_worker p with InLoop | Busy _ => True | _ => sp_closed p = true end;
  ji_capacity : (length (sp_queue p) ≤ capacity)%nat }.
(** The server and the joins: [t0] is the instant of the signal. *)
Definition server_inv (p : Process) : Prop :=
  worker_accounted p ∧
  match sp_server p with
  | Serving => sp_cancelled p = None
  | Joining handles since => handles ≠ [] ∧ (length handles ≤ tasks)%nat ∧ sp_clock p ≤ since + JOIN_TIMEOUT ∧
      ∃ t0, sp_cancelled p = Some t0 ∧ since ≤ t0 + JOIN_TIMEOUT * (Z.of_nat tasks - Z.of_nat (length handles))
  | _ => True
  end.

Lemma run_worker_snoc jobs c n job d :
  snd (run_notification_worker (jobs ++ [(c, n, job)]) d)
  = snd (best_effort (E' := DbError) (process_job c n job) (snd (run_notification_worker jobs d))).
Proof.
  unfold run_notification_worker. revert d. induction jobs as [|j jobs IH]; intros d; [done|].
  simpl. unfold mbind, M_bind, best_effort at 1 3. simpl. apply IH.
Qed.

Lemma jobs_inv_move m p p' : jobs_inv p → live_move capacity tasks m p = Some p' → jobs_inv p'.
Proof using All.
  intros [Hj Hd Hs Hc Hcap]. assert (Hsame : ∀ q, sp_accepted q = sp_accepted p → sp_processed q = sp_processed p →
    sp_worker q = sp_worker p → sp_queue q = sp_queue p → sp_closed q = sp_closed p → sp_db q = sp_db p → jobs_inv q).
  { intros q H1 H2 H3 H4 H5 H6. split; unfold in_hand; rewrite ?H1, ?H2, ?H3, ?H4, ?H5, ?H6; done. }
  unfold in_hand in Hj.
  destruct m as [r|r job|r| |c n| | |h| | | |dt]; simpl.
  - destruct (accepting p); [|done]. intros [= <-]. by apply Hsame.
  - case_bool_decide; [|done]. intros [= <-]. unfold send.
    destruct (sp_closed p) eqn:Hcl; simpl; [by apply Hsame|]. destruct (Nat.ltb_spec (length (sp_queue p)) capacity); simpl; [|by apply Hsame].
    split; unfold in_hand; simpl; [|done| | |by rewrite length_app; simpl; lia].
    + rewrite Hj. by rewrite <-!app_assoc.
    + intros Hw. rewrite Hw in Hc. congruence.
    + destruct (sp_worker p); done || congruence.
  - intros [= <-]. by apply Hsame.
  - destruct (sp_worker p) eqn:Hw; try done. destruct (sp_queue p) as [|job q] eqn:Hq; [done|]. intros [= <-].
    split; unfold in_hand; simpl; try done. simpl in Hcap. lia.
  - destruct (sp_worker p) as [|job| |job|] eqn:Hw; try done; intros [= <-];
      (split; unfold in_hand; simpl; rewrite ?Hw, ?map_app; simpl; [by rewrite Hj, <-app_assoc|by rewrite run_worker_snoc, <-Hd|done|done|done]).
  - destruct (sp_worker p) eqn:Hw; try done. destruct (sp_cancelled p); [|done]. intros [= <-]. by split.
  - destruct (sp_worker p) eqn:Hw; try done. destruct (sp_queue p) as [|job q] eqn:Hq; intros [= <-]; split; unfold in_hand; simpl; try done.
    simpl in Hcap. lia.
  - destruct h; [done|]. destruct (sp_cancelled p); [|done]. intros [= <-]. by apply Hsame.
  - destruct (sp_server p); [|done..]. intros [= <-]. by apply Hsame.
  - destruct (sp_server p) as [|[|h hs] since| |]; try done. destruct (ended p h); [intros [= <-]; by apply Hsame|].
    destruct (_ <=? _); [|done]. intros [= <-]. by apply Hsame.
  - destruct (sp_server p); try done. destruct (sp_requests p); [|done]. intros [= <-]. by apply Hsame.
  - destruct (_ && _); [|done]. intros [= <-]. by apply Hsame.
Qed.

(** A join that returned or timed out. *)
Lemma server_inv_join p p' : server_inv p → shutdown_move tasks JoinNext p = Some p' → server_inv p'.
Proof using Htasks.
  intros [Hw Ht]. simpl.
  destruct (sp_server p) as [|[|h hs] since| |] eqn:Hsp; try done. destruct Ht as (_ & Hlen & Hclk & t0 & Ht0 & Hsince).
  unfold worker_accounted in Hw. rewrite Hsp in Hw. simpl in Hlen.
  assert (Hhead : ended p h = true → h = O → sp_worker p = Stopped).
  { intros He ->. simpl in He. by destruct (sp_worker p). }
  assert (Hnext : ∀ q, sp_server q = next_join hs p → sp_cancelled q = sp_cancelled p → sp_clock q = sp_clock p →
    sp_worker q = sp_worker p → (∀ x, x ∈ sp_timed_out p → x ∈ sp_timed_out q) →
    (h = O → sp_worker q = Stopped ∨ O ∈ sp_timed_out q) → server_inv q).
  { intros q H1 H2 H3 H4 H5 H6. unfold server_inv, worker_accounted. rewrite H1, H2, H3. unfold next_join.
    assert (Hacc : O ∈ hs ∨ sp_worker q = Stopped ∨ O ∈ sp_timed_out q).
    { rewrite H4 in *. destruct Hw as [[Heq|Hin]%elem_of_cons|[Hst|Hto]]; [right; by apply H6|by left|by right; left|right; right; by apply H5]. }
    destruct hs as [|h' hs']; [split; [|done]; destruct Hacc as [?%elem_of_nil|?]; done|]. split; [done|].
    split; [done|]. split; [simpl in *; lia|]. split; [unfold JOIN_TIMEOUT, seconds; lia|]. exists t0. split; [done|].
    revert Hsince Hclk Hlen. simpl length. unfold JOIN_TIMEOUT, seconds. lia. }
  destruct (ended p h) eqn:He; [intros [= <-]; apply Hnext; simpl; auto|].
  destruct (Z.leb_spec (since + JOIN_TIMEOUT) (sp_clock p)); [|done]. intros [= <-]. apply Hnext; simpl; try done.
  - intros x Hx. by right.
  - intros ->. right. left.
Qed.

Lemma server_inv_move m p p' : server_inv p → live_move capacity tasks m p = Some p' → server_inv p'.
Proof using Htasks.
  intros [Hw Ht]. assert (Hsame : ∀ q, sp_server q = sp_server p → sp_cancelled q = sp_cancelled p → sp_clock q = sp_clock p →
    sp_timed_out q = sp_timed_out p → (sp_worker p = Stopped → sp_worker q = Stopped) → server_inv q).
  { intros q H1 H2 H3 H4 H5. unfold server_inv, worker_accounted in *. rewrite H1, H2, H3, H4. split; [|done].
    destruct (sp_server p); naive_solver. }
  destruct m as [r|r job|r| |c n| | |h| | | |dt]; simpl.
  - destruct (accepting p); [|done]. intros [= <-]. by apply Hsame.
  - case_bool_decide; [|done]. intros [= <-]. by apply Hsame.
  - intros [= <-]. by apply Hsame.
  - destruct (sp_worker p) eqn:Hwk; try done. destruct (sp_queue p); [done|]. intros [= <-]. by apply Hsame.
  - destruct (sp_worker p) eqn:Hwk; try done; intros [= <-]; by apply Hsame.
  - destruct (sp_worker p) eqn:Hwk; try done. destruct (sp_cancelled p) eqn:?; [|done]. intros [= <-]. by apply Hsame.
  - destruct (sp_worker p) eqn:Hwk; try done. destruct (sp_queue p); intros [= <-]; by apply Hsame.
  - destruct h; [done|]. destruct (sp_cancelled p) eqn:?; [|done]. intros [= <-]. by apply Hsame.
  - destruct (sp_server p) eqn:Hsp; [|done..]. intros [= <-]. unfold server_inv, worker_accounted, next_join. simpl.
    destruct (seq 0 tasks) as [|h hs] eqn:Hseq; [destruct tasks; [lia|done]|].
    assert (Hlen : length (h :: hs) = tasks) by (rewrite <-Hseq; apply length_seq).
    split; [left|]. { destruct tasks; [lia|]. injection Hseq as <- _. left. }
    split; [done|]. split; [lia|]. split; [unfold JOIN_TIMEOUT, seconds; lia|]. exists (sp_clock p). split; [done|]. rewrite Hlen. lia.
  - by apply server_inv_join.
  - destruct (sp_server p) eqn:Hsp; try done. destruct (sp_requests p); [|done]. intros [= <-].
    unfold server_inv, worker_accounted in *. rewrite Hsp in Hw. done.
  - destruct (0 <=? dt); simpl; [|done]. destruct (sp_server p) as [|hs since| |] eqn:Hsp; simpl.
    + intros [= <-]. unfold server_inv, worker_accounted in *; simpl; rewrite ?Hsp in *. done.
    + destruct (Z.ltb_spec (since + JOIN_TIMEOUT) (sp_clock p + dt)); simpl; [done|]. intros [= <-].
      unfold server_inv, worker_accounted in *. simpl. rewrite ?Hsp in *. naive_solver.
    + intros [= <-]. unfold server_inv, worker_accounted in *; simpl; rewrite ?Hsp in *. done.
    + intros [= <-]. unfold server_inv, worker_accounted in *; simpl; rewrite ?Hsp in *. done.
Qed.

(** Everything a process can reach. *)
Lemma process_moves_inv ms p p' :
  jobs_inv p ∧ server_inv p → process_moves capacity tasks ms p = Some p' → jobs_inv p' ∧ server_inv p'.
Proof using Htasks.
  revert p. induction ms as [|m ms IH]; intros p Hp; simpl; [by intros [= <-]|].
  destruct (process_move capacity tasks m p) as [p1|] eqn:Hm; simpl; [|done]. apply IH. unfold process_move in Hm.
  destruct Hp as [H1 H2]. split.
  - eapply jobs_inv_move; [done|]. by destruct (sp_server p).
  - eapply server_inv_move; [done|]. by destruct (sp_server p).
Qed.

(** ** The process always gets out *)

Definition exits (p : Process) : Prop :=
  ∃ ms p', process_moves capacity tasks ms p = Some p' ∧ sp_server p' = Gone.
Lemma exits_step m p p1 : sp_server p ≠ Gone → live_move capacity tasks m p = Some p1 → exits p1 → exits p.
Proof.
  intros Hp Hm (ms & p' & Hms & Hg). exists (m :: ms), p'. split; [|done]. simpl. unfold process_move.
  destruct (sp_server p); [by rewrite Hm..|done].
Qed.
Lemma finishing_exits p : sp_server p = Finishing → exits p.
Proof using Htasks.
  remember (length (sp_requests p)) as n eqn:Hn. revert p Hn. induction (lt_wf n) as [n _ IH]. intros p -> Hp.
  destruct (sp_requests p) as [|r rs] eqn:Hr.
  - eapply (exits_step Exit); [congruence|simpl; by rewrite Hp, Hr|]. exists [], (set_server Gone p). done.
  - eapply (exits_step (Reply r)); [congruence|done|]. eapply IH; [|done|done]. simpl. rewrite Hr.
    rewrite filter_cons_False by auto. simpl. pose proof (length_filter (λ x, x ≠ r) rs). lia.
Qed.
Lemma joining_exits handles since p :
  sp_server p = Joining handles since → handles ≠ [] → sp_clock p ≤ since + JOIN_TIMEOUT → exits p.
Proof using Htasks.
  revert since p. induction handles as [|h hs IH]; intros since p Hp Hne Hclk; [done|].
  eapply (exits_step (Wait (since + JOIN_TIMEOUT - sp_clock p))); [congruence| |].
  { simpl. rewrite Hp, (proj2 (Z.leb_le 0 _)), (proj2 (Z.ltb_ge _ _)) by lia. done. }
  match goal with |- exits ?q => set (p1 := q) end.
  assert (Hrest : ∀ q, sp_server q = next_join hs p1 → sp_clock q = sp_clock p1 → exits q).
  { intros q Hq Hc. unfold next_join in Hq. destruct hs as [|h' hs']; [by apply finishing_exits|].
    eapply IH; [done|done|]. rewrite Hc. unfold JOIN_TIMEOUT, seconds. lia. }
  assert (Hp1 : sp_server p1 = Joining (h :: hs) since) by done.
  destruct (ended p1 h) eqn:He.
  - eapply (exits_step JoinNext); [congruence|unfold live_move, shutdown_move; by rewrite Hp1, He|]. by apply Hrest.
  - eapply (exits_step JoinNext); [congruence| |].
    { unfold live_move, shutdown_move. rewrite Hp1, He, (proj2 (Z.leb_le _ _)) by (simpl; lia). done. }
    by apply Hrest.
Qed.
Lemma server_inv_exits p : server_inv p → exits p.
Proof using Htasks.
  intros Hp. destruct (sp_server p) as [|hs since| |] eqn:Hs.
  - assert (Hsig : ∃ p1, live_move capacity tasks Signal p = Some p1) by (simpl; rewrite Hs; eauto).
    destruct Hsig as [p1 Hsig]. eapply exits_step; [congruence|exact Hsig|].
    destruct (server_inv_move _ _ _ Hp Hsig) as [_ Ht]. simpl in Hsig. rewrite Hs in Hsig. injection Hsig as <-. simpl in Ht |- *.
    unfold next_join in Ht |- *. destruct (seq 0 tasks) eqn:Hseq; [by apply finishing_exits|].
    eapply joining_exits; [done|done|]. naive_solver.
  - destruct Hp as [_ Hp]. rewrite Hs in Hp. destruct Hp as (Hne & _ & Hclk & _). by eapply joining_exits.
  - by apply finishing_exits.
  - exists [], p. done.
Qed.

(** C15: no accepted notification is lost in a shutdown that keeps to its timeouts. In
    whatever order requests arrive and answer, the worker receives, the signal comes,
    tasks end and timers run out: the channel's jobs are processed in the order they
    were accepted, each once, and the database is the one the worker makes of them;
    when the worker has stopped, and when the process has exited without the join of the
    worker having timed out, all of them are processed; the channel never holds more
    than its capacity; the server stops accepting connections at most 10 seconds per
    background task after the signal; and from everywhere the process can still get to
    its end. *)
Theorem shutdown_drains ms now p :
  process_moves capacity tasks ms (started now d0) = Some p →
  sp_accepted p = map snd (sp_processed p) ++ in_hand p ++ sp_queue p ∧
  sp_db p = snd (run_notification_worker (sp_processed p) d0) ∧
  (sp_worker p = Stopped ∨ sp_server p = Gone ∧ O ∉ sp_timed_out p →
     map snd (sp_processed p) = sp_accepted p) ∧
  (length (sp_queue p) ≤ capacity)%nat ∧
  (∀ t0, sp_cancelled p = Some t0 → accepting p = true → sp_clock p ≤ t0 + seconds 10 * Z.of_nat tasks) ∧
  exits p.
Proof using Htasks.
  intros Hrun. destruct (process_moves_inv ms (started now d0) p) as [[Hj Hd Hs Hc Hcap] [Hw Ht]]; [|done|].
  { split; [split; simpl; try done; lia|]. split; done. }
  split; [done|]. split; [done|]. split; [|split; [done|split; [|by apply server_inv_exits]]].
  - intros Hend. assert (Hst : sp_worker p = Stopped).
    { destruct Hend as [?|[Hg Hto]]; [done|]. unfold worker_accounted in Hw. rewrite Hg in Hw. by destruct Hw. }
    rewrite Hj, (Hs Hst). unfold in_hand. rewrite Hst. simpl. by rewrite app_nil_r.
  - intros t0 Ht0. unfold accepting. destruct (sp_server p) as [|handles since| |]; [congruence| |done..]. intros _.
    destruct Ht as (Hne & Hlen & Hclk & t1 & Ht1 & Hsince). rewrite Ht0 in Ht1. injection Ht1 as <-.
    assert ((0 < length handles)%nat) by (destruct handles; [done|simpl; lia]).
    revert Hsince Hclk. unfold JOIN_TIMEOUT, seconds. lia.
Qed.
End shutdown.

(** ** When the signal comes *)

(** A signal handler: it could not be installed, or it could, and the signal arrives at
    an instant or never. *)
Inductive Handler := NotInstalled | Installed (arrives : option Time).
(** When the future of a handler is ready: one that was not installed logs the error and
    is ready at once. *)
Definition ready (started : Time) (h : Handler) : option Time :=
  match h with NotInstalled => Some started | Installed t => Z.max started <$> t end.
(** [shutdown_signal]: [select!] takes the future that is ready first. *)
Definition shutdown_signal (started : Time) (ctrl_c terminate : Handler) : option Time :=
  match ready started ctrl_c, ready started terminate with
  | Some t, Some t' => Some (Z.min t t')
  | Some t, None | None, Some t => Some t
  | None, None => None
  end.

(** The process shuts down with the first of the two signals, and not without one as long
    as both handlers could be installed; with a handler that could not, it shuts down as
    soon as it has started. *)
Lemma shutdown_signal_exact started ctrl_c terminate t :
  shutdown_signal started ctrl_c terminate = Some t ↔
  started ≤ t ∧ (ready started ctrl_c = Some t ∨ ready started terminate = Some t) ∧
  (∀ t', ready started ctrl_c = Some t' → t ≤ t') ∧ (∀ t', ready started terminate = Some t' → t ≤ t').
Proof.
  unfold shutdown_signal.
  assert (Hge : ∀ h t', ready started h = Some t' → started ≤ t').
  { intros [|[x|]] t'; simpl; [intros [= <-]; lia|intros [= <-]; lia|done]. }
  pose proof (Hge ctrl_c) as H1. pose proof (Hge terminate) as H2.
  destruct (ready started ctrl_c) as [x|], (ready started terminate) as [y|].
  - specialize (H1 _ eq_refl). specialize (H2 _ eq_refl). split.
    + intros [= <-]. split; [lia|]. split; [destruct (Z.min_spec x y) as [[_ ->]|[_ ->]]; auto|].
      split; intros ? [= <-]; lia.
    + intros (_ & Hor & Hx & Hy). specialize (Hx _ eq_refl). specialize (Hy _ eq_refl). f_equal. naive_solver lia.
  - specialize (H1 _ eq_refl). split; [intros [= <-]; naive_solver|]. intros (_ & [?|?] & _); congruence.
  - specialize (H2 _ eq_refl). split; [intros [= <-]; naive_solver|]. intros (_ & [?|?] & _); congruence.
  - split; [done|]. intros (_ & [?|?] & _); congruence.
Qed.
Lemma missing_handler_stops started h :
  shutdown_signal started NotInstalled h = Some started ∧ shutdown_signal started h NotInstalled = Some started.
Proof. unfold shutdown_signal. destruct h as [|[x|]]; simpl; split; f_equal; lia. Qed.

(** ** Requests after the signal *)

(** A request that arrives while the background tasks are being joined. *)
Definition late_request (job : NotificationJob) : list ProcessMove :=
  [Signal; SeeCancel; TryRecv; JoinNext; Connect 1; Notify 1 job; Reply 1; TaskEnds 1; JoinNext; Exit].

(** A request served after the signal loses its notification. With the two
    background tasks of the [api] mode and whatever capacity, there is a shutdown in which
    no timer runs out, the server accepts and answers a request after the signal, and
    the notification that request sends is refused by the closed channel. *)
Theorem late_request_loses_notification capacity now d job :
  ∃ p, process_moves capacity 2 (late_request job) (started now d) = Some p ∧
    sp_server p = Gone ∧ sp_timed_out p = [] ∧ sp_refused p = [job] ∧ sp_processed p = [].
Proof. eexists. split; [vm_compute; reflexivity|]. repeat split. Qed.

(** ** Concrete runs *)

(** A notification that is in the channel when the signal comes. *)
Definition signal_meets_job : list ProcessMove :=
  [Connect 1; Notify 1 (UserFollowed 1 2); Reply 1; Signal; SeeCancel; TryRecv; Wait 1; Process_ (mkClock 5 5) 10; TryRecv;
   JoinNext; TaskEnds 1; JoinNext; Exit].
Lemma shutdown_drains_witness :
  let p := default (started 0 two_friends) (process_moves 8 2 signal_meets_job (started 0 two_friends)) in
  map snd (sp_processed p) = [UserFollowed 1 2] ∧
  sp_accepted p = map snd (sp_processed p) ++ in_hand p ++ sp_queue p ∧
  sp_db p = snd (run_notification_worker (sp_processed p) two_friends) ∧
  (sp_worker p = Stopped ∨ sp_server p = Gone ∧ O ∉ sp_timed_out p →
     map snd (sp_processed p) = sp_accepted p) ∧
  (length (sp_queue p) ≤ 8)%nat ∧
  (∀ t0, sp_cancelled p = Some t0 → accepting p = true → sp_clock p ≤ t0 + seconds 10 * Z.of_nat 2) ∧
  exits 8 2 p.
Proof.
  intros p. split; [vm_compute; reflexivity|].
  apply (shutdown_drains 8 2 ltac:(lia) two_friends signal_meets_job 0 p).
  unfold p. destruct (process_moves _ _ _ _) eqn:Hs; [done|]. by vm_compute in Hs.
Defined.
