(* ===== verification/Search.v ===== *)
(** * Search

    [SearchService] of [src/app/search.rs]: substring search over handles, display
    names and captions by [ILIKE '%..%' ESCAPE '\'], with the wildcards of the
    search term escaped. The case folding of the database locale is the parameter
    [lower]. *)

From S2P Require Import Prelude Text Sql Keyset Domain Schema Social Posts.
From Stdlib Require Import Ascii.
From stdpp Require Import options.

#[local] Open Scope Z_scope.

(** ** LIKE *)

Definition percent : string := "%".
Definition underscore : string := "_".
Definition backslash : string := "\".
Definition is_special (c : string) : bool :=
  bool_decide (c = percent) || bool_decide (c = underscore) || bool_decide (c = backslash).

(** A pattern element: [%], [_], or a literal character. *)
Inductive Tok := AnySeq | AnyChar | Lit (c : string).

(** A pattern read with [ESCAPE '\']; [None] when it ends in the escape. *)
Fixpoint like_tokens (p : list string) : option (list Tok) :=
  match p with
  | [] => Some []
  | c :: p' =>
      if bool_decide (c = backslash) then
        match p' with
        | [] => None
        | c' :: p'' => cons (Lit c') <$> like_tokens p''
        end
      else if bool_decide (c = percent) then cons AnySeq <$> like_tokens p'
      else if bool_decide (c = underscore) then cons AnyChar <$> like_tokens p'
      else cons (Lit c) <$> like_tokens p'
  end.

(** Some suffix of [t] satisfies [m]. *)
Fixpoint any_suffix (m : list string → bool) (t : list string) : bool :=
  m t || match t with [] => false | _ :: t' => any_suffix m t' end.

Fixpoint like_match (p : list Tok) (t : list string) : bool :=
  match p with
  | [] => match t with [] => true | _ => false end
  | AnySeq :: p' => any_suffix (like_match p') t
  | AnyChar :: p' => match t with [] => false | _ :: t' => like_match p' t' end
  | Lit c :: p' => match t with [] => false | x :: t' => bool_decide (x = c) && like_match p' t' end
  end.

(** ** The service *)

Definition escape_char (ch : string) : string :=
  if is_special ch then (backslash +:+ ch)%string else ch.
Definition escape_like_pattern (input : string) : string := join (escape_char <$> chars input).

Definition pattern_of (query : string) : string :=
  (percent +:+ escape_like_pattern query +:+ percent)%string.

Section search.
(** The simple case mapping of the database locale, one character at a time. *)
Context (lower : string → string).

Definition ilike_tokens (pattern : string) : option (list Tok) := like_tokens (lower <$> chars pattern).
Definition ilike (p : list Tok) (text : string) : bool := like_match p (lower <$> chars text).

Definition user_key (u : User) : Key := (user_created_at u, user_id u).

Definition users_matching (m : string → bool) (d : Db) : list User :=
  select (λ k r, if (m (u_handle r) || m (u_display_name r)) && bool_decide (u_deleted_at r = None)
                 then Some (row_to_user k r) else None) (users d).

Definition search_users (query : string) (cursor : option Key) (limit : Z) : M Db DbError (list User) :=
  p ← ok_or (ilike_tokens (pattern_of query)) InvalidEscapeSequence;
  reads (λ d, keyset user_key Desc cursor limit (users_matching (ilike p) d)).

(** A NULL caption matches nothing. *)
Definition posts_matching (m : string → bool) (d : Db) : list Post :=
  select (λ k p, owner ← active_user d (p_owner_id p);
                 if bool_decide (p_visibility p = Public)
                    && match p_caption p with Some c => m c | None => false end
                 then Some (post_of d k p owner (media_ids_of d k) None None) else None) (posts d).

Definition search_posts (query : string) (cursor : option Key) (limit : Z) : M Db DbError (list Post) :=
  p ← ok_or (ilike_tokens (pattern_of query)) InvalidEscapeSequence;
  reads (λ d, keyset post_key Desc cursor limit (posts_matching (ilike p) d)).
End search.

(** ** What a search term matches *)

(** [q] occurs in [t] up to case. *)
Definition contains_ci (lower : string → string) (q t : string) : Prop :=
  ∃ a b, lower <$> chars t = a ++ (lower <$> chars q) ++ b.

Lemma any_suffix_true m t : any_suffix m t = true ↔ ∃ a b, t = a ++ b ∧ m b = true.
Proof.
  induction t as [|x t IH]; simpl; rewrite orb_true_iff.
  - split; [intros [H|[=]]; by exists [], []|]. intros (a & b & Hab & H).
    symmetry in Hab. apply app_nil in Hab as [-> ->]. by left.
  - rewrite IH. split.
    + intros [H|(a & b & -> & H)]; [by exists [], (x :: t)|by exists (x :: a), b].
    + intros ([|y a] & b & Hab & H); simplify_eq/=; [by left|]. right. by exists a, b.
Qed.

Lemma like_match_lits l p t :
  like_match ((Lit <$> l) ++ p) t = true ↔ ∃ t', t = l ++ t' ∧ like_match p t' = true.
Proof.
  revert t. induction l as [|c l IH]; intros t; simpl; [naive_solver|].
  destruct t as [|x t]; [naive_solver|]. rewrite andb_true_iff, bool_decide_eq_true, IH. naive_solver.
Qed.

Lemma like_match_contains l t :
  like_match (AnySeq :: (Lit <$> l) ++ [AnySeq]) t = true ↔ ∃ a b, t = a ++ l ++ b.
Proof.
  simpl. rewrite any_suffix_true. split.
  - intros (a & b & -> & (b' & -> & _)%like_match_lits). by exists a, b'.
  - intros (a & b & ->). exists a, (l ++ b). split; [done|]. apply like_match_lits. exists b.
    split; [done|]. apply any_suffix_true. exists b, []. by rewrite app_nil_r.
Qed.

(** The escaped pattern, character by character. *)
Definition escape_chars (c : string) : list string := if is_special c then [backslash; c] else [c].

Lemma escape_join l : join (escape_char <$> l) = join (l ≫= escape_chars).
Proof.
  induction l as [|c l IH]; [done|]. rewrite bind_cons, join_app, <-IH.
  unfold escape_char, escape_chars. simpl. destruct (is_special c); simpl.
  - by rewrite !append_assoc.
  - by rewrite append_assoc.
Qed.

Section match_term.
Context (lower : string → string).
(** Case mapping leaves the wildcards and the escape alone and produces none. *)
Hypothesis lower_special : ∀ c, is_special c = true → lower c = c.
Hypothesis lower_plain : ∀ c, is_special c = false → is_special (lower c) = false.

Lemma pattern_chars q :
  starts_inside q = false →
  chars (pattern_of q) = percent :: (chars q ≫= escape_chars) ++ [percent].
Proof using Type.
  intros Hq%chars_wf. unfold pattern_of, escape_like_pattern. rewrite escape_join.
  replace (percent +:+ join (chars q ≫= escape_chars) +:+ percent)%string
    with (join (percent :: (chars q ≫= escape_chars) ++ [percent])) by (simpl; by rewrite join_app).
  apply chars_join. constructor; [done|]. apply Forall_app; split; [|by constructor].
  apply Forall_bind. eapply Forall_impl; [exact Hq|]. intros c Hc. unfold escape_chars.
  unfold compose. case_match; [constructor; [done|]|]; apply Forall_singleton; exact Hc.
Qed.

Lemma plain_tokens c p :
  is_special c = false → like_tokens (c :: p) = cons (Lit c) <$> like_tokens p.
Proof using Type.
  unfold is_special. intros Hc. bool_to_prop. simpl. by repeat case_bool_decide.
Qed.

Lemma escaped_tokens l p ts :
  lower <$> p = p → like_tokens p = Some ts →
  like_tokens (lower <$> ((l ≫= escape_chars) ++ p)) = Some ((Lit <$> (lower <$> l)) ++ ts).
Proof using All.
  intros Hlp Hp.
  induction l as [|c l IH]; [simpl; by rewrite Hlp|]. rewrite bind_cons, <-app_assoc.
  unfold escape_chars at 1. destruct (is_special c) eqn:Hc.
  - cbn [app]. rewrite !fmap_cons, (lower_special backslash), (lower_special c) by done.
    cbn [like_tokens]. rewrite bool_decide_true by done. by rewrite IH.
  - cbn [app]. rewrite !fmap_cons, plain_tokens by auto. by rewrite IH.
Qed.

(** The pattern built for [q] is the literal characters of [q] between two [%]. *)
Lemma pattern_tokens q :
  starts_inside q = false →
  ilike_tokens lower (pattern_of q) = Some (AnySeq :: (Lit <$> (lower <$> chars q)) ++ [AnySeq]).
Proof using All.
  intros Hq. unfold ilike_tokens. rewrite pattern_chars by done.
  assert (lower percent = percent) as Hl by (by apply lower_special).
  assert (like_tokens (lower <$> ((chars q ≫= escape_chars) ++ [percent]))
          = Some ((Lit <$> (lower <$> chars q)) ++ [AnySeq])) as Hts.
  { apply escaped_tokens; [simpl; by rewrite Hl|done]. }
  rewrite fmap_cons, Hl. cbn [like_tokens]. rewrite bool_decide_false, bool_decide_true by done.
  by rewrite Hts.
Qed.

Lemma ilike_contains q t :
  ilike lower (AnySeq :: (Lit <$> (lower <$> chars q)) ++ [AnySeq]) t = true ↔ contains_ci lower q t.
Proof using Type. apply like_match_contains. Qed.

Lemma users_matching_keys m d : NoDup (user_key <$> users_matching m d).
Proof using Type.
  eapply NoDup_keys; [|apply (select_NoDup _ user_id)]; [done|].
  intros k r u. case_match; naive_solver.
Qed.
Lemma posts_matching_keys m d : NoDup (post_key <$> posts_matching m d).
Proof using Type.
  eapply NoDup_keys; [|apply (select_NoDup _ post_id)]; [done|].
  intros k p x. simpl. destruct (active_user d _); simpl; [|done]. case_match; naive_solver.
Qed.

(** Searching is exactly case-insensitive substring search: whatever the term
    contains, wildcards and backslashes included, a user is found precisely when
    the account is active and the handle or the display name contains the term
    literally up to case; pages are prefixes of the full result, newest first. *)
Theorem search_users_exact q cursor n d :
  starts_inside q = false →
  ∃ full, search_users lower q cursor n d = (Ok (take (Z.to_nat n) full), d) ∧
    StronglySorted (λ x y, precedes Desc (user_key x) (user_key y)) full ∧
    ∀ x, x ∈ full ↔ after_cursor user_key Desc cursor x = true ∧
      ∃ k r, active_user d k = Some r ∧ x = row_to_user k r ∧
        (contains_ci lower q (u_handle r) ∨ contains_ci lower q (u_display_name r)).
Proof using All.
  intros Hq. unfold search_users. rewrite pattern_tokens by done.
  eexists (walk user_key Desc cursor (users_matching _ d)). split_and!; [reflexivity| |].
  - apply walk_strict, users_matching_keys.
  - intros x. rewrite elem_of_walk. unfold users_matching. rewrite elem_of_select.
    setoid_rewrite active_user_Some. setoid_rewrite <-ilike_contains.
    setoid_rewrite <-orb_true_iff. rewrite (and_comm (∃ _, _)). apply and_iff_compat_l.
    split; intros (k & r & H); exists k, r.
    + destruct H as [Hk Hf]. case_match eqn:Hm; [|done]. bool_to_prop. naive_solver.
    + destruct H as ((Hk & Hdel) & -> & Hm). split; [done|]. by rewrite Hm, bool_decide_true.
Qed.

(** Post search shows exactly what an anonymous visitor could open: a post is
    found precisely when it is public, its owner is active and its caption contains
    the term up to case; who searches, and who blocked whom, plays no part. *)
Theorem search_posts_exact q cursor n d :
  starts_inside q = false →
  ∃ full, search_posts lower q cursor n d = (Ok (take (Z.to_nat n) full), d) ∧
    StronglySorted (λ x y, precedes Desc (post_key x) (post_key y)) full ∧
    ∀ x, x ∈ full ↔ after_cursor post_key Desc cursor x = true ∧
      (∃ y, get_post (post_id x) None d = (Ok (Some y), d) ∧ x = without_counts y) ∧
      ∃ c, post_caption x = Some c ∧ contains_ci lower q c.
Proof using All.
  intros Hq. unfold search_posts. rewrite pattern_tokens by done.
  eexists (walk post_key Desc cursor (posts_matching _ d)). split_and!; [reflexivity| |].
  - apply walk_strict, posts_matching_keys.
  - intros x. rewrite elem_of_walk. unfold posts_matching. rewrite elem_of_select.
    setoid_rewrite <-ilike_contains. rewrite (and_comm (∃ _, _)). apply and_iff_compat_l.
    unfold get_post, reads. split.
    + intros (k & p & Hk & Hf). destruct (active_user d _) as [o|] eqn:Ho; simpl in Hf; [|done].
      destruct (p_caption p) as [c|] eqn:Hc; [|by rewrite andb_false_r in Hf].
      case_match eqn:Hm; [|done]. bool_to_prop. simplify_eq. simpl. split; [|eauto].
      rewrite Hk. simpl. rewrite Ho. simpl. rewrite bool_decide_true by done. eauto.
    + intros ((y & Hy & ->) & c & Hc & Hm). simpl in Hy.
      destruct (posts d !! post_id y) as [p|] eqn:Hk; simpl in Hy; [|done].
      destruct (active_user d (p_owner_id p)) as [o|] eqn:Ho; simpl in Hy; [|done].
      case_match eqn:Hv; [|done]. injection Hy as Hy. exists (post_id y), p.
      split; [done|]. rewrite Ho. simpl. rewrite Hv. rewrite <-Hy in Hc. simpl in Hc. rewrite Hc, Hm.
      simpl. by rewrite <-Hy at 3.
Qed.
End match_term.

(** ASCII lower case. *)
Definition ascii_lower (c : string) : string :=
  match c with
  | String b EmptyString =>
      if ((65 <=? N_of_ascii b) && (N_of_ascii b <=? 90))%N then String (ascii_of_N (N_of_ascii b + 32)) "" else c
  | _ => c
  end.

Lemma ascii_lower_special c : is_special c = true → ascii_lower c = c.
Proof.
  unfold is_special. rewrite !orb_true_iff, !bool_decide_eq_true. by intros [[->| ->]| ->].
Qed.
Lemma ascii_lower_plain c : is_special c = false → is_special (ascii_lower c) = false.
Proof.
  destruct c as [|b [|? ?]]; try done. destruct b as [[] [] [] [] [] [] [] []]; done.
Qed.

Definition bob_row : UserRow := mkUserRow "bob_B" "b@x" "Bob" None None 0 "h" None.
(** Bob and a public post of his, although he blocked user 2. *)
Definition bob_db : Db :=
  set_blocks (λ _, {[ (1%N, 2%N) := 0 ]})
  (set_posts (λ _, {[ 7%N := mkPostRow 1%N (Some "100% Fun") Public 3 ]})
  (set_users (λ _, {[ 1%N := bob_row; 2%N := mkUserRow "bobby" "a@x" "Ann" None None 0 "h" None ]}) empty_db)).

(** [B_] finds [bob_B] and not [bobby]: the underscore is literal. *)
Lemma search_users_exact_witness :
  ∃ full, search_users ascii_lower "B_" None 10 bob_db = (Ok (take 10 full), bob_db) ∧
    row_to_user 1%N bob_row ∈ full.
Proof.
  destruct (search_users_exact ascii_lower ascii_lower_special ascii_lower_plain "B_" None 10 bob_db)
    as (full & H & _ & Hin); [reflexivity|].
  exists full. split; [exact H|]. apply Hin. split; [reflexivity|].
  exists 1%N, bob_row. split; [reflexivity|]. split; [reflexivity|]. left.
  exists ["b"; "o"]%string, ["b"]%string. reflexivity.
Defined.

Lemma search_posts_exact_witness :
  ∃ full x, search_posts ascii_lower "0% F" None 10 bob_db = (Ok (take 10 full), bob_db) ∧
    x ∈ full ∧ post_id x = 7%N.
Proof.
  destruct (search_posts_exact ascii_lower ascii_lower_special ascii_lower_plain "0% F" None 10 bob_db)
    as (full & H & _ & Hin); [reflexivity|].
  pose (y := post_of bob_db 7%N (mkPostRow 1%N (Some "100% Fun") Public 3) bob_row [] (Some (0, 0)) None).
  exists full, (without_counts y). split; [exact H|]. split; [|reflexivity].
  apply Hin. split; [reflexivity|]. split.
  - exists y. split; vm_compute; reflexivity.
  - exists "100% Fun". split; [reflexivity|]. exists ["1"; "0"]%string, ["u"; "n"]%string. reflexivity.
Defined.

(** A post found by search although [get_post] hides it from the searcher. *)
Lemma search_ignores_blocks :
  fst (get_post 7%N (Some 2%N) bob_db) = Ok None ∧
  fst (search_posts ascii_lower "fun" None 10 bob_db) ≠ Ok [].
Proof. split; vm_compute; congruence. Qed.
