(* ===== verification/Media.v ===== *)
(** * Media service

    [MediaService] of [src/app/media.rs]: upload intents, the hand-over to the
    media queue, who may read which image, deletion, and the presigned URLs with
    their Redis cache. Signing a URL is local to the S3 SDK and is the interface
    [S3Signer]; the [url] crate is the interface [UrlLib]. *)

From S2P Require Import Prelude Text Sql Keyset Domain Schema Redis Social Posts World Stories.
From stdpp Require Import options.

#[local] Open Scope Z_scope.

(** ** Interfaces to the SDK and the url crate *)

(** [..presigned(config)]: the URL for an object key signed at a time for so many
    seconds; [None] when the SDK refuses (an expiry of more than a week). *)
Class S3Signer := {
  presign_get : Time → string → Z → option string;
  presign_put : Time → string → string → Z → Z → option (string * list (string * string)) }.

Class UrlLib := {
  Url : Type;
  url_parse : string → option Url;
  url_scheme : Url → string;
  url_host_str : Url → option string;
  url_port : Url → option Z;
  url_set_scheme : string → Url → option Url;
  url_set_host : option string → Url → option Url;
  url_set_port : option Z → Url → option Url;
  url_to_string : Url → string }.

Inductive MediaError :=
| UnsupportedContentType
| PresignFailed
| QueueFailed
| MediaDb (e : DbError).
Global Instance MediaError_eq_dec : EqDecision MediaError.
Proof. solve_decision. Defined.

(** ** Upload intents *)

Record UploadIntent := mkUploadIntent {
  ui_upload_id : Uuid; ui_object_key : string; ui_upload_url : string;
  ui_expires_in_seconds : Z; ui_headers : list (string * string) }.

Record UploadStatusView := mkUploadStatusView {
  us_status : UploadStatus; us_processed_media_id : option Uuid }.

Definition extension_from_content_type (content_type : string) : option string :=
  str_case content_type
    [("image/jpeg", Some "jpg"); ("image/png", Some "png"); ("image/webp", Some "webp")] None.

(** [format!("uploads/{}/{}.{}", owner_id, upload_id, ext)]. *)
Definition upload_key (owner_id upload_id : Uuid) (ext : string) : string :=
  "uploads/" +:+ uuid_str owner_id +:+ "/" +:+ uuid_str upload_id +:+ "." +:+ ext.

Definition presigned_key (object_key : string) : string := "presigned:" +:+ object_key.

(** [contains("://")]. *)
Definition has_scheme (s : string) : bool :=
  match String.index 0 "://" s with Some _ => true | None => false end.

(** [INSERT INTO media_uploads (id, owner_id, original_key, content_type, bytes)]. *)
Definition insert_upload (clk : Clock) (upload_id owner_id : Uuid) (object_key content_type : string)
    (bytes : Z) : M Db DbError unit :=
  d ← get_db;
  _ ← guard_else (negb (has_key upload_id (media_uploads d))) (UniqueViolation "media_uploads_pkey");
  _ ← guard_else (user_exists d owner_id) (ForeignKeyViolation "media_uploads_owner_id_fkey");
  modifies (set_media_uploads (<[upload_id :=
    mkUploadRow owner_id object_key content_type bytes Pending (db_now clk) None None]>)).

(** [QueueClient::enqueue_media_job]. *)
Definition enqueue_media_job (job : MediaJob) : M World MediaError unit :=
  w ← get_db;
  _ ← guard_else (w_queue_up w) QueueFailed;
  modifies (λ w, set_w_queue (w_queue w ++ [job]) w).

Definition enqueue_processing (upload_id owner_id : Uuid) (original_key : string) :
    M World MediaError unit :=
  enqueue_media_job (mkMediaJob upload_id owner_id original_key).

(** The [UPDATE media_uploads SET status = 'uploaded' .. RETURNING original_key]. *)
Definition mark_uploaded (clk : Clock) (upload_id owner_id : Uuid) : M Db DbError (option string) :=
  d ← get_db;
  match media_uploads d !! upload_id with
  | Some u =>
      if bool_decide (mu_owner_id u = owner_id)
         && (bool_decide (mu_status u = Pending) || bool_decide (mu_status u = Uploaded))
      then
        _ ← modifies (set_media_uploads (<[upload_id :=
              mkUploadRow (mu_owner_id u) (mu_original_key u) (mu_content_type u) (mu_bytes u) Uploaded
                (mu_created_at u) (Some (default (db_now clk) (mu_uploaded_at u)))
                (mu_processed_media_id u)]>));
        mret (Some (mu_original_key u))
      else mret None
  | None => mret None
  end.

Definition complete_upload (clk : Clock) (upload_id owner_id : Uuid) : M World MediaError bool :=
  row ← map_err MediaDb (on_db (mark_uploaded clk upload_id owner_id));
  match row with
  | None => mret false
  | Some original_key => _ ← enqueue_processing upload_id owner_id original_key; mret true
  end.

Definition get_upload_status (upload_id owner_id : Uuid) : M World MediaError (option UploadStatusView) :=
  reads (λ w,
    match media_uploads (w_db w) !! upload_id with
    | Some u => if bool_decide (mu_owner_id u = owner_id)
                then Some (mkUploadStatusView (mu_status u) (mu_processed_media_id u)) else None
    | None => None
    end).

(** ** Reading *)

Definition row_to_media (id : Uuid) (m : MediaRow) : Media :=
  mkMedia id (m_owner_id m) (m_original_key m) (m_thumb_key m) (m_medium_key m) (m_width m)
    (m_height m) (m_bytes m) (m_created_at m) None None None.

(** The two [EXISTS] of [get_media_for_user]; unlike [get_post] they do not ask
    whether the owner's account was deleted. *)
Definition media_in_visible_post (d : Db) (media_id viewer_id : Uuid) : bool :=
  exists_where (λ k _, bool_decide (k.2 = media_id)
                       && match posts d !! k.1 with
                          | Some p => visible_to d (Some viewer_id) p
                          | None => false
                          end) (post_media d).
Definition media_in_visible_story (now : Time) (d : Db) (media_id viewer_id : Uuid) : bool :=
  exists_where (λ _ s, bool_decide (s_media_id s = media_id) && story_visible now d viewer_id s) (stories d).

Definition media_readable (now : Time) (d : Db) (media_id viewer_id : Uuid) (m : MediaRow) : bool :=
  bool_decide (m_owner_id m = viewer_id)
  || media_in_visible_post d media_id viewer_id
  || media_in_visible_story now d media_id viewer_id.

Section service.
Context `{S3Signer, UrlLib}.
(** [s3_public_endpoint] of the service. *)
Context (s3_public_endpoint : option string).

(** [None] for every error. *)
Definition rewrite_presigned_url (original public_endpoint : string) : option string :=
  original_url ← url_parse original;
  public_url ← (if has_scheme public_endpoint then url_parse public_endpoint
                else url_parse ("http://" +:+ public_endpoint));
  original_url ← url_set_scheme (url_scheme public_url) original_url;
  original_url ← url_set_host (url_host_str public_url) original_url;
  let original_url := default original_url (url_set_port (url_port public_url) original_url) in
  Some (url_to_string original_url).

(** The rewriting step every signed GET URL goes through. *)
Definition publish (url : string) : string :=
  match s3_public_endpoint with
  | Some public_endpoint => default url (rewrite_presigned_url url public_endpoint)
  | None => url
  end.

Definition create_upload (clk : Clock) (upload_id owner_id : Uuid) (content_type : string)
    (bytes expires_in_seconds : Z) : M World MediaError UploadIntent :=
  ext ← ok_or (extension_from_content_type content_type) UnsupportedContentType;
  let object_key := upload_key owner_id upload_id ext in
  _ ← map_err MediaDb (on_db (insert_upload clk upload_id owner_id object_key content_type bytes));
  signed ← ok_or (presign_put (app_now clk) object_key content_type bytes expires_in_seconds) PresignFailed;
  mret (mkUploadIntent upload_id object_key signed.1 expires_in_seconds signed.2).

Definition signed_url (now : Time) (key : string) (expires : Z) : option string :=
  publish <$> presign_get now key expires.

(** The three URLs of a media row, each for an hour. *)
Definition with_urls (now : Time) (id : Uuid) (m : MediaRow) : option Media :=
  original ← signed_url now (m_original_key m) 3600;
  thumb ← signed_url now (m_thumb_key m) 3600;
  medium ← signed_url now (m_medium_key m) 3600;
  Some (mkMedia id (m_owner_id m) (m_original_key m) (m_thumb_key m) (m_medium_key m) (m_width m)
          (m_height m) (m_bytes m) (m_created_at m) (Some thumb) (Some medium) (Some original)).

Definition get_media (clk : Clock) (media_id : Uuid) : M World MediaError (option Media) :=
  w ← get_db;
  match media (w_db w) !! media_id with
  | Some m => x ← ok_or (with_urls (app_now clk) media_id m) PresignFailed; mret (Some x)
  | None => mret None
  end.

Definition get_media_for_user (clk : Clock) (media_id viewer_id : Uuid) : M World MediaError (option Media) :=
  w ← get_db;
  match media (w_db w) !! media_id with
  | Some m =>
      if media_readable (app_now clk) (w_db w) media_id viewer_id m
      then x ← ok_or (with_urls (app_now clk) media_id m) PresignFailed; mret (Some x)
      else mret None
  | None => mret None
  end.

(** ** Deleting *)

(** [DELETE FROM media .. RETURNING ..] under the RESTRICT of posts and stories,
    with the SET NULL of [media_uploads]. *)
Definition delete_media_row (media_id owner_id : Uuid) : M Db DbError (option MediaRow) :=
  d ← get_db;
  match media d !! media_id with
  | Some m =>
      if bool_decide (m_owner_id m = owner_id) then
        _ ← guard_else (negb (exists_where (λ k _, bool_decide (k.2 = media_id)) (post_media d)))
              (ForeignKeyViolation "post_media_media_id_fkey");
        _ ← guard_else (negb (exists_where (λ _ s, bool_decide (s_media_id s = media_id)) (stories d)))
              (ForeignKeyViolation "stories_media_id_fkey");
        _ ← modifies (set_media (delete media_id));
        _ ← modifies (set_media_uploads (update_where
              (λ _ u, bool_decide (mu_processed_media_id u = Some media_id))
              (λ u, mkUploadRow (mu_owner_id u) (mu_original_key u) (mu_content_type u) (mu_bytes u)
                      (mu_status u) (mu_created_at u) (mu_uploaded_at u) None)));
        mret (Some m)
      else mret None
  | None => mret None
  end.

(** [delete_object]: deleting an absent key succeeds. *)
Definition delete_object (key : string) : M World unit unit :=
  w ← get_db;
  _ ← guard_else (w_storage_up w) tt;
  modifies (λ w, set_w_objects (delete key (w_objects w)) w).

Definition delete_media (media_id owner_id : Uuid) : M World MediaError bool :=
  row ← map_err MediaDb (on_db (delete_media_row media_id owner_id));
  match row with
  | None => mret false
  | Some m =>
      _ ← for_each [m_original_key m; m_thumb_key m; m_medium_key m] (λ key,
            _ ← best_effort (delete_object key);
            best_effort (on_redis (redis_del (presigned_key key))));
      mret true
  end.

Definition invalidate_presigned_cache {E} (object_key : string) : M World E unit :=
  best_effort (on_redis (redis_del (presigned_key object_key))).

(** ** Presigned URLs *)

Definition generate_presigned_get_url {E} (now : Time) (object_key : option string)
    (expires_in_seconds : Z) : M World E (option string) :=
  match object_key with
  | None => mret None
  | Some key =>
      cached ← try_ (on_redis (redis_get now (presigned_key key)));
      match cached with
      | Ok (Some (RText url)) => mret (Some url)
      | _ =>
          match signed_url now key expires_in_seconds with
          | None => mret None
          | Some url =>
              let cache_ttl := saturating_sub expires_in_seconds 300 in
              _ ← (if 0 <? cache_ttl
                   then best_effort (on_redis (redis_set_ex now (presigned_key key) (RText url) cache_ttl))
                   else mret tt);
              mret (Some url)
          end
      end
  end.

(** [join_all] over the entries of a list, each future run to its end in turn. *)
Fixpoint join_all {E A B} (f : A → M World E B) (l : list A) : M World E (list B) :=
  match l with
  | [] => mret []
  | x :: l' => y ← f x; ys ← join_all f l'; mret (y :: ys)
  end.

(** The avatar URL of an entry that has a key; the others keep theirs. *)
Definition avatar_url {E} (now : Time) (key old : option string) : M World E (option string) :=
  match key with
  | Some _ => generate_presigned_get_url now key 14400
  | None => mret old
  end.

Definition set_user_avatar_url (u : User) (url : option string) : User :=
  mkUser (user_id u) (user_handle u) (user_email u) (user_display_name u) (user_bio u)
    (user_avatar_key u) url (user_created_at u).

Definition populate_user_avatar_url {E} (now : Time) (user : User) : M World E User :=
  url ← avatar_url now (user_avatar_key user) (user_avatar_url user);
  mret (set_user_avatar_url user url).
Definition populate_users_avatar_urls {E} (now : Time) (users : list User) : M World E (list User) :=
  join_all (populate_user_avatar_url now) users.

Definition set_post_media_and_avatar (p : Post) (m : option Media) (url : option string) : Post :=
  mkPost (post_id p) (post_owner_id p) (post_owner_handle p) (post_owner_display_name p)
    (post_media_ids p) m (post_caption p) (post_created_at p) (post_visibility p)
    (post_owner_avatar_key p) url (post_like_count p) (post_comment_count p) (post_liked_by_viewer p).
Definition set_story_media_and_avatar (s : Story) (m : option Media) (url : option string) : Story :=
  mkStory (story_id s) (story_user_id s) (story_user_handle s) (story_user_display_name s)
    (story_user_avatar_key s) url (story_media_id s) m (story_caption s) (story_created_at s)
    (story_expires_at s) (story_visibility s) (story_view_count s) (story_reaction_count s).

Definition populate_post_avatar_urls {E} (now : Time) : list Post → M World E (list Post) :=
  join_all (λ p, url ← avatar_url now (post_owner_avatar_key p) (post_owner_avatar_url p);
                 mret (set_post_media_and_avatar p (post_primary_media p) url)).

(** [self.get_media(media_id).await.ok().flatten()]. *)
Definition media_or_none {E} (clk : Clock) (media_id : Uuid) : M World E (option Media) :=
  r ← try_ (get_media clk media_id);
  mret (match r with Ok m => m | Err _ => None end).

Definition populate_post_primary_media {E} (clk : Clock) : list Post → M World E (list Post) :=
  join_all (λ p, match post_media_ids p with
                 | [] => mret p
                 | media_id :: _ =>
                     m ← media_or_none clk media_id;
                     mret (set_post_media_and_avatar p m (post_owner_avatar_url p))
                 end).

Definition populate_story_avatar_urls {E} (now : Time) : list Story → M World E (list Story) :=
  join_all (λ s, url ← avatar_url now (story_user_avatar_key s) (story_user_avatar_url s);
                 mret (set_story_media_and_avatar s (story_media s) url)).

Definition populate_story_media {E} (clk : Clock) : list Story → M World E (list Story) :=
  join_all (λ s, m ← media_or_none clk (story_media_id s);
                 mret (set_story_media_and_avatar s m (story_user_avatar_url s))).

Definition populate_story_view_avatar_urls {E} (now : Time) : list StoryView → M World E (list StoryView) :=
  join_all (λ v, url ← avatar_url now (view_viewer_avatar_key v) (view_viewer_avatar_url v);
                 mret (mkStoryView (view_viewer_id v) (view_viewer_handle v) (view_viewer_display_name v)
                         (view_viewer_avatar_key v) url (view_viewed_at v))).

(** ** Freshness of cached URLs *)

(** [url] is an address of [key] signed at [g] for [x] seconds. *)
Definition signed_at (key url : string) (g : Time) (x : Z) : Prop := signed_url g key x = Some url.

(** Every cached URL leaves the cache five minutes before it stops working. *)
Definition presigned_cache_ok (r : Redis) : Prop :=
  ∀ key v e, store r !! presigned_key key = Some (v, e) →
    ∃ url g x, v = RText url ∧ signed_at key url g x ∧ e = Some (g + seconds (x - 300)).

Lemma presigned_key_inj k k' : presigned_key k = presigned_key k' → k = k'.
Proof using Type. unfold presigned_key. intros He. by simplify_eq. Qed.

Lemma presigned_cache_insert r key url g x :
  presigned_cache_ok r → signed_at key url g x →
  presigned_cache_ok (set_store (<[presigned_key key := (RText url, Some (g + seconds (x - 300)))]>) r).
Proof using Type.
  intros Hr Hu k v e. simpl. intros [[Hk%presigned_key_inj [= <- <-]]|[_ Hk]]%lookup_insert_Some.
  - subst k. eauto 6.
  - by apply Hr.
Qed.

Lemma presigned_cache_del r key : presigned_cache_ok r → presigned_cache_ok (set_store (delete key) r).
Proof using Type. intros Hr k v e. simpl. intros [_ Hk]%lookup_delete_Some. by apply Hr. Qed.

(** Everything the service does to the cache: signing, dropping one URL, and
    deleting a media row. *)
Inductive CacheOp :=
| Sign (now : Time) (key : string) (expires : Z)
| Invalidate (key : string)
| DeleteMedia (media_id owner_id : Uuid).

Definition cache_step (op : CacheOp) : M World MediaError unit :=
  match op with
  | Sign now key x => best_effort (generate_presigned_get_url (E := MediaError) now (Some key) x)
  | Invalidate key => invalidate_presigned_cache key
  | DeleteMedia id o => best_effort (delete_media id o)
  end.

Definition cache_inv (w : World) : Prop := presigned_cache_ok (w_redis w).

Lemma preserves_on_db {E A} (m : M Db E A) : preserves cache_inv (on_db m).
Proof using Type. intros w Hw. unfold on_db. by destruct (m (w_db w)). Qed.

Lemma redis_del_inv {E} key : preserves cache_inv (E := E) (best_effort (on_redis (redis_del key))).
Proof using Type.
  intros w Hw. unfold best_effort, on_redis, redis_del, connected. run; try done.
  by apply presigned_cache_del.
Qed.

Lemma sign_inv {E} now key x : preserves (E := E) cache_inv (generate_presigned_get_url now key x).
Proof using Type.
  intros w Hw. unfold generate_presigned_get_url, try_, on_redis, redis_get, redis_set_ex, connected.
  assert (set_w_redis (w_redis w) w = w) as Hid by apply set_w_redis_id.
  run; rewrite ?Hid; try done; unfold saturating_sub in *.
  all: unfold cache_inv; simpl; replace (Z.max 0 (x - 300)) with (x - 300)
    by (match goal with Hlt : (0 <? _) = true |- _ => apply Z.ltb_lt in Hlt end; lia).
  all: by apply presigned_cache_insert.
Qed.

Lemma delete_object_inv key : preserves cache_inv (E := MediaError) (best_effort (delete_object key)).
Proof using Type. intros w Hw. unfold delete_object. by run. Qed.

Lemma cache_step_inv op : preserves cache_inv (cache_step op).
Proof using Type.
  destruct op as [now key x|key|id o]; cbn [cache_step].
  - apply preserves_best_effort, sign_inv.
  - apply redis_del_inv.
  - apply preserves_best_effort, preserves_bind; [apply preserves_map_err, preserves_on_db|].
    intros [m|]; [|apply preserves_ret]. apply preserves_bind; [|intros; apply preserves_ret].
    apply preserves_for_each. intros k. apply preserves_bind; [apply delete_object_inv|].
    intros _. apply redis_del_inv.
Qed.

(** What is handed out for a key is an address of that key that works. *)
Lemma presigned_now {E} now key x w url :
  cache_inv w → fst (generate_presigned_get_url (E := E) now (Some key) x w) = Ok (Some url) →
  ∃ g y, signed_at key url g y ∧ (g = now ∧ y = x ∨ now + seconds 300 < g + seconds y).
Proof using Type.
  intros Hw. unfold generate_presigned_get_url, try_, on_redis, redis_get, connected, redis_set_ex. run.
  all: intros Hurl; try discriminate Hurl; injection Hurl as Hurl; subst.
  all: try (by eexists _, _; split; [eassumption|left]).
  destruct (live (store (w_redis w)) now (presigned_key key)) as [[v e]|] eqn:Hl; [|done].
  unfold live in Hl. destruct (store (w_redis w) !! presigned_key key) as [[v' e']|] eqn:Hs; [|done].
  destruct (Hw _ _ _ Hs) as (u & g & y & -> & Hsig & ->). case_decide; simplify_eq/=.
  exists g, y. split; [done|]. right. unfold seconds in *. lia.
Qed.
(** With a signer that works, every key gets one. *)
Lemma presigned_total {E} now key x w :
  is_Some (signed_url now key x) → ∃ url, fst (generate_presigned_get_url (E := E) now (Some key) x w) = Ok (Some url).
Proof using Type.
  intros [u Hu]. unfold generate_presigned_get_url, try_, on_redis, redis_get, connected, redis_set_ex. rewrite Hu. run; eauto.
Qed.

(** C13: a presigned URL is never handed out stale: after any sequence of signings
    (with whatever lifetimes), invalidations and deletions, a URL returned for a
    key is a signed address of that very key, and it was either signed now for
    the requested time or comes from the cache and still works for more than five
    minutes. *)
Theorem presigned_url_fresh ops now key x w url :
  cache_inv w →
  fst (generate_presigned_get_url (E := MediaError) now (Some key) x (snd (for_each ops cache_step w))) = Ok (Some url) →
  ∃ g y, signed_at key url g y ∧ (g = now ∧ y = x ∨ now + seconds 300 < g + seconds y).
Proof using Type. intros Hw. apply presigned_now. revert Hw. apply preserves_for_each, cache_step_inv. Qed.
End service.

(** ** Who may read an image *)

Section access.
Context `{S3Signer, UrlLib} (s3_public_endpoint : option string).

Lemma with_urls_total now id m :
  (∀ key, is_Some (presign_get now key 3600)) → is_Some (with_urls s3_public_endpoint now id m).
Proof using Type.
  intros Hp. unfold with_urls, signed_url.
  destruct (Hp (m_original_key m)) as [? ->], (Hp (m_thumb_key m)) as [? ->], (Hp (m_medium_key m)) as [? ->].
  by eexists.
Qed.

(** A post with the image that the viewer can open, or could if its owner's
    account were not deleted. *)
Definition shown_by_post (d : Db) (media_id viewer_id : Uuid) : Prop :=
  ∃ pid pos p, post_media d !! (pid, media_id) = Some pos ∧ posts d !! pid = Some p ∧
    ((∃ y, get_post pid (Some viewer_id) d = (Ok (Some y), d)) ∨
     active_user d (p_owner_id p) = None ∧ visible_to d (Some viewer_id) p = true).
Definition shown_by_story (clk : Clock) (d : Db) (media_id viewer_id : Uuid) : Prop :=
  ∃ sid s, stories d !! sid = Some s ∧ s_media_id s = media_id ∧
    ((∃ y, get_story clk sid viewer_id d = (Ok (Some y), d)) ∨
     active_user d (s_user_id s) = None ∧ story_visible (app_now clk) d viewer_id s = true).

Lemma media_in_visible_post_true d id v :
  media_in_visible_post d id v = true ↔ shown_by_post d id v.
Proof using Type.
  unfold media_in_visible_post, shown_by_post, get_post, reads. rewrite exists_where_true. split.
  - intros ([pid mid] & pos & Hk & [Hid Hv]%andb_true_iff). apply bool_decide_eq_true in Hid.
    cbn [fst snd] in Hid, Hv. subst mid.
    destruct (posts d !! pid) as [p|] eqn:Hp; [|done]. exists pid, pos, p. split_and!; [done|done|].
    destruct (active_user d (p_owner_id p)) as [o|] eqn:Ho; [left|by right].
    rewrite Hp. cbn [mbind option_bind]. rewrite Ho. cbn [mbind option_bind]. rewrite Hv. eauto.
  - intros (pid & pos & p & Hk & Hp & Hv). exists (pid, id), pos. split; [done|]. cbn [fst snd].
    rewrite bool_decide_true, Hp by done. rewrite Hp in Hv. cbn [mbind option_bind andb] in *.
    destruct Hv as [(y & Hy)|[_ Hv]]; [|done].
    destruct (active_user d (p_owner_id p)) as [o|]; cbn [mbind option_bind] in Hy; [|done].
    by destruct (visible_to d (Some v) p).
Qed.

Lemma media_in_visible_story_true clk d id v :
  media_in_visible_story (app_now clk) d id v = true ↔ shown_by_story clk d id v.
Proof using Type.
  unfold media_in_visible_story, shown_by_story, get_story, reads. rewrite exists_where_true. split.
  - intros (sid & s & Hk & [Hid Hv]%andb_true_iff). apply bool_decide_eq_true in Hid.
    exists sid, s. split_and!; [done|done|].
    destruct (active_user d (s_user_id s)) as [o|] eqn:Ho; [left|by right].
    rewrite Hk. cbn [mbind option_bind]. rewrite Hv, Ho. simpl. eauto.
  - intros (sid & s & Hk & Hid & Hv). exists sid, s. split; [done|].
    rewrite bool_decide_true by done. rewrite Hk in Hv. cbn [mbind option_bind andb] in *.
    destruct Hv as [(y & Hy)|[_ Hv]]; [|done]. by destruct (story_visible (app_now clk) d v s).
Qed.

(** C30: who can fetch an image: its owner, and whoever can open a post or an
    unexpired story that shows it, as decided by [get_post] and [get_story]; the
    one difference is that the image query does not ask whether the publishing
    account was deleted, so the images of a deleted account's posts stay
    readable. *)
Theorem media_access_exact clk id v w :
  (∀ key, is_Some (presign_get (app_now clk) key 3600)) →
  (∃ m, fst (get_media_for_user s3_public_endpoint clk id v w) = Ok (Some m)) ↔
  ∃ row, media (w_db w) !! id = Some row ∧
    (m_owner_id row = v ∨ shown_by_post (w_db w) id v ∨ shown_by_story clk (w_db w) id v).
Proof using Type.
  intros Hp. setoid_rewrite <-media_in_visible_post_true. setoid_rewrite <-media_in_visible_story_true.
  unfold get_media_for_user. unfold_m. destruct (media (w_db w) !! id) as [row|]; [|naive_solver].
  destruct (with_urls_total (app_now clk) id row Hp) as [m Hm]. rewrite Hm.
  transitivity (media_readable (app_now clk) (w_db w) id v row = true).
  - destruct (media_readable _ _ _ _ _); simpl; naive_solver.
  - unfold media_readable. rewrite !orb_true_iff, bool_decide_eq_true. naive_solver.
Qed.
End access.

(** ** Deleting an image *)

(** One round of the loop of [delete_media]. *)
Definition drop_key (key : string) : M World MediaError unit :=
  _ ← best_effort (delete_object key);
  best_effort (on_redis (redis_del (presigned_key key))).

(** The world after the loop over [ks]: the objects and the cached URLs of these
    keys are gone, as far as S3 and Redis answered. *)
Definition dropped (ks : list string) (w w' : World) : Prop :=
  w_db w' = w_db w ∧ w_queue w' = w_queue w ∧
  (∀ k, w_objects w' !! k = if w_storage_up w && bool_decide (k ∈ ks) then None else w_objects w !! k) ∧
  (∀ k, store (w_redis w') !! k =
        if redis_up (w_redis w) && bool_decide (k ∈ presigned_key <$> ks) then None
        else store (w_redis w) !! k).

Lemma drop_key_run key w :
  drop_key key w =
  (Ok tt, mkWorld (w_db w) (mkRedis (redis_up (w_redis w))
            (if redis_up (w_redis w) then delete (presigned_key key) (store (w_redis w)) else store (w_redis w)))
          (w_queue w) (w_queue_up w)
          (if w_storage_up w then delete key (w_objects w) else w_objects w) (w_storage_up w)).
Proof.
  destruct w as [d [up st] q qu objs su]. unfold drop_key, delete_object, on_redis, redis_del, connected.
  unfold_m. by destruct su, up.
Qed.

Lemma lookup_delete_if {V} (b : bool) (key : string) (ks : list string) (m m' : gmap string V) k :
  m' !! k = (if b && bool_decide (k ∈ ks) then None else (if b then delete key m else m) !! k) →
  m' !! k = if b && bool_decide (k ∈ key :: ks) then None else m !! k.
Proof.
  intros ->. destruct b; [|done]. simpl. destruct (decide (k = key)) as [->|Hne].
  - rewrite lookup_delete_eq, (bool_decide_true (key ∈ key :: ks)) by (by left). by case_match.
  - rewrite lookup_delete_ne by done. erewrite (bool_decide_ext (k ∈ key :: ks)); [done|]. set_solver.
Qed.

Lemma drop_keys_run ks w : ∃ w', for_each ks drop_key w = (Ok tt, w') ∧ dropped ks w w'.
Proof.
  revert w. induction ks as [|k ks IH]; intros w.
  { exists w. split; [done|]. split_and!; try done; intros k; by rewrite andb_comm. }
  cbn [for_each]. unfold mbind, M_bind. rewrite drop_key_run.
  edestruct IH as (w' & -> & Hdb & Hq & Ho & Hr). exists w'. split; [done|]. simpl in *.
  split_and!; [done|done|..]; intros k'; by apply lookup_delete_if.
Qed.

(** Deleting an image is safe. It succeeds only for its owner and only when no
    post or story shows it; then the row, the upload's reference to it, the stored
    objects and the cached URLs of its three keys are gone and nothing else in the
    bucket, the cache or the tables of posts and stories changes. An image still in
    use is refused with a foreign-key error, and a refused or unmatched request
    changes nothing at all. *)
Theorem delete_media_safe id o w :
  let '(res, w') := delete_media id o w in
  match res with
  | Ok true => ∃ m wd,
      media (w_db w) !! id = Some m ∧ m_owner_id m = o ∧ media_referenced (w_db w) id = false ∧
      dropped [m_original_key m; m_thumb_key m; m_medium_key m] wd w' ∧
      wd = set_w_db (set_media_uploads (λ _, media_uploads (w_db w'))
                       (set_media (delete id) (w_db w))) w ∧
      (∀ k u, media_uploads (w_db w') !! k = Some u → mu_processed_media_id u ≠ Some id)
  | Ok false => w' = w ∧ (m_owner_id <$> media (w_db w) !! id) ≠ Some o
  | Err e => w' = w ∧ (∃ c, e = MediaDb (ForeignKeyViolation c)) ∧
      (m_owner_id <$> media (w_db w) !! id) = Some o ∧ media_referenced (w_db w) id = true
  end.
Proof.
  unfold delete_media, delete_media_row, on_db. unfold_m. run_step.
  destruct (media (w_db w) !! id) as [m|] eqn:Hm; [|by rewrite set_w_db_id].
  case_bool_decide as Ho; [|rewrite set_w_db_id; split; [done|simpl; congruence]].
  unfold media_referenced.
  destruct (exists_where (λ k _, bool_decide (k.2 = id)) (post_media (w_db w))) eqn:Hpost; cbn [negb orb]; run_step.
  { rewrite set_w_db_id. split_and!; [done|eauto|by rewrite <-Ho|done]. }
  destruct (exists_where (λ _ s, bool_decide (s_media_id s = id)) (stories (w_db w))) eqn:Hstory;
    cbn [negb]; run_step.
  { rewrite set_w_db_id. split_and!; [done|eauto|by rewrite <-Ho|done]. }
  match goal with |- context [for_each _ _ ?x] => set (wd := x) end.
  destruct (drop_keys_run [m_original_key m; m_thumb_key m; m_medium_key m] wd) as (w' & Hrun & Hd).
  pose proof (f_equal media_uploads (proj1 Hd)) as Hup.
  change (for_each _ _ wd) with (for_each [m_original_key m; m_thumb_key m; m_medium_key m] drop_key wd).
  rewrite Hrun. exists m, wd. split_and!; try done.
  - subst wd. unfold set_w_db, set_media_uploads in *. simpl in *. by rewrite Hup.
  - intros k u. rewrite Hup. simpl. rewrite lookup_update_where.
    destruct (media_uploads (w_db w) !! k) as [u0|]; simpl; [|done].
    intros [= <-]. by case_bool_decide.
Qed.

(** ** A concrete signer *)

(** URLs that name the key and the instant they stop working; addresses are
    split at nothing, so rewriting keeps them. *)
Module ToyS3.
Definition toy_presign (now : Time) (key : string) (x : Z) : option string :=
  if (0 <? x) && (x <=? 604800)
  then Some ("s3/" +:+ key +:+ "?until=" +:+ pretty (now + seconds x)) else None.
Definition toy_signer : S3Signer := {|
  presign_get := toy_presign;
  presign_put := λ now key _ _ x, (λ u, (u, [])) <$> toy_presign now key x |}.
Definition toy_url : UrlLib := {|
  Url := string; url_parse := Some; url_scheme := λ _, "http"; url_host_str := λ u, Some u;
  url_port := λ _, None; url_set_scheme := λ _ u, Some u; url_set_host := λ _ u, Some u;
  url_set_port := λ _ u, Some u; url_to_string := λ u, u |}.
End ToyS3.

Definition image_row : MediaRow := mkMediaRow 1%N "o" "t" "m" 10 10 99 0.
(** An image of user 1 in a public post; user 2 is a stranger. *)
Definition image_db : Db :=
  set_post_media (λ _, {[ (7%N, 30%N) := 0 ]})
  (set_posts (λ _, {[ 7%N := mkPostRow 1%N None Public 3 ]})
  (set_media (λ _, {[ 30%N := image_row ]})
  (set_users (λ _, {[ 1%N := mkUserRow "ann" "a@x" "Ann" None None 0 "h" None ]}) empty_db))).
Definition image_world : World :=
  mkWorld image_db (mkRedis true ∅) [] true {[ "o" := mkObject "image/png" "data" ]} true.

Lemma presigned_url_fresh_witness :
  let ops := [Sign 0 "av.png" 14400; Invalidate "other"] in
  let gen := @generate_presigned_get_url ToyS3.toy_signer ToyS3.toy_url None MediaError in
  let w := snd (for_each ops (@cache_step ToyS3.toy_signer ToyS3.toy_url None) image_world) in
  ∃ url g y, fst (gen (seconds 100) (Some "av.png") 60 w) = Ok (Some url) ∧
    @signed_at ToyS3.toy_signer ToyS3.toy_url None "av.png" url g y ∧
    (g = seconds 100 ∧ y = 60 ∨ seconds 100 + seconds 300 < g + seconds y).
Proof.
  intros ops gen w. exists "s3/av.png?until=14400000000".
  assert (fst (gen (seconds 100) (Some "av.png") 60 w) = Ok (Some "s3/av.png?until=14400000000")) as H
    by (vm_compute; reflexivity).
  destruct (@presigned_url_fresh ToyS3.toy_signer ToyS3.toy_url None ops (seconds 100) "av.png" 60
    image_world "s3/av.png?until=14400000000") as (g & y & Hs & Hv); [|exact H|].
  - intros k v e Hk. vm_compute in Hk. discriminate.
  - exists g, y. split; [exact H|]. split; [exact Hs|exact Hv].
Defined.

(** The public post makes the image readable to the stranger. *)
Lemma media_access_exact_witness :
  ∃ m, fst (@get_media_for_user ToyS3.toy_signer ToyS3.toy_url None (mkClock 5 5) 30%N 2%N image_world)
       = Ok (Some m).
Proof.
  apply (@media_access_exact ToyS3.toy_signer ToyS3.toy_url None (mkClock 5 5) 30%N 2%N image_world).
  - intros key. eexists. reflexivity.
  - exists image_row. split; [reflexivity|]. right. left.
    exists 7%N, 0, (mkPostRow 1%N None Public 3). split; [reflexivity|]. split; [reflexivity|].
    left. eexists. vm_compute. reflexivity.
Defined.
