(* ===== verification/MediaWorker.v ===== *)
(** * Media worker

    [src/jobs/media_processor.rs]: the job that turns an upload into a media row
    with its two variants, the queue loop around it and the HTTP variant for the
    serverless container; then the uploads under any interleaving of several
    workers, redeliveries, crashes and client requests. The [image] crate is the
    interface [ImageLib]. *)

From S2P Require Import Prelude Text Sql Domain Schema World Media.
From stdpp Require Import options.

#[local] Open Scope Z_scope.

Definition THUMB_MAX_PX : Z := 200.
Definition MEDIUM_MAX_PX : Z := 800.
Definition MAX_IMAGE_DIMENSION_PX : Z := 12000.

Inductive ImageFormat := Jpeg | Png | WebP.

(** Decoding under a limit on width and height, the dimensions, the thumbnail
    within a box, and encoding, of the [image] crate. *)
Class ImageLib := {
  Image : Type;
  img_decode : Z → string → option Image;
  img_dimensions : Image → Z * Z;
  img_thumbnail : Z → Image → Image;
  img_encode : ImageFormat → Image → option string }.

(** Documented behaviour: the limits are enforced, and a thumbnail fits its box. *)
Class ImageLaws `{ImageLib} : Prop := {
  decode_limits l data i : img_decode l data = Some i →
    0 ≤ (img_dimensions i).1 ≤ l ∧ 0 ≤ (img_dimensions i).2 ≤ l;
  thumbnail_fits m i : 0 < m →
    (img_dimensions (img_thumbnail m i)).1 ≤ m ∧ (img_dimensions (img_thumbnail m i)).2 ≤ m }.

Inductive WorkerError :=
| DecodeFailed            (* "failed to decode image: .." *)
| UnsupportedType         (* "unsupported content type" *)
| EncodeFailed            (* "failed to encode resized image: .." *)
| StorageFailed           (* an error of the S3 client *)
| WorkerDb (e : DbError).

(** The two messages [is_permanent_error] looks for. *)
Definition is_permanent_error (err : WorkerError) : bool :=
  match err with DecodeFailed | UnsupportedType => true | _ => false end.

Inductive ProcessingOutcome := JobCompleted | RetryLater.

Definition image_format_from_content_type (content_type : string) : option ImageFormat :=
  str_case content_type
    [("image/jpeg", Some Jpeg); ("image/png", Some Png); ("image/webp", Some WebP)] None.

(** [format!("media/{}/{}/thumb.{}", ..)] and [medium]. *)
Definition variant_key (owner_id upload_id : Uuid) (name ext : string) : string :=
  "media/" +:+ uuid_str owner_id +:+ "/" +:+ uuid_str upload_id +:+ "/" +:+ name +:+ "." +:+ ext.

Definition set_status (st : UploadStatus) (u : UploadRow) : UploadRow :=
  mkUploadRow (mu_owner_id u) (mu_original_key u) (mu_content_type u) (mu_bytes u) st
    (mu_created_at u) (mu_uploaded_at u) (mu_processed_media_id u).

(** ** The job, one definition per await point *)

(** What the claim returned: key, content type and size of the original. *)
Record Claim := mkClaim { cl_original_key : string; cl_content_type : string; cl_bytes : Z }.

(** [UPDATE media_uploads SET status = 'processing' .. RETURNING ..]. *)
Definition claim (job : MediaJob) : M Db DbError (option Claim) :=
  d ← get_db;
  match media_uploads d !! job_upload_id job with
  | Some u =>
      if bool_decide (mu_owner_id u = job_owner_id job)
         && (bool_decide (mu_status u = Uploaded) || bool_decide (mu_status u = Processing))
      then _ ← modifies (set_media_uploads (<[job_upload_id job := set_status Processing u]>));
           mret (Some (mkClaim (mu_original_key u) (mu_content_type u) (mu_bytes u)))
      else mret None
  | None => mret None
  end.

Definition get_object (key : string) : M World WorkerError string :=
  w ← get_db;
  _ ← guard_else (w_storage_up w) StorageFailed;
  o ← ok_or (w_objects w !! key) StorageFailed;
  mret (obj_data o).

Definition upload_variant (key content_type data : string) : M World WorkerError unit :=
  w ← get_db;
  _ ← guard_else (w_storage_up w) StorageFailed;
  modifies (λ w, set_w_objects (<[key := mkObject content_type data]> (w_objects w)) w).

Definition mark_failed (job : MediaJob) : M Db DbError unit :=
  modifies (set_media_uploads (update_where
    (λ k u, bool_decide (k = job_upload_id job) && bool_decide (mu_owner_id u = job_owner_id job)
            && bool_decide (mu_status u = Processing))
    (set_status Failed))).

(** The final transaction. *)
Definition finish (clk : Clock) (media_id : Uuid) (job : MediaJob) (c : Claim)
    (thumb_key medium_key : string) (width height : Z) : M Db DbError unit :=
  transaction (
    d ← get_db;
    _ ← guard_else (negb (has_key media_id (media d))) (UniqueViolation "media_pkey");
    _ ← guard_else (user_exists d (job_owner_id job)) (ForeignKeyViolation "media_owner_id_fkey");
    _ ← modifies (set_media (<[media_id := mkMediaRow (job_owner_id job) (cl_original_key c) thumb_key
                                 medium_key (cast_i32 width) (cast_i32 height) (cl_bytes c) (db_now clk)]>));
    _ ← modifies (set_media_uploads (update_where
          (λ k u, bool_decide (k = job_upload_id job) && bool_decide (mu_owner_id u = job_owner_id job))
          (λ u, mkUploadRow (mu_owner_id u) (mu_original_key u) (mu_content_type u) (mu_bytes u) Completed
                  (mu_created_at u) (mu_uploaded_at u) (Some media_id))));
    mret (Commit tt)).

Section worker.
Context `{ImageLib}.

Definition decode_image (data : string) : option Image := img_decode MAX_IMAGE_DIMENSION_PX data.

Definition resize_and_encode (img : Image) (max_px : Z) (format : ImageFormat) : option string :=
  let '(w, h) := img_dimensions img in
  let resized := if (max_px <? w) || (max_px <? h) then img_thumbnail max_px img else img in
  img_encode format resized.

(** The decoded size and the two encoded variants. *)
Record Rendering := mkRendering { rd_width : Z; rd_height : Z; rd_thumb : string; rd_medium : string }.

(** The body of [spawn_blocking]. *)
Definition render (format : ImageFormat) (data : string) : Result WorkerError Rendering :=
  match decode_image data with
  | None => Err DecodeFailed
  | Some image =>
      let '(width, height) := img_dimensions image in
      match resize_and_encode image THUMB_MAX_PX format, resize_and_encode image MEDIUM_MAX_PX format with
      | Some thumb, Some medium => Ok (mkRendering width height thumb medium)
      | _, _ => Err EncodeFailed
      end
  end.

(** Download, check the declared type, decode and resize. *)
Definition fetch_and_render (c : Claim) : M World WorkerError Rendering :=
  data ← get_object (cl_original_key c);
  format ← ok_or (image_format_from_content_type (cl_content_type c)) UnsupportedType;
  from_result (render format data).

Definition variant_keys (job : MediaJob) (c : Claim) : option (string * string) :=
  (λ ext, (variant_key (job_owner_id job) (job_upload_id job) "thumb" ext,
           variant_key (job_owner_id job) (job_upload_id job) "medium" ext))
  <$> extension_from_content_type (cl_content_type c).

Definition process_job (clk : Clock) (media_id : Uuid) (job : MediaJob) :
    M World WorkerError ProcessingOutcome :=
  row ← map_err WorkerDb (on_db (claim job));
  match row with
  | None => mret JobCompleted
  | Some c =>
      r ← fetch_and_render c;
      keys ← ok_or (variant_keys job c) UnsupportedType;
      _ ← upload_variant keys.1 (cl_content_type c) (rd_thumb r);
      _ ← upload_variant keys.2 (cl_content_type c) (rd_medium r);
      _ ← map_err WorkerDb (on_db (finish clk media_id job c keys.1 keys.2 (rd_width r) (rd_height r)));
      mret JobCompleted
  end.

(** ** Delivery *)

(** [delete_message]: one copy of the message leaves the queue. *)
Fixpoint remove_message (job : MediaJob) (q : list MediaJob) : list MediaJob :=
  match q with
  | [] => []
  | j :: q' => if bool_decide (j = job) then q' else j :: remove_message job q'
  end.
Definition delete_message (job : MediaJob) : M World WorkerError unit :=
  modifies (λ w, if w_queue_up w then set_w_queue (remove_message job (w_queue w)) w else w).

(** One turn of [run] on a received message. *)
Definition handle_message (clk : Clock) (media_id : Uuid) (job : MediaJob) : M World WorkerError unit :=
  r ← try_ (process_job clk media_id job);
  outcome ← match r with
            | Ok outcome => mret outcome
            | Err err =>
                if is_permanent_error err
                then _ ← best_effort (on_db (mark_failed job)); mret JobCompleted
                else mret RetryLater
            end;
  match outcome with
  | JobCompleted => delete_message job
  | RetryLater => mret tt
  end.

(** [handle_media_job]: the status code tells the trigger whether to redeliver. *)
Definition handle_media_job (clk : Clock) (media_id : Uuid) (job : MediaJob) : M World WorkerError Z :=
  r ← try_ (process_job clk media_id job);
  match r with
  | Ok JobCompleted => mret 200
  | Ok RetryLater => mret 500
  | Err err =>
      if is_permanent_error err
      then _ ← best_effort (on_db (mark_failed job)); mret 200
      else mret 500
  end.
End worker.

(** ** One job from start to end *)

Section sequential.
Context `{ImageLaws}.

Lemma render_dimensions format data r :
  render format data = Ok r →
  0 ≤ rd_width r ≤ MAX_IMAGE_DIMENSION_PX ∧ 0 ≤ rd_height r ≤ MAX_IMAGE_DIMENSION_PX.
Proof using All.
  unfold render, decode_image. destruct (img_decode _ data) as [i|] eqn:Hi; [|done].
  destruct (img_dimensions i) as [x y] eqn:Hd. apply decode_limits in Hi. rewrite Hd in Hi.
  repeat case_match; intros [= <-]. exact Hi.
Qed.

(** The upload is ready for its job and the world around it works. *)
Record job_ready (w : World) (media_id : Uuid) (job : MediaJob) (u : UploadRow) (r : Rendering)
    (thumb_key medium_key : string) : Prop := {
  jr_row : media_uploads (w_db w) !! job_upload_id job = Some u;
  jr_owner : mu_owner_id u = job_owner_id job;
  jr_status : mu_status u = Uploaded ∨ mu_status u = Processing;
  jr_user : user_exists (w_db w) (job_owner_id job) = true;
  jr_fresh : media (w_db w) !! media_id = None;
  jr_storage : w_storage_up w = true;
  jr_object : ∃ o fmt, w_objects w !! mu_original_key u = Some o ∧
    image_format_from_content_type (mu_content_type u) = Some fmt ∧ render fmt (obj_data o) = Ok r;
  jr_keys : variant_keys job (mkClaim (mu_original_key u) (mu_content_type u) (mu_bytes u))
            = Some (thumb_key, medium_key) }.

(** The world after the job. *)
Definition completed_world (clk : Clock) (media_id : Uuid) (job : MediaJob) (u : UploadRow)
    (r : Rendering) (thumb_key medium_key : string) (w : World) : World :=
  mkWorld
    (set_media_uploads (update_where
       (λ k u', bool_decide (k = job_upload_id job) && bool_decide (mu_owner_id u' = job_owner_id job))
       (λ u', mkUploadRow (mu_owner_id u') (mu_original_key u') (mu_content_type u') (mu_bytes u')
                Completed (mu_created_at u') (mu_uploaded_at u') (Some media_id)))
      (set_media (<[media_id := mkMediaRow (job_owner_id job) (mu_original_key u) thumb_key medium_key
                                  (rd_width r) (rd_height r) (mu_bytes u) (db_now clk)]>)
        (set_media_uploads (<[job_upload_id job := set_status Processing u]>) (w_db w))))
    (w_redis w) (w_queue w) (w_queue_up w)
    (<[medium_key := mkObject (mu_content_type u) (rd_medium r)]>
      (<[thumb_key := mkObject (mu_content_type u) (rd_thumb r)]> (w_objects w)))
    (w_storage_up w).

Lemma process_job_ready clk media_id job u r tk mk w :
  job_ready w media_id job u r tk mk →
  process_job clk media_id job w = (Ok JobCompleted, completed_world clk media_id job u r tk mk w).
Proof using All.
  intros [Hrow Ho Hst Hu Hfresh Hup (o & fmt & Hobj & Hfmt & Hr) Hkeys].
  destruct (render_dimensions _ _ _ Hr) as [Hx Hy]. unfold MAX_IMAGE_DIMENSION_PX in *.
  assert (cast_i32 (rd_width r) = rd_width r) as Hw by (apply cast_i32_small; unfold i32_max; lia).
  assert (cast_i32 (rd_height r) = rd_height r) as Hh by (apply cast_i32_small; unfold i32_max; lia).
  assert (Hguard : bool_decide (mu_status u = Uploaded) || bool_decide (mu_status u = Processing) = true)
    by (destruct Hst as [-> | ->]; done).
  destruct w as [d rds q qu objs su]; simpl in *; subst su.
  unfold process_job, on_db, claim, fetch_and_render, get_object, upload_variant, finish. unfold_m. run_step. cbn [w_db].
  rewrite Hrow, Hguard, (bool_decide_true (mu_owner_id u = _)) by done. simpl.
  rewrite Hobj, Hfmt, Hr. simpl. rewrite Hkeys. simpl. unfold has_key. rewrite Hfresh. simpl.
  unfold user_exists in *. simpl. rewrite Hu. simpl. unfold completed_world. simpl. by rewrite Hw, Hh.
Qed.

Lemma delete_message_keeps job w :
  w_db (snd (delete_message job w)) = w_db w ∧ w_objects (snd (delete_message job w)) = w_objects w.
Proof using Type. unfold delete_message, modifies. simpl. by destruct (w_queue_up w). Qed.

(** The redelivery of a finished job only consumes its message. *)
Lemma handle_message_done clk media_id job u w :
  media_uploads (w_db w) !! job_upload_id job = Some u →
  mu_status u = Completed ∨ mu_status u = Failed →
  handle_message clk media_id job w = delete_message job w.
Proof using Type.
  intros Hrow Hst. unfold handle_message, process_job, try_, on_db, claim. unfold_m. run_step.
  rewrite Hrow. destruct Hst as [-> | ->]; rewrite andb_false_r; simpl; by destruct w.
Qed.

(** Processing an upload works, once: when the original can be read and
    rendered, the worker stores both variants under keys determined by owner and
    upload, inserts one media row of the owner with the original's size (at most
    12000 pixels a side), marks the upload completed with that row, and consumes
    the message; whenever the message is delivered again, the database and the
    bucket do not change any more. *)
Theorem media_job_completes_once clk media_id job u r tk mk w clk' media_id' :
  job_ready w media_id job u r tk mk →
  let w' := snd (handle_message clk media_id job w) in
  media (w_db w') = <[media_id := mkMediaRow (job_owner_id job) (mu_original_key u) tk mk
                        (rd_width r) (rd_height r) (mu_bytes u) (db_now clk)]> (media (w_db w)) ∧
  0 ≤ rd_width r ≤ 12000 ∧ 0 ≤ rd_height r ≤ 12000 ∧
  (∃ u', media_uploads (w_db w') !! job_upload_id job = Some u' ∧ mu_status u' = Completed ∧
         mu_processed_media_id u' = Some media_id) ∧
  w_objects w' !! mk = Some (mkObject (mu_content_type u) (rd_medium r)) ∧
  (tk ≠ mk → w_objects w' !! tk = Some (mkObject (mu_content_type u) (rd_thumb r))) ∧
  (w_queue_up w = true → w_queue w' = remove_message job (w_queue w)) ∧
  let w'' := snd (handle_message clk' media_id' job w') in
  w_db w'' = w_db w' ∧ w_objects w'' = w_objects w'.
Proof using All.
  intros Hr w'. pose proof (process_job_ready clk _ _ _ _ _ _ _ Hr) as Hp.
  assert (Hw' : w' = snd (delete_message job (completed_world clk media_id job u r tk mk w))).
  { unfold w', handle_message, try_. unfold_m. by rewrite Hp. }
  destruct Hr as [Hrow Ho Hst Hu Hfresh Hup (o & fmt & Hobj & Hfmt & Hr) Hkeys].
  pose proof (render_dimensions _ _ _ Hr) as [Hx Hy].
  assert (Hdb : w_db w' = w_db (completed_world clk media_id job u r tk mk w) ∧
                w_objects w' = w_objects (completed_world clk media_id job u r tk mk w)).
  { rewrite Hw'. apply delete_message_keeps. }
  destruct Hdb as [Hdb Hob].
  assert (Hu' : ∃ u', media_uploads (w_db w') !! job_upload_id job = Some u' ∧
                      mu_status u' = Completed ∧ mu_processed_media_id u' = Some media_id).
  { rewrite Hdb. simpl. rewrite lookup_update_where, lookup_insert_eq. simpl.
    rewrite !bool_decide_true by done. by eexists. }
  split; [by rewrite Hdb|]. split; [exact Hx|]. split; [exact Hy|]. split; [exact Hu'|].
  split; [rewrite Hob; apply lookup_insert_eq|].
  split; [intros Hne; rewrite Hob; simpl; by rewrite lookup_insert_ne, lookup_insert_eq|].
  split; [intros Hq; rewrite Hw'; unfold delete_message, modifies; simpl; by rewrite Hq|].
  destruct Hu' as (u' & Hu' & Hc & _). rewrite (handle_message_done _ _ _ u') by auto.
  apply delete_message_keeps.
Qed.
End sequential.

(** ** Several workers *)

(** How far a worker is with its job: after the claim, after rendering, after the
    first and after both uploads. *)
Inductive Phase :=
| Claimed
| Rendered (r : Rendering)
| ThumbStored (r : Rendering)
| BothStored (r : Rendering).

Record Busy := mkBusy { b_job : MediaJob; b_claim : Claim; b_phase : Phase }.

(** The shared stores and the workers with a job at hand. *)
Record Sys := mkSys { sys_world : World; sys_workers : gmap nat Busy }.

(** Everything that can happen next: client requests, the cleanup job, a step of
    one worker (each between two await points of [process_job]), or its crash.
    SQS may deliver any message of the queue to any idle worker at any time,
    which covers redelivery. *)
Inductive Event :=
| CreateUpload (clk : Clock) (upload_id owner_id : Uuid) (object_key content_type : string) (bytes : Z)
| CompleteUpload (clk : Clock) (upload_id owner_id : Uuid)
| Requeue (job : MediaJob)
| DeleteMediaRow (media_id owner_id : Uuid)
| Receive (i : nat) (job : MediaJob)
| Render (i : nat)
| StoreThumb (i : nat)
| StoreMedium (i : nat)
| Finish (i : nat) (clk : Clock) (media_id : Uuid)
| Crash (i : nat).

Section system.
Context `{ImageLib}.

Definition set_world (w : World) (s : Sys) : Sys := mkSys w (sys_workers s).
Definition busy (i : nat) (b : Busy) (w : World) (s : Sys) : Sys := mkSys w (<[i := b]> (sys_workers s)).
Definition idle (i : nat) (w : World) (s : Sys) : Sys := mkSys w (delete i (sys_workers s)).

(** The error arm of [run]: a permanent error fails the upload and consumes the
    message, any other leaves both for the next delivery. *)
Definition give_back (i : nat) (job : MediaJob) (err : WorkerError) (w : World) (s : Sys) : Sys :=
  if is_permanent_error err
  then idle i (snd (delete_message job (snd (best_effort (E' := WorkerError) (on_db (mark_failed job)) w)))) s
  else idle i w s.

Definition run_world {E A} (m : M World E A) (s : Sys) : option Sys :=
  Some (set_world (snd (m (sys_world s))) s).

Definition sys_step (e : Event) (s : Sys) : option Sys :=
  let w := sys_world s in
  match e with
  | CreateUpload clk id o key ct bytes => run_world (on_db (insert_upload clk id o key ct bytes)) s
  | CompleteUpload clk id o => run_world (complete_upload clk id o) s
  | Requeue job => run_world (enqueue_media_job job) s
  | DeleteMediaRow id o => run_world (delete_media id o) s
  | Receive i job =>
      match sys_workers s !! i, list_find (λ j, j = job) (w_queue w), on_db (claim job) w with
      | None, Some _, (Ok (Some c), w') => Some (busy i (mkBusy job c Claimed) w' s)
      | None, Some _, (Ok None, w') => Some (set_world (snd (delete_message job w')) s)
      | None, Some _, (Err _, w') => Some (set_world w' s)
      | _, _, _ => None
      end
  | Render i =>
      match sys_workers s !! i with
      | Some (mkBusy job c Claimed) =>
          match fetch_and_render c w with
          | (Ok r, w') => Some (busy i (mkBusy job c (Rendered r)) w' s)
          | (Err err, w') => Some (give_back i job err w' s)
          end
      | _ => None
      end
  | StoreThumb i =>
      match sys_workers s !! i with
      | Some (mkBusy job c (Rendered r)) =>
          match variant_keys job c with
          | None => Some (give_back i job UnsupportedType w s)
          | Some keys =>
              match upload_variant keys.1 (cl_content_type c) (rd_thumb r) w with
              | (Ok _, w') => Some (busy i (mkBusy job c (ThumbStored r)) w' s)
              | (Err err, w') => Some (give_back i job err w' s)
              end
          end
      | _ => None
      end
  | StoreMedium i =>
      match sys_workers s !! i with
      | Some (mkBusy job c (ThumbStored r)) =>
          match variant_keys job c with
          | None => Some (give_back i job UnsupportedType w s)
          | Some keys =>
              match upload_variant keys.2 (cl_content_type c) (rd_medium r) w with
              | (Ok _, w') => Some (busy i (mkBusy job c (BothStored r)) w' s)
              | (Err err, w') => Some (give_back i job err w' s)
              end
          end
      | _ => None
      end
  | Finish i clk media_id =>
      match sys_workers s !! i with
      | Some (mkBusy job c (BothStored r)) =>
          match variant_keys job c with
          | None => Some (give_back i job UnsupportedType w s)
          | Some keys =>
              match on_db (finish clk media_id job c keys.1 keys.2 (rd_width r) (rd_height r)) w with
              | (Ok _, w') => Some (idle i (snd (delete_message job w')) s)
              | (Err e, w') => Some (give_back i job (WorkerDb e) w' s)
              end
          end
      | _ => None
      end
  | Crash i =>
      match sys_workers s !! i with Some _ => Some (idle i w s) | None => None end
  end.

Definition step (s s' : Sys) : Prop := ∃ e, sys_step e s = Some s'.
Definition reachable : relation Sys := rtc step.

Fixpoint sys_run (es : list Event) (s : Sys) : option Sys :=
  match es with [] => Some s | e :: es' => s' ← sys_step e s; sys_run es' s' end.

Lemma sys_run_reachable es s s' : sys_run es s = Some s' → reachable s s'.
Proof using Type.
  revert s. induction es as [|e es IH]; intros s; simpl; [intros [= ->]; apply rtc_refl|].
  destruct (sys_step e s) as [s1|] eqn:He; [|done]. intros Hrun.
  eapply rtc_l; [by exists e|]. by apply IH.
Qed.

(** ** The life of an upload *)

Definition rank (st : UploadStatus) : nat :=
  match st with Pending => 0 | Uploaded => 1 | Processing => 2 | Failed => 3 | Completed => 4 end%nat.

(** What the row of an upload can become: the identity columns stay, the status
    only moves forward. *)
Definition row_evolves (u u' : UploadRow) : Prop :=
  mu_owner_id u' = mu_owner_id u ∧ mu_original_key u' = mu_original_key u ∧
  mu_content_type u' = mu_content_type u ∧ mu_bytes u' = mu_bytes u ∧
  mu_created_at u' = mu_created_at u ∧ (rank (mu_status u) ≤ rank (mu_status u'))%nat ∧
  (is_Some (mu_uploaded_at u) → mu_uploaded_at u' = mu_uploaded_at u).
Definition uploads_evolve (d d' : Db) : Prop :=
  ∀ k u, media_uploads d !! k = Some u → ∃ u', media_uploads d' !! k = Some u' ∧ row_evolves u u'.

Lemma row_evolves_refl u : row_evolves u u.
Proof using Type. unfold row_evolves. naive_solver lia. Qed.
Lemma uploads_evolve_eq d d' : media_uploads d' = media_uploads d → uploads_evolve d d'.
Proof using Type. intros He k u Hk. exists u. rewrite He. split; [done|apply row_evolves_refl]. Qed.
Lemma uploads_evolve_trans d1 d2 d3 :
  uploads_evolve d1 d2 → uploads_evolve d2 d3 → uploads_evolve d1 d3.
Proof using Type.
  intros H1 H2 k u (u' & Hu' & He)%H1. destruct (H2 _ _ Hu') as (u'' & Hu'' & He').
  exists u''. split; [done|]. unfold row_evolves in *.
  destruct He as (? & ? & ? & ? & ? & ? & Hup), He' as (? & ? & ? & ? & ? & ? & Hup').
  split_and!; try congruence; [lia|]. intros Hs. specialize (Hup Hs). rewrite <-Hup in Hs. by rewrite Hup'.
Qed.

Lemma uploads_evolve_insert d d' k u u' :
  media_uploads d !! k = Some u → row_evolves u u' → media_uploads d' = <[k := u']> (media_uploads d) →
  uploads_evolve d d'.
Proof using Type.
  intros Hk He Hd k0 u0 Hk0. rewrite Hd. destruct (decide (k0 = k)) as [->|Hne].
  - exists u'. rewrite lookup_insert_eq. split; congruence.
  - exists u0. rewrite lookup_insert_ne by done. split; [done|apply row_evolves_refl].
Qed.
Lemma uploads_evolve_update d d' P f :
  (∀ k u, P k u = true → row_evolves u (f u)) →
  media_uploads d' = update_where P f (media_uploads d) → uploads_evolve d d'.
Proof using Type.
  intros He Hd k u Hk. exists (if P k u then f u else u). rewrite Hd, lookup_update_where, Hk.
  split; [done|]. destruct (P k u) eqn:HP; [by eapply He|apply row_evolves_refl].
Qed.

(** Each statement on [media_uploads] moves its row forward. *)
Lemma insert_upload_evolves clk id o key ct b d : uploads_evolve d (snd (insert_upload clk id o key ct b d)).
Proof using Type.
  unfold insert_upload. run; try (by apply uploads_evolve_eq). intros k u Hk. exists u. simpl.
  bool_to_prop. rewrite lookup_insert_ne; [split; [done|apply row_evolves_refl]|].
  intros ->. match goal with H : has_key _ _ = false |- _ => apply has_key_false in H end. congruence.
Qed.
Lemma mark_uploaded_evolves clk id o d : uploads_evolve d (snd (mark_uploaded clk id o d)).
Proof using Type.
  unfold mark_uploaded. run; try (by apply uploads_evolve_eq).
  eapply uploads_evolve_insert; [done| |done]. match goal with H : _ && _ = true |- _ => apply andb_true_iff in H as [_ Hst] end.
  apply orb_true_iff in Hst. rewrite !bool_decide_eq_true in Hst.
  split_and!; simpl; try done; [destruct Hst as [-> | ->]; simpl; lia|]. by intros [t ->].
Qed.
Lemma claim_evolves job d : uploads_evolve d (snd (claim job d)).
Proof using Type.
  unfold claim. run; try (by apply uploads_evolve_eq).
  eapply uploads_evolve_insert; [done| |done]. match goal with H : _ && _ = true |- _ => apply andb_true_iff in H as [_ Hst] end.
  apply orb_true_iff in Hst. rewrite !bool_decide_eq_true in Hst.
  split_and!; simpl; try done. destruct Hst as [-> | ->]; simpl; lia.
Qed.
Lemma mark_failed_evolves job d : uploads_evolve d (snd (mark_failed job d)).
Proof using Type.
  eapply uploads_evolve_update; [|done]. simpl. intros k u Hp. bool_to_prop.
  split_and!; simpl; try done.
  match goal with H : mu_status u = _ |- _ => rewrite H end. simpl. lia.
Qed.
Lemma finish_evolves clk mid job c tk mk x y d :
  uploads_evolve d (snd (finish clk mid job c tk mk x y d)).
Proof using Type.
  unfold finish. run; try (by apply uploads_evolve_eq).
  eapply uploads_evolve_update; [|done]. intros k u _. split_and!; simpl; try done.
  destruct (mu_status u); simpl; lia.
Qed.
Lemma delete_media_row_evolves id o d : uploads_evolve d (snd (delete_media_row id o d)).
Proof using Type.
  unfold delete_media_row. run; try (by apply uploads_evolve_eq).
  eapply uploads_evolve_update; [|done]. intros k u _. split_and!; simpl; try done.
Qed.

(** ** What one event does *)

#[local] Arguments delete_message : simpl never.
#[local] Arguments best_effort : simpl never.
#[local] Arguments on_db : simpl never.

(** The statement an event runs on the database, given the workers at hand. *)
Inductive db_step (ws : gmap nat Busy) (d : Db) : Db → Prop :=
| ds_same : db_step ws d d
| ds_insert clk id o key ct b : db_step ws d (snd (insert_upload clk id o key ct b d))
| ds_uploaded clk id o : db_step ws d (snd (mark_uploaded clk id o d))
| ds_delete id o : db_step ws d (snd (delete_media_row id o d))
| ds_claim job : db_step ws d (snd (claim job d))
| ds_failed job : db_step ws d (snd (mark_failed job d))
| ds_finish i job c r clk mid keys :
    ws !! i = Some (mkBusy job c (BothStored r)) → variant_keys job c = Some keys →
    db_step ws d (snd (finish clk mid job c keys.1 keys.2 (rd_width r) (rd_height r) d)).

Lemma on_db_db {E A} (m : M Db E A) w : w_db (snd (on_db m w)) = snd (m (w_db w)).
Proof using Type. unfold on_db. by destruct (m (w_db w)). Qed.

Lemma complete_upload_db clk id o w :
  w_db (snd (complete_upload clk id o w)) = snd (mark_uploaded clk id o (w_db w)).
Proof using Type.
  unfold complete_upload, map_err, mbind at 1, M_bind at 1. rewrite <-on_db_db.
  destruct (on_db (mark_uploaded clk id o) w) as [[[key|]|e] w']; [|done|done].
  unfold enqueue_processing, enqueue_media_job. by run.
Qed.

Lemma delete_media_db id o w : w_db (snd (delete_media id o w)) = snd (delete_media_row id o (w_db w)).
Proof using Type.
  unfold delete_media, map_err, mbind at 1, M_bind at 1. rewrite <-on_db_db.
  destruct (on_db (delete_media_row id o) w) as [[[m|]|e] w']; [|done|done].
  destruct (drop_keys_run [m_original_key m; m_thumb_key m; m_medium_key m] w') as (w'' & Hrun & Hd & _).
  unfold mbind, M_bind.
  change (for_each _ _ w') with (for_each [m_original_key m; m_thumb_key m; m_medium_key m] drop_key w').
  by rewrite Hrun.
Qed.

Lemma give_back_db ws i job err w s :
  db_step ws (w_db w) (w_db (sys_world (give_back i job err w s))).
Proof using Type.
  unfold give_back. destruct (is_permanent_error err); [|apply ds_same]. unfold idle. cbn [sys_world].
  rewrite (proj1 (delete_message_keeps job _)). unfold best_effort. cbn [snd].
  rewrite on_db_db. apply ds_failed.
Qed.

Lemma sys_step_db e s s' :
  sys_step e s = Some s' →
  db_step (sys_workers s) (w_db (sys_world s)) (w_db (sys_world s')).
Proof using Type.
  destruct s as [w ws]. unfold sys_step, run_world. cbn [sys_world sys_workers]. destruct e; intros Hs.
  - apply (inj Some) in Hs; subst s'. simpl. rewrite on_db_db. apply ds_insert.
  - apply (inj Some) in Hs; subst s'. simpl. rewrite complete_upload_db. apply ds_uploaded.
  - apply (inj Some) in Hs; subst s'. simpl. unfold enqueue_media_job. run; apply ds_same.
  - apply (inj Some) in Hs; subst s'. simpl. rewrite delete_media_db. apply ds_delete.
  - destruct (ws !! i), (list_find (λ j, j = job) (w_queue w)); try done.
    pose proof (on_db_db (claim job) w) as Hdb.
    destruct (on_db (claim job) w) as [[[c|]|err] w']; apply (inj Some) in Hs; subst s'; cbn [snd] in Hdb;
      cbn [sys_world set_world busy]; rewrite ?(proj1 (delete_message_keeps job _)), Hdb; apply ds_claim.
  - destruct (ws !! i) as [[job c []]|]; try done.
    assert (Hw : w_db (snd (fetch_and_render c w)) = w_db w)
      by (unfold fetch_and_render, get_object; by run).
    destruct (fetch_and_render c w) as [[r|err] w']; apply (inj Some) in Hs; subst s'; simpl in *; rewrite <-Hw;
      [apply ds_same|apply give_back_db].
  - destruct (ws !! i) as [[job c []]|]; try done.
    destruct (variant_keys job c) as [keys|]; [|apply (inj Some) in Hs; subst s'; apply give_back_db].
    unfold upload_variant in Hs. unfold_m. destruct (w_storage_up w); simpl in Hs; apply (inj Some) in Hs; subst s';
      [apply ds_same|apply give_back_db].
  - destruct (ws !! i) as [[job c []]|]; try done.
    destruct (variant_keys job c) as [keys|]; [|apply (inj Some) in Hs; subst s'; apply give_back_db].
    unfold upload_variant in Hs. unfold_m. destruct (w_storage_up w); simpl in Hs; apply (inj Some) in Hs; subst s';
      [apply ds_same|apply give_back_db].
  - destruct (ws !! i) as [[job c []]|] eqn:Hi; try done.
    destruct (variant_keys job c) as [keys|] eqn:Hk; [|apply (inj Some) in Hs; subst s'; apply give_back_db].
    pose proof (on_db_db (finish clk media_id job c keys.1 keys.2 (rd_width r) (rd_height r)) w) as Hdb.
    destruct (on_db _ w) as [[u|err] w']; apply (inj Some) in Hs; subst s'; cbn [snd] in Hdb.
    + unfold idle. cbn [sys_world]. rewrite (proj1 (delete_message_keeps job _)), Hdb. by eapply ds_finish.
    + unfold give_back. cbn [is_permanent_error]. unfold idle. cbn [sys_world]. rewrite Hdb. by eapply ds_finish.
  - destruct (ws !! i); [|done]. apply (inj Some) in Hs; subst s'. apply ds_same.
Qed.

Lemma db_step_evolves ws d d' : db_step ws d d' → uploads_evolve d d'.
Proof using Type.
  destruct 1; [by apply uploads_evolve_eq|apply insert_upload_evolves|apply mark_uploaded_evolves
    |apply delete_media_row_evolves|apply claim_evolves|apply mark_failed_evolves|apply finish_evolves].
Qed.

(** ** The invariant of the pipeline *)

Definition phase_rendering (p : Phase) : option Rendering :=
  match p with Claimed => None | Rendered r | ThumbStored r | BothStored r => Some r end.
Definition rendering_ok (r : Rendering) : Prop :=
  0 ≤ rd_width r ≤ MAX_IMAGE_DIMENSION_PX ∧ 0 ≤ rd_height r ≤ MAX_IMAGE_DIMENSION_PX.

(** A worker's claim is the upload it is about, which left the client's hands. *)
Definition busy_ok (d : Db) (b : Busy) : Prop :=
  (∃ u, media_uploads d !! job_upload_id (b_job b) = Some u ∧ mu_owner_id u = job_owner_id (b_job b) ∧
        b_claim b = mkClaim (mu_original_key u) (mu_content_type u) (mu_bytes u) ∧
        (2 ≤ rank (mu_status u))%nat) ∧
  ∀ r, phase_rendering (b_phase b) = Some r → rendering_ok r.

(** [row] is the processed form of the upload [u]. *)
Definition media_of_upload (id : Uuid) (u : UploadRow) (row : MediaRow) : Prop :=
  m_owner_id row = mu_owner_id u ∧ m_original_key row = mu_original_key u ∧ m_bytes row = mu_bytes u ∧
  0 ≤ m_width row ≤ MAX_IMAGE_DIMENSION_PX ∧ 0 ≤ m_height row ≤ MAX_IMAGE_DIMENSION_PX ∧
  ∃ ext, extension_from_content_type (mu_content_type u) = Some ext ∧
    m_thumb_key row = variant_key (mu_owner_id u) id "thumb" ext ∧
    m_medium_key row = variant_key (mu_owner_id u) id "medium" ext.

(** An upload that names a media row is completed and names its processed form. *)
Definition uploads_linked (d : Db) : Prop :=
  ∀ k u m, media_uploads d !! k = Some u → mu_processed_media_id u = Some m →
    mu_status u = Completed ∧ ∃ row, media d !! m = Some row ∧ media_of_upload k u row.

Record sys_inv (s : Sys) : Prop := {
  inv_busy : map_Forall (λ _, busy_ok (w_db (sys_world s))) (sys_workers s);
  inv_linked : uploads_linked (w_db (sys_world s)) }.

Lemma busy_ok_evolves d d' b : uploads_evolve d d' → busy_ok d b → busy_ok d' b.
Proof using Type.
  intros He [(u & Hu & Ho & Hc & Hr) Hp]. destruct (He _ _ Hu) as (u' & Hu' & Hev).
  destruct Hev as (Ho' & Hk' & Hct' & Hb' & _ & Hr' & _). split; [|done].
  exists u'. split_and!; [done|congruence|by rewrite Hk', Hct', Hb'|lia].
Qed.

(** The rows of an upload can be replaced by ones with the same identity. *)
Lemma media_of_upload_ext k u u' row :
  mu_owner_id u' = mu_owner_id u → mu_original_key u' = mu_original_key u →
  mu_content_type u' = mu_content_type u → mu_bytes u' = mu_bytes u →
  media_of_upload k u row → media_of_upload k u' row.
Proof using Type. unfold media_of_upload. by intros -> -> -> ->. Qed.

(** A statement that keeps the media table and, for every row, either drops the
    reference or keeps it with the status [Completed]. *)
Lemma uploads_linked_mono d d' :
  uploads_linked d → media d' = media d → uploads_evolve d d' →
  (∀ k u', media_uploads d' !! k = Some u' → is_Some (mu_processed_media_id u') →
     ∃ u, media_uploads d !! k = Some u ∧ mu_processed_media_id u = mu_processed_media_id u') →
  uploads_linked d'.
Proof using Type.
  intros Hl Hm He Hback k u' m Hk Hp. destruct (Hback _ _ Hk) as (u & Hu & Hpu); [by rewrite Hp|].
  rewrite Hp in Hpu. destruct (Hl _ _ _ Hu Hpu) as (Hst & row & Hrow & Hof).
  destruct (He _ _ Hu) as (u'' & Hu'' & Hev). assert (u'' = u') as -> by congruence.
  destruct Hev as (Ho' & Hk' & Hct' & Hb' & _ & Hr' & _). split.
  - rewrite Hst in Hr'. by destruct (mu_status u'); simpl in Hr'; try lia.
  - exists row. rewrite Hm. split; [done|]. by eapply media_of_upload_ext.
Qed.

Lemma finish_linked clk mid (i : nat) job c r keys (ws : gmap nat Busy) d :
  map_Forall (λ _, busy_ok d) ws → ws !! i = Some (mkBusy job c (BothStored r)) →
  variant_keys job c = Some keys → uploads_linked d →
  uploads_linked (snd (finish clk mid job c keys.1 keys.2 (rd_width r) (rd_height r) d)).
Proof using Type.
  intros Hws Hi Hkeys Hl. destruct (Hws _ _ Hi) as [(u0 & Hu0 & Ho0 & Hc & _) Hr].
  destruct (Hr r eq_refl) as [Hx Hy]. unfold MAX_IMAGE_DIMENSION_PX in *. simpl in *. subst c.
  unfold finish. run; try done. bool_to_prop. intros k u m. simpl. rewrite lookup_update_where.
  match goal with Hf : has_key _ (media d) = false |- _ => apply has_key_false in Hf as Hfresh end.
  destruct (media_uploads d !! k) as [u1|] eqn:Hk; simpl; [|done]. intros [= <-].
  destruct (bool_decide (k = job_upload_id job) && bool_decide (mu_owner_id u1 = job_owner_id job)) eqn:Hb.
  - simpl. intros [= <-]. split; [done|]. rewrite lookup_insert_eq. eexists. split; [done|].
    bool_to_prop. subst k. assert (u1 = u0) as -> by congruence.
    unfold variant_keys in Hkeys. simpl in Hkeys.
    destruct (extension_from_content_type (mu_content_type u0)) as [ext|] eqn:Hext; [|done].
    injection Hkeys as <-. unfold media_of_upload, MAX_IMAGE_DIMENSION_PX. simpl.
    rewrite !cast_i32_small by (unfold i32_max; lia).
    split_and!; try done; try lia. exists ext. by rewrite Ho0.
  - intros Hp. destruct (Hl _ _ _ Hk Hp) as (Hst & row & Hrow & Hof). split; [done|].
    exists row. rewrite lookup_insert_ne; [done|congruence].
Qed.

Lemma update_where_back P f (m : gmap N UploadRow) k u' :
  (∀ u, mu_processed_media_id (f u) = mu_processed_media_id u) →
  update_where P f m !! k = Some u' →
  ∃ u, m !! k = Some u ∧ mu_processed_media_id u = mu_processed_media_id u'.
Proof using Type.
  intros Hf. rewrite lookup_update_where. destruct (m !! k) as [u|]; simpl; [|done].
  intros [= <-]. exists u. split; [done|]. by case_match.
Qed.
Lemma insert_back (m : gmap N UploadRow) k0 u0 k u' :
  (∀ u, m !! k0 = Some u → mu_processed_media_id u = mu_processed_media_id u0) →
  is_Some (m !! k0) ∨ mu_processed_media_id u0 = None →
  <[k0 := u0]> m !! k = Some u' → is_Some (mu_processed_media_id u') →
  ∃ u, m !! k = Some u ∧ mu_processed_media_id u = mu_processed_media_id u'.
Proof using Type.
  intros Hsame Hor. destruct (decide (k = k0)) as [->|Hne].
  - rewrite lookup_insert_eq. intros [= <-] Hs.
    destruct Hor as [[u Hu]|Hnone]; [eauto|]. rewrite Hnone in Hs. by destruct Hs.
  - rewrite lookup_insert_ne by done. eauto.
Qed.

Lemma delete_media_row_linked id o d : uploads_linked d → uploads_linked (snd (delete_media_row id o d)).
Proof using Type.
  intros Hl. unfold delete_media_row. run; try done. intros k u mid. simpl. rewrite lookup_update_where.
  destruct (media_uploads d !! k) as [u1|] eqn:Hk; simpl; [|done]. intros [= <-].
  destruct (bool_decide (mu_processed_media_id u1 = Some id)) eqn:Hp; [done|]. apply bool_decide_eq_false in Hp.
  intros Hm. destruct (Hl _ _ _ Hk Hm) as (Hst & row & Hrow & Hof).
  split; [done|]. exists row. rewrite lookup_delete_ne by congruence. done.
Qed.

Lemma db_step_linked ws d d' :
  map_Forall (λ _, busy_ok d) ws → db_step ws d d' → uploads_linked d → uploads_linked d'.
Proof using Type.
  intros Hws Hstep Hl. pose proof (db_step_evolves _ _ _ Hstep) as He.
  destruct Hstep as [|clk id o key ct b|clk id o|id o|job|job|i job c r clk mid keys Hi Hk].
  - done.
  - eapply uploads_linked_mono; [done| |done|]; unfold insert_upload; run; try done; try (by eauto).
    simpl. intros k u'. bool_to_prop. apply insert_back; [|by right]. intros u Hu.
    match goal with H : has_key _ _ = false |- _ => apply has_key_false in H end. congruence.
  - eapply uploads_linked_mono; [done| |done|]; unfold mark_uploaded; run; try done; try (by eauto).
    simpl. intros k u'. apply insert_back; [intros ? ?; by simplify_eq|by left].
  - by apply delete_media_row_linked.
  - eapply uploads_linked_mono; [done| |done|]; unfold claim; run; try done; try (by eauto).
    simpl. intros k u'. apply insert_back; [intros ? ?; by simplify_eq|by left].
  - eapply uploads_linked_mono; [done|done|done|]. simpl. intros k u' Hk _.
    eapply update_where_back; [|done]. done.
  - by eapply finish_linked.
Qed.

(** A worker goes on with its claim, possibly with a rendering it just made. *)
Definition continues (b b' : Busy) : Prop :=
  b_job b' = b_job b ∧ b_claim b' = b_claim b ∧
  (phase_rendering (b_phase b') = phase_rendering (b_phase b) ∨
   ∃ fmt data r, render fmt data = Ok r ∧ phase_rendering (b_phase b') = Some r).
Definition has_just_claimed (d d' : Db) (b' : Busy) : Prop :=
  b_phase b' = Claimed ∧ fst (claim (b_job b') d) = Ok (Some (b_claim b')) ∧
  d' = snd (claim (b_job b') d).

Lemma continues_refl b : continues b b.
Proof using Type. split_and!; [done..|by left]. Qed.

(** The table of workers after an event keeps, advances or drops its entries,
    except for the one that has just claimed a job. *)
Definition workers_ok (ws ws' : gmap nat Busy) (d d' : Db) : Prop :=
  ∀ i b', ws' !! i = Some b' →
    (∃ b, ws !! i = Some b ∧ continues b b') ∨ has_just_claimed d d' b'.

Lemma workers_ok_same ws d d' : workers_ok ws ws d d'.
Proof using Type. intros i b Hb. left. exists b. split; [done|apply continues_refl]. Qed.
Lemma workers_ok_delete ws j d d' : workers_ok ws (delete j ws) d d'.
Proof using Type. intros i b [_ Hb]%lookup_delete_Some. by apply (workers_ok_same ws d d'). Qed.
Lemma workers_ok_insert ws j b' d d' :
  (∃ b, ws !! j = Some b ∧ continues b b') ∨ has_just_claimed d d' b' →
  workers_ok ws (<[j := b']> ws) d d'.
Proof using Type.
  intros Hj i b [[<- <-]|[_ Hb]]%lookup_insert_Some; [done|]. by apply (workers_ok_same ws d d').
Qed.
Lemma give_back_workers i job err w s d d' :
  workers_ok (sys_workers s) (sys_workers (give_back i job err w s)) d d'.
Proof using Type. unfold give_back. destruct (is_permanent_error err); apply workers_ok_delete. Qed.

Lemma fetch_and_render_ok c w r w' :
  fetch_and_render c w = (Ok r, w') → ∃ fmt data, render fmt data = Ok r.
Proof using Type. unfold fetch_and_render, get_object. run; naive_solver. Qed.

Lemma sys_step_workers e s s' :
  sys_step e s = Some s' →
  workers_ok (sys_workers s) (sys_workers s') (w_db (sys_world s)) (w_db (sys_world s')).
Proof using Type.
  destruct s as [w ws]. unfold sys_step, run_world. cbn [sys_world sys_workers].
  destruct e; intros Hs.
  1-4: apply (inj Some) in Hs; subst s'; apply workers_ok_same.
  - destruct (ws !! i), (list_find (λ j, j = job) (w_queue w)); try done.
    unfold on_db in Hs. destruct (claim job (w_db w)) as [[[c|]|err] d'] eqn:Hc;
      apply (inj Some) in Hs; subst s'; try apply workers_ok_same.
    apply workers_ok_insert. right. split_and!; simpl; by rewrite ?Hc.
  - destruct (ws !! i) as [[job c []]|] eqn:Hi; try done.
    destruct (fetch_and_render c w) as [[r|err] w'] eqn:Hf; apply (inj Some) in Hs; subst s';
      [|apply give_back_workers].
    apply workers_ok_insert. left. eexists. split; [done|]. split_and!; [done|done|]. right.
    apply fetch_and_render_ok in Hf as (fmt & data & Hr). eauto.
  - destruct (ws !! i) as [[job c []]|] eqn:Hi; try done.
    destruct (variant_keys job c); [|apply (inj Some) in Hs; subst s'; apply give_back_workers].
    destruct (upload_variant _ _ _ w) as [[|] w']; apply (inj Some) in Hs; subst s';
      [|apply give_back_workers].
    apply workers_ok_insert. left. eexists. split; [done|]. split_and!; [done|done|by left].
  - destruct (ws !! i) as [[job c []]|] eqn:Hi; try done.
    destruct (variant_keys job c); [|apply (inj Some) in Hs; subst s'; apply give_back_workers].
    destruct (upload_variant _ _ _ w) as [[|] w']; apply (inj Some) in Hs; subst s';
      [|apply give_back_workers].
    apply workers_ok_insert. left. eexists. split; [done|]. split_and!; [done|done|by left].
  - destruct (ws !! i) as [[job c []]|] eqn:Hi; try done.
    destruct (variant_keys job c); [|apply (inj Some) in Hs; subst s'; apply give_back_workers].
    destruct (on_db _ w) as [[|] w']; apply (inj Some) in Hs; subst s';
      [apply workers_ok_delete|apply give_back_workers].
  - destruct (ws !! i); [|done]. apply (inj Some) in Hs; subst s'. apply workers_ok_delete.
Qed.
End system.

Section lifecycle.
Context `{ImageLaws}.

Lemma claim_busy_ok job c d :
  fst (claim job d) = Ok (Some c) → busy_ok (snd (claim job d)) (mkBusy job c Claimed).
Proof using Type.
  unfold claim. run; try done. intros [= <-]. bool_to_prop. split; [|done]. simpl.
  eexists. rewrite lookup_insert_eq. split_and!; [done|simpl; congruence|done|simpl; lia].
Qed.

Lemma sys_inv_step e s s' : sys_inv s → sys_step e s = Some s' → sys_inv s'.
Proof using All.
  intros [Hb Hl] Hs. pose proof (sys_step_db _ _ _ Hs) as Hdb.
  pose proof (sys_step_workers _ _ _ Hs) as Hws. split; [|by eapply db_step_linked].
  intros i b' Hi. destruct (Hws _ _ Hi) as [(b & Hbi & Hj & Hc & Hr)|(Hph & Hcl & ->)].
  - destruct (busy_ok_evolves _ _ b (db_step_evolves _ _ _ Hdb) (Hb _ _ Hbi)) as [Hu Hp].
    split; [by rewrite Hj, Hc|]. destruct Hr as [Hr|(fmt & data & r & Hrender & Hr)]; rewrite Hr; [done|].
    intros r' [= <-]. by eapply render_dimensions.
  - destruct b' as [job c ph]. simpl in Hph. subst ph. by apply claim_busy_ok.
Qed.

(** C8: the life of an upload under any interleaving of clients, redeliveries, the
    cleanup job and any number of workers that may crash at any point: an upload
    row never disappears, its owner, key, type and size never change, its status
    only moves forward (pending, uploaded, processing, failed, completed) so that
    completed is final; and whenever an upload names a media row, it is completed
    and that row exists, belongs to the same owner, and carries the original's key
    and size, the variant keys of this upload and dimensions of at most 12000. *)
Theorem upload_lifecycle s s' :
  sys_inv s → reachable s s' →
  sys_inv s' ∧
  ∀ k u, media_uploads (w_db (sys_world s)) !! k = Some u →
    ∃ u', media_uploads (w_db (sys_world s')) !! k = Some u' ∧ row_evolves u u' ∧
      (mu_status u = Completed → mu_status u' = Completed).
Proof using All.
  intros Hinv Hr.
  assert (sys_inv s' ∧ uploads_evolve (w_db (sys_world s)) (w_db (sys_world s'))) as [Hinv' He].
  { induction Hr as [|s1 s2 s3 [e He] _ IH]; [split; [done|by apply uploads_evolve_eq]|].
    destruct IH as [Hi Hev]; [by eapply sys_inv_step|]. split; [done|].
    eapply uploads_evolve_trans; [|exact Hev]. eapply db_step_evolves, sys_step_db, He. }
  split; [done|]. intros k u Hk. destruct (He _ _ Hk) as (u' & Hu' & Hev). exists u'.
  split_and!; [done|done|]. intros Hst. destruct Hev as (_ & _ & _ & _ & _ & Hrank & _).
  rewrite Hst in Hrank. by destruct (mu_status u'); simpl in Hrank; try lia.
Qed.
End lifecycle.

(** ** Concrete runs *)

(** An image library in which every file is a picture of 900 by 300 pixels. *)
Module ToyImage.
Definition toy_image : ImageLib := {|
  Image := Z * Z; img_decode := λ l _, if 900 <=? l then Some (900, 300) else None;
  img_dimensions := id; img_thumbnail := λ m i, (Z.min m i.1, Z.min m i.2);
  img_encode := λ _ i, Some (pretty i.1 +:+ "x" +:+ pretty i.2) |}.
Lemma toy_image_laws : @ImageLaws toy_image.
Proof.
  split; simpl.
  - intros l data i Hd. destruct (900 <=? l) eqn:Hl; [|done]. apply Z.leb_le in Hl.
    injection Hd as <-. unfold id. simpl. lia.
  - intros m i Hm. unfold id. simpl. lia.
Qed.
End ToyImage.

Definition the_job : MediaJob := mkMediaJob 50 1 "uploads/a.png".
Definition upload_world (st : UploadStatus) : World :=
  mkWorld (set_media_uploads (λ _, {[ 50%N := mkUploadRow 1 "uploads/a.png" "image/png" 7 st 0 (Some 1) None ]})
             (set_users (λ _, {[ 1%N := mkUserRow "ann" "a@x" "Ann" None None 0 "h" None ]}) empty_db))
    (Redis.mkRedis true ∅) [the_job] true {[ "uploads/a.png" := mkObject "image/png" "..." ]} true.

Lemma media_job_completes_once_witness :
  let w' := snd (@handle_message ToyImage.toy_image (mkClock 9 9) 60%N the_job (upload_world Uploaded)) in
  (m_width <$> media (w_db w') !! 60%N) = Some 900 ∧ w_queue w' = [].
Proof.
  intros w'.
  destruct (@media_job_completes_once ToyImage.toy_image ToyImage.toy_image_laws (mkClock 9 9) 60%N the_job
    (mkUploadRow 1 "uploads/a.png" "image/png" 7 Uploaded 0 (Some 1) None)
    (mkRendering 900 300 "200x200" "800x300")
    (variant_key 1 50 "thumb" "png") (variant_key 1 50 "medium" "png")
    (upload_world Uploaded) (mkClock 10 10) 61%N) as (Hm & _ & _ & _ & _ & _ & Hq & _).
  - constructor; try reflexivity; [left; reflexivity|].
    exists (mkObject "image/png" "..."), Png. split; [reflexivity|]. split; vm_compute; reflexivity.
  - split; [unfold w'; rewrite Hm; reflexivity|]. unfold w'. rewrite Hq; reflexivity.
Defined.

Definition upload_sys (st : UploadStatus) : Sys := mkSys (upload_world st) ∅.

Lemma upload_sys_inv st : @sys_inv (upload_sys st).
Proof.
  split; [intros i b Hb; vm_compute in Hb; discriminate|].
  intros k u m. simpl. destruct (decide (k = 50%N)) as [->|Hne].
  - rewrite lookup_singleton_eq. by intros [= <-].
  - by rewrite lookup_singleton_ne.
Qed.

(** Two workers that hold the same message at once. *)
Definition race : list Event :=
  [Receive 0 the_job; Receive 1 the_job; Render 0; Render 1; StoreThumb 0; StoreThumb 1;
   StoreMedium 0; StoreMedium 1; Finish 0 (mkClock 5 5) 60; Finish 1 (mkClock 6 6) 61].

Lemma upload_lifecycle_witness :
  ∃ s', @reachable ToyImage.toy_image (upload_sys Uploaded) s' ∧
    ∃ u', media_uploads (w_db (sys_world s')) !! 50%N = Some u' ∧ mu_original_key u' = "uploads/a.png".
Proof.
  assert (∃ s', @sys_step ToyImage.toy_image (Receive 0 the_job) (upload_sys Uploaded) = Some s')
    as [s' Hs] by (eexists; reflexivity).
  assert (@reachable ToyImage.toy_image (upload_sys Uploaded) s') as Hr
    by (apply rtc_once; exists (Receive 0 the_job); exact Hs).
  exists s'. split; [exact Hr|].
  destruct (@upload_lifecycle ToyImage.toy_image ToyImage.toy_image_laws (upload_sys Uploaded) s')
    as [_ H]; [apply upload_sys_inv|exact Hr|].
  destruct (H 50%N (mkUploadRow 1 "uploads/a.png" "image/png" 7 Uploaded 0 (Some 1) None))
    as (u' & Hu' & (_ & Hk & _) & _); [reflexivity|].
  exists u'. split; [exact Hu'|exact Hk].
Defined.

Definition after (es : list Event) : option Sys := @sys_run ToyImage.toy_image es (upload_sys Uploaded).
Definition media_at (s : option Sys) (id : Uuid) : option MediaRow := s ≫= λ s, media (w_db (sys_world s)) !! id.
Definition object_at (s : option Sys) (key : string) : option Object := s ≫= λ s, w_objects (sys_world s) !! key.
Definition processed_at (s : option Sys) (id : Uuid) : option Uuid :=
  s ≫= λ s, media_uploads (w_db (sys_world s)) !! id ≫= mu_processed_media_id.

(** Processing is not idempotent when a message is held by two workers at
    once: the claim accepts an upload that is already being processed and the
    final update does not look at the status, so both insert a media row for the
    one upload; the two rows share their object keys, and deleting the one that
    nothing names removes the objects of the other, which the upload still names. *)
Theorem media_worker_duplicates :
  let s1 := after race in
  let s2 := after (race ++ [DeleteMediaRow 60 1]) in
  let row (id : Uuid) (t : Time) :=
    mkMediaRow 1 "uploads/a.png" (variant_key 1 50 "thumb" "png") (variant_key 1 50 "medium" "png") 900 300 7 t in
  media_at s1 60 = Some (row 60%N 5) ∧ media_at s1 61 = Some (row 61%N 6) ∧
  processed_at s1 50 = Some 61%N ∧ object_at s1 (variant_key 1 50 "thumb" "png") ≠ None ∧
  media_at s2 61 = Some (row 61%N 6) ∧ processed_at s2 50 = Some 61%N ∧
  object_at s2 (variant_key 1 50 "thumb" "png") = None ∧ object_at s2 "uploads/a.png" = None.
Proof. cbv zeta. split_and!; try (vm_compute; reflexivity). vm_compute. congruence. Qed.

Section poison.
Context `{ImageLib}.

(** The upload waits for processing and its original cannot be encoded. *)
Definition unencodable (job : MediaJob) (w : World) : Prop :=
  w_storage_up w = true ∧
  ∃ u o fmt, media_uploads (w_db w) !! job_upload_id job = Some u ∧ mu_owner_id u = job_owner_id job ∧
    (mu_status u = Uploaded ∨ mu_status u = Processing) ∧ w_objects w !! mu_original_key u = Some o ∧
    image_format_from_content_type (mu_content_type u) = Some fmt ∧
    render fmt (obj_data o) = Err EncodeFailed.

(** An original that decodes but cannot be encoded in its declared format is
    retried for ever: however often its message is delivered, the upload stays in
    processing, it is never marked failed, no media row appears and the message
    stays in the queue. *)
Theorem encode_failure_never_settles job deliveries w :
  unencodable job w → deliveries ≠ [] →
  let w' := snd (for_each deliveries (λ x, handle_message x.1 x.2 job) w) in
  unencodable job w' ∧ w_queue w' = w_queue w ∧ media (w_db w') = media (w_db w) ∧
  (mu_status <$> media_uploads (w_db w') !! job_upload_id job) = Some Processing.
Proof using Type.
  assert (Hone : ∀ w clk id, unencodable job w → ∃ w', handle_message clk id job w = (Ok tt, w') ∧
    unencodable job w' ∧ w_queue w' = w_queue w ∧ media (w_db w') = media (w_db w) ∧
    (mu_status <$> media_uploads (w_db w') !! job_upload_id job) = Some Processing).
  { clear. intros [d rds q qu objs su] clk id (Hup & u & o & fmt & Hrow & Ho & Hst & Hobj & Hfmt & Hr).
    simpl in *. subst su.
    assert (Hg : bool_decide (mu_status u = Uploaded) || bool_decide (mu_status u = Processing) = true)
      by (destruct Hst as [-> | ->]; done).
    eexists. split.
    - unfold handle_message, try_, process_job, on_db, claim, fetch_and_render, get_object. unfold_m.
      run_step. cbn [w_db]. rewrite Hrow, Hg, (bool_decide_true (mu_owner_id u = _)) by done. simpl.
      rewrite Hobj, Hfmt, Hr. simpl. reflexivity.
    - split_and!; try done; simpl; [|by rewrite lookup_insert_eq]. split; [done|].
      exists (set_status Processing u), o, fmt. simpl. rewrite lookup_insert_eq. split_and!; try done. by right. }
  revert w. induction deliveries as [|[clk id] ds IH]; intros w Hw Hne; [done|].
  destruct (Hone w clk id Hw) as (w1 & Hrun & Hw1 & Hq1 & Hm1 & Hs1).
  cbn [for_each]. unfold mbind, M_bind. cbn [fst snd]. rewrite Hrun.
  destruct ds as [|x ds]; [simpl; done|].
  destruct (IH w1 Hw1) as (Hw2 & Hq2 & Hm2 & Hs2); [done|].
  split_and!; [done|congruence|congruence|done].
Qed.
End poison.

(** An image library that decodes everything and encodes nothing. *)
Definition broken_encoder : ImageLib := {|
  Image := Z * Z; img_decode := λ _ _, Some (1, 1); img_dimensions := id;
  img_thumbnail := λ _ i, i; img_encode := λ _ _, None |}.

Lemma encode_failure_never_settles_witness :
  let w' := snd (for_each [(mkClock 1 1, 60%N); (mkClock 2 2, 61%N)]
                   (λ x, @handle_message broken_encoder x.1 x.2 the_job) (upload_world Uploaded)) in
  w_queue w' = [the_job].
Proof.
  intros w'.
  destruct (@encode_failure_never_settles broken_encoder the_job [(mkClock 1 1, 60%N); (mkClock 2 2, 61%N)]
    (upload_world Uploaded)) as (_ & Hq & _); [|discriminate|exact Hq].
  split; [reflexivity|]. exists (mkUploadRow 1 "uploads/a.png" "image/png" 7 Uploaded 0 (Some 1) None),
    (mkObject "image/png" "..."), Png.
  split; [reflexivity|]. split; [reflexivity|]. split; [left; reflexivity|].
  split; [reflexivity|]. split; reflexivity.
Defined.
