(* ===== verification/Queue.v ===== *)
(** * The media queue

    [QueueClient] of [src/infra/queue.rs] over the SQS service, and one turn of the
    worker loop [run] of [src/jobs/media_processor.rs] that uses it. SQS itself is the
    interface [Sqs]; the theorem says that the client implements the queue of jobs
    that the rest of the development works with ([w_queue] of [World]), up to the
    order, which SQS does not promise. Other clients may use the queue between the
    receipt of a message and its deletion, and SQS may deliver a deleted message again. *)

From S2P Require Import Prelude Text Sql Domain Schema Redis World Media MediaWorker.
From stdpp Require Import options.

#[local] Open Scope Z_scope.

(** ** The service *)

Record RawMessage := mkRaw { receipt_handle : option string; body : option string }.

(** The calls of the SDK: an error is [false] or [None]. *)
Class Sqs := {
  Q : Type;
  send_message : string → Q → bool * Q;
  receive_message : Z → Q → option (list RawMessage) * Q;   (* the wait in seconds, at most one message *)
  delete_call : string → Q → bool * Q;
  (** The bodies of the messages that were sent and not deleted. *)
  bodies : Q → list (option string);
  (** The receipt handle was handed out for a message with this body, and that message
      has not been deleted. *)
  names : Q → string → option string → Prop;
  pending : Q → string → bool }.

(** Documented behaviour. A failed call may or may not have reached the service. A
    message can be delivered more than once, also after it was deleted: then its
    receipt handle names it, but it is not pending, and deleting it again succeeds. *)
Class SqsLaws `{Sqs} : Prop := {
  send_ok b q : fst (send_message b q) = true → bodies (snd (send_message b q)) ≡ₚ Some b :: bodies q;
  send_err b q : fst (send_message b q) = false →
    bodies (snd (send_message b q)) ≡ₚ bodies q ∨ bodies (snd (send_message b q)) ≡ₚ Some b :: bodies q;
  receive_keeps n q : bodies (snd (receive_message n q)) ≡ₚ bodies q;
  receive_names n q m l h : fst (receive_message n q) = Some (m :: l) → receipt_handle m = Some h →
    names (snd (receive_message n q)) h (body m);
  pending_body q h b : names q h b → pending q h = true → b ∈ bodies q;
  delete_ok q h b : names q h b → fst (delete_call h q) = true →
    bodies q ≡ₚ (if pending q h then [b] else []) ++ bodies (snd (delete_call h q));
  delete_err q h b : names q h b → fst (delete_call h q) = false →
    bodies (snd (delete_call h q)) ≡ₚ bodies q ∨
    pending q h = true ∧ bodies q ≡ₚ b :: bodies (snd (delete_call h q)) }.

(** [serde_json] on [MediaJob]. *)
Class JobCodec := { job_to_string : MediaJob → option string; job_from_str : string → option MediaJob }.
Class JobCodecLaws `{JobCodec} : Prop :=
  job_roundtrip j s : job_to_string j = Some s → job_from_str s = Some j.

Inductive QueueError := SerializeFailed | SdkFailed.

Record ReceivedJob := mkReceived { rj_job : MediaJob; rj_handle : string }.

(** ** The client *)

Module QueueClient.
Section client.
Context `{Sqs} `{JobCodec}.

(** A call of the SDK as a computation. *)
Definition call (f : Q → bool * Q) : M Q QueueError unit := λ q,
  let '(ok, q') := f q in (if ok : bool then Ok tt else Err SdkFailed, q').

Definition enqueue_media_job (job : MediaJob) : M Q QueueError unit :=
  body ← ok_or (job_to_string job) SerializeFailed;
  call (send_message body).

Definition delete_message (receipt_handle : string) : M Q QueueError unit := call (delete_call receipt_handle).

Definition receive (wait_time_seconds : Z) : M Q QueueError (list RawMessage) := λ q,
  let '(r, q') := receive_message wait_time_seconds q in
  (match r with Some messages => Ok messages | None => Err SdkFailed end, q').

Definition receive_media_job (wait_time_seconds : Z) : M Q QueueError (option ReceivedJob) :=
  messages ← receive wait_time_seconds;
  match messages with
  | [] => mret None
  | message :: _ =>
      match receipt_handle message with
      | None => mret None
      | Some handle =>
          match body message with
          | None => _ ← best_effort (delete_message handle); mret None
          | Some text =>
              match job_from_str text with
              | None => _ ← best_effort (delete_message handle); mret None
              | Some job => mret (Some (mkReceived job handle))
              end
          end
      end
  end.

(** The answers to [get_queue_url] and [create_queue] that [new] tells apart. *)
Inductive UrlReply := Url (u : option string) | DoesNotExist | OtherError (msg : string).
Inductive CreateReply := Created (u : option string) | CreateError (msg : string).

(** The queue URL [new] settles on; the queue is created when it does not exist. *)
Definition resolve_url (found : UrlReply) (create : CreateReply) : Result string string :=
  match found with
  | Url (Some u) => Ok u
  | Url None => Err "missing queue url"
  | DoesNotExist =>
      match create with
      | Created (Some u) => Ok u
      | Created None => Err "missing queue url"
      | CreateError msg => Err msg
      end
  | OtherError msg => Err msg
  end.
End client.
End QueueClient.

(** ** One turn of the worker loop *)

Definition POLL_WAIT_SECONDS : Z := 10.

Section turn.
Context `{Sqs} `{JobCodec} `{ImageLib}.

(** Process the job and settle a permanent failure. *)
Definition outcome_of (clk : Clock) (media_id : Uuid) (job : MediaJob) : M World WorkerError ProcessingOutcome :=
  r ← try_ (process_job clk media_id job);
  match r with
  | Ok outcome => mret outcome
  | Err err =>
      if is_permanent_error err then _ ← best_effort (on_db (mark_failed job)); mret JobCompleted
      else mret RetryLater
  end.

(** The body of the [loop] of [run]: the stores and the queue are separate services.
    [others] is what other clients and the service itself do to the queue while the job
    is processed: new messages, redeliveries, deletions. *)
Definition run_turn (others : Q → Q) (clk : Clock) (media_id : Uuid) (s : World * Q) : World * Q :=
  let '(w, q) := s in
  match QueueClient.receive_media_job POLL_WAIT_SECONDS q with
  | (Ok (Some message), q') =>
      match outcome_of clk media_id (rj_job message) w with
      | (Ok JobCompleted, w') => (w', snd (QueueClient.delete_message (rj_handle message) (others q')))
      | (_, w') => (w', others q')
      end
  | (_, q') => (w, q')
  end.

(** ** The queue the rest of the service sees *)

(** The jobs still to do: a body that is not a job is none. *)
Definition jobs (q : Q) : list MediaJob := omap (λ b, b ≫= job_from_str) (bodies q).
(** The messages that are not jobs. *)
Definition poison (q : Q) : nat := length (filter (λ b, b ≫= job_from_str = None) (bodies q)).
End turn.

(** ** The worker does not look at the queue *)

Definition with_queue (q : list MediaJob) (up : bool) (w : World) : World :=
  mkWorld (w_db w) (w_redis w) q up (w_objects w) (w_storage_up w).
Definition queue_blind {E A} (m : M World E A) : Prop :=
  ∀ q up w, m (with_queue q up w) = let '(r, w') := m w in (r, with_queue q up w').

Section blind.
Lemma blind_ret {E A} (a : A) : queue_blind (E := E) (mret a).
Proof. done. Qed.
Lemma blind_throw {E A} (e : E) : queue_blind (A := A) (throw e).
Proof. done. Qed.
Lemma blind_bind {E A B} (m : M World E A) (k : A → M World E B) :
  queue_blind m → (∀ a, queue_blind (k a)) → queue_blind (m ≫= k).
Proof.
  intros Hm Hk q up w. unfold mbind, M_bind. rewrite Hm. destruct (m w) as [[a|e] w']; [apply Hk|done].
Qed.
Lemma blind_on_db {E A} (m : M Db E A) : queue_blind (on_db m).
Proof. intros q up w. unfold on_db. simpl. by destruct (m (w_db w)). Qed.
Lemma blind_map_err {E E' A} (f : E → E') (m : M World E A) : queue_blind m → queue_blind (map_err f m).
Proof. intros Hm q up w. unfold map_err. rewrite Hm. by destruct (m w) as [[]]. Qed.
Lemma blind_try {E E' A} (m : M World E A) : queue_blind m → queue_blind (E := E') (try_ m).
Proof. intros Hm q up w. unfold try_. rewrite Hm. by destruct (m w). Qed.
Lemma blind_best_effort {E E' A} (m : M World E A) : queue_blind m → queue_blind (E := E') (best_effort m).
Proof. intros Hm q up w. unfold best_effort. rewrite Hm. by destruct (m w). Qed.
Lemma blind_ok_or {E A} (o : option A) (e : E) : queue_blind (ok_or o e).
Proof. by destruct o. Qed.
Lemma blind_from_result {E A} (r : Result E A) : queue_blind (from_result r).
Proof. done. Qed.
Lemma blind_get_object k : queue_blind (get_object k).
Proof.
  intros q up w. unfold get_object. unfold_m. simpl. destruct (w_storage_up w); [|done]. simpl.
  by destruct (w_objects w !! k).
Qed.
Lemma blind_upload k c d : queue_blind (upload_variant k c d).
Proof. intros q up w. unfold upload_variant. unfold_m. simpl. by destruct (w_storage_up w). Qed.

Context `{ImageLib}.
Lemma blind_process clk i job : queue_blind (process_job clk i job).
Proof using Type.
  unfold process_job, fetch_and_render.
  repeat lazymatch goal with
  | |- ∀ _, _ => intros ?
  | |- queue_blind (match _ with _ => _ end) => case_match
  | |- queue_blind _ =>
      first [ apply blind_get_object | apply blind_upload | apply blind_ok_or | apply blind_from_result
            | apply blind_ret | apply blind_map_err, blind_on_db | apply blind_bind ]
  end.
Qed.
Lemma blind_outcome clk i job : queue_blind (outcome_of clk i job).
Proof using Type.
  apply blind_bind; [apply blind_try, blind_process|]. intros [o|err]; [apply blind_ret|].
  case_match; [|apply blind_ret]. apply blind_bind; [apply blind_best_effort, blind_on_db|intros; apply blind_ret].
Qed.
(** [handle_message] is the outcome and the deletion. *)
Lemma handle_message_outcome clk i job w :
  snd (handle_message clk i job w) =
  match outcome_of clk i job w with
  | (Ok JobCompleted, w') => snd (delete_message job w')
  | (_, w') => w'
  end.
Proof using Type.
  unfold handle_message, outcome_of, try_. unfold_m. destruct (process_job clk i job w) as [[o|err] w']; cbn.
  - by destruct o.
  - by destruct (is_permanent_error err).
Qed.
Lemma outcome_queue clk i job w : w_queue (snd (outcome_of clk i job w)) = w_queue w ∧
  w_queue_up (snd (outcome_of clk i job w)) = w_queue_up w.
Proof using Type.
  pose proof (blind_outcome clk i job (w_queue w) (w_queue_up w) w) as Hb.
  assert (with_queue (w_queue w) (w_queue_up w) w = w) as He by (by destruct w). rewrite He in Hb.
  destruct (outcome_of clk i job w) as [r w']. injection Hb as Hb. simpl. rewrite Hb. done.
Qed.
End blind.

(** ** Multisets of jobs *)

Lemma remove_message_perm job l : job ∈ l → l ≡ₚ job :: remove_message job l.
Proof.
  induction l as [|j l IH]; [by intros ?%not_elem_of_nil|]. intros Hin. simpl. case_bool_decide as Hj; [by subst|].
  rewrite Permutation_swap, <-IH; [done|]. set_solver.
Qed.
Lemma remove_message_notin job l : job ∉ l → remove_message job l = l.
Proof.
  induction l as [|j l IH]; [done|]. intros Hn. simpl. rewrite bool_decide_false by set_solver. f_equal.
  apply IH. set_solver.
Qed.
Global Instance remove_message_proper job : Proper ((≡ₚ) ==> (≡ₚ)) (remove_message job).
Proof.
  intros l l' Hl. destruct (decide (job ∈ l)) as [Hin|Hn].
  - apply (Permutation_cons_inv (a := job)). rewrite <-!remove_message_perm; [done|by rewrite <-Hl|done].
  - rewrite !remove_message_notin; [done|by rewrite <-Hl|done].
Qed.
Lemma remove_message_cons job l l' : l ≡ₚ job :: l' → remove_message job l ≡ₚ l'.
Proof. intros ->. simpl. by rewrite bool_decide_true. Qed.

(** ** Refinement *)

Section refinement.
Context {sqs : Sqs} {sqs_laws : SqsLaws} {codec : JobCodec} {codec_laws : JobCodecLaws} {images : ImageLib}.

(** [W] is what the rest of the service sees of the stores and the queue [s]. *)
Definition implements (s : World * Q) (W : World) : Prop :=
  w_queue W ≡ₚ jobs s.2 ∧ W = with_queue (w_queue W) (w_queue_up W) s.1.

Lemma jobs_perm q q' : bodies q' ≡ₚ bodies q → jobs q' ≡ₚ jobs q.
Proof using Type. unfold jobs. by intros ->. Qed.
Lemma jobs_cons q q' b :
  bodies q ≡ₚ b :: bodies q' →
  jobs q ≡ₚ match b ≫= job_from_str with Some j => j :: jobs q' | None => jobs q' end.
Proof using Type. unfold jobs. intros ->. simpl. by destruct (b ≫= job_from_str). Qed.

Lemma implements_queue w q q' W l up :
  implements (w, q) W → l ≡ₚ jobs q' → implements (w, q') (with_queue l up W).
Proof using Type. intros [_ HW] Hl. split; [exact Hl|]. rewrite HW. done. Qed.
Lemma with_queue_id W : with_queue (w_queue W) (w_queue_up W) W = W.
Proof using Type. by destruct W. Qed.

(** Deleting the message a handle names. [reached] says whether the deletion took a
    pending message away; when the service confirmed it, that is whether it was
    pending. *)
Definition settled (q : Q) (h : string) (reached : bool) : Prop :=
  (reached = true → pending q h = true) ∧ (fst (delete_call h q) = true → reached = pending q h).
Lemma delete_spec q h b :
  names q h b → ∃ reached, settled q h reached ∧
    bodies q ≡ₚ (if reached then [b] else []) ++ bodies (snd (delete_call h q)).
Proof using sqs_laws.
  intros Hn. pose proof (delete_ok q h b Hn) as Ho. pose proof (delete_err q h b Hn) as He.
  unfold settled. destruct (delete_call h q) as [[] q']; simpl in *; [exists (pending q h); auto|].
  destruct (He eq_refl) as [Hs|[Hp Hs]]; [by exists false|by exists true].
Qed.
Lemma jobs_deleted q q' b (reached : bool) :
  bodies q ≡ₚ (if reached then [b] else []) ++ bodies q' →
  jobs q ≡ₚ (if reached then match b ≫= job_from_str with Some j => [j] | None => [] end else []) ++ jobs q'.
Proof using Type.
  destruct reached; simpl; [|intros ->%jobs_perm; done]. intros Hq%jobs_cons. rewrite Hq. by case_match.
Qed.
Lemma implements_stay w q q' W : implements (w, q) W → jobs q' ≡ₚ jobs q → implements (w, q') W.
Proof using Type. intros HW Hq. rewrite <-(with_queue_id W). eapply implements_queue; [done|]. rewrite Hq. apply HW. Qed.

Lemma enqueue_refines job w q W :
  implements (w, q) W →
  match QueueClient.enqueue_media_job job q with
  | (Ok _, q') => implements (w, q') (with_queue (w_queue W ++ [job]) true W)
  | (Err _, q') => implements (w, q') W ∨ implements (w, q') (with_queue (w_queue W ++ [job]) true W)
  end.
Proof using sqs_laws codec_laws.
  intros HW. unfold QueueClient.enqueue_media_job, QueueClient.call. unfold_m.
  destruct (job_to_string job) as [text|] eqn:Ht; cbn; [|by left].
  apply job_roundtrip in Ht.
  assert (Hadd : ∀ q', bodies q' ≡ₚ Some text :: bodies q → implements (w, q') (with_queue (w_queue W ++ [job]) true W)).
  { intros q' Hq. eapply implements_queue; [done|]. rewrite (jobs_cons q' q (Some text) Hq). simpl. rewrite Ht.
    rewrite Permutation_app_comm. simpl. by rewrite (proj1 HW). }
  pose proof (send_ok text q) as Ho. pose proof (send_err text q) as He.
  destruct (send_message text q) as [[] q']; simpl in *; [by apply Hadd, Ho|].
  destruct (He eq_refl) as [Hq|Hq]; [left|right; by apply Hadd].
  rewrite <-(with_queue_id W). eapply implements_queue; [done|]. rewrite (jobs_perm q q' Hq). apply HW.
Qed.

(** A message that is not a job is deleted, and the service sees no difference. *)
Lemma unreadable_refines w q W h b :
  implements (w, q) W → names q h b → b ≫= job_from_str = None →
  implements (w, snd (QueueClient.delete_message h q)) W ∧
  ∃ reached, settled q h reached ∧
    bodies q ≡ₚ (if reached then [b] else []) ++ bodies (snd (QueueClient.delete_message h q)).
Proof using sqs_laws.
  intros HW Hn Hb. destruct (delete_spec q h b Hn) as (reached & Hr & Hq).
  assert (snd (QueueClient.delete_message h q) = snd (delete_call h q)) as ->.
  { unfold QueueClient.delete_message, QueueClient.call. by destruct (delete_call h q). }
  split; [|by exists reached]. eapply implements_stay; [done|]. apply jobs_deleted in Hq. rewrite Hq, Hb.
  by destruct reached.
Qed.
(** A job is handled as the rest of the service sees it. *)
Lemma job_refines clk i w q2 W h text job :
  W = with_queue (w_queue W) (w_queue_up W) w → names q2 h (Some text) → job_from_str text = Some job →
  ∃ reached, settled q2 h reached ∧
    implements
      match outcome_of clk i job w with
      | (Ok JobCompleted, w') => (w', snd (QueueClient.delete_message h q2))
      | (_, w') => (w', q2)
      end (snd (handle_message clk i job (with_queue (jobs q2) reached W))).
Proof using sqs_laws.
  intros HW Hn Hj. destruct (delete_spec q2 h _ Hn) as (reached & Hr & Hq). exists reached. split; [done|].
  rewrite handle_message_outcome.
  assert (outcome_of clk i job (with_queue (jobs q2) reached W)
          = let '(r, w') := outcome_of clk i job w in (r, with_queue (jobs q2) reached w')) as ->.
  { rewrite <-(blind_outcome clk i job (jobs q2) reached w). f_equal. by rewrite HW. }
  destruct (outcome_of clk i job w) as [[[]|err] w1]; cbn; [|by split..].
  unfold delete_message, modifies. cbn.
  assert (snd (QueueClient.delete_message h q2) = snd (delete_call h q2)) as ->.
  { unfold QueueClient.delete_message, QueueClient.call. by destruct (delete_call h q2). }
  apply jobs_deleted in Hq. simpl in Hq. rewrite Hj in Hq. destruct reached; simpl in *; (split; [|done]); simpl.
  - by apply remove_message_cons.
  - exact Hq.
Qed.
Lemma turn_refines others clk i w q W :
  (∀ q h b, names q h b → names (others q) h b) → implements (w, q) W →
  let q1 := snd (receive_message POLL_WAIT_SECONDS q) in
  let s' := run_turn others clk i (w, q) in
  match fst (receive_message POLL_WAIT_SECONDS q) with
  | Some (mkRaw (Some h) b :: _) =>
      match b ≫= job_from_str with
      | None => s'.1 = w ∧ implements s' W ∧
          ∃ reached, settled q1 h reached ∧ bodies q1 ≡ₚ (if reached then [b] else []) ++ bodies s'.2
      | Some job => (pending q1 h = true → job ∈ w_queue W) ∧
          ∃ reached, settled (others q1) h reached ∧
            implements s' (snd (handle_message clk i job (with_queue (jobs (others q1)) reached W)))
      end
  | _ => s' = (w, q1) ∧ implements s' W
  end.
Proof using sqs_laws.
  intros Hoth HW. unfold run_turn, QueueClient.receive_media_job, QueueClient.receive.
  pose proof (receive_keeps POLL_WAIT_SECONDS q) as Hk. pose proof (receive_names POLL_WAIT_SECONDS q) as Hn. unfold_m.
  destruct (receive_message POLL_WAIT_SECONDS q) as [[[|[[h|] b] l]|] q1]; cbn in *;
    try (split; [done|]; eapply implements_stay; [done|by apply jobs_perm]).
  specialize (Hn _ _ h eq_refl eq_refl). simpl in Hn.
  assert (HW1 : implements (w, q1) W) by (eapply implements_stay; [done|by apply jobs_perm]).
  destruct (b ≫= job_from_str) as [job|] eqn:Hj.
  - destruct b as [text|]; [|done]. simpl in Hj. cbn. rewrite !Hj. split.
    + intros Hp. rewrite (proj1 HW1). cbn [snd]. unfold jobs. apply list_elem_of_omap. exists (Some text).
      split; [by eapply pending_body|done].
    + apply (job_refines clk i w (others q1) W h text job); [apply HW|auto..].
  - destruct b as [text|]; simpl in Hj; cbn; rewrite ?Hj; (split; [done|]); by apply unreadable_refines.
Qed.

(** C12: the queue client implements the job queue the service relies on. A job that
    was accepted is pending; an error leaves the queue as it was or with the job
    added. A turn of the worker loop follows the reply of the receive call: without a
    message nothing changes; a message that is not a job is deleted, and disappears
    when the deletion reaches the queue; a job is handled exactly as the service
    handles a job of its queue: its message stays when the job is to be retried, and
    goes away when the job is settled and the deletion reaches the queue, as it does
    whenever the service confirms it and the message was still pending. This holds
    whatever other clients do to the queue while the job is processed, and also for
    messages that are delivered again after their deletion. Several equal messages are
    kept apart. *)
Theorem queue_refines w q W :
  implements (w, q) W →
  (∀ job, match QueueClient.enqueue_media_job job q with
          | (Ok _, q') => implements (w, q') (with_queue (w_queue W ++ [job]) true W)
          | (Err _, q') => implements (w, q') W ∨ implements (w, q') (with_queue (w_queue W ++ [job]) true W)
          end) ∧
  ∀ others clk media_id, (∀ q h b, names q h b → names (others q) h b) →
    let q1 := snd (receive_message POLL_WAIT_SECONDS q) in
    let s' := run_turn others clk media_id (w, q) in
    match fst (receive_message POLL_WAIT_SECONDS q) with
    | Some (mkRaw (Some h) b :: _) =>
        match b ≫= job_from_str with
        | None => s'.1 = w ∧ implements s' W ∧
            ∃ reached, settled q1 h reached ∧ bodies q1 ≡ₚ (if reached then [b] else []) ++ bodies s'.2
        | Some job => (pending q1 h = true → job ∈ w_queue W) ∧
            ∃ reached, settled (others q1) h reached ∧
              implements s' (snd (handle_message clk media_id job (with_queue (jobs (others q1)) reached W)))
        end
    | _ => s' = (w, q1) ∧ implements s' W
    end.
Proof using sqs_laws codec_laws.
  intros HW. split; [intros; by apply enqueue_refines|intros; by apply turn_refines].
Qed.
End refinement.

(** ** A queue at hand *)

(** The messages by their handles, with what became of them. A deleted message is
    delivered once more when there is no other. *)
Definition map_bodies (q : gmap string (option string * bool)) : list (option string) :=
  omap (λ kv, if kv.2.2 : bool then Some kv.2.1 else None) (map_to_list q).
Definition map_pending (q : gmap string (option string * bool)) (h : string) : bool :=
  match q !! h with Some (_, p) => p | None => false end.
Definition next_message (q : gmap string (option string * bool)) : list RawMessage :=
  (λ kv, mkRaw (Some kv.1) kv.2.1)
    <$> take 1 (filter (λ kv, kv.2.2 = true) (map_to_list q) ++ map_to_list q).
Definition map_sqs : Sqs := {|
  Q := gmap string (option string * bool);
  send_message b q := (true, <[fresh (dom q) := (Some b, true)]> q);
  receive_message _ q := (Some (next_message q), q);
  delete_call h q := (true, alter (λ x, (x.1, false)) h q);
  bodies := map_bodies;
  names q h b := ∃ p, q !! h = Some (b, p);
  pending := map_pending |}.
Lemma map_bodies_insert q h b p :
  q !! h = None → map_bodies (<[h := (b, p)]> q) ≡ₚ (if p : bool then [b] else []) ++ map_bodies q.
Proof. intros Hh. unfold map_bodies. rewrite map_to_list_insert by done. simpl. by destruct p. Qed.
Lemma map_sqs_laws : @SqsLaws map_sqs.
Proof.
  split; simpl; try done.
  - intros b q _. apply (map_bodies_insert q _ (Some b) true). apply not_elem_of_dom, is_fresh.
  - intros n q m l h Hm Hh. injection Hm as Hm. unfold next_message in Hm.
    assert (Hin : m ∈ m :: l) by left. rewrite <-Hm in Hin. apply list_elem_of_fmap in Hin as (kv & -> & Hin); destruct kv as [k [b p]].
    injection Hh as <-. simpl. exists p. apply elem_of_map_to_list.
    apply (subseteq_take _ _ _) in Hin. apply elem_of_app in Hin as [[_ Hin]%list_elem_of_filter|Hin]; done.
  - intros q h b [p Hp] Hpe. unfold map_pending in Hpe. rewrite Hp in Hpe. subst p.
    apply list_elem_of_omap. exists (h, (b, true)). split; [by apply elem_of_map_to_list|done].
  - intros q h b [p Hp] _. unfold map_pending. rewrite Hp.
    rewrite <-(insert_delete_id q h (b, p)) at 1 2 by done.
    rewrite alter_insert_eq, !map_bodies_insert by apply lookup_delete_eq. simpl. done.
Qed.
Definition one_job_codec : JobCodec := {|
  job_to_string j := if decide (j = the_job) then Some "job" else None;
  job_from_str s := if decide (s = "job") then Some the_job else None |}.
Lemma one_job_laws : @JobCodecLaws one_job_codec.
Proof. intros j s. simpl. case_decide; [|done]. intros [= <-]. by subst. Qed.

(** The upload of the sample is processed from the queue; while it is processed another
    message arrives. *)
#[local] Existing Instances map_sqs map_sqs_laws one_job_codec one_job_laws ToyImage.toy_image.
Definition one_message : Q := {[ "b" := (Some "job", true) ]}.
Lemma insert_fresh_lookup {V} (m : gmap string V) h x v : m !! h = Some v → <[fresh (dom m) := x]> m !! h = Some v.
Proof.
  intros Hh. rewrite lookup_insert_ne; [done|]. intros Hf. apply (is_fresh (dom m)). rewrite Hf. by eapply elem_of_dom_2.
Qed.
Definition another (q : Q) : Q := snd (send_message "more" q).
Lemma another_names (q : Q) h b : names q h b → names (another q) h b.
Proof. intros [p Hp]. exists p. exact (insert_fresh_lookup _ _ _ _ Hp). Qed.
Lemma queue_refines_witness :
  let w := upload_world Uploaded in
  let W := with_queue [the_job] true w in
  let q := one_message in
  let s' := run_turn another (mkClock 5 5) 60 (w, q) in
  implements (w, q) W ∧
  (∃ reached, settled (another q) "b" reached ∧
     implements s' (snd (handle_message (mkClock 5 5) 60 the_job (with_queue (jobs (another q)) reached W)))) ∧
  bodies s'.2 = [Some "more"] ∧ has_key 60%N (media (w_db s'.1)) = true.
Proof.
  intros w W q s'. assert (HW : implements (w, q) W) by (split; vm_compute; reflexivity).
  split; [exact HW|]. split; [|split; vm_compute; reflexivity].
  apply (proj2 (proj2 (queue_refines w q W HW) another (mkClock 5 5) 60%N another_names)).
Defined.
