(* ===== verification/Cleanup.v ===== *)
(** * Cleanup job

    [src/jobs/cleanup.rs] with the two SQL functions it calls ([migrations/006]
    and [migrations/007]): one round of the hourly loop, its backoff, and the
    re-enqueueing of uploads that got stuck. *)

From S2P Require Import Prelude Sql Domain Schema World Trust Invites Stories Media.
From stdpp Require Import options.

#[local] Open Scope Z_scope.

Definition hours (n : Z) : Z := seconds (n * 3600).
Definition minutes (n : Z) : Z := seconds (n * 60).
Definition STALE_UPLOAD_THRESHOLD : Z := minutes 15.
Definition STALE_UPLOAD_BATCH : nat := 100.

(** Which statements of the round the database answers; the others fail and
    change nothing. *)
Record Health := mkHealth { stories_ok : bool; invites_ok : bool; ages_ok : bool; stale_ok : bool }.

(** [DELETE FROM stories WHERE expires_at < now() - interval '48 hours']. *)
Definition delete_expired_stories (clk : Clock) : Db → Db :=
  delete_story_rows (λ _ s, s_expires_at s <? db_now clk - hours 48).

Definition cleanup_expired_invites (clk : Clock) : Db → Db :=
  set_invite_codes (delete_where
    (λ _ i, (ic_expires_at i <? db_now clk - days 30) && negb (ic_is_valid i))).

(** [EXTRACT(DAY FROM (NOW() - created_at))::INT]: whole days of the interval. *)
Definition age_of (clk : Clock) (r : TrustRow) : Z := (db_now clk - ts_created_at r) ÷ days 1.
Definition update_account_ages (clk : Clock) : Db → Db :=
  set_user_trust_scores (update_where (λ _ _, true) (λ r,
    mkTrustRow (ts_trust_level r) (ts_trust_points r) (age_of clk r) (ts_posts_count r)
      (ts_comments_count r) (ts_likes_received_count r) (ts_followers_count r) (ts_flags_received r)
      (ts_strikes r) (ts_banned_until r) (ts_created_at r) (db_now clk) (ts_last_activity_at r)
      (ts_invites_sent r) (ts_successful_invites r))).

(** The [WHERE] of the stale-upload query. *)
Definition is_stale (clk : Clock) (u : UploadRow) : bool :=
  (bool_decide (mu_status u = Uploaded) || bool_decide (mu_status u = Processing))
  && (default (mu_created_at u) (mu_uploaded_at u) <? db_now clk - STALE_UPLOAD_THRESHOLD).

(** [ORDER BY created_at]; equal instants come in the order of the table. *)
Definition older (a b : Time * MediaJob) : Prop := a.1 ≤ b.1.
#[local] Instance older_dec : RelDecision older := λ a b, Z_le_dec a.1 b.1.

Definition stale_rows (clk : Clock) (d : Db) : list (Time * MediaJob) :=
  select (λ k u, if is_stale clk u
                 then Some (mu_created_at u, mkMediaJob k (mu_owner_id u) (mu_original_key u)) else None)
    (media_uploads d).
Definition stale_jobs (clk : Clock) (d : Db) : list MediaJob :=
  snd <$> take STALE_UPLOAD_BATCH (merge_sort older (stale_rows clk d)).

Definition requeue_stale_uploads (clk : Clock) (ok : bool) : M World MediaError unit :=
  if ok then
    w ← get_db;
    for_each (stale_jobs clk (w_db w)) (λ job, best_effort (enqueue_media_job job))
  else mret tt.

(** [backoff_secs = (backoff_secs.max(1) * 2).min(300)]. *)
Definition next_backoff (backoff : Z) : Z := Z.min (Z.max backoff 1 * 2) 300.

(** One round of [run_cleanup_loop] after its timer: the new [backoff_secs] and the
    world. *)
Definition cleanup_round (clk : Clock) (h : Health) (backoff : Z) (w : World) : Z * World :=
  if stories_ok h then
    let backoff := 0 in
    let d := delete_expired_stories clk (w_db w) in
    let '(backoff, d) := if invites_ok h then (backoff, cleanup_expired_invites clk d)
                         else (next_backoff backoff, d) in
    let d := if ages_ok h then update_account_ages clk d else d in
    (backoff, snd (requeue_stale_uploads clk (stale_ok h) (set_w_db d w)))
  else (next_backoff backoff, w).

Fixpoint cleanup_loop (rounds : list (Clock * Health)) (backoff : Z) (w : World) : Z * World :=
  match rounds with
  | [] => (backoff, w)
  | (clk, h) :: rounds' =>
      let '(backoff, w) := cleanup_round clk h backoff w in cleanup_loop rounds' backoff w
  end.

(** ** Lemmas *)

Lemma enqueue_best_effort job w :
  best_effort (E' := MediaError) (enqueue_media_job job) w
  = (Ok tt, if w_queue_up w then set_w_queue (w_queue w ++ [job]) w else w).
Proof. unfold enqueue_media_job. unfold_m. by destruct (w_queue_up w). Qed.

Lemma enqueue_all_run jobs w :
  snd (for_each (E := MediaError) jobs (λ job, best_effort (enqueue_media_job job)) w)
  = if w_queue_up w then set_w_queue (w_queue w ++ jobs) w else w.
Proof.
  revert w. induction jobs as [|job jobs IH]; intros w.
  { destruct w; simpl. rewrite app_nil_r. by case_match. }
  cbn [for_each]. unfold mbind, M_bind. rewrite enqueue_best_effort, IH.
  destruct (w_queue_up w) eqn:Hq; [|by rewrite Hq]. simpl. rewrite Hq. unfold set_w_queue. simpl.
  by rewrite <-app_assoc.
Qed.

Lemma elem_of_stale_rows clk d t job :
  (t, job) ∈ stale_rows clk d ↔
  ∃ u, media_uploads d !! job_upload_id job = Some u ∧ is_stale clk u = true ∧ t = mu_created_at u ∧
       job_owner_id job = mu_owner_id u ∧ job_original_key job = mu_original_key u.
Proof.
  unfold stale_rows. rewrite elem_of_select. split.
  - intros (k & u & Hk & Hf). case_match eqn:Hs; [|done]. injection Hf as <- <-. simpl. by exists u.
  - intros (u & Hk & Hs & -> & Ho & Hkey). exists (job_upload_id job), u. split; [done|].
    rewrite Hs, <-Ho, <-Hkey. by destruct job.
Qed.

(** The batch holds stale uploads only, and all of them when they fit. *)
Lemma stale_jobs_spec clk d job :
  (job ∈ stale_jobs clk d → ∃ t, (t, job) ∈ stale_rows clk d) ∧
  ((length (stale_rows clk d) ≤ STALE_UPLOAD_BATCH)%nat →
   ∀ t, (t, job) ∈ stale_rows clk d → job ∈ stale_jobs clk d).
Proof.
  assert (Hperm : merge_sort older (stale_rows clk d) ≡ₚ stale_rows clk d) by apply merge_sort_Permutation.
  unfold stale_jobs. split.
  - intros [[t j] [-> Hin]]%list_elem_of_fmap. exists t. rewrite <-Hperm.
    by apply elem_of_take in Hin as (i & Hi%list_elem_of_lookup_2 & _).
  - intros Hlen t Hin. apply list_elem_of_fmap. exists (t, job). split; [done|].
    rewrite take_ge by (by rewrite Hperm). by rewrite Hperm.
Qed.

Lemma requeue_run clk ok w :
  snd (requeue_stale_uploads clk ok w)
  = if ok && w_queue_up w then set_w_queue (w_queue w ++ stale_jobs clk (w_db w)) w else w.
Proof.
  unfold requeue_stale_uploads. destruct ok; [|done]. unfold mbind, M_bind, get_db.
  rewrite enqueue_all_run. done.
Qed.
Lemma requeue_db clk ok w : w_db (snd (requeue_stale_uploads clk ok w)) = w_db w.
Proof. rewrite requeue_run. by case_match. Qed.

Lemma stale_jobs_ext clk d d' : media_uploads d' = media_uploads d → stale_jobs clk d' = stale_jobs clk d.
Proof. intros He. unfold stale_jobs, stale_rows. by rewrite He. Qed.

(** The database the round leaves to the stale-upload query. *)
Definition round_db (clk : Clock) (h : Health) (d : Db) : Db :=
  (if ages_ok h then update_account_ages clk else id)
    ((if invites_ok h then cleanup_expired_invites clk else id) (delete_expired_stories clk d)).

Lemma round_db_uploads clk h d : media_uploads (round_db clk h d) = media_uploads d.
Proof. unfold round_db. by destruct (ages_ok h), (invites_ok h). Qed.

Lemma cleanup_round_world clk h b w :
  stories_ok h = true →
  snd (cleanup_round clk h b w) =
  snd (requeue_stale_uploads clk (stale_ok h) (set_w_db (round_db clk h (w_db w)) w)).
Proof.
  intros Hs. unfold cleanup_round, round_db. rewrite Hs.
  destruct (invites_ok h), (ages_ok h); cbn [snd]; reflexivity.
Qed.

Lemma cleanup_round_db clk h b w :
  stories_ok h = true → w_db (snd (cleanup_round clk h b w)) = round_db clk h (w_db w).
Proof. intros Hs. rewrite cleanup_round_world by done. by rewrite requeue_db. Qed.

Lemma trust_inv_ages clk d : trust_inv d → trust_inv (update_account_ages clk d).
Proof.
  intros Hd u r. simpl. rewrite lookup_update_where.
  destruct (user_trust_scores d !! u) as [r0|] eqn:Hu; simpl; [|done]. intros [= <-].
  destruct (Hd _ _ Hu) as [Hp Hs]. by split.
Qed.
Lemma invite_inv_cleanup clk d : invite_inv d → invite_inv (cleanup_expired_invites clk d).
Proof. intros Hd c r. simpl. intros [Hc _]%lookup_delete_where. by eapply Hd. Qed.

Lemma story_inv_ext d d' :
  stories d' = stories d → story_views d' = story_views d → story_reactions d' = story_reactions d →
  story_inv d → story_inv d'.
Proof.
  intros Hs Hv Hr [H1 H2 H3 H4]. unfold views_count, reactions_count in *.
  split; unfold views_count, reactions_count; rewrite ?Hs, ?Hv, ?Hr; assumption.
Qed.

(** What the round must not touch. *)
Definition housekeeping_inv (d : Db) : Prop := story_inv d ∧ trust_inv d ∧ invite_inv d.

Lemma cleanup_round_inv clk h b w :
  housekeeping_inv (w_db w) → housekeeping_inv (w_db (snd (cleanup_round clk h b w))).
Proof.
  intros (Hs & Ht & Hi). destruct (stories_ok h) eqn:Hok; [|unfold cleanup_round; by rewrite Hok].
  rewrite cleanup_round_db by done. unfold round_db. split_and!.
  - assert (story_inv (delete_expired_stories clk (w_db w))) as H by (by apply story_inv_delete).
    revert H. generalize (delete_expired_stories clk (w_db w)). intros d.
    apply story_inv_ext; by destruct (ages_ok h), (invites_ok h).
  - assert (∀ d, trust_inv d → trust_inv ((if ages_ok h then update_account_ages clk else id) d)) as H
      by (intros d Hd; destruct (ages_ok h); [by apply trust_inv_ages|done]).
    apply H. by destruct (invites_ok h).
  - assert (invite_inv ((if invites_ok h then cleanup_expired_invites clk else id)
              (delete_expired_stories clk (w_db w)))) as H
      by (destruct (invites_ok h); [by apply invite_inv_cleanup|done]).
    by destruct (ages_ok h).
Qed.

Lemma next_backoff_bounds b : 0 ≤ b ≤ 300 → 0 ≤ next_backoff b ≤ 300.
Proof. unfold next_backoff. lia. Qed.

Lemma cleanup_round_backoff clk h b w : 0 ≤ b ≤ 300 → 0 ≤ fst (cleanup_round clk h b w) ≤ 300.
Proof.
  intros Hb. unfold cleanup_round. destruct (stories_ok h); [|by apply next_backoff_bounds].
  destruct (invites_ok h); cbn [fst]; unfold next_backoff; lia.
Qed.

(** The cleanup loop is safe to run for ever: over any sequence of rounds, with
    any of its statements failing, the counters of every story stay equal to its
    views and reactions, the trust rows and invites keep their invariants, and the
    pause before a retry stays between 0 and 300 seconds. *)
Theorem cleanup_loop_safe rounds b w :
  housekeeping_inv (w_db w) → 0 ≤ b ≤ 300 →
  let '(b', w') := cleanup_loop rounds b w in housekeeping_inv (w_db w') ∧ 0 ≤ b' ≤ 300.
Proof.
  revert b w. induction rounds as [|[clk h] rounds IH]; intros b w Hw Hb; simpl; [done|].
  pose proof (cleanup_round_inv clk h b w Hw). pose proof (cleanup_round_backoff clk h b w Hb).
  destruct (cleanup_round clk h b w) as [b1 w1]. by apply IH.
Qed.

Definition healthy : Health := mkHealth true true true true.

Lemma requeue_queue clk ok d w :
  w_queue (snd (requeue_stale_uploads clk ok (set_w_db d w))) =
  w_queue w ++ if ok && w_queue_up w then stale_jobs clk d else [].
Proof.
  rewrite requeue_run. destruct w as [d0 r q up o su]. unfold set_w_db.
  cbn [w_redis w_queue w_queue_up w_objects w_storage_up w_db].
  destruct (ok && up); [reflexivity|]. symmetry. apply app_nil_r.
Qed.

Lemma cleanup_round_queue clk h b w :
  stories_ok h = true →
  w_queue (snd (cleanup_round clk h b w)) =
  w_queue w ++ if stale_ok h && w_queue_up w then stale_jobs clk (w_db w) else [].
Proof.
  intros Hs. rewrite cleanup_round_world, requeue_queue by done.
  by rewrite (stale_jobs_ext clk (w_db w)) by apply round_db_uploads.
Qed.

Lemma stale_batch clk (up : bool) d :
  let jobs := if up then stale_jobs clk d else [] in
  (∀ job, job ∈ jobs → ∃ t, (t, job) ∈ stale_rows clk d) ∧
  (up = true → (length (stale_rows clk d) ≤ STALE_UPLOAD_BATCH)%nat →
   ∀ t job, (t, job) ∈ stale_rows clk d → job ∈ jobs).
Proof.
  destruct up; cbv zeta; split; [| | |done].
  - intros job. apply stale_jobs_spec.
  - intros _ Hlen t job. apply (proj2 (stale_jobs_spec clk d job) Hlen).
  - intros job Hin. by apply not_elem_of_nil in Hin.
Qed.

(** What one round does when the database answers: exactly the stories that
    expired more than 48 hours ago go, every account age becomes its number of
    whole days, and the queue gains at its end only jobs of uploads stuck for more
    than 15 minutes, built from their own rows; all of them if there are at most
    100, so that a lost queue message is always made up for. *)
Theorem cleanup_round_exact clk b w :
  let '(b', w') := cleanup_round clk healthy b w in
  b' = 0 ∧
  (∀ id s, stories (w_db w') !! id = Some s ↔
     stories (w_db w) !! id = Some s ∧ db_now clk - hours 48 ≤ s_expires_at s) ∧
  (∀ u r, user_trust_scores (w_db w') !! u = Some r → ts_account_age_days r = age_of clk r) ∧
  ∃ jobs, w_queue w' = w_queue w ++ jobs ∧
    (∀ job, job ∈ jobs → ∃ t, (t, job) ∈ stale_rows clk (w_db w)) ∧
    (w_queue_up w = true → (length (stale_rows clk (w_db w)) ≤ STALE_UPLOAD_BATCH)%nat →
     ∀ t job, (t, job) ∈ stale_rows clk (w_db w) → job ∈ jobs).
Proof.
  pose proof (cleanup_round_db clk healthy b w eq_refl) as Hdb.
  pose proof (cleanup_round_queue clk healthy b w eq_refl) as Hq.
  assert (Hb : fst (cleanup_round clk healthy b w) = 0) by reflexivity.
  destruct (cleanup_round clk healthy b w) as [b' w']. cbn [fst snd] in *. split; [done|]. split; [|split].
  - intros id s. rewrite Hdb. simpl. by rewrite lookup_delete_where, Z.ltb_ge.
  - intros u r. rewrite Hdb. simpl. rewrite lookup_update_where.
    destruct (user_trust_scores (w_db w) !! u); simpl; [|done]. by intros [= <-].
  - eexists. split; [exact Hq|]. apply stale_batch.
Qed.

(** An upload stuck since its first minute and a story that is long gone. *)
Definition stuck_world : World :=
  mkWorld (set_media_uploads (λ _, {[ 50%N := mkUploadRow 1 "k" "image/png" 7 Uploaded 0 (Some 1) None ]}) empty_db)
    (Redis.mkRedis true ∅) [] true ∅ true.

Lemma cleanup_loop_safe_witness :
  let rounds := [(mkClock (hours 1) 0, healthy); (mkClock (hours 2) 0, mkHealth false true true true)] in
  fst (cleanup_loop rounds 0 stuck_world) = 2 ∧ 0 ≤ fst (cleanup_loop rounds 0 stuck_world) ≤ 300.
Proof.
  intros rounds. pose proof (cleanup_loop_safe rounds 0 stuck_world) as H.
  assert (fst (cleanup_loop rounds 0 stuck_world) = 2) as H2 by (vm_compute; reflexivity).
  destruct (cleanup_loop rounds 0 stuck_world) as [b' w']. destruct H as [_ Hb].
  - split; [|split].
    + split; intros; vm_compute in *; discriminate.
    + intros u r Hr. vm_compute in Hr. discriminate.
    + intros c r Hr. vm_compute in Hr. discriminate.
  - lia.
  - split; [exact H2|exact Hb].
Defined.

Example stuck_upload_requeued :
  w_queue (snd (cleanup_round (mkClock (hours 1) 0) healthy 0 stuck_world))
  = [mkMediaJob 50 1 "k"].
Proof. vm_compute. reflexivity. Qed.
