(* ===== verification/Http.v ===== *)
(** * HTTP: errors, validation, cursors and extractors

    [src/http/error.rs], [src/http/validation.rs], the cursor functions of
    [src/http/handlers.rs] and the two extractors of [src/http/auth.rs]. The [time]
    crate's RFC 3339 codec and [Uuid::parse_str] are the interface [CursorCodec]. *)

From S2P Require Import Prelude Text Sql Keyset Domain Schema Crypto Auth World.
From Stdlib Require Import Ascii.
From stdpp Require Import options.

#[local] Open Scope Z_scope.

(** ** Requests and responses *)

Record AppError := mkAppError { err_status : Z; err_message : string; err_headers : list (string * string) }.

Definition bad_request (message : string) : AppError := mkAppError 400 message [].
Definition not_found (message : string) : AppError := mkAppError 404 message [].
Definition not_implemented (message : string) : AppError := mkAppError 501 message [].
Definition unauthorized (message : string) : AppError := mkAppError 401 message [].
Definition conflict (message : string) : AppError := mkAppError 409 message [].
Definition internal (message : string) : AppError := mkAppError 500 message [].
Definition rate_limited (message : string) : AppError := mkAppError 429 message [].
Definition forbidden (message : string) : AppError := mkAppError 403 message [].
Definition rate_limited_with_headers (message : string) (limit remaining : Z) : AppError :=
  mkAppError 429 message
    [("x-ratelimit-limit", pretty limit); ("x-ratelimit-remaining", pretty remaining); ("retry-after", "60")].

Record Response := mkResponse { rs_status : Z; rs_headers : gmap string string; rs_body : Json }.

Definition insert_header (name value : string) (r : Response) : Response :=
  mkResponse (rs_status r) (<[name := value]> (rs_headers r)) (rs_body r).

(** [IntoResponse for AppError]; header names are case-insensitive and kept in
    lower case. *)
Definition into_response (e : AppError) : Response :=
  foldl (λ r nv, insert_header nv.1 nv.2 r)
    (mkResponse (err_status e) {[ "content-type" := "application/json" ]}
       (JObject [("error", JString (err_message e))])) (err_headers e).

(** ** Validation *)

(** The code point of a character given by its UTF-8 bytes. *)
Definition code_point (c : string) : N :=
  match bytes_of c with
  | [a] => N_of_ascii a
  | [a; b] => (N_of_ascii a - 192) * 64 + (N_of_ascii b - 128)
  | [a; b; c] => (N_of_ascii a - 224) * 4096 + (N_of_ascii b - 128) * 64 + (N_of_ascii c - 128)
  | [a; b; c; d] => (N_of_ascii a - 240) * 262144 + (N_of_ascii b - 128) * 4096
                    + (N_of_ascii c - 128) * 64 + (N_of_ascii d - 128)
  | _ => 0
  end%N.

Definition in_range (lo hi x : N) : bool := ((lo <=? x) && (x <=? hi))%N.

(** [char::is_whitespace]: the code points with the property White_Space. *)
Definition is_whitespace (c : string) : bool :=
  let p := code_point c in
  in_range 9 13 p || in_range 32 32 p || in_range 133 133 p || in_range 160 160 p || in_range 5760 5760 p
  || in_range 8192 8202 p || in_range 8232 8233 p || in_range 8239 8239 p || in_range 8287 8287 p
  || in_range 12288 12288 p.

Fixpoint drop_while (p : string → bool) (l : list string) : list string :=
  match l with [] => [] | x :: l' => if p x then drop_while p l' else l end.

(** [str::trim]. *)
Definition trim_chars (l : list string) : list string :=
  reverse (drop_while is_whitespace (reverse (drop_while is_whitespace l))).
Definition trim (s : string) : string := join (trim_chars (chars s)).

Definition is_empty (s : string) : bool := match s with EmptyString => true | _ => false end.

Definition MAX_HANDLE_LEN : nat := 30.
Definition MIN_HANDLE_LEN : nat := 3.

Definition required_trimmed (field value : string) : Result AppError string :=
  let trimmed := trim value in
  if is_empty trimmed then Err (bad_request (field +:+ " is required")) else Ok trimmed.

(** [value.len()] counts bytes. *)
Definition validate_max_len (field value : string) (max_len : nat) : Result AppError unit :=
  if (max_len <? String.length value)%nat
  then Err (bad_request (field +:+ " must be at most " +:+ pretty max_len +:+ " characters"))
  else Ok tt.

Definition is_ascii_alphanumeric (c : string) : bool :=
  let p := code_point c in in_range 48 57 p || in_range 65 90 p || in_range 97 122 p.
Definition handle_char (c : string) : bool := is_ascii_alphanumeric c || bool_decide (c = "_").

Definition validate_handle (handle : string) : Result AppError unit :=
  let handle := trim handle in
  if (String.length handle <? MIN_HANDLE_LEN)%nat then Err (bad_request "handle must be at least 3 characters")
  else if (MAX_HANDLE_LEN <? String.length handle)%nat
  then Err (bad_request "handle must be at most 30 characters")
  else if negb (forallb handle_char (chars handle))
  then Err (bad_request "handle can only contain letters, numbers, and underscores")
  else Ok tt.

(** ** Cursors *)

Class CursorCodec := {
  rfc3339_format : Time → option string;
  rfc3339_parse : string → option Time;
  uuid_parse_str : string → option Uuid }.

(** Documented behaviour: what was formatted parses back, an RFC 3339 instant
    contains no slash, and the hyphenated form of a uuid parses. *)
Class CursorLaws `{CursorCodec} : Prop := {
  rfc3339_roundtrip t s : rfc3339_format t = Some s → rfc3339_parse s = Some t;
  rfc3339_no_slash t s : rfc3339_format t = Some s → lacks "/" s = true;
  uuid_roundtrip u : valid_uuid u → uuid_parse_str (uuid_str u) = Some u }.

(** [splitn(2, '/')] when there is a slash. *)
Fixpoint split_slash (s : string) : option (string * string) :=
  match s with
  | EmptyString => None
  | String c s' =>
      if decide (c = "/"%char) then Some (EmptyString, s')
      else (λ p, (String c p.1, p.2)) <$> split_slash s'
  end.

Section cursor.
Context `{CursorCodec}.

Definition parse_cursor (cursor : option string) : Result AppError (option Key) :=
  match cursor with
  | None => Ok None
  | Some cursor =>
      match split_slash cursor with
      | None => Err (bad_request "invalid cursor")
      | Some (timestamp, id) =>
          match rfc3339_parse timestamp, uuid_parse_str id with
          | Some t, Some u => Ok (Some (t, u))
          | _, _ => Err (bad_request "invalid cursor")
          end
      end
  end.

Definition encode_cursor (cursor : option Key) : option string :=
  k ← cursor;
  timestamp ← rfc3339_format k.1;
  Some (timestamp +:+ "/" +:+ uuid_str k.2).

Lemma split_slash_app s t : lacks "/" s = true → split_slash (s +:+ "/" +:+ t) = Some (s, t).
Proof using Type.
  induction s as [|c s IH]; intros Hs; [done|].
  unfold lacks in Hs. simpl in Hs. apply andb_true_iff in Hs as [Hc Hs]. bool_to_prop.
  change (String c s +:+ "/" +:+ t) with (String c (s +:+ "/" +:+ t)). cbn [split_slash].
  rewrite decide_False by done. by rewrite IH.
Qed.

Lemma split_slash_some s t u : split_slash s = Some (t, u) → s = t +:+ "/" +:+ u.
Proof using Type.
  revert t. induction s as [|c s IH]; intros t; simpl; [done|].
  destruct (decide (c = "/"%char)) as [->|Hc]; [by intros [= <- <-]|].
  destruct (split_slash s) as [[a b]|]; simpl; [|done]. intros [= <- <-].
  change (String c a +:+ "/" +:+ b) with (String c (a +:+ "/" +:+ b)). f_equal. by apply IH.
Qed.

Lemma parse_cursor_err c err : parse_cursor c = Err err → err = bad_request "invalid cursor".
Proof using Type. unfold parse_cursor. repeat case_match; congruence. Qed.

(** A cursor handed to a client comes back as the same position, and the
    decoder is strict: parsing an encoded cursor gives the key it was made from,
    and any string it accepts is a timestamp, a slash and a uuid that parse to the
    key it returns; everything else is rejected with 400. *)
Theorem cursor_roundtrip `{!CursorLaws} k s input :
  valid_uuid k.2 → encode_cursor (Some k) = Some s →
  parse_cursor (Some s) = Ok (Some k) ∧
  match parse_cursor (Some input) with
  | Ok (Some (t, u)) => ∃ ts id, input = ts +:+ "/" +:+ id ∧ rfc3339_parse ts = Some t ∧
                                 uuid_parse_str id = Some u
  | Ok None => False
  | Err e => e = bad_request "invalid cursor"
  end.
Proof using Type.
  intros Hu. destruct k as [t u]. unfold encode_cursor. simpl.
  destruct (rfc3339_format t) as [ts|] eqn:Hf; simpl; [|done]. intros [= <-]. split.
  - rewrite split_slash_app by (by eapply rfc3339_no_slash).
    by rewrite (rfc3339_roundtrip _ _ Hf), (uuid_roundtrip _ Hu).
  - destruct (split_slash input) as [[a b]|] eqn:Hs; [|done]. apply split_slash_some in Hs as ->.
    destruct (rfc3339_parse a) as [t'|] eqn:Ha; [|done].
    destruct (uuid_parse_str b) as [u'|] eqn:Hb; [|done]. by exists a, b.
Qed.
End cursor.

(** A clock with one instant, to have a codec at hand. *)
Definition toy_cursor : CursorCodec := {|
  rfc3339_format := λ t, if decide (t = 7) then Some "1970-01-01T00:00:00.000007Z" else None;
  rfc3339_parse := λ s, if decide (s = "1970-01-01T00:00:00.000007Z") then Some 7 else None;
  uuid_parse_str := λ s, Some (uuid_of_str s) |}.
Lemma toy_cursor_laws : @CursorLaws toy_cursor.
Proof.
  split; simpl.
  - intros t s. case_decide; [|done]. intros [= <-]. subst t. reflexivity.
  - intros t s. case_decide; [|done]. by intros [= <-].
  - intros u Hu. by rewrite uuid_of_str_spec.
Qed.

Lemma cursor_roundtrip_witness :
  @parse_cursor toy_cursor (@encode_cursor toy_cursor (Some (7, 258%N))) = Ok (Some (7, 258%N)).
Proof.
  apply (@cursor_roundtrip toy_cursor toy_cursor_laws (7, 258%N)
    ("1970-01-01T00:00:00.000007Z" +:+ "/" +:+ uuid_str 258%N) "x").
  - reflexivity.
  - reflexivity.
Defined.

(** ** The handle rule *)

Lemma drop_while_suffix p l : ∃ a, l = a ++ drop_while p l ∧ forallb p a = true.
Proof.
  induction l as [|x l (a & Hl & Ha)]; simpl; [by exists []|].
  destruct (p x) eqn:Hx; [|by exists []]. exists (x :: a). simpl. by rewrite Hx, <-Hl.
Qed.

Lemma trim_chars_infix l : ∃ a b, l = a ++ trim_chars l ++ b ∧
  forallb is_whitespace a = true ∧ forallb is_whitespace b = true.
Proof.
  unfold trim_chars. destruct (drop_while_suffix is_whitespace l) as (a & Hl & Ha).
  destruct (drop_while_suffix is_whitespace (reverse (drop_while is_whitespace l))) as (b & Hb & Hwb).
  exists a, (reverse b). split_and!; [|done|].
  - rewrite <-reverse_app, <-Hb, reverse_involutive. done.
  - apply forallb_forall. intros x Hx. rewrite forallb_forall in Hwb. apply Hwb.
    apply list_elem_of_In. apply list_elem_of_In in Hx. by rewrite elem_of_reverse in Hx.
Qed.

(** The characters of the trimmed string are the trimmed characters. *)
Lemma chars_trim s : starts_inside s = false → chars (trim s) = trim_chars (chars s).
Proof.
  intros Hs%chars_wf. unfold trim. apply chars_join.
  destruct (trim_chars_infix (chars s)) as (a & b & He & _). rewrite He in Hs.
  apply Forall_app in Hs as [_ Hs]. by apply Forall_app in Hs as [Hs _].
Qed.

(** Padding is accepted, because only the trimmed handle is looked at. *)
Example padded_handle_accepted : validate_handle "  ann_1 " = Ok tt.
Proof. vm_compute. reflexivity. Qed.
Example short_handle_rejected : is_ok (validate_handle " an ") = false.
Proof. vm_compute. reflexivity. Qed.

(** ** Extractors *)

Section extract.
Context `{Crypto} (cfg : AuthConfig).

(** The parts of a request the middleware and extractors look at. [rq_headers]
    holds the headers whose (first) value is text, by lower-case name; [rq_auth] is
    the [AuthUser] extension. *)
Record Request := mkRequest {
  rq_method : string; rq_path : string; rq_headers : gmap string string; rq_auth : option Uuid }.

Definition set_rq_auth (u : Uuid) (r : Request) : Request :=
  mkRequest (rq_method r) (rq_path r) (rq_headers r) (Some u).

(** [strip_prefix]. *)
Fixpoint strip_prefix (p s : string) : option string :=
  match p, s with
  | EmptyString, _ => Some s
  | String c p', String c' s' => if decide (c = c') then strip_prefix p' s' else None
  | _, _ => None
  end.

(** [AuthUser::from_request_parts]: the identity, and the request with the
    identity cached. *)
Definition auth_user (clk : Clock) (r : Request) : M Db AppError (Uuid * Request) :=
  match rq_auth r with
  | Some u => mret (u, r)
  | None =>
      auth_header ← ok_or (rq_headers r !! "authorization") (unauthorized "missing Authorization header");
      token ← ok_or (strip_prefix "Bearer " auth_header) (unauthorized "invalid Authorization header");
      session ← map_err (λ _, unauthorized "invalid or expired token") (authenticate_access_token cfg clk token);
      session ← ok_or session (unauthorized "invalid token");
      mret (session_user_id session, set_rq_auth (session_user_id session) r)
  end.

(** [Option<AuthUser>]: a failing extraction is [None]. *)
Definition auth_user_opt (clk : Clock) (r : Request) : M Db AppError (option Uuid * Request) := λ d,
  match auth_user clk r d with
  | (Ok (u, r'), d') => (Ok (Some u, r'), d')
  | (Err _, d') => (Ok (None, r), d')
  end.

(** [AdminToken::from_request_parts]; [ct_eq] is equality. *)
Definition admin_token (expected : option string) (r : Request) : Result AppError unit :=
  match expected with
  | None => Err (forbidden "admin token not configured")
  | Some expected =>
      match rq_headers r !! "x-admin-token" with
      | None => Err (forbidden "missing admin token")
      | Some provided => if bool_decide (provided = expected) then Ok tt
                         else Err (forbidden "invalid admin token")
      end
  end.
End extract.
