(* ===== verification/App.v ===== *)
(** * The application state of the HTTP layer

    [AppState] of [src/lib.rs] as the handlers see it: the configuration values,
    the four stores ([World]) and the bounded channel to the notification worker;
    with the error mappings, the page step and the cache invalidation that the
    handlers of [src/http/handlers.rs] share, and the small program logic their
    theorems use. *)

From S2P Require Import Prelude Effects Text Sql Keyset Domain Schema Redis Social Users Posts Trust Invites.
From S2P Require Import Crypto Auth World Feed Stories Notifications Media Http.
From stdpp Require Import options.

#[local] Open Scope Z_scope.

(** ** State and environment *)

(** Everything outside the repository a handler reaches. [lower] is the case
    mapping of ILIKE, [is_uppercase] and [is_lowercase] are the Unicode classes of
    [char] (a character is given by its bytes), [sqlx_message] is the [Display] text
    of a database error. *)
Class Libs := {
  libs_crypto :: Crypto;
  libs_feed :: FeedCodec;
  libs_stories :: StoriesCodec;
  libs_signer :: S3Signer;
  libs_url :: UrlLib;
  libs_cursor :: CursorCodec;
  lower : string → string;
  is_uppercase : string → bool;
  is_lowercase : string → bool;
  sqlx_message : DbError → string }.

(** The configuration part of [AppState]; [notification_capacity] is the capacity
    the channel was created with. *)
Record AppState := mkAppState {
  upload_url_ttl_seconds : Z; upload_max_bytes : Z; expected_admin_token : option string;
  auth_config : AuthConfig; s3_public_endpoint : option string; ip_signup_rate_limit : Z;
  notification_capacity : nat }.

(** The mutable part: the stores, and the channel with its queued jobs. *)
Record App := mkApp {
  app_world : World; notification_queue : list NotificationJob; receiver_alive : bool }.

(** What the outside supplies while one request is served: the clock at which the
    access token is checked, the clocks the [i]-th service call reads, the [i]-th generated uuid, the draws of the token pair, the
    password salt and the invite codes, the [SCAN] replies for a user's cached
    stories pages, whether Postgres answers a ping, and the metrics text. *)
Record Env := mkEnv {
  auth_clk : Clock; clk : nat → Clock; rnow : nat → Time; fresh : nat → Uuid; draws : Draws; salt : string;
  codes : nat → string; scan : Uuid → list (list string); db_ping : bool; metrics_text : string }.

Definition set_app_world (w : World) (a : App) : App :=
  mkApp w (notification_queue a) (receiver_alive a).
Definition set_notification_queue (q : list NotificationJob) (a : App) : App :=
  mkApp (app_world a) q (receiver_alive a).

Definition on_world {E A} (m : M World E A) : M App E A := λ a,
  let '(r, w) := m (app_world a) in (r, set_app_world w a).
Definition db {E A} (m : M Db E A) : M App E A := on_world (on_db m).

(** [notification_tx.try_send(job)]; a full or closed channel drops the job. *)
Definition try_send (st : AppState) (job : NotificationJob) : M App AppError unit :=
  modifies (λ a,
    if receiver_alive a && (length (notification_queue a) <? notification_capacity st)%nat
    then set_notification_queue (notification_queue a ++ [job]) a else a).

(** ** Error mappings *)

Definition internal_err : AppError := internal "internal server error".
Definition internal_err_user : AppError := internal "internal server error".

Definition map_invite_error (err : InviteError) : AppError :=
  match err with
  | TrustScoreNotFound => internal "internal server error"
  | InviteLimitReached max =>
      forbidden ("Maximum invite limit reached for your trust level (" +:+ pretty max +:+ ")")
  | CodeGenerationFailed => internal "internal server error"
  | InviteDb _ => internal "internal server error"
  end.

Definition map_post_error (err : PostError) : AppError :=
  match err with
  | Validation msg => bad_request msg
  | MediaNotOwned => bad_request "invalid media_id"
  | UnknownVisibility _ => internal "failed to load posts"
  | PostDb db_err =>
      if bool_decide (db_code db_err = Some "23503") then bad_request "invalid media_id"
      else internal "failed to load posts"
  end.

Definition map_story_error (err : StoryError) : AppError :=
  match err with
  | MediaNotFound => not_found "media not found"
  | StoryMediaNotOwned => forbidden "media does not belong to you"
  | StoryNotFound => not_found "story not found"
  | StoryUnknownVisibility _ => internal "internal server error"
  | StoryDb e =>
      if bool_decide (e = RowNotFound) then not_found "story not found"
      else if bool_decide (db_code e = Some "23503") then not_found "story not found"
      else internal "internal server error"
  end.

(** ** Pages *)

Record PaginationQuery := mkPagination { pq_limit : option Z; pq_cursor : option string }.
Record ListResponse (A : Type) := mkListResponse { lr_items : list A; lr_next_cursor : option string }.
Arguments mkListResponse {A}.
Arguments lr_items {A}.
Arguments lr_next_cursor {A}.

(** [query.limit.unwrap_or(30)] and the range check of every list handler. *)
Definition check_limit (limit : option Z) : Result AppError Z :=
  let limit := default 30 limit in
  if (1 <=? limit) && (limit <=? 200) then Ok limit
  else Err (bad_request "limit must be between 1 and 200").

(** [posts.len() > limit as usize], [pop] and [ListResponse] of the list handlers. *)
Definition list_response `{Libs} {A B} (key : A → Key) (f : A → B) (limit : Z) (fetched : list A) :
    ListResponse B :=
  let '(items, next_cursor) := page_of key limit fetched in
  mkListResponse (f <$> items) (encode_cursor next_cursor).

(** ** Cache invalidation *)

Section invalidation.
Context `{Libs} (e : Env).

Definition invalidate_viewer_feeds (user_id : Uuid) : M App AppError unit :=
  _ ← best_effort (on_world (refresh_home_feed user_id));
  on_world (invalidate_stories_feed (scan e user_id) user_id).

Definition invalidate_followers_feeds (author_id : Uuid) (invalidate_home invalidate_stories : bool) :
    M App AppError unit :=
  follower_ids ← try_ (db (list_follower_ids author_id));
  match follower_ids with
  | Err _ => mret tt
  | Ok follower_ids =>
      _ ← for_each follower_ids (λ follower_id,
            _ ← (if invalidate_home then best_effort (on_world (refresh_home_feed follower_id)) else mret tt);
            if invalidate_stories
            then on_world (invalidate_stories_feed (scan e follower_id) follower_id) else mret tt);
      invalidate_viewer_feeds author_id
  end.
End invalidation.

(** ** Lifting to the application *)

Section lift.
Context {E A : Type}.
Implicit Types (d : M Db E A) (w : M World E A).

Lemma set_app_world_id a : set_app_world (app_world a) a = a.
Proof. by destruct a. Qed.

Lemma read_only_on_db d : read_only d → read_only (on_db d).
Proof.
  intros Hd w. unfold on_db. specialize (Hd (w_db w)). destruct (d (w_db w)) as [r x]. simpl in *.
  subst x. apply set_w_db_id.
Qed.
Lemma read_only_on_redis (m : M Redis E A) : read_only m → read_only (on_redis m).
Proof.
  intros Hm w. unfold on_redis. specialize (Hm (w_redis w)). destruct (m (w_redis w)) as [r x]. simpl in *.
  subst x. apply set_w_redis_id.
Qed.
Lemma read_only_on_world w : read_only w → read_only (on_world w).
Proof.
  intros Hw a. unfold on_world. specialize (Hw (app_world a)). destruct (w (app_world a)) as [r x]. simpl in *.
  subst x. apply set_app_world_id.
Qed.
Lemma read_only_db d : read_only d → read_only (db d).
Proof. intros. by apply read_only_on_world, read_only_on_db. Qed.
Lemma read_only_try {E'} (m : M App E A) : read_only m → read_only (E := E') (try_ m).
Proof. intros Hm a. unfold try_. specialize (Hm a). by destruct (m a). Qed.

Lemma total_on_world w : total w → total (on_world w).
Proof. intros Hw a. unfold on_world. specialize (Hw (app_world a)). by destruct (w (app_world a)). Qed.
Lemma total_try {S E'} (m : M S E A) : total (E := E') (try_ m).
Proof. intros a. unfold try_. by destruct (m a). Qed.

Lemma undone_at_on_db P d x : undone_at P d (w_db x) → undone_at P (on_db d) x.
Proof.
  unfold undone_at, on_db. destruct (d (w_db x)) as [[r|err] y]; [done|].
  intros Hd HP. rewrite (Hd HP). apply set_w_db_id.
Qed.
Lemma undone_at_on_world P w a : undone_at P w (app_world a) → undone_at P (on_world w) a.
Proof.
  unfold undone_at, on_world. destruct (w (app_world a)) as [[r|err] x]; [done|].
  intros Hw HP. rewrite (Hw HP). apply set_app_world_id.
Qed.
Lemma undone_at_db P d a : undone_at P d (w_db (app_world a)) → undone_at P (db d) a.
Proof. intros. by apply undone_at_on_world, undone_at_on_db. Qed.
Lemma undone_on_world P w : undone P w → undone P (on_world w).
Proof. intros Hw a. by apply undone_at_on_world. Qed.
Lemma undone_db P d : undone P d → undone P (db d).
Proof. intros Hd a. by apply undone_at_db. Qed.

(** A service call, written out. *)
Lemma run_db d a :
  db d a = (fst (d (w_db (app_world a))),
            set_app_world (set_w_db (snd (d (w_db (app_world a)))) (app_world a)) a).
Proof. unfold db, on_world, on_db. by destruct (d (w_db (app_world a))). Qed.
Lemma set_db_id a : set_app_world (set_w_db (w_db (app_world a)) (app_world a)) a = a.
Proof. by rewrite set_w_db_id, set_app_world_id. Qed.

Lemma idle_on_db Q d : idle Q d → idle Q (on_db d).
Proof.
  intros Hd w. unfold on_db. specialize (Hd (w_db w)). destruct (d (w_db w)) as [[r|err] x]; [|done].
  intros HP. rewrite (Hd HP). apply set_w_db_id.
Qed.
Lemma idle_on_world Q w : idle Q w → idle Q (on_world w).
Proof.
  intros Hw a. unfold on_world. specialize (Hw (app_world a)). destruct (w (app_world a)) as [[r|err] x]; [|done].
  intros HP. rewrite (Hw HP). apply set_app_world_id.
Qed.
Lemma idle_db Q d : idle Q d → idle Q (db d).
Proof. intros. by apply idle_on_world, idle_on_db. Qed.

Lemma preserves_on_world (I : World → Prop) w :
  preserves I w → preserves (λ a, I (app_world a)) (on_world w).
Proof.
  intros Hw a Ha. unfold on_world. specialize (Hw (app_world a) Ha). by destruct (w (app_world a)).
Qed.
Lemma preserves_db (I : Db → Prop) d :
  preserves I d → preserves (λ a, I (w_db (app_world a))) (db d).
Proof.
  intros Hd. apply (preserves_on_world (λ x, I (w_db x))). intros x Hx. unfold on_db.
  specialize (Hd (w_db x) Hx). by destruct (d (w_db x)).
Qed.
End lift.

#[export] Hint Resolve read_only_db read_only_on_world read_only_on_db read_only_on_redis read_only_try : reads.
#[export] Hint Resolve total_on_world total_try : total.

(** ** A small installation *)

Module Sample.
Definition toy_stories : StoriesCodec := {| stories_to_json := λ _, None; stories_from_json := λ _, None |}.
Definition in_bytes (lo hi : N) (c : string) : bool := in_range lo hi (code_point c).
Definition toy_libs : Libs := {|
  libs_crypto := toy_crypto; libs_feed := one_page_codec; libs_stories := toy_stories;
  libs_signer := ToyS3.toy_signer; libs_url := ToyS3.toy_url; libs_cursor := toy_cursor;
  lower := λ s, s; is_uppercase := in_bytes 65 90; is_lowercase := in_bytes 97 122;
  sqlx_message := λ _, "database error" |}.
Definition st : AppState := mkAppState 900 10485760 (Some "admin") sample_cfg None 10 2.
Definition env (t : Time) : Env :=
  mkEnv (mkClock t t) (λ _, mkClock t t) (λ _, t) (λ i, (100 + N.of_nat i)%N) (mkDraws 7 "n" "m") "salt"
    (λ i, "CODE" +:+ pretty i) (λ _, []) true "".
(** User 1 follows user 2, who has three posts. *)
Definition app : App := mkApp feed_world [] true.
(** A request whose identity was established by a middleware, or none. *)
Definition request (auth : option Uuid) : Request := mkRequest "POST" "/" ∅ auth.
End Sample.
