(* ===== verification/Middleware.v ===== *)
(** * Middleware

    [src/http/middleware/{request_context,security,ban,rate_limit}.rs] and the way
    [src/http/mod.rs] stacks them. A service maps a request to a response and
    changes the stores; a middleware wraps a service. IP addresses and networks (the
    standard parser and the [ipnet] crate) are the interface [IpLib]. *)

From S2P Require Import Prelude Text Sql Domain Schema Redis RateLimits RateLimiter Trust Crypto Auth World Http App.
From Stdlib Require Import Ascii.
From stdpp Require Import options.

#[local] Open Scope Z_scope.

Class IpLib := {
  IpAddr : Type;
  IpNet : Type;
  ip_parse : string → option IpAddr;
  ip_to_string : IpAddr → string;
  net_contains : IpNet → IpAddr → bool }.

Inductive ResolvedScheme := SchemeHttp | SchemeHttps | SchemeUnknown.
Global Instance ResolvedScheme_eq_dec : EqDecision ResolvedScheme.
Proof. solve_decision. Defined.

(** ** Strings *)

(** [split(',')]: always at least one piece. *)
Fixpoint split_comma (s : string) : list string :=
  match s with
  | EmptyString => [EmptyString]
  | String c s' =>
      if decide (c = ","%char) then EmptyString :: split_comma s'
      else match split_comma s' with x :: xs => String c x :: xs | [] => [String c EmptyString] end
  end.

Definition to_lower_byte (c : ascii) : ascii :=
  if ((65 <=? N_of_ascii c) && (N_of_ascii c <=? 90))%N then ascii_of_N (N_of_ascii c + 32) else c.
(** [to_ascii_lowercase]. *)
Fixpoint to_ascii_lowercase (s : string) : string :=
  match s with EmptyString => EmptyString | String c s' => String (to_lower_byte c) (to_ascii_lowercase s') end.

Definition starts_with (p s : string) : bool := match strip_prefix p s with Some _ => true | None => false end.
(** [ends_with] and [contains]. *)
Fixpoint ends_with (p s : string) : bool :=
  bool_decide (s = p) || match s with EmptyString => false | String _ s' => ends_with p s' end.
Fixpoint contains (p s : string) : bool :=
  starts_with p s || match s with EmptyString => false | String _ s' => contains p s' end.

Lemma split_comma_ne s : split_comma s ≠ [].
Proof. destruct s as [|c s]; simpl; [done|]. case_decide; [done|]. by destruct (split_comma s). Qed.

Lemma split_comma_app s t : split_comma (s +:+ "," +:+ t) = split_comma s ++ split_comma t.
Proof.
  induction s as [|c s IH]; [done|].
  change (String c s +:+ "," +:+ t) with (String c (s +:+ "," +:+ t)). cbn [split_comma].
  case_decide; [by rewrite IH|]. rewrite IH. pose proof (split_comma_ne s).
  by destruct (split_comma s).
Qed.

(** ** The client's address and scheme *)

Section context.
Context `{IpLib}.

(** A request on its way through the stack: what the extractors see, the address
    of the connection and the [RequestPeer] extension. *)
Record RequestPeer := mkPeer { client_ip : IpAddr; peer_scheme : ResolvedScheme }.
Record Incoming := mkIncoming { in_request : Request; in_addr : IpAddr; in_peer : option RequestPeer }.
Definition set_peer (p : RequestPeer) (i : Incoming) : Incoming := mkIncoming (in_request i) (in_addr i) (Some p).
Definition set_request (r : Request) (i : Incoming) : Incoming := mkIncoming r (in_addr i) (in_peer i).
Definition header (name : string) (i : Incoming) : option string := rq_headers (in_request i) !! name.

Definition set_redis (r : Redis) (a : App) : App := set_app_world (set_w_redis r (app_world a)) a.

Definition Service : Type := Incoming → App → Response * App.

Definition in_trusted (cidrs : list IpNet) (ip : IpAddr) : bool := existsb (λ c, net_contains c ip) cidrs.
Definition peer_in_trusted_proxies (addr : IpAddr) (cidrs : list IpNet) : bool := in_trusted cidrs addr.

Definition hops (value : string) : list IpAddr := omap (λ s, ip_parse (trim s)) (split_comma value).

Definition parse_x_forwarded_for (value : string) (trusted : list IpNet) : option IpAddr :=
  let hops := hops value in
  match list_find (λ ip, in_trusted trusted ip = false) (reverse hops) with
  | Some (_, ip) => Some ip
  | None => head hops
  end.

Definition parse_x_forwarded_proto (value : string) : option ResolvedScheme :=
  token ← head (split_comma value);
  str_case (to_ascii_lowercase (trim token))
    [("https", Some SchemeHttps); ("http", Some SchemeHttp)] None.

Definition resolve_peer (trusted_proxy_cidrs : list IpNet) (i : Incoming) : RequestPeer :=
  if peer_in_trusted_proxies (in_addr i) trusted_proxy_cidrs then
    mkPeer
      (default (in_addr i) (v ← header "x-forwarded-for" i; parse_x_forwarded_for v trusted_proxy_cidrs))
      (default SchemeHttp (v ← header "x-forwarded-proto" i; parse_x_forwarded_proto v))
  else mkPeer (in_addr i) SchemeUnknown.

Definition request_context_middleware (trusted_proxy_cidrs : list IpNet) (next : Service) : Service := λ i a,
  next (set_peer (resolve_peer trusted_proxy_cidrs i) i) a.

(** The hops that are not proxies of the deployment. *)
Definition untrusted (cidrs : list IpNet) (ips : list IpAddr) : list IpAddr :=
  filter (λ ip, in_trusted cidrs ip = false) ips.
Lemma last_untrusted cidrs ips :
  snd <$> list_find (λ ip, in_trusted cidrs ip = false) (reverse ips) = last (untrusted cidrs ips).
Proof using Type.
  induction ips as [|ip ips IH] using rev_ind; [done|]. unfold untrusted. rewrite reverse_snoc, filter_app, filter_cons, filter_nil. simpl.
  case_decide; simpl; [by rewrite last_snoc|]. rewrite app_nil_r. fold (untrusted cidrs ips).
  rewrite <-IH. by destruct (list_find _ (reverse ips)) as [[]|].
Qed.
Lemma forwarded_for_spec v cidrs :
  parse_x_forwarded_for v cidrs = match last (untrusted cidrs (hops v)) with Some ip => Some ip | None => head (hops v) end.
Proof using Type.
  unfold parse_x_forwarded_for. rewrite <-last_untrusted. by destruct (list_find _ _) as [[]|].
Qed.

End context.

(** ** Security headers *)

Definition HSTS_VALUE : string := "max-age=31536000; includeSubDomains".
Definition CSP_VALUE : string := "default-src 'none'; frame-ancestors 'none'".
Definition CACHE_CONTROL_VALUE : string := "no-store, no-cache, must-revalidate".

Definition is_local_host (host : string) : bool :=
  starts_with "localhost" host || starts_with "127.0.0.1" host || starts_with "0.0.0.0" host
  || starts_with "[::1]" host.

Definition secure_headers (is_local : bool) (r : Response) : Response :=
  let r := if is_local then r else insert_header "strict-transport-security" HSTS_VALUE r in
  let r := insert_header "x-content-type-options" "nosniff" r in
  let r := insert_header "x-frame-options" "DENY" r in
  let r := insert_header "x-xss-protection" "1; mode=block" r in
  let r := insert_header "content-security-policy" CSP_VALUE r in
  let r := insert_header "referrer-policy" "no-referrer" r in
  match rs_headers r !! "cache-control" with
  | Some _ => r
  | None => insert_header "cache-control" CACHE_CONTROL_VALUE r
  end.

Section stack.
Context `{IpLib, Crypto} (cfg : AuthConfig).

Definition security_headers_middleware (next : Service) : Service := λ i a,
  let host := default "" (header "host" i) in
  let is_local := is_local_host host in
  let scheme := match in_peer i with Some p => peer_scheme p | None => SchemeUnknown end in
  if negb is_local && bool_decide (scheme = SchemeHttp) then (mkResponse 403 ∅ JNull, a)
  else let '(r, a') := next i a in (secure_headers is_local r, a').

(** ** Bans *)

(** Extract [Option<AuthUser>]: the identity and the request with it cached. *)
Definition optional_auth (clk : Clock) (i : Incoming) (a : App) : option Uuid * Incoming :=
  match auth_user_opt cfg clk (in_request i) (w_db (app_world a)) with
  | (Ok (u, r), _) => (u, set_request r i)
  | (Err _, _) => (None, i)
  end.

Definition ban_check_middleware (clk : Clock) (next : Service) : Service := λ i a,
  let '(auth, i) := optional_auth clk i a in
  match auth with
  | None => next i a
  | Some u =>
      match is_banned clk u (w_db (app_world a)) with
      | (Err _, _) => (into_response (internal "failed to check ban status"), a)
      | (Ok true, _) => (into_response (forbidden "Your account has been temporarily suspended"), a)
      | (Ok false, _) => next i a
      end
  end.

(** ** Rate limits *)

Definition logical_path (path : string) : string := default path (strip_prefix "/v1" path).

(** The arms of the [match (p, method)], in order. *)
Definition rate_limit_action (path method : string) : option string :=
  let p := logical_path path in
  let post := bool_decide (method = "POST") in
  let get := bool_decide (method = "GET") in
  let del := bool_decide (method = "DELETE") in
  if bool_decide (p = "/posts") && post then Some "post"
  else if post && starts_with "/posts/" p && ends_with "/like" p then Some "like"
  else if post && starts_with "/posts/" p && ends_with "/comment" p then Some "comment"
  else if post && contains "/follow" p && negb (contains "/unfollow" p) then Some "follow"
  else if post && contains "/unfollow" p then Some "unfollow"
  else if (bool_decide (p = "/feed") || bool_decide (p = "/feed/stories")) && get then Some "feed"
  else if bool_decide (p = "/feed/refresh") && post then Some "feed"
  else if bool_decide (p = "/stories") && post then Some "post"
  else if post && starts_with "/stories/" p && ends_with "/seen" p then Some "like"
  else if post && starts_with "/stories/" p && ends_with "/reactions" p then Some "like"
  else if starts_with "/notifications" p then Some "notifications"
  else if starts_with "/search/" p then Some "search"
  else if get && starts_with "/media" p then Some "media_read"
  else if post && starts_with "/media" p then Some "media_upload"
  else if del && starts_with "/media" p then Some "media_upload"
  else if starts_with "/moderation/" p then Some "moderation"
  else None.

Definition ip_rate_limit_config (path method : string) (ip_signup_limit : Z) :
    option (string * Z * RateWindow) :=
  let p := logical_path path in
  let post := bool_decide (method = "POST") in
  let get := bool_decide (method = "GET") in
  if bool_decide (p = "/auth/login") && post then Some ("login", 30, Hour)
  else if bool_decide (p = "/auth/refresh") && post then Some ("auth_refresh", 120, Hour)
  else if bool_decide (p = "/auth/revoke") && post then Some ("auth_revoke", 60, Hour)
  else if bool_decide (p = "/users") && post then Some ("signup", ip_signup_limit, Day)
  else if bool_decide (p = "/health") && get then Some ("health", 60, Minute)
  else if bool_decide (p = "/account/device/register") && post then Some ("device_register", 60, Hour)
  else if get && starts_with "/invites/validate/" p then Some ("invite_validate", 120, Hour)
  else None.

Definition rate_limit_headers (info : RateLimitInfo) (r : Response) : Response :=
  insert_header "x-ratelimit-remaining" (pretty (remaining info))
    (insert_header "x-ratelimit-limit" (pretty (RateLimiter.limit info)) r).

(** [rnow] is the clock of Redis. *)
Definition rate_limit_middleware (clk : Clock) (rnow : Time) (next : Service) : Service := λ i a,
  let '(auth, i) := optional_auth clk i a in
  match rate_limit_action (rq_path (in_request i)) (rq_method (in_request i)), auth with
  | Some action, Some u =>
      match get_trust_score u (w_db (app_world a)) with
      | (Err _, _) => (into_response (internal "failed to check trust score"), a)
      | (Ok score, _) =>
          let trust_level := match score with Some s => score_level s | None => New end in
          match on_world (on_redis (check_and_increment (app_now clk) rnow u action trust_level)) a with
          | (Err _, a') => (into_response (internal "failed to check rate limit"), a')
          | (Ok info, a') =>
              if limited info then
                (into_response (rate_limited_with_headers
                   ("Rate limit exceeded for action: " +:+ action +:+ ". Please try again later.")
                   (RateLimiter.limit info) 0), a')
              else let '(r, a'') := next i a' in (rate_limit_headers info r, a'')
          end
      end
  | _, _ => next i a
  end.

Definition ip_rate_limit_middleware (ip_signup_rate_limit : Z) (clk : Clock) (rnow : Time)
    (next : Service) : Service := λ i a,
  match ip_rate_limit_config (rq_path (in_request i)) (rq_method (in_request i)) ip_signup_rate_limit with
  | None => next i a
  | Some (action, limit, window) =>
      let ip := ip_to_string (match in_peer i with Some p => client_ip p | None => in_addr i end) in
      match on_world (on_redis (check_and_increment_ip (app_now clk) rnow ip action limit window)) a with
      | (Err _, a') => (into_response (internal "failed to check rate limit"), a')
      | (Ok true, a') =>
          (into_response (rate_limited_with_headers
             "Too many attempts from your IP address. Please try again later." limit 0), a')
      | (Ok false, a') => next i a'
      end
  end.

(** ** The stack *)

(** The layers of [router] that look at the request, outermost first: [layer] on an
    axum router wraps what is already there, so the one added last runs first. *)
Definition global_layers (trusted_proxy_cidrs : list IpNet) (router : Service) : Service :=
  security_headers_middleware (request_context_middleware trusted_proxy_cidrs router).

(** The layers of the signed-in route groups ([posts], [feed], [media], ..). *)
Definition route_layers (clk : Clock) (rnow : Time) (handler : Service) : Service :=
  ban_check_middleware clk (rate_limit_middleware clk rnow handler).

(** A request from the network carries no resolved scheme when the outer layer looks. *)
Lemma global_layers_run cidrs router i a :
  in_peer i = None →
  global_layers cidrs router i a =
  let '(r, a') := router (set_peer (resolve_peer cidrs i) i) a in
  (secure_headers (is_local_host (default "" (header "host" i))) r, a').
Proof using Type.
  intros Hp. unfold global_layers, security_headers_middleware, request_context_middleware.
  by rewrite Hp, (bool_decide_false (SchemeUnknown = SchemeHttp)), andb_false_r.
Qed.

(** C39: the HTTPS requirement is never enforced: the layer that checks the
    forwarded scheme runs outside the one that resolves it, so on every request from
    the network it sees no scheme and lets it through; the response is that of the
    routes with the security headers added. In the other order a request that a
    trusted proxy received over plain HTTP for a public host would be refused
    with 403 before any route ran. *)
Theorem https_check_never_fires cidrs router i a :
  in_peer i = None →
  (global_layers cidrs router i a =
   let '(r, a') := router (set_peer (resolve_peer cidrs i) i) a in
   (secure_headers (is_local_host (default "" (header "host" i))) r, a')) ∧
  (in_trusted cidrs (in_addr i) = true → header "x-forwarded-proto" i = Some "http" →
   is_local_host (default "" (header "host" i)) = false →
   request_context_middleware cidrs (security_headers_middleware router) i a
   = (mkResponse 403 ∅ JNull, a)).
Proof using Type.
  intros Hp. split; [by apply global_layers_run|].
  intros Ht Hproto Hloc. unfold security_headers_middleware, request_context_middleware.
  change (header "host" (set_peer ?p i)) with (header "host" i).
  rewrite Hloc. unfold resolve_peer, peer_in_trusted_proxies. rewrite Ht, Hproto. reflexivity.
Qed.

(** What the identity extractor accepts. *)
Lemma optional_auth_spec clk i a u i' :
  rq_auth (in_request i) = None → optional_auth clk i a = (Some u, i') →
  account_active clk (w_db (app_world a)) u = true.
Proof using Type.
  intros Ha. unfold optional_auth, auth_user_opt, auth_user. rewrite Ha.
  unfold authenticate_access_token. unfold_m.
  destruct (rq_headers (in_request i) !! "authorization") as [h|]; [|done]. cbv beta iota.
  destruct (strip_prefix "Bearer " h) as [token|]; [|done]. cbv beta iota.
  destruct (decrypt_claims (app_now clk) token (access_key cfg)) as [c|]; [|done].
  destruct (has_token_type c "access"); [|done].
  destruct (claim_uuid (cl_sub c)) as [v|]; [|done]. cbv beta iota.
  destruct (account_active clk (w_db (app_world a)) v) eqn:Hact; [|done]. by intros [= <- _].
Qed.

(** Who passes the extractor passes the ban layer. *)
Lemma ban_check_passes clk next i a :
  rq_auth (in_request i) = None → db_now clk ≤ app_now clk →
  ban_check_middleware clk next i a = next (optional_auth clk i a).2 a.
Proof using Type.
  intros Ha Hclk. unfold ban_check_middleware.
  destruct (optional_auth clk i a) as [[u|] i'] eqn:Ho; simpl; [|done].
  apply optional_auth_spec in Ho as Hact; [|done]. unfold account_active in Hact.
  destruct (active_user (w_db (app_world a)) u); [|done]. apply negb_true_iff in Hact.
  unfold is_banned, reads. unfold banned_until_of in Hact.
  destruct (user_trust_scores (w_db (app_world a)) !! u) as [r|]; [|done]. simpl in Hact.
  destruct (ts_banned_until r) as [t|]; [|done]. unfold banned_at in Hact.
  rewrite (proj2 (Z.ltb_ge _ _)); [done|]. apply Z.ltb_ge in Hact. lia.
Qed.
(** An identity once established stays with the request. *)
Lemma optional_auth_cached clk clk' i a u i' :
  optional_auth clk i a = (Some u, i') → optional_auth clk' i' a = (Some u, i').
Proof using Type.
  unfold optional_auth at 1, auth_user_opt at 1.
  destruct (auth_user cfg clk (in_request i) (w_db (app_world a))) as [[[v r]|]] eqn:Hu; [|done].
  intros [= -> <-]. unfold optional_auth, auth_user_opt, auth_user. simpl.
  assert (rq_auth r = Some u) as ->; [|by destruct i].
  unfold auth_user in Hu. destruct (rq_auth (in_request i)) eqn:Hr; [by injection Hu as <- <-|]. revert Hu. unfold_m.
  repeat case_match; try done; intros; simplify_eq; done.
Qed.

(** The ban layer is dead code behind the extractor: an account whose ban is
    still running is not authenticated in the first place, so the layer treats the
    request as anonymous and runs the routes; it never answers 403 as long as the
    process clock is not behind the database clock. *)
Theorem ban_layer_never_fires clk next i a :
  rq_auth (in_request i) = None → db_now clk ≤ app_now clk →
  ban_check_middleware clk next i a = next (optional_auth clk i a).2 a ∧
  ∀ u, banned_at (db_now clk) (banned_until_of (w_db (app_world a)) u) = true → (optional_auth clk i a).1 ≠ Some u.
Proof using Type.
  intros Ha Hclk. split; [by apply ban_check_passes|]. intros v Hv Ho.
  destruct (optional_auth clk i a) as [u i'] eqn:Ho'. simpl in Ho. subst u.
  apply optional_auth_spec in Ho' as Hact; [|done]. unfold account_active in Hact.
  destruct (active_user (w_db (app_world a)) v); [|done]. apply negb_true_iff in Hact. congruence.
Qed.

(** The quota of the account, and what is left when it is used up. *)
Definition trust_level_of (d : Db) (u : Uuid) : TrustLevel :=
  match user_trust_scores d !! u with Some r => from_i32 (ts_trust_level r) | None => New end.
Lemma rate_limit_refuses clk rnow next i a u i' action info s :
  optional_auth clk i a = (Some u, i') →
  rate_limit_action (rq_path (in_request i')) (rq_method (in_request i')) = Some action →
  check_and_increment (app_now clk) rnow u action (trust_level_of (w_db (app_world a)) u) (w_redis (app_world a))
  = (Ok info, s) → limited info = true →
  rate_limit_middleware clk rnow next i a
  = (into_response (rate_limited_with_headers
       ("Rate limit exceeded for action: " +:+ action +:+ ". Please try again later.") (RateLimiter.limit info) 0),
     set_redis s a).
Proof using Type.
  intros Ho Hact Hc Hl. unfold rate_limit_middleware. rewrite Ho, Hact.
  unfold get_trust_score, reads, on_world, on_redis. cbv beta iota.
  assert (match (λ r, mkTrustScore u (from_i32 (ts_trust_level r)) r) <$> user_trust_scores (w_db (app_world a)) !! u
          with Some s => score_level s | None => New end = trust_level_of (w_db (app_world a)) u) as ->
    by (unfold trust_level_of; by destruct (user_trust_scores (w_db (app_world a)) !! u)).
  by rewrite Hc, Hl.
Qed.

(** The rate limiter guards the routes and fails closed: on a limited path a
    signed-in request reaches the handler only if Redis answered and the account
    still had quota, after the quota was charged; over quota it is refused with
    429, and if Redis does not answer with 500, without running the handler. *)
Theorem rate_limit_gate clk rnow next i a u i' action :
  optional_auth clk i a = (Some u, i') →
  rate_limit_action (rq_path (in_request i')) (rq_method (in_request i')) = Some action →
  let level := match user_trust_scores (w_db (app_world a)) !! u with
               | Some r => from_i32 (ts_trust_level r) | None => New end in
  let '(r, a') := rate_limit_middleware clk rnow next i a in
  match check_and_increment (app_now clk) rnow u action level (w_redis (app_world a)) with
  | (Err _, s) => rs_status r = 500 ∧ a' = set_redis s a
  | (Ok info, s) =>
      if limited info then rs_status r = 429 ∧ a' = set_redis s a
      else ∃ r0, next i' (set_redis s a) = (r0, a') ∧ r = rate_limit_headers info r0
  end.
Proof using Type.
  intros Ho Hact level. unfold rate_limit_middleware. rewrite Ho, Hact.
  unfold get_trust_score, reads, on_world, on_redis. cbv beta iota.
  assert ((match (λ r, mkTrustScore u (from_i32 (ts_trust_level r)) r) <$> user_trust_scores (w_db (app_world a)) !! u
           with Some s => score_level s | None => New end) = level) as ->
    by (unfold level; by destruct (user_trust_scores (w_db (app_world a)) !! u)).
  destruct (check_and_increment _ _ u action level (w_redis (app_world a))) as [[info|e] s]; [|done].
  destruct (limited info); [done|]. destruct (next i' (set_redis s a)) as [r0 a'] eqn:Hn. unfold set_redis in Hn. rewrite Hn. eauto.
Qed.
End stack.

(** ** Concrete requests *)

(** Addresses as text; a network is a prefix of its addresses. *)
Definition toy_ip : IpLib := {|
  IpAddr := string; IpNet := string; ip_parse := λ s, if is_empty s then None else Some s;
  ip_to_string := λ s, s; net_contains := starts_with |}.

Definition toy_incoming (headers : gmap string string) (auth : option Uuid) (addr : string) : @Incoming toy_ip :=
  @mkIncoming toy_ip (mkRequest "POST" "/v1/posts" headers auth) addr None.


Definition ok_service : @Service toy_ip := λ _ a, (mkResponse 200 ∅ JNull, a).
Definition empty_app : App := mkApp (mkWorld empty_db (mkRedis true ∅) [] true ∅ true) [] true.

(** A plain-HTTP request relayed by a trusted proxy is served. *)
Lemma https_check_never_fires_witness :
  let i := toy_incoming {[ "x-forwarded-proto" := "http"; "host" := "api.ciel.app" ]} None "10.0.0.9" in
  rs_status (@global_layers toy_ip ["10."] ok_service i empty_app).1 = 200.
Proof.
  intros i. destruct (@https_check_never_fires toy_ip ["10."] ok_service i empty_app) as [H _]; [reflexivity|].
  rewrite H. vm_compute. reflexivity.
Defined.

Lemma ban_layer_never_fires_witness :
  let i := toy_incoming ∅ None "1.2.3.4" in
  rs_status (@ban_check_middleware toy_ip toy_crypto sample_cfg (mkClock 5 5) ok_service i empty_app).1 = 200.
Proof.
  intros i. destruct (@ban_layer_never_fires toy_ip toy_crypto sample_cfg (mkClock 5 5) ok_service i empty_app)
    as [H _]; [reflexivity|simpl; lia|].
  rewrite H. vm_compute. reflexivity.
Defined.

(** User 5 posts with the quota of a new account. *)
Lemma rate_limit_gate_witness :
  let i := toy_incoming ∅ (Some 5%N) "1.2.3.4" in
  rs_status (@rate_limit_middleware toy_ip toy_crypto sample_cfg (mkClock 5 5) 5 ok_service i empty_app).1 = 200.
Proof.
  intros i.
  pose proof (@rate_limit_gate toy_ip toy_crypto sample_cfg (mkClock 5 5) 5 ok_service i empty_app 5%N i "post"
    eq_refl eq_refl) as H.
  assert ((match fst (check_and_increment 5 5 5%N "post" New (mkRedis true ∅)) with
           | Ok info => limited info | Err _ => true end) = false) as Hlim by (vm_compute; reflexivity).
  cbv zeta in H. change (app_now (mkClock 5 5)) with 5 in H. change (w_redis (app_world empty_app)) with (mkRedis true ∅) in H.
  change (match user_trust_scores (w_db (app_world empty_app)) !! 5%N with
          | Some r => from_i32 (ts_trust_level r) | None => New end) with New in H.
  destruct (check_and_increment 5 5 5%N "post" New (mkRedis true ∅)) as [[info|e] s]; [|discriminate Hlim].
  cbn [fst] in Hlim. rewrite Hlim in H.
  destruct (@rate_limit_middleware toy_ip toy_crypto sample_cfg (mkClock 5 5) 5 ok_service i empty_app) as [r a'].
  destruct H as (r0 & Hr0 & ->). unfold ok_service in Hr0.
  assert (mkResponse 200 ∅ JNull = r0) as <- by congruence. reflexivity.
Defined.
