(* ===== verification/Observability.v ===== *)
(** * Metrics and identification headers

    [metrics_middleware] ([src/http/middleware/metrics.rs]) and [served_by_middleware]
    ([src/http/middleware/served_by.rs]), the two innermost global layers of the router.
    The Prometheus recorder is a table of counters and of recorded durations by label;
    the pattern of the matched route ([MatchedPath], which axum's router sets and which
    a request no route matches lacks) and the time a request takes are arguments. The
    request-id layers of tower-http are an interface; their order in [router] and the
    log span of [main] are the code's. *)

From S2P Require Import Prelude Text Sql Domain Schema Redis Social Notifications World Http App Middleware.
From Stdlib Require Import Ascii.
From stdpp Require Import options.

#[local] Open Scope Z_scope.

(** The labels [method], [path] and [status]. *)
Abbreviation Series := (string * string * Z)%type (only parsing).
Record Recorder := mkRecorder {
  http_requests_total : gmap Series Z;
  http_request_duration_seconds : gmap Series (list Z) }.   (* the observations, in microseconds *)

(** What [HeaderValue::from_str] accepts: visible ASCII and tabs. *)
Definition header_char (c : ascii) : bool :=
  let n := N_of_ascii c in ((32 <=? n) && (n <? 127))%N || (n =? 9)%N.
Definition header_value (s : string) : bool := all_chars header_char s.

Section layers.
Context `{IpLib}.

(** [CIEL_SERVED_BY], or "rust". *)
Definition served_by_middleware (served_by : option string) (next : Service) : Service := λ i a,
  let '(response, a') := next i a in
  let value := default "rust" served_by in
  (if header_value value then insert_header "x-ciel-served-by" value response else response, a').

(** A service that also reaches the recorder. *)
Definition Metered : Type := Incoming → App * Recorder → Response * (App * Recorder).

Definition increment (s : Series) (r : Recorder) : Recorder :=
  mkRecorder (<[s := default 0 (http_requests_total r !! s) + 1]> (http_requests_total r)) (http_request_duration_seconds r).
Definition record (s : Series) (elapsed : Z) (r : Recorder) : Recorder :=
  mkRecorder (http_requests_total r)
    (<[s := default [] (http_request_duration_seconds r !! s) ++ [elapsed]]> (http_request_duration_seconds r)).

Definition series_of (matched_path : option string) (i : Incoming) (response : Response) : Series :=
  (rq_method (in_request i), default (rq_path (in_request i)) matched_path, rs_status response).
Definition metrics_middleware (matched_path : Incoming → option string) (elapsed : Z) (next : Service) : Metered := λ i s,
  let '(response, a') := next i s.1 in
  let series := series_of (matched_path i) i response in
  (response, (a', record series elapsed (increment series s.2))).

(** The layers of [router] around the routes, [served_by] inside the metrics, for a
    sequence of requests with the time each takes. *)
Definition metered (matched_path : Incoming → option string) (served_by : option string) (routes : Service)
    (elapsed : Z) : Metered :=
  metrics_middleware matched_path elapsed (served_by_middleware served_by routes).
Fixpoint serve_all (matched_path : Incoming → option string) (served_by : option string) (routes : Service)
    (reqs : list (Incoming * Z)) (s : App * Recorder) : list Response * (App * Recorder) :=
  match reqs with
  | [] => ([], s)
  | (i, elapsed) :: reqs' =>
      let '(r, s1) := metered matched_path served_by routes elapsed i s in
      let '(rs, s2) := serve_all matched_path served_by routes reqs' s1 in (r :: rs, s2)
  end.

(** ** What is counted *)

Context (matched_path : Incoming → option string) (served_by : option string) (routes : Service).
Notation run_all := (serve_all matched_path served_by routes).

(** The same requests without the metrics. *)
Fixpoint unmetered (reqs : list (Incoming * Z)) (a : App) : list Response * App :=
  match reqs with
  | [] => ([], a)
  | (i, _) :: reqs' =>
      let '(r, a1) := served_by_middleware served_by routes i a in
      let '(rs, a2) := unmetered reqs' a1 in (r :: rs, a2)
  end.
(** The series of the requests and the times they took. *)
Definition series_seen (reqs : list (Incoming * Z)) (rs : list Response) : list (Series * Z) :=
  zip_with (λ iz r, (series_of (matched_path iz.1) iz.1 r, iz.2)) reqs rs.
Definition times_of (s : Series) (seen : list (Series * Z)) : list Z := omap (λ x, if decide (x.1 = s) then Some x.2 else None) seen.

Lemma times_of_cons s s0 t seen : times_of s ((s0, t) :: seen) = (if decide (s0 = s) then [t] else []) ++ times_of s seen.
Proof. unfold times_of. cbn -[decide]. by case_decide. Qed.
Lemma default_fmap_insert {V} (m : gmap Series V) s s' (v : V) x :
  default x (<[s := v]> m !! s') = if decide (s = s') then v else default x (m !! s').
Proof. rewrite lookup_insert. by case_decide. Qed.

Lemma serve_all_spec reqs a rec :
  let '(rs, (a', rec')) := run_all reqs (a, rec) in
  (rs, a') = unmetered reqs a ∧
  (∀ s, default 0 (http_requests_total rec' !! s)
        = default 0 (http_requests_total rec !! s) + Z.of_nat (length (times_of s (series_seen reqs rs)))) ∧
  (∀ s, default [] (http_request_duration_seconds rec' !! s)
        = default [] (http_request_duration_seconds rec !! s) ++ times_of s (series_seen reqs rs)) ∧
  dom (http_requests_total rec') = dom (http_requests_total rec) ∪ list_to_set (series_seen reqs rs).*1.
Proof.
  revert a rec. induction reqs as [|[i t] reqs IH]; intros a rec; simpl.
  { split_and!; [done|intros s; lia|intros s; by rewrite app_nil_r|set_solver]. }
  unfold metered, metrics_middleware. simpl. destruct (served_by_middleware served_by routes i a) as [r a1]. simpl.
  set (s0 := series_of (matched_path i) i r). set (rec1 := record s0 t (increment s0 rec)).
  specialize (IH a1 rec1). destruct (serve_all _ _ _ reqs (a1, rec1)) as [rs [a2 rec2]].
  destruct (unmetered reqs a1) as [rs' a2']. destruct IH as (Hsame & Hcount & Htimes & Hdom). injection Hsame as -> ->.
  split_and!; [done| | |].
  - intros s. rewrite Hcount. fold s0. rewrite times_of_cons, length_app. simpl. rewrite default_fmap_insert.
    case_decide; [subst; simpl length|simpl length]; lia.
  - intros s. rewrite Htimes. fold s0. rewrite times_of_cons, app_assoc. simpl. rewrite default_fmap_insert.
    case_decide; [by subst|by rewrite app_nil_r].
  - rewrite Hdom. unfold rec1. simpl. rewrite dom_insert_L. fold s0. set_solver.
Qed.

(** The metrics count and change nothing else. Whatever requests are served, in any
    order: the answers and the stores are those of the routes without the recorder; the
    counter of a method, path pattern and status rises by the number of requests that
    ended so, and its histogram records exactly the times they took, in order; and every
    answer names the implementation in [x-ciel-served-by] unless the configured name
    cannot be a header. *)
Theorem metrics_count_requests reqs a rec :
  let '(rs, (a', rec')) := run_all reqs (a, rec) in
  (rs, a') = unmetered reqs a ∧
  (∀ s, default 0 (http_requests_total rec' !! s)
        = default 0 (http_requests_total rec !! s) + Z.of_nat (length (times_of s (series_seen reqs rs)))) ∧
  (∀ s, default [] (http_request_duration_seconds rec' !! s)
        = default [] (http_request_duration_seconds rec !! s) ++ times_of s (series_seen reqs rs)) ∧
  (header_value (default "rust" served_by) = true →
   Forall (λ r, rs_headers r !! "x-ciel-served-by" = Some (default "rust" served_by)) rs).
Proof.
  pose proof (serve_all_spec reqs a rec) as Hs. destruct (serve_all _ _ _ reqs (a, rec)) as [rs [a' rec']].
  destruct Hs as (Hsame & Hc & Ht & _). split_and!; [done..|]. intros Hv. replace rs with (fst (unmetered reqs a)) by (by rewrite <-Hsame).
  clear Hsame Hc Ht. revert a. induction reqs as [|[i t] reqs IH]; intros a; simpl; [done|]. unfold served_by_middleware at 1.
  destruct (routes i a) as [r a1]. rewrite Hv. specialize (IH a1). destruct (unmetered reqs a1) as [rs' a2]. constructor; [|done].
  simpl. apply lookup_insert_eq.
Qed.

(** Requests for paths that no route matches, by one method. *)
Definition probes (r : Request) (addr : IpAddr) (paths : list string) : list (Incoming * Z) :=
  (λ p, (mkIncoming (mkRequest (rq_method r) p (rq_headers r) (rq_auth r)) addr None, 0)) <$> paths.

(** Clients choose how many time series the recorder holds. A request that no route
    matches is counted under its own path: after requests for [n] different such paths
    the recorder holds at least [n] series, whatever is answered. *)
Theorem unmatched_paths_grow_metrics r addr paths a :
  NoDup paths → (∀ i, rq_path (in_request i) ∈ paths → matched_path i = None) →
  let '(_, (_, rec)) := run_all (probes r addr paths) (a, mkRecorder ∅ ∅) in
  (length paths ≤ size (dom (http_requests_total rec)))%nat.
Proof.
  intros Hnd Hun. pose proof (serve_all_spec (probes r addr paths) a (mkRecorder ∅ ∅)) as Hs.
  destruct (serve_all _ _ _ _ _) as [rs [a' rec]] eqn:Hrun. destruct Hs as (Hsame & _ & _ & Hdom).
  assert (Hlen : length rs = length paths).
  { replace rs with (fst (unmetered (probes r addr paths) a)) by (by rewrite <-Hsame). clear. unfold probes. revert a.
    induction paths as [|p paths IH]; intros a; simpl; [done|].
    destruct (served_by_middleware _ _ _ a) as [x a1]. specialize (IH a1).
    destruct (unmetered _ a1) as [xs a2]. simpl in *. by rewrite IH. }
  assert (Hpaths : (λ s : Series, s.1.2) <$> (series_seen (probes r addr paths) rs).*1 = paths).
  { clear -Hun Hlen. assert (Hsub : ∀ ps xs, ps ⊆ paths → length xs = length ps →
      (λ s : Series, s.1.2) <$> (series_seen (probes r addr ps) xs).*1 = ps); [|by apply Hsub].
    intros ps. induction ps as [|p ps IH]; intros [|x xs] Hps Hl; simpl in *; try done.
    rewrite Hun by (simpl; set_solver). simpl. f_equal. apply IH; [set_solver|lia]. }
  cbn [http_requests_total] in Hdom. rewrite Hdom, dom_empty_L, union_empty_l_L, size_list_to_set.
  - by rewrite <-Hpaths at 1; rewrite length_fmap.
  - eapply (NoDup_fmap_1 (λ s : Series, s.1.2)). by rewrite Hpaths.
Qed.
End layers.

(** ** Request ids *)

Abbreviation X_REQUEST_ID := "x-request-id" (only parsing).
Definition with_header `{IpLib} (name value : string) (i : Incoming) : Incoming :=
  let r := in_request i in
  set_request (mkRequest (rq_method r) (rq_path r) (<[name := value]> (rq_headers r)) (rq_auth r)) i.

(** The two layers of tower-http the router uses, as documented: one gives a request
    without an id a new one, the other copies the id a request came with to a response
    that has none. *)
Class RequestIdLayers `{IpLib} := {
  set_request_id : Service → Service;
  propagate_request_id : Service → Service;
  set_keeps next i a : is_Some (header X_REQUEST_ID i) → set_request_id next i a = next i a;
  set_makes next i a :
    header X_REQUEST_ID i = None → ∃ id, set_request_id next i a = next (with_header X_REQUEST_ID id i) a;
  propagate_none next i a : header X_REQUEST_ID i = None → propagate_request_id next i a = next i a;
  propagate_copies next i a id :
    header X_REQUEST_ID i = Some id →
    propagate_request_id next i a =
    let '(r, a') := next i a in
    (match rs_headers r !! X_REQUEST_ID with Some _ => r | None => insert_header X_REQUEST_ID id r end, a') }.

Section request_ids.
Context `{RequestIdLayers}.

(** The id layers of [router], in the order they are added, under the layers added
    after them. *)
Definition identified (cidrs : list IpNet) (routes : Service) : Service :=
  global_layers cidrs (propagate_request_id (set_request_id routes)).
(** [make_span_with] of [main]: method, address (here without its query) and request id
    of the log span; the trace layer wraps the whole router. *)
Definition make_span (i : Incoming) : string * string * string :=
  (rq_method (in_request i), rq_path (in_request i), default "-" (header X_REQUEST_ID i)).

Lemma secure_headers_request_id is_local r : rs_headers (secure_headers is_local r) !! X_REQUEST_ID = rs_headers r !! X_REQUEST_ID.
Proof using Type.
  unfold secure_headers. destruct is_local; case_match; unfold insert_header; cbn [rs_headers]; by rewrite !lookup_insert_ne.
Qed.
Lemma global_layers_request_id cidrs router i a :
  in_peer i = None →
  rs_headers (global_layers cidrs router i a).1 !! X_REQUEST_ID =
  rs_headers (router (set_peer (resolve_peer cidrs i) i) a).1 !! X_REQUEST_ID.
Proof using Type. intros Hp. rewrite global_layers_run by done. destruct (router _ _). apply secure_headers_request_id. Qed.
Lemma propagated next i a id :
  header X_REQUEST_ID i = Some id → (∀ j b, rs_headers (next j b).1 !! X_REQUEST_ID = None) →
  rs_headers (propagate_request_id next i a).1 !! X_REQUEST_ID = Some id.
Proof using Type.
  intros Hi Hr. rewrite (propagate_copies next i a id Hi). specialize (Hr i a). destruct (next i a) as [r a']. simpl in *.
  rewrite Hr. apply lookup_insert_eq.
Qed.

(** The ids the service makes up reach nobody. A client that sends an id gets it back;
    one that sends none gets none, and the span of its request is logged without one,
    although the routes were given an id: the layer that copies the id to the response,
    like the one that opens the span, is outside the layer that makes it. With the two
    layers in the other order the response carries the id that the routes saw. *)
Theorem made_request_id_lost cidrs routes i a :
  in_peer i = None → (∀ j b, rs_headers (routes j b).1 !! X_REQUEST_ID = None) →
  match header X_REQUEST_ID i with
  | Some id => rs_headers (identified cidrs routes i a).1 !! X_REQUEST_ID = Some id ∧ (make_span i).2 = id
  | None =>
      rs_headers (identified cidrs routes i a).1 !! X_REQUEST_ID = None ∧ (make_span i).2 = "-" ∧
      (∃ id, (identified cidrs routes i a).2 = (routes (with_header X_REQUEST_ID id (set_peer (resolve_peer cidrs i) i)) a).2) ∧
      ∃ id, rs_headers (global_layers cidrs (set_request_id (propagate_request_id routes)) i a).1 !! X_REQUEST_ID = Some id
  end.
Proof using Type.
  intros Hp Hr. set (j := set_peer (resolve_peer cidrs i) i).
  assert (Hj : header X_REQUEST_ID j = header X_REQUEST_ID i) by done. unfold make_span.
  destruct (header X_REQUEST_ID i) as [id|] eqn:Hi; unfold identified; rewrite ?global_layers_request_id by done; fold j.
  - split; [|done]. rewrite (propagate_copies _ j a id Hj), (set_keeps routes j a) by (by rewrite Hj).
    specialize (Hr j a). destruct (routes j a). simpl in *. rewrite Hr. apply lookup_insert_eq.
  - rewrite (propagate_none _ j a Hj). split_and!; [|done| |].
    + destruct (set_makes routes j a Hj) as [id ->]. apply Hr.
    + destruct (set_makes routes j a Hj) as [id Hs]. exists id. rewrite global_layers_run by done. fold j.
      rewrite (propagate_none _ j a Hj), Hs. by destruct (routes _ a).
    + destruct (set_makes (propagate_request_id routes) j a Hj) as [id ->]. exists id. apply propagated; [|done].
      apply lookup_insert_eq.
Qed.
End request_ids.

(** ** Concrete runs *)

(** Every new id is "7f". *)
Definition toy_set (next : @Service toy_ip) : @Service toy_ip := λ i a,
  match header X_REQUEST_ID i with Some _ => next i a | None => next (with_header X_REQUEST_ID "7f" i) a end.
Definition toy_propagate (next : @Service toy_ip) : @Service toy_ip := λ i a,
  match header X_REQUEST_ID i with
  | Some id => let '(r, a') := next i a in
      (match rs_headers r !! X_REQUEST_ID with Some _ => r | None => insert_header X_REQUEST_ID id r end, a')
  | None => next i a
  end.
Definition toy_ids : @RequestIdLayers toy_ip.
Proof.
  refine {| set_request_id := toy_set; propagate_request_id := toy_propagate |}; unfold toy_set, toy_propagate.
  - by intros next i a [id ->].
  - intros next i a ->. by eexists.
  - by intros next i a ->.
  - by intros next i a id ->.
Defined.

Lemma made_request_id_lost_witness :
  let i := toy_incoming ∅ None "10.0.0.9" in
  rs_headers (@identified toy_ip toy_ids ["10."] ok_service i empty_app).1 !! X_REQUEST_ID = None.
Proof. intros i. apply (@made_request_id_lost toy_ip toy_ids ["10."] ok_service i empty_app); [done|]. intros j b. apply lookup_empty. Defined.

Lemma unmatched_paths_grow_metrics_witness :
  let probes := @probes toy_ip (mkRequest "GET" "/" ∅ None) "10.0.0.1" ["/a"; "/b"; "/c"] in
  let '(_, (_, rec)) := serve_all (H := toy_ip) (λ _, None) None ok_service probes (empty_app, mkRecorder ∅ ∅) in
  (3 ≤ size (dom (http_requests_total rec)))%nat.
Proof.
  intros ps.
  apply (@unmatched_paths_grow_metrics toy_ip (λ _, None) None ok_service (mkRequest "GET" "/" ∅ None) "10.0.0.1"
           ["/a"; "/b"; "/c"] empty_app); [|done].
  apply (bool_decide_unpack (NoDup ["/a"; "/b"; "/c"])). vm_compute. exact I.
Defined.
