(* ===== verification/Config.v ===== *)
(** * Configuration

    [AppConfig::from_env] of [src/config/mod.rs]: the environment variables, their
    defaults, the integer parser of the standard library at its widths, and which
    error a missing or malformed variable gives. The parsers of socket addresses,
    base64 and CIDR blocks belong to libraries and are the interface [ConfigLib]. *)

From S2P Require Import Prelude Text Http Middleware.
From Stdlib Require Import Ascii.
From stdpp Require Import pretty options.

#[local] Open Scope Z_scope.

(** ** Integers *)

(** An integer type by its least and greatest value. *)
Record IntTy := mkIntTy { ty_min : Z; ty_max : Z }.
Definition u32 : IntTy := mkIntTy 0 (2 ^ 32 - 1).
Definition u64 : IntTy := mkIntTy 0 (2 ^ 64 - 1).
Definition usize : IntTy := mkIntTy 0 (2 ^ 64 - 1).
Definition i64 : IntTy := mkIntTy (- 2 ^ 63) (2 ^ 63 - 1).
Definition fits (ty : IntTy) (z : Z) : bool := (ty_min ty <=? z) && (z <=? ty_max ty).

(** The [Display] texts of [ParseIntError]. *)
Definition Empty : string := "cannot parse integer from empty string".
Definition InvalidDigit : string := "invalid digit found in string".
Definition PosOverflow : string := "number too large to fit in target type".
Definition NegOverflow : string := "number too small to fit in target type".

Definition digit_value (c : ascii) : option Z :=
  let n := Z.of_N (N_of_ascii c) in if (48 <=? n) && (n <=? 57) then Some (n - 48) else None.

(** The digit loop of [from_str]: multiply and add, or subtract behind a minus sign,
    every step checked. *)
Fixpoint parse_digits (ty : IntTy) (neg : bool) (s : string) (acc : Z) : Result string Z :=
  match s with
  | EmptyString => Ok acc
  | String c s' =>
      match digit_value c with
      | None => Err InvalidDigit
      | Some x =>
          let acc' := if neg then acc * 10 - x else acc * 10 + x in
          if fits ty (acc * 10) && fits ty acc' then parse_digits ty neg s' acc'
          else Err (if neg then NegOverflow else PosOverflow)
      end
  end.

(** [str::parse] for an integer type; only signed types read a minus sign. *)
Definition parse_int (ty : IntTy) (s : string) : Result string Z :=
  match s with
  | EmptyString => Err Empty
  | String c s' =>
      let plus := bool_decide (c = "+"%char) in
      let minus := bool_decide (c = "-"%char) in
      if bool_decide (s' = EmptyString) && (plus || minus) then Err InvalidDigit
      else if plus then parse_digits ty false s' 0
      else if minus && (ty_min ty <? 0) then parse_digits ty true s' 0
      else parse_digits ty false s 0
  end.

(** ** Variables *)

(** [std::env::var]: [None] when the variable is absent (or not Unicode). *)
Definition EnvVars : Type := string → option string.

Class ConfigLib `{IpLib} := {
  socket_addr_parse : string → Result string unit;
  base64_decode : string → Result string string;
  net_parse : string → option IpNet }.

Definition env_or (key default_ : string) : M EnvVars string string := reads (λ env, default default_ (env key)).
Definition env_ok (key : string) : M EnvVars string (option string) := reads (λ env, env key).
Definition env_or_err (key : string) : M EnvVars string string :=
  env ← get_db; ok_or (env key) ("missing required env var: " +:+ key).
Definition env_or_parse (ty : IntTy) (key default_ : string) : M EnvVars string Z :=
  value ← env_or key default_;
  map_err (λ err, "invalid " +:+ key +:+ ": " +:+ err) (from_result (parse_int ty value)).

Record AppConfig `{IpLib} := mkAppConfig {
  http_addr : string; app_mode : string; database_url : string; redis_url : string; s3_endpoint : string;
  s3_public_endpoint : option string; s3_region : string; s3_bucket : string; queue_endpoint : string;
  queue_region : string; queue_name : string; sqs_access_key : string; sqs_secret_key : string;
  db_max_connections : Z; db_connect_timeout_seconds : Z; db_idle_timeout_seconds : Z;
  db_max_lifetime_seconds : Z; db_statement_timeout_seconds : Z; admin_token : option string;
  upload_url_ttl_seconds : Z; upload_max_bytes : Z; paseto_access_key : string; paseto_refresh_key : string;
  access_ttl_minutes : Z; refresh_ttl_days : Z; ip_signup_rate_limit : Z; s3_force_path_style : bool;
  trusted_proxy_cidrs : list IpNet; notification_queue_capacity : Z }.
Arguments mkAppConfig {_}.

(** An array of zero bytes. *)
Fixpoint zeros (n : nat) : string := match n with O => EmptyString | S n' => String zero (zeros n') end.

Section from_env.
Context `{ConfigLib}.

Definition env_key_32 (key : string) : M EnvVars string string :=
  value ← env_or_err key;
  decoded ← map_err (λ err, "invalid " +:+ key +:+ ": " +:+ err) (from_result (base64_decode value));
  _ ← guard_else (String.length decoded =? 32)%nat ("invalid " +:+ key +:+ ": expected 32 bytes");
  mret decoded.

Fixpoint parse_cidrs (parts : list string) : Result string (list IpNet) :=
  match parts with
  | [] => Ok []
  | part :: parts' =>
      let t := trim part in
      if is_empty t then parse_cidrs parts'
      else match net_parse t with
           | None => Err ("invalid CIDR in TRUSTED_PROXY_CIDRS: " +:+ t)
           | Some net => match parse_cidrs parts' with Ok nets => Ok (net :: nets) | Err err => Err err end
           end
  end.
Definition parse_trusted_proxy_cidrs (raw : string) : Result string (list IpNet) := parse_cidrs (split_comma raw).

Definition from_env : M EnvVars string AppConfig :=
  http_addr ← env_or "HTTP_ADDR" "0.0.0.0:8080";
  _ ← map_err (λ err, "invalid HTTP_ADDR: " +:+ err) (from_result (socket_addr_parse http_addr));
  app_mode ← env_or "APP_MODE" "api";
  let is_serverless := bool_decide (app_mode = "serverless-worker") in
  s3_region ← env_or "S3_REGION" "fr-par";
  queue_region ← env_or "QUEUE_REGION" s3_region;
  paseto_access_key ← (if is_serverless then mret (zeros 32) else env_key_32 "PASETO_ACCESS_KEY");
  paseto_refresh_key ← (if is_serverless then mret (zeros 32) else env_key_32 "PASETO_REFRESH_KEY");
  database_url ← env_or_err "DATABASE_URL";
  redis_url ← (if is_serverless then mret "" else env_or "REDIS_URL" "redis://127.0.0.1/");
  s3_endpoint ← env_or_err "S3_ENDPOINT";
  s3_public_endpoint ← env_ok "S3_PUBLIC_ENDPOINT";
  s3_bucket ← env_or_err "S3_BUCKET";
  queue_endpoint ← (if is_serverless then mret "" else env_or_err "QUEUE_ENDPOINT");
  queue_name ← (if is_serverless then mret "" else env_or_err "QUEUE_NAME");
  sqs_access_key ← (if is_serverless then mret "" else env_or "SQS_ACCESS_KEY" "");
  sqs_secret_key ← (if is_serverless then mret "" else env_or "SQS_SECRET_KEY" "");
  db_max_connections ← env_or_parse u32 "DB_MAX_CONNECTIONS" (if is_serverless then "5" else "25");
  db_connect_timeout_seconds ← env_or_parse u64 "DB_CONNECT_TIMEOUT_SECONDS" "5";
  db_idle_timeout_seconds ← env_or_parse u64 "DB_IDLE_TIMEOUT_SECONDS" "300";
  db_max_lifetime_seconds ← env_or_parse u64 "DB_MAX_LIFETIME_SECONDS" "1800";
  db_statement_timeout_seconds ← env_or_parse u64 "DB_STATEMENT_TIMEOUT_SECONDS" "30";
  admin_token ← env_ok "ADMIN_TOKEN";
  upload_url_ttl_seconds ← env_or_parse u64 "UPLOAD_URL_TTL_SECONDS" "900";
  upload_max_bytes ← env_or_parse i64 "UPLOAD_MAX_BYTES" "10485760";
  access_ttl_minutes ← env_or_parse u64 "ACCESS_TTL_MINUTES" "15";
  refresh_ttl_days ← env_or_parse u64 "REFRESH_TTL_DAYS" "30";
  ip_signup_rate_limit ← env_or_parse u32 "IP_SIGNUP_RATE_LIMIT" "10";
  force_path_style ← env_or "S3_FORCE_PATH_STYLE" "false";
  cidrs ← env_or "TRUSTED_PROXY_CIDRS" "";
  trusted_proxy_cidrs ← from_result (parse_trusted_proxy_cidrs cidrs);
  notification_queue_capacity ← env_or_parse usize "NOTIFICATION_QUEUE_CAPACITY" "2048";
  mret (mkAppConfig http_addr app_mode database_url redis_url s3_endpoint s3_public_endpoint s3_region s3_bucket
    queue_endpoint queue_region queue_name sqs_access_key sqs_secret_key db_max_connections
    db_connect_timeout_seconds db_idle_timeout_seconds db_max_lifetime_seconds db_statement_timeout_seconds
    admin_token upload_url_ttl_seconds upload_max_bytes paseto_access_key paseto_refresh_key access_ttl_minutes
    refresh_ttl_days ip_signup_rate_limit (bool_decide (force_path_style = "true")) trusted_proxy_cidrs
    notification_queue_capacity).
End from_env.

(** ** Printing and reading integers *)

Lemma pretty_N_char_value x : (x < 10)%N → digit_value (pretty_N_char x) = Some (Z.of_N x).
Proof. intros Hx. destruct x as [|p]; [done|]. do 4 (destruct p as [p|p|]; try reflexivity; try lia). Qed.

Lemma parse_pretty_go ty (neg : bool) x s :
  ty_min ty ≤ 0 ≤ ty_max ty → fits ty (if neg then - Z.of_N x else Z.of_N x) = true →
  parse_digits ty neg (pretty_N_go x s) 0 = parse_digits ty neg s (if neg then - Z.of_N x else Z.of_N x).
Proof.
  intros Hty. revert s. induction (N.lt_wf_0 x) as [x _ IH]. intros s Hx.
  destruct (decide (x = 0)%N) as [->|Hne]; [rewrite pretty_N_go_0; by destruct neg|].
  rewrite pretty_N_go_step by lia.
  pose proof (N.div_mod' x 10) as Hdm. pose proof (N.mod_lt x 10 ltac:(lia)) as Hlt.
  unfold fits in *. apply andb_true_iff in Hx as [H1%Z.leb_le H2%Z.leb_le].
  rewrite IH; [|apply N.div_lt; lia|]; revert Hdm Hlt; generalize (x `div` 10)%N, (x `mod` 10)%N; intros q r Hdm Hlt.
  - cbn [parse_digits]. rewrite pretty_N_char_value by done. unfold fits.
    destruct neg; cbv beta iota in *; rewrite !(proj2 (Z.leb_le _ _)) by lia; simpl; f_equal; lia.
  - destruct neg; cbv beta iota in *; apply andb_true_iff; split; apply Z.leb_le; lia.
Qed.

Lemma pretty_N_go_cons x s : x ≠ 0%N → ∃ c s', pretty_N_go x s = String c s' ∧ is_digit c = true.
Proof.
  revert s. induction (N.lt_wf_0 x) as [x _ IH]. intros s Hx. rewrite pretty_N_go_step by lia.
  destruct (decide (x / 10 = 0)%N) as [->|Hne]; [|apply IH; [apply N.div_lt; lia|done]].
  rewrite pretty_N_go_0. eexists _, _. split; [done|]. unfold pretty_N_char. by repeat case_match.
Qed.

(** Behind its sign, a number in decimal is read digit by digit. *)
Lemma parse_int_unsigned ty x :
  x ≠ 0%N → parse_int ty (pretty_N_go x "") = parse_digits ty false (pretty_N_go x "") 0.
Proof.
  intros Hx. destruct (pretty_N_go_cons x "" Hx) as (c & s & -> & Hc). unfold parse_int.
  rewrite (bool_decide_false (c = "+"%char)), (bool_decide_false (c = "-"%char)) by (by intros ->).
  by rewrite andb_false_r.
Qed.
Lemma parse_int_signed ty x :
  x ≠ 0%N → ty_min ty < 0 →
  parse_int ty ("-" +:+ pretty_N_go x "") = parse_digits ty true (pretty_N_go x "") 0.
Proof.
  intros Hx Hty. destruct (pretty_N_go_cons x "" Hx) as (c & s & -> & Hc). simpl.
  by rewrite (proj2 (Z.ltb_lt _ _) Hty).
Qed.

(** The decimal form of a value that fits is read back as that value. *)
Lemma parse_int_pretty ty z :
  ty_min ty ≤ 0 ≤ ty_max ty → fits ty z = true → parse_int ty (pretty z) = Ok z.
Proof.
  intros Hty Hz. destruct z as [|p|p].
  - simpl. unfold fits. by rewrite !(proj2 (Z.leb_le _ _)) by lia.
  - change (pretty (Z.pos p)) with (pretty_N_go (N.pos p) ""). by rewrite parse_int_unsigned, parse_pretty_go.
  - change (pretty (Z.neg p)) with ("-" +:+ pretty_N_go (N.pos p) "").
    assert (ty_min ty < 0) by (unfold fits in Hz; apply andb_true_iff in Hz as [?%Z.leb_le _]; lia).
    by rewrite parse_int_signed, (parse_pretty_go ty true).
Qed.

(** ** What a configuration guarantees, and what is wrong when there is none *)

Section guarantees.
Context `{ConfigLib}.

(** The values [from_env] can produce. *)
Record config_ok (cfg : AppConfig) : Prop := {
  ok_addr : socket_addr_parse (http_addr cfg) = Ok tt;
  ok_mode : if bool_decide (app_mode cfg = "serverless-worker")
            then paseto_access_key cfg = zeros 32 ∧ paseto_refresh_key cfg = zeros 32 ∧ redis_url cfg = "" ∧
                 queue_endpoint cfg = "" ∧ queue_name cfg = "" ∧ sqs_access_key cfg = "" ∧ sqs_secret_key cfg = ""
            else String.length (paseto_access_key cfg) = 32%nat ∧ String.length (paseto_refresh_key cfg) = 32%nat;
  ok_connections : fits u32 (db_max_connections cfg) = true;
  ok_connect : fits u64 (db_connect_timeout_seconds cfg) = true;
  ok_idle : fits u64 (db_idle_timeout_seconds cfg) = true;
  ok_lifetime : fits u64 (db_max_lifetime_seconds cfg) = true;
  ok_statement : fits u64 (db_statement_timeout_seconds cfg) = true;
  ok_upload_ttl : fits u64 (upload_url_ttl_seconds cfg) = true;
  ok_upload_max : fits i64 (upload_max_bytes cfg) = true;
  ok_access : fits u64 (access_ttl_minutes cfg) = true;
  ok_refresh : fits u64 (refresh_ttl_days cfg) = true;
  ok_signup : fits u32 (ip_signup_rate_limit cfg) = true;
  ok_capacity : fits usize (notification_queue_capacity cfg) = true }.

(** The configuration an environment describes: for every field its variable, what it
    defaults to and how it is read. *)
Definition serverless (cfg : AppConfig) : bool := bool_decide (app_mode cfg = "serverless-worker").
Definition number (env : EnvVars) (ty : IntTy) (key dflt : string) (z : Z) : Prop :=
  parse_int ty (default dflt (env key)) = Ok z.
Definition secret (env : EnvVars) (key bytes : string) : Prop :=
  ∃ value, env key = Some value ∧ base64_decode value = Ok bytes ∧ String.length bytes = 32%nat.
Record describes (env : EnvVars) (cfg : AppConfig) : Prop := {
  d_addr : http_addr cfg = default "0.0.0.0:8080" (env "HTTP_ADDR") ∧ socket_addr_parse (http_addr cfg) = Ok tt;
  d_mode : app_mode cfg = default "api" (env "APP_MODE");
  d_database : env "DATABASE_URL" = Some (database_url cfg);
  d_s3_endpoint : env "S3_ENDPOINT" = Some (s3_endpoint cfg);
  d_s3_public : s3_public_endpoint cfg = env "S3_PUBLIC_ENDPOINT";
  d_s3_region : s3_region cfg = default "fr-par" (env "S3_REGION");
  d_s3_bucket : env "S3_BUCKET" = Some (s3_bucket cfg);
  d_queue_region : queue_region cfg = default (s3_region cfg) (env "QUEUE_REGION");
  d_worker : if serverless cfg
    then paseto_access_key cfg = zeros 32 ∧ paseto_refresh_key cfg = zeros 32 ∧ redis_url cfg = "" ∧
         queue_endpoint cfg = "" ∧ queue_name cfg = "" ∧ sqs_access_key cfg = "" ∧ sqs_secret_key cfg = ""
    else secret env "PASETO_ACCESS_KEY" (paseto_access_key cfg) ∧ secret env "PASETO_REFRESH_KEY" (paseto_refresh_key cfg) ∧
         redis_url cfg = default "redis://127.0.0.1/" (env "REDIS_URL") ∧
         env "QUEUE_ENDPOINT" = Some (queue_endpoint cfg) ∧ env "QUEUE_NAME" = Some (queue_name cfg) ∧
         sqs_access_key cfg = default "" (env "SQS_ACCESS_KEY") ∧ sqs_secret_key cfg = default "" (env "SQS_SECRET_KEY");
  d_connections : number env u32 "DB_MAX_CONNECTIONS" (if serverless cfg then "5" else "25") (db_max_connections cfg);
  d_connect : number env u64 "DB_CONNECT_TIMEOUT_SECONDS" "5" (db_connect_timeout_seconds cfg);
  d_idle : number env u64 "DB_IDLE_TIMEOUT_SECONDS" "300" (db_idle_timeout_seconds cfg);
  d_lifetime : number env u64 "DB_MAX_LIFETIME_SECONDS" "1800" (db_max_lifetime_seconds cfg);
  d_statement : number env u64 "DB_STATEMENT_TIMEOUT_SECONDS" "30" (db_statement_timeout_seconds cfg);
  d_admin : admin_token cfg = env "ADMIN_TOKEN";
  d_upload_ttl : number env u64 "UPLOAD_URL_TTL_SECONDS" "900" (upload_url_ttl_seconds cfg);
  d_upload_max : number env i64 "UPLOAD_MAX_BYTES" "10485760" (upload_max_bytes cfg);
  d_access : number env u64 "ACCESS_TTL_MINUTES" "15" (access_ttl_minutes cfg);
  d_refresh : number env u64 "REFRESH_TTL_DAYS" "30" (refresh_ttl_days cfg);
  d_signup : number env u32 "IP_SIGNUP_RATE_LIMIT" "10" (ip_signup_rate_limit cfg);
  d_path_style : s3_force_path_style cfg = bool_decide (default "false" (env "S3_FORCE_PATH_STYLE") = "true");
  d_cidrs : parse_trusted_proxy_cidrs (default "" (env "TRUSTED_PROXY_CIDRS")) = Ok (trusted_proxy_cidrs cfg);
  d_capacity : number env usize "NOTIFICATION_QUEUE_CAPACITY" "2048" (notification_queue_capacity cfg) }.

(** Why a start fails: a variable that is required is missing, or the value of one
    does not parse; the message names it. *)
Inductive config_fault (env : EnvVars) : string → Prop :=
| fault_missing key : env key = None → config_fault env ("missing required env var: " +:+ key)
| fault_addr why : socket_addr_parse (default "0.0.0.0:8080" (env "HTTP_ADDR")) = Err why →
    config_fault env ("invalid HTTP_ADDR: " +:+ why)
| fault_key key value why : env key = Some value → base64_decode value = Err why →
    config_fault env ("invalid " +:+ key +:+ ": " +:+ why)
| fault_key_length key value decoded : env key = Some value → base64_decode value = Ok decoded →
    String.length decoded ≠ 32%nat → config_fault env ("invalid " +:+ key +:+ ": expected 32 bytes")
| fault_int ty key dflt why : parse_int ty (default dflt (env key)) = Err why →
    config_fault env ("invalid " +:+ key +:+ ": " +:+ why)
| fault_cidr part : part ∈ split_comma (default "" (env "TRUSTED_PROXY_CIDRS")) → net_parse (trim part) = None →
    config_fault env ("invalid CIDR in TRUSTED_PROXY_CIDRS: " +:+ trim part).

(** [m] only reads, its results are in [Q], and its errors are explained. *)
Definition reads_as {A} (env : EnvVars) (Q : A → Prop) (m : M EnvVars string A) : Prop :=
  snd (m env) = env ∧ match fst (m env) with Ok a => Q a | Err e => config_fault env e end.

Lemma reads_as_ret {A} env (Q : A → Prop) a : Q a → reads_as env Q (mret a).
Proof using Type. done. Qed.
Lemma reads_as_value {A} env (a : A) : reads_as env (λ v, v = a) (mret a).
Proof using Type. done. Qed.
Lemma reads_as_bind {A B} env (P : A → Prop) (Q : B → Prop) m k :
  reads_as env P m → (∀ a, P a → reads_as env Q (k a)) → reads_as env Q (m ≫= k).
Proof using Type.
  intros [Hs Hm] Hk. unfold reads_as, mbind, M_bind. destruct (m env) as [[a|e] env']; simpl in *; subst env'; [|done].
  by apply Hk.
Qed.
Lemma reads_as_env_or env key d : reads_as env (λ v, v = default d (env key)) (env_or key d).
Proof using Type. done. Qed.
Lemma reads_as_env_ok env key : reads_as env (λ v, v = env key) (env_ok key).
Proof using Type. done. Qed.
Lemma reads_as_env_or_err env key : reads_as env (λ v, env key = Some v) (env_or_err key).
Proof using Type.
  unfold reads_as, env_or_err. unfold_m. destruct (env key) eqn:Hk; [done|]. split; [done|]. by constructor.
Qed.

Lemma parse_digits_fits ty neg s acc z : fits ty acc = true → parse_digits ty neg s acc = Ok z → fits ty z = true.
Proof using Type.
  revert acc. induction s as [|c s IH]; intros acc Ha; simpl; [by intros [= <-]|].
  destruct (digit_value c); [|done]. case_match eqn:Hf; [|done]. apply IH. by apply andb_true_iff in Hf as [_ ?].
Qed.
Lemma parse_int_fits ty s z : fits ty 0 = true → parse_int ty s = Ok z → fits ty z = true.
Proof using Type.
  intros Hz. unfold parse_int. destruct s as [|c s]; [done|]. cbv zeta.
  repeat (case_match; [try done; by apply parse_digits_fits|]). by apply parse_digits_fits.
Qed.
Lemma reads_as_env_or_parse env ty key d : reads_as env (number env ty key d) (env_or_parse ty key d).
Proof using Type.
  unfold number, reads_as, env_or_parse. unfold_m. cbn.
  destruct (parse_int ty (default d (env key))) as [z|why] eqn:Hp; cbn.
  - done.
  - split; [done|]. by eapply fault_int.
Qed.
Lemma reads_as_key env key :
  reads_as env (secret env key) (env_key_32 key).
Proof using Type.
  unfold env_key_32. eapply reads_as_bind; [apply reads_as_env_or_err|]. intros value Hv. simpl in Hv.
  unfold reads_as. unfold_m. destruct (base64_decode value) as [d|why] eqn:Hd; cbn.
  - destruct (String.length d =? 32)%nat eqn:Hl; cbn; (split; [done|]).
    + exists value. by rewrite <-Nat.eqb_eq.
    + eapply fault_key_length; [done..|]. by apply Nat.eqb_neq.
  - split; [done|]. by eapply fault_key.
Qed.
Lemma parse_cidrs_err parts err :
  parse_cidrs parts = Err err →
  ∃ part, part ∈ parts ∧ net_parse (trim part) = None ∧
          err = "invalid CIDR in TRUSTED_PROXY_CIDRS: " +:+ trim part.
Proof using Type.
  induction parts as [|p parts IH]; cbn [parse_cidrs]; [done|]. cbv zeta. case_match.
  - intros (q & Hq & ?)%IH. exists q. split; [by right|done].
  - destruct (net_parse (trim p)) eqn:Hn.
    + destruct (parse_cidrs parts); [done|]. intros [= ->]. destruct (IH eq_refl) as (q & Hq & ?).
      exists q. split; [by right|done].
    + intros [= <-]. exists p. split; [left|done].
Qed.

Lemma cidrs_read env raw :
  raw = default "" (env "TRUSTED_PROXY_CIDRS") →
  reads_as env (λ nets, parse_trusted_proxy_cidrs (default "" (env "TRUSTED_PROXY_CIDRS")) = Ok nets)
    (from_result (parse_trusted_proxy_cidrs raw)).
Proof using Type.
  intros ->. split; [done|]. unfold parse_trusted_proxy_cidrs. simpl.
  destruct (parse_cidrs _) eqn:Hp; [done|]. apply parse_cidrs_err in Hp as (part & Hin & Hn & ->).
  by apply fault_cidr.
Qed.

(** What comes out is what the environment describes, and is sound. *)
Lemma from_env_spec env : reads_as env (describes env) from_env.
Proof using Type.
  unfold from_env. eapply reads_as_bind; [apply reads_as_env_or|]. intros addr ->.
  eapply (reads_as_bind _ (λ _, socket_addr_parse (default "0.0.0.0:8080" (env "HTTP_ADDR")) = Ok tt)).
  { unfold reads_as. unfold_m. destruct (socket_addr_parse _) as [[]|why] eqn:Ha; cbn; [done|].
    split; [done|]. by apply fault_addr. }
  intros _ Haddr. eapply reads_as_bind; [apply reads_as_env_or|]. intros mode Hmode_. cbv zeta.
  case_bool_decide as Hmode.
  all: repeat (eapply reads_as_bind;
    [first [ apply reads_as_env_or_parse | apply reads_as_key | apply reads_as_env_or_err
           | apply reads_as_env_ok | apply reads_as_env_or | apply reads_as_value
           | apply cidrs_read; assumption ]|]; intros ? ?; cbv beta in * ).
  all: apply reads_as_ret; split; unfold serverless; simpl; try assumption; try by (subst; split).
  all: try (rewrite bool_decide_true by done); try (rewrite bool_decide_false by done); try split_and!; try assumption.
  all: by subst.
Qed.
Lemma describes_ok env cfg : describes env cfg → config_ok cfg.
Proof using Type.
  intros []. split; try (by eapply parse_int_fits); [by destruct d_addr0|]. unfold serverless in d_worker0.
  destruct (bool_decide _); [done|]. destruct d_worker0 as ((? & _ & _ & ?) & (? & _ & _ & ?) & _). done.
Qed.

Section steps.
Context {A : Type} (env : EnvVars) (r : Result string A * EnvVars).
Lemma run_env_or key d v k : v = default d (env key) → k v env = r → (env_or key d ≫= k) env = r.
Proof using Type. by intros -> <-. Qed.
Lemma run_env_ok key v k : v = env key → k v env = r → (env_ok key ≫= k) env = r.
Proof using Type. by intros -> <-. Qed.
Lemma run_env_or_err key v k : env key = Some v → k v env = r → (env_or_err key ≫= k) env = r.
Proof using Type. intros Hv <-. unfold env_or_err. unfold_m. by rewrite Hv. Qed.
Lemma run_parse ty key d z k : number env ty key d z → k z env = r → (env_or_parse ty key d ≫= k) env = r.
Proof using Type. intros Hz <-. unfold env_or_parse, env_or, reads. unfold_m. cbn. by rewrite Hz. Qed.
Lemma run_key key v k : secret env key v → k v env = r → (env_key_32 key ≫= k) env = r.
Proof using Type.
  intros (value & Hv & Hd & Hl) <-. unfold env_key_32, env_or_err. unfold_m. rewrite Hv. simpl. rewrite Hd. simpl. by rewrite Hl.
Qed.
Lemma run_ok {B} (m : M EnvVars string B) v k : m env = (Ok v, env) → k v env = r → (m ≫= k) env = r.
Proof using Type. intros Hm <-. unfold mbind, M_bind. by rewrite Hm. Qed.
Lemma run_ret {B} (v : B) (k : B → M EnvVars string A) : k v env = r → (mret v ≫= k) env = r.
Proof using Type. done. Qed.
End steps.

(** What the environment describes is read. *)
Lemma from_env_run env cfg : describes env cfg → from_env env = (Ok cfg, env).
Proof using Type.
  intros []. unfold from_env, serverless in *. destruct d_addr0 as [Haddr Hok].
  eapply run_env_or; [exact Haddr|].
  eapply run_ok; [unfold map_err, from_result; rewrite Hok; reflexivity|].
  eapply run_env_or; [exact d_mode0|]. cbv zeta.
  destruct (bool_decide (app_mode cfg = "serverless-worker"));
    destruct d_worker0 as (Ha & Hr & Hu & Hqe & Hqn & Hsa & Hss).
  all: repeat first
    [ eapply run_env_or; [eassumption|] | eapply run_env_ok; [eassumption|] | eapply run_env_or_err; [eassumption|]
    | eapply run_parse; [eassumption|] | eapply run_key; [eassumption|] | apply run_ret
    | eapply run_ok; [unfold from_result; rewrite d_cidrs0; reflexivity|]
    | eapply run_env_or; [reflexivity|] ].
  all: unfold mret, M_ret; rewrite <-d_path_style0; destruct cfg; simpl in *; by subst.
Qed.
End guarantees.

(** ** Writing a configuration down *)

(** Documented behaviour of the libraries: what they print they parse, and a CIDR
    block contains neither commas nor surrounding white space. *)
Class ConfigLaws `{ConfigLib} := {
  base64_encode : string → string;
  net_to_string : IpNet → string;
  base64_roundtrip k : base64_decode (base64_encode k) = Ok k;
  net_roundtrip n : net_parse (net_to_string n) = Some n;
  net_text n : lacks "," (net_to_string n) = true ∧ trim (net_to_string n) = net_to_string n ∧
               is_empty (net_to_string n) = false }.

Fixpoint join_commas (l : list string) : string :=
  match l with [] => "" | [x] => x | x :: l' => x +:+ "," +:+ join_commas l' end.

Section roundtrip.
Context `{ConfigLaws}.

(** The environment that says what [cfg] says. *)
Definition to_env (cfg : AppConfig) : EnvVars := λ key,
  str_case key
    [ ("HTTP_ADDR", Some (http_addr cfg)); ("APP_MODE", Some (app_mode cfg));
      ("DATABASE_URL", Some (database_url cfg)); ("REDIS_URL", Some (redis_url cfg));
      ("S3_ENDPOINT", Some (s3_endpoint cfg)); ("S3_PUBLIC_ENDPOINT", s3_public_endpoint cfg);
      ("S3_REGION", Some (s3_region cfg)); ("S3_BUCKET", Some (s3_bucket cfg));
      ("QUEUE_ENDPOINT", Some (queue_endpoint cfg)); ("QUEUE_REGION", Some (queue_region cfg));
      ("QUEUE_NAME", Some (queue_name cfg)); ("SQS_ACCESS_KEY", Some (sqs_access_key cfg));
      ("SQS_SECRET_KEY", Some (sqs_secret_key cfg));
      ("DB_MAX_CONNECTIONS", Some (pretty (db_max_connections cfg)));
      ("DB_CONNECT_TIMEOUT_SECONDS", Some (pretty (db_connect_timeout_seconds cfg)));
      ("DB_IDLE_TIMEOUT_SECONDS", Some (pretty (db_idle_timeout_seconds cfg)));
      ("DB_MAX_LIFETIME_SECONDS", Some (pretty (db_max_lifetime_seconds cfg)));
      ("DB_STATEMENT_TIMEOUT_SECONDS", Some (pretty (db_statement_timeout_seconds cfg)));
      ("ADMIN_TOKEN", admin_token cfg);
      ("UPLOAD_URL_TTL_SECONDS", Some (pretty (upload_url_ttl_seconds cfg)));
      ("UPLOAD_MAX_BYTES", Some (pretty (upload_max_bytes cfg)));
      ("PASETO_ACCESS_KEY", Some (base64_encode (paseto_access_key cfg)));
      ("PASETO_REFRESH_KEY", Some (base64_encode (paseto_refresh_key cfg)));
      ("ACCESS_TTL_MINUTES", Some (pretty (access_ttl_minutes cfg)));
      ("REFRESH_TTL_DAYS", Some (pretty (refresh_ttl_days cfg)));
      ("IP_SIGNUP_RATE_LIMIT", Some (pretty (ip_signup_rate_limit cfg)));
      ("S3_FORCE_PATH_STYLE", Some (if s3_force_path_style cfg then "true" else "false"));
      ("TRUSTED_PROXY_CIDRS", Some (join_commas (net_to_string <$> trusted_proxy_cidrs cfg)));
      ("NOTIFICATION_QUEUE_CAPACITY", Some (pretty (notification_queue_capacity cfg))) ] None.

Lemma lacks_split_comma s : lacks "," s = true → split_comma s = [s].
Proof using Type.
  induction s as [|c s IH]; [done|]. unfold lacks. simpl. intros [Hc Hs]%andb_true_iff. bool_to_prop.
  rewrite decide_False by done. by rewrite IH.
Qed.
Lemma cidrs_roundtrip nets : parse_trusted_proxy_cidrs (join_commas (net_to_string <$> nets)) = Ok nets.
Proof using Type.
  unfold parse_trusted_proxy_cidrs. destruct nets as [|n nets]; [done|]. revert n.
  assert (Hone : ∀ n rest nets', parse_cidrs rest = Ok nets' → parse_cidrs (net_to_string n :: rest) = Ok (n :: nets')).
  { intros n rest nets' Hr. cbn [parse_cidrs]. cbv zeta. destruct (net_text n) as (_ & Ht & He).
    by rewrite Ht, He, net_roundtrip, Hr. }
  induction nets as [|m nets IH]; intros n; destruct (net_text n) as (Hl & _).
  - cbn [fmap list_fmap join_commas]. rewrite lacks_split_comma by done. by apply Hone.
  - change (join_commas (net_to_string <$> n :: m :: nets))
      with (net_to_string n +:+ "," +:+ join_commas (net_to_string <$> m :: nets)).
    rewrite split_comma_app, lacks_split_comma by done. apply Hone, IH.
Qed.

Lemma number_pretty env ty key d z :
  ty_min ty ≤ 0 ≤ ty_max ty → env key = Some (pretty z) → fits ty z = true → number env ty key d z.
Proof using Type. intros Hty Hv Hz. unfold number. rewrite Hv. by apply parse_int_pretty. Qed.
Lemma to_env_describes cfg : config_ok cfg → describes (to_env cfg) cfg.
Proof using Type.
  intros []. split; try reflexivity; try done.
  all: try (apply number_pretty; [split; vm_compute; congruence|reflexivity|assumption]).
  - unfold serverless. destruct (bool_decide _); [done|]. destruct ok_mode0.
    split_and!; try reflexivity; eexists; (split; [reflexivity|]); split; try apply base64_roundtrip; done.
  - change (default "false" _) with (if s3_force_path_style cfg then "true" else "false"). by destruct (s3_force_path_style cfg).
  - apply cidrs_roundtrip.
Qed.

(** C31: what [from_env] reads. It returns a configuration exactly when the environment
    describes it: every field has the value of its own variable, parsed for its type, or
    the default of that field (the region of the queue defaults to that of the object
    store, the pool to 5 connections in serverless mode and 25 otherwise, and in
    serverless mode the Redis, queue and key fields are blank). Every configuration whose
    address parses, whose numbers fit the widths of their fields and whose keys have 32
    bytes (in serverless mode: whose Redis, queue and key fields are blank) can be written
    to an environment from which it is read back unchanged, and [from_env] returns no
    other. *)
Theorem config_roundtrip cfg :
  (∀ env, fst (from_env env) = Ok cfg ↔ describes env cfg) ∧
  (config_ok cfg → from_env (to_env cfg) = (Ok cfg, to_env cfg)) ∧
  (∀ env, fst (from_env env) = Ok cfg → config_ok cfg).
Proof using All.
  assert (Hd : ∀ env, fst (from_env env) = Ok cfg → describes env cfg).
  { intros env Hr. destruct (from_env_spec env) as [_ Hs]. by rewrite Hr in Hs. }
  split_and!.
  - intros env. split; [apply Hd|]. intros He. by rewrite (from_env_run _ _ He).
  - intros Hok. by apply from_env_run, to_env_describes.
  - intros env Hr. by eapply describes_ok, Hd.
Qed.
End roundtrip.

Section errors.
Context `{ConfigLib}.

(** What the serverless container does not need. *)
Definition unused_by_serverless : list string :=
  ["REDIS_URL"; "QUEUE_ENDPOINT"; "QUEUE_NAME"; "SQS_ACCESS_KEY"; "SQS_SECRET_KEY"; "PASETO_ACCESS_KEY";
   "PASETO_REFRESH_KEY"].

(** [m] does the same in both environments. *)
Definition same {A} (env env' : EnvVars) (m : M EnvVars string A) : Prop :=
  ∃ r, m env = (r, env) ∧ m env' = (r, env').

Section same.
Context (env env' : EnvVars) (Hagree : ∀ key, bool_decide (key ∉ unused_by_serverless) = true → env' key = env key).
Lemma same_result {A} (r : Result string A) : same env env' (from_result r).
Proof using Type. by exists r. Qed.
Lemma same_bind {A B} m (k : A → M EnvVars string B) :
  same env env' m → (∀ a, same env env' (k a)) → same env env' (m ≫= k).
Proof using Type.
  intros (r & H1 & H2) Hk. unfold same, mbind, M_bind. rewrite H1, H2. destruct r as [a|e]; [apply Hk|by exists (Err e)].
Qed.
Lemma same_map_err {A} (f : string → string) m :
  same (A := A) env env' m → same env env' (map_err f m).
Proof using Type. intros (r & H1 & H2). unfold same, map_err. rewrite H1, H2. destruct r; eauto. Qed.
Lemma same_reads {A} (f : option string → A) key :
  bool_decide (key ∉ unused_by_serverless) = true → same env env' (reads (λ e, f (e key))).
Proof using Hagree. intros Hk. unfold same, reads. rewrite (Hagree key Hk). eauto. Qed.
Lemma same_env_or_err key :
  bool_decide (key ∉ unused_by_serverless) = true → same env env' (env_or_err key).
Proof using Hagree.
  intros Hk. unfold same, env_or_err. unfold_m. rewrite (Hagree key Hk). destruct (env key); eauto.
Qed.

Lemma same_ret {A} (a : A) : same env env' (mret a).
Proof using Type. by exists (Ok a). Qed.
Lemma same_env_or key d : bool_decide (key ∉ unused_by_serverless) = true → same env env' (env_or key d).
Proof using Hagree. apply (same_reads (default d)). Qed.
Lemma same_env_ok key : bool_decide (key ∉ unused_by_serverless) = true → same env env' (env_ok key).
Proof using Hagree. apply (same_reads id). Qed.
Lemma same_parse ty key d :
  bool_decide (key ∉ unused_by_serverless) = true → same env env' (env_or_parse ty key d).
Proof using Hagree.
  intros Hk. apply same_bind; [by apply same_env_or|]. intros v. apply same_map_err, same_result.
Qed.

Lemma same_at_mode {A} (k : string → M EnvVars string A) :
  env "APP_MODE" = Some "serverless-worker" → env' "APP_MODE" = Some "serverless-worker" →
  same env env' (k "serverless-worker") → same env env' (env_or "APP_MODE" "api" ≫= k).
Proof using Type.
  intros H1 H2 (r & Hr & Hr'). exists r. unfold mbind, M_bind, env_or, reads. rewrite H1, H2. by split.
Qed.

Lemma serverless_agree : env "APP_MODE" = Some "serverless-worker" → same env env' from_env.
Proof using Hagree.
  intros Hmode. unfold from_env.
  assert (Hm : env' "APP_MODE" = Some "serverless-worker") by (rewrite <-Hmode; by apply Hagree).
  apply same_bind; [by apply same_env_or|]. intros addr.
  apply same_bind; [apply same_map_err, same_result|]. intros _.
  apply (same_at_mode _ Hmode Hm). cbv zeta. rewrite bool_decide_true by done.
  repeat (apply same_bind; [first
    [ apply same_ret | by apply same_env_or | by apply same_env_ok | by apply same_env_or_err
    | by apply same_parse | apply same_result ]|intros ?]).
  apply same_ret.
Qed.
End same.

(** A start that fails says which variable is at fault: the error names a required
    variable that is missing, or one whose value does not parse (an integer out of
    the range of its field included), or the malformed network; and the serverless
    container starts, or fails, the same whatever the variables of Redis, the queue
    and the token keys are. *)
Theorem config_errors env :
  (∀ err, fst (from_env env) = Err err → config_fault env err) ∧
  (∀ env', env "APP_MODE" = Some "serverless-worker" →
     (∀ key, key ∉ unused_by_serverless → env' key = env key) → fst (from_env env') = fst (from_env env)).
Proof using Type.
  split.
  - intros err Hr. destruct (from_env_spec env) as [_ Hs]. by rewrite Hr in Hs.
  - intros env' Hmode Hag. destruct (serverless_agree env env') as (r & -> & ->); [|done|done].
    intros key Hk. apply Hag. by apply bool_decide_eq_true in Hk.
Qed.
End errors.

(** ** A deployment *)

(** Libraries that know one network and take keys as they are. *)
Definition one_net : IpLib := {|
  IpAddr := string; IpNet := unit; ip_parse := Some; ip_to_string := λ s, s;
  net_contains := λ _ ip, starts_with "10." ip |}.
#[local] Existing Instance one_net.
#[local] Instance text_config : ConfigLib :=
  {| socket_addr_parse := λ _, Ok tt; base64_decode := λ s, Ok s;
     net_parse := λ s, if decide (s = "10.0.0.0/8") then Some tt else None |}.
Lemma one_net_text : lacks "," "10.0.0.0/8" = true ∧ trim "10.0.0.0/8" = "10.0.0.0/8" ∧ is_empty "10.0.0.0/8" = false.
Proof. done. Qed.
#[local] Instance text_laws : ConfigLaws :=
  {| base64_encode := λ s, s; net_to_string := λ _, "10.0.0.0/8"; base64_roundtrip := λ _, eq_refl;
     net_roundtrip := λ n, match n with tt => eq_refl end; net_text := λ _, one_net_text |}.
Definition dev_env : EnvVars := λ key,
  str_case key [ ("DATABASE_URL", Some "postgres://db"); ("S3_ENDPOINT", Some "http://s3"); ("S3_BUCKET", Some "ciel");
    ("QUEUE_ENDPOINT", Some "http://sqs"); ("QUEUE_NAME", Some "media"); ("ADMIN_TOKEN", Some "");
    ("PASETO_ACCESS_KEY", Some "0123456789abcdef0123456789abcdef");
    ("PASETO_REFRESH_KEY", Some "fedcba9876543210fedcba9876543210") ] None.
Definition dev_config : AppConfig :=
  mkAppConfig "0.0.0.0:8080" "api" "postgres://db" "redis://127.0.0.1/" "http://s3" None "fr-par" "ciel" "http://sqs"
    "fr-par" "media" "" "" 25 5 300 1800 30 (Some "") 900 10485760 "0123456789abcdef0123456789abcdef"
    "fedcba9876543210fedcba9876543210" 15 30 10 false [] 2048.
Example dev_env_read : fst (from_env dev_env) = Ok dev_config.
Proof. vm_compute. reflexivity. Qed.

Lemma config_roundtrip_witness :
  describes dev_env dev_config ∧ config_ok dev_config ∧ fst (from_env (to_env dev_config)) = Ok dev_config.
Proof.
  destruct (config_roundtrip dev_config) as (Hd & Hr & Hok).
  assert (config_ok dev_config) as Hc by (apply (Hok dev_env); vm_compute; reflexivity).
  split; [apply Hd; vm_compute; reflexivity|]. split; [exact Hc|]. by rewrite (Hr Hc).
Defined.

(** Without its database the service does not start, and says so. *)
Lemma config_errors_witness :
  config_fault (λ _, None) "missing required env var: PASETO_ACCESS_KEY".
Proof. apply (proj1 (config_errors (λ _, None))). vm_compute. reflexivity. Defined.

Example negative_capacity :
  fst (from_env (λ key, if decide (key = "NOTIFICATION_QUEUE_CAPACITY") then Some "-1" else dev_env key))
  = Err "invalid NOTIFICATION_QUEUE_CAPACITY: invalid digit found in string".
Proof. vm_compute. reflexivity. Qed.
