(* ===== verification/HandlersUsers.v ===== *)
(** * Handlers: sessions, accounts and the social graph

    The handlers of [src/http/handlers.rs] from [health] to [relationship_status],
    under their own names. A handler takes the configuration, the environment of the
    request, what its extractors produced (path parameters, the [user_id] of
    [AuthUser], the query, the body) and returns the body of its response. *)

From S2P Require Import Prelude Text Sql Keyset Domain Schema Redis Social Users Posts Trust Invites Crypto.
From S2P Require Import Auth World Feed Stories Notifications Media Http App.
From Stdlib Require Import Ascii.
From stdpp Require Import options.

#[local] Open Scope Z_scope.

Definition MAX_DISPLAY_NAME_LEN : nat := 50.
Definition MAX_BIO_LEN : nat := 500.
Definition MAX_PASSWORD_LEN : nat := 128.
Definition MAX_EMAIL_LEN : nat := 254.

Definition NO_CONTENT : Z := 204.

(** Early returns: [if cond { return Err(..) }]. *)
Definition fail_if {S} (cond : bool) (err : AppError) : M S AppError unit := guard_else (negb cond) err.

(** [value.len() > max]. *)
Definition longer (max : nat) (value : string) : bool := (max <? String.length value)%nat.

(** [str::split] on one character. *)
Fixpoint split_char (c : ascii) (s : string) : list string :=
  match s with
  | EmptyString => [EmptyString]
  | String c' s' =>
      if decide (c = c') then EmptyString :: split_char c s'
      else match split_char c s' with
           | [] => [String c' EmptyString]
           | part :: parts => String c' part :: parts
           end
  end.

Record LoginRequest := mkLogin { login_email : string; login_password : string }.
Record CreateUserRequest := mkCreateUser {
  cu_handle : string; cu_email : string; cu_display_name : string; cu_bio : option string;
  cu_avatar_key : option string; cu_password : string; cu_invite_code : string }.
Record UpdateProfileRequest := mkUpdateProfile {
  up_display_name : option string; up_bio : option string; up_avatar_key : option string }.
Record SocialUserItem := mkSocialUserItem { si_user : PublicUser; si_followed_at : Time }.

Section handlers.
Context `{Libs} (st : AppState) (e : Env).

(** ** Health *)

Definition health : M App AppError string :=
  redis ← try_ (on_world (on_redis ping));
  mret (if db_ping e && is_ok redis then "ok" else "degraded").

Definition metrics : M App AppError string := mret (metrics_text e).

(** ** Sessions *)

(** The [map_err] of [login] and [refresh_token]. *)
Definition map_auth_error (err : AuthError) : AppError :=
  match err with
  | Banned => forbidden "Your account has been temporarily suspended"
  | _ => internal_err
  end.

Definition login (payload : LoginRequest) : M App AppError TokenPair :=
  _ ← fail_if (is_empty (trim (login_email payload)) || is_empty (trim (login_password payload)))
        (bad_request "email and password are required");
  _ ← fail_if (longer MAX_PASSWORD_LEN (login_password payload))
        (bad_request "password must be at most 128 characters");
  tokens ← map_err map_auth_error
             (db (Auth.login (auth_config st) (clk e 0) (draws e) (login_email payload) (login_password payload)));
  ok_or tokens (unauthorized "invalid credentials").

Definition refresh_token (token : string) : M App AppError TokenPair :=
  _ ← fail_if (is_empty (trim token)) (bad_request "refresh_token is required");
  tokens ← map_err map_auth_error (db (Auth.refresh (auth_config st) (clk e 0) (draws e) token));
  ok_or tokens (unauthorized "invalid refresh token").

Definition revoke_token (token : string) : M App AppError Z :=
  _ ← fail_if (is_empty (trim token)) (bad_request "refresh_token is required");
  _ ← map_err (λ _, internal_err) (db (revoke_refresh_token (auth_config st) (clk e 0) token));
  mret NO_CONTENT.

Definition populate_avatar (i : nat) (user : User) : M App AppError User :=
  on_world (populate_user_avatar_url (s3_public_endpoint st) (app_now (clk e i)) user).

Definition get_current_user (auth : Uuid) : M App AppError User :=
  user ← map_err (λ _, internal_err) (db (Auth.get_current_user auth));
  user ← ok_or user (not_found "user not found");
  populate_avatar 1 user.

(** ** Accounts *)

Definition get_user (id : Uuid) : M App AppError PublicUser :=
  result ← map_err (λ _, internal_err) (db (get_public_user_with_counts id));
  match result with
  | Some (user, followers_count, following_count, posts_count) =>
      user ← populate_avatar 1 user;
      let p := public_user_from user in
      mret (mkPublicUser (pu_id p) (pu_handle p) (pu_display_name p) (pu_bio p) (pu_avatar_url p)
              (pu_created_at p) followers_count following_count posts_count)
  | None => throw (not_found "user not found")
  end.

(** [parts.len() != 2 || parts[0].is_empty() || !parts[1].contains('.')]. *)
Definition email_malformed (email : string) : bool :=
  match split_char "@" email with
  | [local; domain] => is_empty local || lacks "." domain
  | _ => true
  end.

(** [c.is_ascii_digit()]. *)
Definition is_ascii_digit (c : string) : bool := in_range 48 57 (code_point c).

(** The checks of [create_user], in their order. *)
Definition validate_signup (p : CreateUserRequest) : Result AppError unit :=
  match validate_handle (cu_handle p) with
  | Err err => Err err
  | Ok _ =>
      if is_empty (trim (cu_email p)) then Err (bad_request "email cannot be empty")
      else if longer MAX_EMAIL_LEN (trim (cu_email p)) then Err (bad_request "email must be at most 254 characters")
      else if email_malformed (trim (cu_email p)) then Err (bad_request "invalid email format")
      else if is_empty (trim (cu_display_name p)) then Err (bad_request "display_name cannot be empty")
      else if longer MAX_DISPLAY_NAME_LEN (cu_display_name p)
      then Err (bad_request "display_name must be at most 50 characters")
      else if match cu_bio p with Some bio => longer MAX_BIO_LEN bio | None => false end
      then Err (bad_request "bio must be at most 500 characters")
      else if (String.length (trim (cu_password p)) <? 8)%nat
      then Err (bad_request "password must be at least 8 characters")
      else if longer MAX_PASSWORD_LEN (cu_password p)
      then Err (bad_request "password must be at most 128 characters")
      else if negb (existsb is_uppercase (chars (cu_password p)))
      then Err (bad_request "password must contain at least one uppercase letter")
      else if negb (existsb is_lowercase (chars (cu_password p)))
      then Err (bad_request "password must contain at least one lowercase letter")
      else if negb (existsb is_ascii_digit (chars (cu_password p)))
      then Err (bad_request "password must contain at least one digit")
      else if is_empty (trim (cu_invite_code p)) then Err (bad_request "invite_code is required")
      else Ok tt
  end.

(** The text of an [AuthError::Invite]. *)
Definition invite_message (err : ConsumeError) : string :=
  match err with
  | InvalidCode => "Invalid invite code"
  | CodeRevoked => "Invite code has been revoked"
  | CodeExpired => "Invite code has expired"
  | CodeFullyUsed => "Invite code has been fully used"
  | ConsumeDb db_err => sqlx_message db_err
  end.

(** [haystack.contains(needle)]. *)
Definition str_contains (needle haystack : string) : bool :=
  match String.index 0 needle haystack with Some _ => true | None => false end.

Definition map_signup_error (err : AuthError) : AppError :=
  match err with
  | AuthDb (UniqueViolation constraint) =>
      if str_contains "users_handle_key" constraint then conflict "Handle already taken"
      else if str_contains "users_email_key" constraint then conflict "Email already taken"
      else internal_err
  | AuthDb _ => internal_err
  | AuthInvite err => bad_request (invite_message err)
  | Banned => forbidden "Your account has been temporarily suspended"
  | Internal => internal_err
  end.

Definition create_user (payload : CreateUserRequest) : M App AppError User :=
  _ ← from_result (validate_signup payload);
  user ← map_err map_signup_error
           (db (signup (clk e 0) (salt e) (fresh e 0) (cu_handle payload) (cu_email payload)
                  (cu_display_name payload) (cu_bio payload) (cu_avatar_key payload) (cu_password payload)
                  (cu_invite_code payload)));
  populate_avatar 1 user.

Definition update_profile (id auth : Uuid) (payload : UpdateProfileRequest) : M App AppError User :=
  _ ← fail_if (negb (bool_decide (auth = id))) (forbidden "cannot update other users");
  _ ← match up_display_name payload with
      | Some display_name =>
          _ ← fail_if (is_empty (trim display_name)) (bad_request "display_name cannot be empty");
          fail_if (longer MAX_DISPLAY_NAME_LEN display_name)
            (bad_request "display_name must be at most 50 characters")
      | None => mret tt
      end;
  _ ← match up_bio payload with
      | Some bio => fail_if (longer MAX_BIO_LEN bio) (bad_request "bio must be at most 500 characters")
      | None => mret tt
      end;
  previous ← map_err (λ _, internal_err_user) (db (Users.get_user id));
  user ← map_err (λ _, internal_err_user)
           (db (Users.update_profile id (up_display_name payload) (up_bio payload) (up_avatar_key payload)));
  match user with
  | Some user =>
      _ ← match previous ≫= user_avatar_key with
          | Some old_key =>
              if match up_avatar_key payload with
                 | Some new_key => negb (bool_decide (new_key = old_key))
                 | None => false
                 end
              then on_world (invalidate_presigned_cache old_key) else mret tt
          | None => mret tt
          end;
      populate_avatar 2 user
  | None => throw (not_found "user not found")
  end.

Definition delete_account (auth : Uuid) : M App AppError Z :=
  deleted ← map_err (λ _, internal_err_user) (db (Users.delete_account (clk e 0) auth));
  if deleted : bool then mret NO_CONTENT else throw (not_found "user not found").

Definition list_user_posts (id : Uuid) (auth : option Uuid) (query : PaginationQuery) :
    M App AppError (ListResponse Post) :=
  limit ← from_result (check_limit (pq_limit query));
  cursor ← from_result (parse_cursor (pq_cursor query));
  posts ← map_err map_post_error (db (list_by_user id auth cursor (limit + 1)));
  let '(posts, next_cursor) := page_of post_key limit posts in
  posts ← on_world (populate_post_avatar_urls (s3_public_endpoint st) (app_now (clk e 1)) posts);
  posts ← on_world (populate_post_primary_media (s3_public_endpoint st) (clk e 2) posts);
  mret (mkListResponse posts (encode_cursor next_cursor)).

(** ** The social graph *)

Definition map_follow_error (err : SocialError) : AppError :=
  match err with
  | UserNotFound => not_found "user not found"
  | FollowerLimitReached => forbidden "user has reached the follower limit"
  | Db_ _ => internal "failed to follow user"
  end.

Definition follow_user (id auth : Uuid) : M App AppError bool :=
  _ ← fail_if (bool_decide (auth = id)) (bad_request "cannot follow yourself");
  followed ← map_err map_follow_error (db (follow (clk e 0) auth id));
  _ ← (if followed : bool then
         _ ← try_send st (UserFollowed id auth);
         _ ← best_effort (db (record_activity (clk e 1) id "follower_gained"));
         invalidate_viewer_feeds e auth
       else mret tt);
  mret followed.

Definition unfollow_user (id auth : Uuid) : M App AppError bool :=
  _ ← fail_if (bool_decide (auth = id)) (bad_request "cannot unfollow yourself");
  unfollowed ← map_err (λ _, internal "failed to unfollow user") (db (unfollow auth id));
  _ ← (if unfollowed : bool then invalidate_viewer_feeds e auth else mret tt);
  mret unfollowed.

Definition block_user (id auth : Uuid) : M App AppError bool :=
  _ ← fail_if (bool_decide (auth = id)) (bad_request "cannot block yourself");
  blocked ← map_err (λ _, internal "failed to block user") (db (block (clk e 0) auth id));
  _ ← (if blocked : bool then invalidate_viewer_feeds e auth else mret tt);
  mret blocked.

Definition unblock_user (id auth : Uuid) : M App AppError bool :=
  _ ← fail_if (bool_decide (auth = id)) (bad_request "cannot unblock yourself");
  unblocked ← map_err (λ _, internal "failed to unblock user") (db (unblock auth id));
  _ ← (if unblocked : bool then invalidate_viewer_feeds e auth else mret tt);
  mret unblocked.

Definition social_user_item (edge : SocialUserEdge) : SocialUserItem :=
  mkSocialUserItem (public_user_from (edge_user edge)) (edge_followed_at edge).

Definition list_followers (id : Uuid) (query : PaginationQuery) :
    M App AppError (ListResponse SocialUserItem) :=
  limit ← from_result (check_limit (pq_limit query));
  cursor ← from_result (parse_cursor (pq_cursor query));
  followers ← map_err (λ _, internal "failed to list followers")
                (db (Social.list_followers id cursor (limit + 1)));
  mret (list_response edge_key social_user_item limit followers).

Definition list_following (id : Uuid) (query : PaginationQuery) :
    M App AppError (ListResponse SocialUserItem) :=
  limit ← from_result (check_limit (pq_limit query));
  cursor ← from_result (parse_cursor (pq_cursor query));
  following ← map_err (λ _, internal "failed to list following")
                (db (Social.list_following id cursor (limit + 1)));
  mret (list_response edge_key social_user_item limit following).

Definition relationship_status (id auth : Uuid) : M App AppError RelationshipStatus :=
  if bool_decide (auth = id) then mret (mkRel false false false false)
  else map_err (λ _, internal "failed to fetch relationship status")
         (db (Social.relationship_status auth id)).
End handlers.
