(* ===== verification/HandlersPosts.v ===== *)
(** * Handlers: posts, engagement, home feed and search

    The handlers of [src/http/handlers.rs] from [create_post] to [refresh_feed], and
    [search_users] and [search_posts]. *)

From S2P Require Import Prelude Text Sql Keyset Domain Schema Redis Social Users Posts Engagement Trust Invites.
From S2P Require Import Crypto Auth World Feed Stories Notifications Search Media Http App HandlersUsers.
From stdpp Require Import options.

#[local] Open Scope Z_scope.

Definition MAX_CAPTION_LEN : nat := 2200.
Definition MAX_SEARCH_QUERY_LEN : nat := 100.
Definition MAX_COMMENT_LEN : nat := 1000.

Record CreatePostRequest := mkCreatePost { cp_media_ids : list Uuid; cp_caption : option string }.
Record SearchQuery := mkSearchQuery { sq_q : string; sq_limit : option Z; sq_cursor : option string }.

Section handlers.
Context `{Libs} (st : AppState) (e : Env).

(** [populate_post_avatar_urls] on a page, and on [slice::from_mut(&mut post)]. *)
Definition populate_posts (i : nat) (posts : list Post) : M App AppError (list Post) :=
  on_world (populate_post_avatar_urls (s3_public_endpoint st) (app_now (clk e i)) posts).
Definition populate_post (i : nat) (post : Post) : M App AppError Post :=
  posts ← populate_posts i [post];
  mret (default post (head posts)).

(** ** Posts *)

Definition check_caption (caption : option string) : M App AppError unit :=
  match caption with
  | Some caption =>
      fail_if (longer MAX_CAPTION_LEN caption) (bad_request "caption must be at most 2200 characters")
  | None => mret tt
  end.

Definition map_create_post_error (err : PostError) : AppError :=
  match err with
  | Validation msg => bad_request msg
  | MediaNotOwned => bad_request "invalid media_id"
  | PostDb db_err =>
      if bool_decide (db_code db_err = Some "23503") then bad_request "invalid media_id"
      else internal_err_user
  | UnknownVisibility _ => internal_err_user
  end.

Definition create_post (auth : Uuid) (payload : CreatePostRequest) : M App AppError Post :=
  _ ← fail_if (bool_decide (cp_media_ids payload = [])) (bad_request "at least one media_id is required");
  _ ← fail_if (10 <? length (cp_media_ids payload))%nat (bad_request "maximum 10 images per post");
  _ ← check_caption (cp_caption payload);
  post ← map_err map_create_post_error
           (db (Posts.create_post (clk e 0) (fresh e 0) auth (cp_media_ids payload) (cp_caption payload)));
  _ ← invalidate_followers_feeds e auth true false;
  _ ← best_effort (db (record_activity (clk e 1) auth "post_created"));
  populate_post 2 post.

Definition get_post (id : Uuid) (auth : option Uuid) : M App AppError Post :=
  post ← map_err (λ _, internal "failed to fetch post") (db (Posts.get_post id auth));
  post ← ok_or post (not_found "post not found");
  populate_post 1 post.

Definition update_post_caption (id auth : Uuid) (caption : option string) : M App AppError Post :=
  _ ← check_caption caption;
  post ← map_err (λ _, internal "failed to update post") (db (update_caption id auth caption));
  match post with
  | Some post => populate_post 1 post
  | None => throw (not_found "post not found")
  end.

Definition delete_post (id auth : Uuid) : M App AppError Z :=
  deleted ← map_err (λ _, internal "failed to delete post") (db (Posts.delete_post id auth));
  if deleted : bool then mret NO_CONTENT else throw (not_found "post not found").

(** ** Engagement *)

Definition ensure_post_visible (post_id viewer_id : Uuid) : M App AppError unit :=
  visible ← map_err map_post_error (db (can_view_post post_id viewer_id));
  guard_else visible (not_found "post not found").

(** [SELECT owner_id FROM posts WHERE id = $1]. *)
Definition post_owner (id : Uuid) : M Db DbError (option Uuid) :=
  reads (λ d, p_owner_id <$> posts d !! id).

Definition like_post (id auth : Uuid) : M App AppError bool :=
  _ ← ensure_post_visible id auth;
  like ← map_err (λ _, internal "failed to like post")
           (db (Engagement.like_post (clk e 0) (fresh e 0) auth id));
  _ ← match like with
      | Some _ =>
          owner ← try_ (db (post_owner id));
          _ ← match owner with
              | Ok (Some owner_id) => best_effort (db (record_activity (clk e 1) owner_id "like_received"))
              | _ => mret tt
              end;
          try_send st (PostLiked id auth)
      | None => mret tt
      end;
  mret (bool_decide (is_Some like)).

Definition unlike_post (id auth : Uuid) : M App AppError Z :=
  deleted ← map_err (λ _, internal "failed to unlike post") (db (Engagement.unlike_post auth id));
  if deleted : bool then mret NO_CONTENT else throw (not_found "like not found").

Definition list_post_likes (id auth : Uuid) (query : PaginationQuery) : M App AppError (ListResponse Like) :=
  limit ← from_result (check_limit (pq_limit query));
  cursor ← from_result (parse_cursor (pq_cursor query));
  _ ← ensure_post_visible id auth;
  likes ← map_err (λ _, internal "failed to list likes") (db (list_likes id cursor (limit + 1)));
  mret (list_response like_key (λ x, x) limit likes).

Definition comment_post (id auth : Uuid) (body : string) : M App AppError Comment :=
  _ ← fail_if (is_empty (trim body)) (bad_request "comment body cannot be empty");
  _ ← fail_if (MAX_COMMENT_LEN <? length (chars body))%nat (bad_request "comment body exceeds 1000 characters");
  _ ← ensure_post_visible id auth;
  comment ← map_err (λ _, internal "failed to comment")
              (db (Engagement.comment_post (clk e 0) (fresh e 0) auth id body));
  _ ← try_send st (PostCommented id auth (join (take 100 (chars body))));
  _ ← best_effort (db (record_activity (clk e 1) auth "comment_created"));
  mret comment.

Definition list_post_comments (id auth : Uuid) (query : PaginationQuery) :
    M App AppError (ListResponse Comment) :=
  limit ← from_result (check_limit (pq_limit query));
  cursor ← from_result (parse_cursor (pq_cursor query));
  _ ← ensure_post_visible id auth;
  comments ← map_err (λ _, internal "failed to list comments") (db (list_comments id cursor (limit + 1)));
  mret (list_response comment_key (λ x, x) limit comments).

Definition delete_comment (post_id comment_id auth : Uuid) : M App AppError Z :=
  deleted ← map_err (λ _, internal "failed to delete comment")
              (db (Engagement.delete_comment comment_id post_id auth));
  if deleted : bool then mret NO_CONTENT else throw (not_found "comment not found").

(** ** The home feed *)

Definition home_feed (auth : Uuid) (query : PaginationQuery) : M App AppError (ListResponse Post) :=
  limit ← from_result (check_limit (pq_limit query));
  cursor ← from_result (parse_cursor (pq_cursor query));
  page ← map_err (λ _, internal "failed to fetch home feed")
           (on_world (get_home_feed (rnow e 0) auth cursor limit));
  posts ← populate_posts 1 page.1;
  mret (mkListResponse posts (encode_cursor page.2)).

Definition refresh_feed (auth : Uuid) : M App AppError Z :=
  _ ← map_err (λ _, internal "failed to refresh feed") (on_world (refresh_home_feed auth));
  mret NO_CONTENT.

(** ** Search *)

(** The checks of the two search handlers: the trimmed term, the limit and the
    cursor. *)
Definition search_params (query : SearchQuery) : Result AppError (string * Z * option Key) :=
  let term := trim (sq_q query) in
  if (String.length term <? 2)%nat then Err (bad_request "q must be at least 2 characters")
  else if longer MAX_SEARCH_QUERY_LEN term then Err (bad_request "q must be at most 100 characters")
  else match check_limit (sq_limit query) with
       | Err err => Err err
       | Ok limit => match parse_cursor (sq_cursor query) with
                     | Err err => Err err
                     | Ok cursor => Ok (term, limit, cursor)
                     end
       end.

Definition search_users (query : SearchQuery) : M App AppError (ListResponse PublicUser) :=
  '(term, limit, cursor) ← from_result (search_params query);
  users ← map_err (λ _, internal "failed to search users")
            (db (Search.search_users lower term cursor (limit + 1)));
  let '(users, next_cursor) := page_of user_key limit users in
  users ← on_world (populate_users_avatar_urls (s3_public_endpoint st) (app_now (clk e 1)) users);
  mret (mkListResponse (public_user_from <$> users) (encode_cursor next_cursor)).

Definition search_posts (query : SearchQuery) : M App AppError (ListResponse Post) :=
  '(term, limit, cursor) ← from_result (search_params query);
  posts ← map_err (λ _, internal "failed to search posts")
            (db (Search.search_posts lower term cursor (limit + 1)));
  let '(posts, next_cursor) := page_of post_key limit posts in
  posts ← populate_posts 1 posts;
  mret (mkListResponse posts (encode_cursor next_cursor)).
End handlers.
