(* ===== verification/HandlersMedia.v ===== *)
(** * Handlers: uploads, images, notifications and moderation

    The handlers of [src/http/handlers.rs] from [create_upload] to
    [list_moderation_audit]. *)

From S2P Require Import Prelude Text Sql Keyset Domain Schema Redis Social Users Posts Trust Invites Crypto.
From S2P Require Import Auth World Feed Stories Notifications Moderation Media Http App HandlersUsers.
From S2P Require Import HandlersPosts.
From stdpp Require Import options.

#[local] Open Scope Z_scope.

Definition ACCEPTED : Z := 202.

Record UploadRequest := mkUploadRequest { ur_content_type : string; ur_bytes : Z }.

Section handlers.
Context `{Libs} (st : AppState) (e : Env).

(** ** Uploads and images *)

(** Every error of the service is answered with 400. *)
Definition create_upload (auth : Uuid) (payload : UploadRequest) : M App AppError UploadIntent :=
  _ ← fail_if (ur_bytes payload <=? 0) (bad_request "bytes must be greater than 0");
  _ ← fail_if (upload_max_bytes st <? ur_bytes payload) (bad_request "upload exceeds max size");
  map_err (λ _, bad_request "invalid upload request")
    (on_world (Media.create_upload (clk e 0) (fresh e 0) auth (ur_content_type payload)
                 (ur_bytes payload) (upload_url_ttl_seconds st))).

Definition complete_upload (auth id : Uuid) : M App AppError Z :=
  queued ← map_err (λ _, internal "failed to complete upload")
             (on_world (Media.complete_upload (clk e 0) id auth));
  if queued : bool then mret ACCEPTED else throw (not_found "upload not found").

Definition get_media (auth id : Uuid) : M App AppError Media :=
  media ← map_err (λ _, internal "failed to fetch media")
            (on_world (get_media_for_user (s3_public_endpoint st) (clk e 0) id auth));
  ok_or media (not_found "media not found").

Definition get_upload_status (auth id : Uuid) : M App AppError UploadStatusView :=
  status ← map_err (λ _, internal "failed to fetch upload status")
             (on_world (Media.get_upload_status id auth));
  ok_or status (not_found "upload not found").

Definition map_delete_media_error (err : MediaError) : AppError :=
  match err with
  | MediaDb db_err =>
      if bool_decide (db_code db_err = Some "23503")
      then conflict "media is attached to a post or story and cannot be deleted"
      else internal "failed to delete media"
  | _ => internal "failed to delete media"
  end.

Definition delete_media (auth id : Uuid) : M App AppError Z :=
  deleted ← map_err map_delete_media_error (on_world (Media.delete_media id auth));
  if deleted : bool then mret NO_CONTENT else throw (not_found "media not found").

(** ** Notifications *)

Definition list_notifications (auth : Uuid) (query : PaginationQuery) :
    M App AppError (ListResponse Notification) :=
  limit ← from_result (check_limit (pq_limit query));
  cursor ← from_result (parse_cursor (pq_cursor query));
  notifications ← map_err (λ _, internal "failed to list notifications")
                    (db (Notifications.list_notifications auth cursor (limit + 1)));
  mret (list_response notification_key (λ x, x) limit notifications).

Definition mark_notification_read (auth id : Uuid) : M App AppError Z :=
  updated ← map_err (λ _, internal "failed to mark notification read") (db (mark_read (clk e 0) id auth));
  if updated : bool then mret NO_CONTENT else throw (not_found "notification not found").

(** ** Moderation *)

Definition map_flag_error (already missing failed : string) (err : DbError) : AppError :=
  if bool_decide (db_code err = Some "23505") then conflict already
  else if bool_decide (db_code err = Some "23503") then not_found missing
  else internal failed.

Definition flag_user (auth id : Uuid) (reason : option string) : M App AppError UserFlag :=
  _ ← fail_if (bool_decide (auth = id)) (bad_request "cannot report yourself");
  flag ← map_err (map_flag_error "you have already reported this user" "user not found" "failed to flag user")
           (db (Moderation.flag_user (clk e 0) (fresh e 0) (fresh e 1) auth id reason));
  _ ← best_effort (db (record_flag (clk e 1) id));
  mret flag.

Definition flag_post (auth id : Uuid) (reason : option string) : M App AppError PostFlag :=
  owner_id ← map_err (λ _, internal "failed to report post") (db (post_owner id));
  owner_id ← ok_or owner_id (not_found "post not found");
  _ ← fail_if (bool_decide (auth = owner_id)) (bad_request "cannot report your own post");
  flag ← map_err (map_flag_error "you have already reported this post" "post not found" "failed to report post")
           (db (Moderation.flag_post (clk e 0) (fresh e 0) (fresh e 1) auth id reason));
  _ ← best_effort (db (record_flag (clk e 1) owner_id));
  mret flag.

Definition takedown_post (auth : option Uuid) (id : Uuid) (reason : option string) : M App AppError Z :=
  owner_id ← map_err (λ _, internal "failed to takedown post")
               (db (Moderation.takedown_post (clk e 0) (fresh e 0) auth id reason));
  match owner_id with
  | Some owner_id =>
      _ ← best_effort (db (record_activity (clk e 1) owner_id "content_removed"));
      mret NO_CONTENT
  | None => throw (not_found "post not found")
  end.

Definition takedown_comment (auth : option Uuid) (id : Uuid) (reason : option string) : M App AppError Z :=
  owner_id ← map_err (λ _, internal "failed to takedown comment")
               (db (Moderation.takedown_comment (clk e 0) (fresh e 0) auth id reason));
  match owner_id with
  | Some owner_id =>
      _ ← best_effort (db (record_activity (clk e 1) owner_id "content_removed"));
      mret NO_CONTENT
  | None => throw (not_found "comment not found")
  end.

Definition list_moderation_audit (query : PaginationQuery) : M App AppError (ListResponse ModerationAction) :=
  limit ← from_result (check_limit (pq_limit query));
  cursor ← from_result (parse_cursor (pq_cursor query));
  actions ← map_err (λ _, internal "failed to list moderation audit") (db (list_audit cursor (limit + 1)));
  mret (list_response action_key (λ x, x) limit actions).
End handlers.
