(* ===== verification/Avatars.v ===== *)
(** * Avatars and the access to images

    [avatar_key] is a client-supplied string: [update_profile] and [create_user] of
    [src/http/handlers.rs] store it as it comes, and every response that carries a user
    signs a read URL for it. This file compares that with the access rules of
    [get_media_for_user]. *)

From S2P Require Import Prelude Sql Domain Schema Redis World Media Users Http App HandlersUsers HandlersMedia.
From stdpp Require Import options.

#[local] Open Scope Z_scope.

Section avatars.
Context `{Libs} (st : AppState) (e : Env).

(** A user with a key, and a cache of working URLs: the response signs the key. *)
Lemma avatar_signed key user a :
  cache_inv (s3_public_endpoint st) (app_world a) →
  is_Some (signed_url (s3_public_endpoint st) (app_now (clk e 2)) key 14400) →
  user_avatar_key user = Some key →
  ∃ url g y, fst (populate_avatar st e 2 user a) = Ok (set_user_avatar_url user (Some url)) ∧
    signed_at (s3_public_endpoint st) key url g y ∧
    (g = app_now (clk e 2) ∧ y = 14400 ∨ app_now (clk e 2) + seconds 300 < g + seconds y).
Proof using Type.
  intros Hc Hsign Hk. unfold populate_avatar, on_world, populate_user_avatar_url, avatar_url. unfold_m. rewrite Hk.
  destruct (presigned_total (s3_public_endpoint st) (E := AppError) _ key 14400 (app_world a) Hsign) as [url Hurl].
  destruct (presigned_now _ _ _ _ _ _ Hc Hurl) as (g & y & Hs & Hv). exists url, g, y.
  destruct (generate_presigned_get_url _ _ _ _ _) as [res w']. simpl in Hurl. by subst res.
Qed.

(** What [update_profile] does with the cached URL of the old key before it signs the
    new one neither fails nor spoils the cache. *)
Definition drop_old_url (old_key : option string) (new_key : string) : M App AppError unit :=
  match old_key with
  | Some old_key =>
      if negb (bool_decide (new_key = old_key)) then on_world (invalidate_presigned_cache old_key) else mret tt
  | None => mret tt
  end.

Lemma drop_old_url_inv old key a :
  cache_inv (s3_public_endpoint st) (app_world a) →
  ∃ a', drop_old_url old key a = (Ok tt, a') ∧ cache_inv (s3_public_endpoint st) (app_world a').
Proof using Type.
  intros Hc. unfold drop_old_url. destruct old as [old|]; [|by exists a].
  destruct (bool_decide (key = old)); [by exists a|]. cbn [negb]. unfold on_world.
  pose proof (redis_del_inv (s3_public_endpoint st) (E := AppError) (presigned_key old) _ Hc) as Hi.
  unfold invalidate_presigned_cache, best_effort in *.
  destruct (on_redis _ _) as [res w']. by eexists.
Qed.

(** C38: the access rules for images do not cover their object keys. Whoever is signed in
    and knows the object key of an image gets a working signed URL of it by naming it as
    their avatar, for every image that [get_media] refuses to show them. (The key is part
    of every URL signed before, so that access once given cannot be taken back.) *)
Theorem avatar_key_bypasses_access auth id row r a :
  let w := app_world a in
  cache_inv (s3_public_endpoint st) w →
  is_Some (signed_url (s3_public_endpoint st) (app_now (clk e 2)) (m_original_key row) 14400) →
  active_user (w_db w) auth = Some r → media (w_db w) !! id = Some row →
  media_readable (app_now (clk e 0)) (w_db w) id auth row = false →
  fst (get_media st e auth id a) = Err (not_found "media not found") ∧
  ∃ user url g y,
    fst (HandlersUsers.update_profile st e auth auth (mkUpdateProfile None None (Some (m_original_key row))) a) = Ok user ∧
    user_avatar_url user = Some url ∧ signed_at (s3_public_endpoint st) (m_original_key row) url g y ∧
    (g = app_now (clk e 2) ∧ y = 14400 ∨ app_now (clk e 2) + seconds 300 < g + seconds y).
Proof using Type.
  intros w Hc Hsign Hu Hm Hr. split.
  - unfold get_media, get_media_for_user, on_world. unfold_m. fold w. rewrite Hm, Hr. done.
  - unfold HandlersUsers.update_profile. unfold_m. cbn [up_display_name up_bio up_avatar_key].
    unfold fail_if at 1. rewrite bool_decide_true by done. cbn [negb]. unfold db, on_world at 1 2, on_db, Users.get_user, Users.update_profile.
    unfold_m. fold w. rewrite Hu. change (w_db (app_world (set_app_world (set_w_db (w_db w) w) a))) with (w_db w).
    rewrite Hu. set (user := Social.row_to_user auth _).
    set (b := set_app_world (set_w_db (set_users _ _) _) _).
    destruct (drop_old_url_inv (u_avatar_key r) (m_original_key row) b Hc) as (b' & Hb & Hc').
    destruct (avatar_signed (m_original_key row) user b' Hc' Hsign eq_refl) as (url & g & y & Hp & Hs & Hv).
    exists (set_user_avatar_url user (Some url)), url, g, y. split_and!; [|done|done|done].
    unfold drop_old_url, mret, M_ret in Hb. cbn [option_bind fmap option_fmap option_map].
    change (user_avatar_key (Social.row_to_user auth r)) with (u_avatar_key r). by rewrite Hb.
Qed.
End avatars.

(** An image of user 1 that no post or story shows; user 2 is a stranger. *)
Definition private_image_db : Db :=
  set_media (λ _, {[ 30%N := image_row ]})
  (set_users (λ _, {[ 1%N := mkUserRow "ann" "a@x" "Ann" None None 0 "h" None;
                      2%N := mkUserRow "bob" "b@x" "Bob" None (Some "old.png") 0 "h" None ]}) empty_db).
Definition private_image_app : App :=
  mkApp (mkWorld private_image_db (mkRedis true ∅) [] true {[ "o" := mkObject "image/png" "data" ]} true) [] true.

Lemma avatar_key_bypasses_access_witness :
  fst (@get_media Sample.toy_libs Sample.st (Sample.env 5) 2%N 30%N private_image_app) = Err (not_found "media not found") ∧
  ∃ user url g y,
    fst (@HandlersUsers.update_profile Sample.toy_libs Sample.st (Sample.env 5) 2%N 2%N
           (mkUpdateProfile None None (Some "o")) private_image_app) = Ok user ∧
    user_avatar_url user = Some url ∧ @signed_at ToyS3.toy_signer ToyS3.toy_url None "o" url g y ∧
    (g = 5 ∧ y = 14400 ∨ 5 + seconds 300 < g + seconds y).
Proof.
  refine (@avatar_key_bypasses_access Sample.toy_libs Sample.st (Sample.env 5) 2%N 30%N image_row
            (mkUserRow "bob" "b@x" "Bob" None (Some "old.png") 0 "h" None) private_image_app _ _ _ _ _).
  - intros k v x Hk. vm_compute in Hk. discriminate.
  - vm_compute. by eexists.
  - vm_compute. reflexivity.
  - vm_compute. reflexivity.
  - vm_compute. reflexivity.
Defined.
