(* ===== verification/HandlersSafety.v ===== *)
(** * Handlers: trust, quotas, devices and invites

    The handlers of [src/http/handlers.rs] from [get_trust_score] to
    [admin_create_invite]. *)

From S2P Require Import Prelude Text Sql Keyset Domain Schema RateLimits Redis RateLimiter Social Users Posts.
From S2P Require Import Trust Invites Crypto Auth World Feed Stories Notifications Fingerprint Media Http App.
From S2P Require Import HandlersUsers.
From stdpp Require Import options.

#[local] Open Scope Z_scope.

Definition MAX_FINGERPRINT_LEN : nat := 512.

Record TrustScoreResponse := mkTrustScoreResponse {
  tr_user_id : string; tr_trust_level : Z; tr_trust_level_name : string; tr_trust_points : Z;
  tr_account_age_days : Z; tr_posts_count : Z; tr_followers_count : Z; tr_strikes : Z; tr_is_banned : bool }.

Record RemainingQuotas := mkRemaining {
  rem_posts : Z; rem_follows : Z; rem_likes : Z; rem_comments : Z; rem_media_read : Z; rem_media_upload : Z }.
Record RateLimitsResponse := mkRateLimitsResponse {
  rl_trust_level : string; rl_limits : RateLimits; rl_remaining : RemainingQuotas }.

Record DeviceResponse := mkDeviceResponse {
  dev_fingerprint_hash : string; dev_account_count : Z; dev_risk_score : Z; dev_is_blocked : bool }.

(** The name of the constructor: the [match] of [get_trust_score], and [{:?}]. *)
Definition level_name (l : TrustLevel) : string :=
  match l with New => "New" | Basic => "Basic" | Trusted => "Trusted" | Verified => "Verified" end.

(** A panic in a handler: the connection is closed without a response. *)
Definition connection_closed : AppError := mkAppError 0 "" [].

(** [&s[..n]], which panics when [s] is shorter. *)
Definition slice_to (n : nat) (s : string) : option string :=
  if (n <=? String.length s)%nat then Some (String.substring 0 n s) else None.

Section handlers.
Context `{Libs} (st : AppState) (e : Env).

(** ** Trust and quotas *)

(** [get_trust_score(..)?.ok_or_else(..)?]. *)
Definition trust_score (auth : Uuid) : M App AppError TrustScore :=
  score ← map_err (λ _, internal "failed to fetch trust score") (db (Trust.get_trust_score auth));
  ok_or score (not_found "trust score not found").

Definition get_trust_score (auth : Uuid) : M App AppError TrustScoreResponse :=
  score ← trust_score auth;
  let r := score_row score in
  mret (mkTrustScoreResponse (uuid_str (score_user_id score)) (as_i32 (score_level score))
          (level_name (score_level score)) (ts_trust_points r) (ts_account_age_days r) (ts_posts_count r)
          (ts_followers_count r) (ts_strikes r)
          (match ts_banned_until r with Some until => app_now (clk e 1) <? until | None => false end)).

(** The [i]-th [get_remaining] of [get_rate_limits]. *)
Definition remaining (i : nat) (auth : Uuid) (action : string) (level : TrustLevel) : M App AppError Z :=
  map_err (λ _, internal "failed to read rate limits")
    (on_world (on_redis (get_remaining (app_now (clk e i)) (rnow e i) auth action level))).

Definition get_rate_limits (auth : Uuid) : M App AppError RateLimitsResponse :=
  score ← trust_score auth;
  let trust_level := score_level score in
  let limits := for_trust_level trust_level in
  remaining_posts ← remaining 1 auth "post" trust_level;
  remaining_follows ← remaining 2 auth "follow" trust_level;
  remaining_likes ← remaining 3 auth "like" trust_level;
  remaining_comments ← remaining 4 auth "comment" trust_level;
  remaining_media_read ← remaining 5 auth "media_read" trust_level;
  remaining_media_upload ← remaining 6 auth "media_upload" trust_level;
  mret (mkRateLimitsResponse (level_name trust_level) limits
          (mkRemaining remaining_posts remaining_follows remaining_likes remaining_comments
             remaining_media_read remaining_media_upload)).

(** ** Devices *)

Definition register_device_fingerprint (auth : option Uuid) (user_agent : option string)
    (fingerprint : string) : M App AppError Z :=
  _ ← fail_if (is_empty (trim fingerprint)) (bad_request "fingerprint is required");
  _ ← fail_if (longer MAX_FINGERPRINT_LEN fingerprint)
        (bad_request "fingerprint must be at most 512 characters");
  let fingerprint_hash := hash_fingerprint fingerprint in
  risk ← map_err (λ _, internal "failed to check device risk") (db (check_device_risk fingerprint_hash));
  _ ← fail_if risk.2 (forbidden "This device has been blocked");
  _ ← map_err (λ _, internal "failed to register device")
        (db (register_fingerprint (clk e 1) fingerprint_hash auth user_agent));
  mret NO_CONTENT.

Definition device_response (device : DeviceInfo) : option DeviceResponse :=
  hash ← slice_to 16 (di_fingerprint_hash device);
  Some (mkDeviceResponse hash (di_account_count device) (di_risk_score device) (di_is_blocked device)).

Definition list_user_devices (auth : Uuid) : M App AppError (list DeviceResponse) :=
  devices ← map_err (λ _, internal "failed to fetch devices") (db (get_user_devices auth));
  ok_or (mapM device_response devices) connection_closed.

(** ** Invites *)

Definition list_invites (auth : Uuid) : M App AppError (list InviteCode) :=
  map_err (λ _, internal "failed to list invites") (db (list_user_invites auth)).

Definition default_days_valid : Z := 7.

Definition create_invite (auth : Uuid) (days_valid : option Z) : M App AppError InviteCode :=
  let days_valid := default default_days_valid days_valid in
  _ ← fail_if ((days_valid <? 1) || (30 <? days_valid)) (bad_request "days_valid must be between 1 and 30");
  map_err map_invite_error (db (Invites.create_invite (clk e 0) (codes e) auth days_valid)).

Definition get_invite_stats (auth : Uuid) : M App AppError InviteStats :=
  map_err (λ _, internal "failed to fetch invite stats") (db (Invites.get_invite_stats auth)).

Definition revoke_invite (auth : Uuid) (code : string) : M App AppError Z :=
  revoked ← map_err (λ _, internal "failed to revoke invite") (db (Invites.revoke_invite code auth));
  if revoked : bool then mret NO_CONTENT else throw (not_found "invite code not found or already used").

(** [json!({ "is_valid": is_valid })]. *)
Definition validate_invite (code : string) : M App AppError Json :=
  is_valid ← map_err (λ _, internal "failed to validate invite") (db (Invites.validate_invite (clk e 0) code));
  mret (JObject [("is_valid", JBool is_valid)]).

Definition admin_create_invite (days_valid : option Z) : M App AppError InviteCode :=
  let days := default default_days_valid days_valid in
  _ ← fail_if (negb ((1 <=? days) && (days <=? 365))) (bad_request "days_valid must be between 1 and 365");
  map_err map_invite_error (db (create_admin_invite (clk e 0) (codes e) days)).
End handlers.
