(* ===== verification/HandlersStories.v ===== *)
(** * Handlers: stories

    The handlers of [src/http/handlers.rs] from [create_story] to
    [get_user_highlights]. *)

From S2P Require Import Prelude Text Sql Keyset Domain Schema Redis Social Users Posts Trust Invites Crypto.
From S2P Require Import Auth World Feed Stories Notifications Media Http App HandlersUsers HandlersPosts.
From stdpp Require Import options.

#[local] Open Scope Z_scope.

Definition MAX_HIGHLIGHT_NAME_LEN : nat := 50.

Record CreateStoryRequest := mkCreateStory {
  cs_media_id : Uuid; cs_caption : option string; cs_visibility : StoryVisibility }.

Section handlers.
Context `{Libs} (st : AppState) (e : Env).

(** [populate_story_avatar_urls] followed by [populate_story_media]. *)
Definition populate_stories (i : nat) (stories : list Story) : M App AppError (list Story) :=
  stories ← on_world (populate_story_avatar_urls (s3_public_endpoint st) (app_now (clk e i)) stories);
  on_world (populate_story_media (s3_public_endpoint st) (clk e (S i)) stories).
Definition populate_story (i : nat) (story : Story) : M App AppError Story :=
  stories ← populate_stories i [story];
  mret (default story (head stories)).

(** ** Stories *)

Definition create_story (auth : Uuid) (payload : CreateStoryRequest) : M App AppError Story :=
  _ ← match cs_caption payload with
      | Some caption => fail_if (MAX_CAPTION_LEN <? length (chars caption))%nat
                          (bad_request "caption exceeds 2200 characters")
      | None => mret tt
      end;
  story ← map_err map_story_error
            (db (Stories.create_story (clk e 0) (fresh e 0) auth (cs_media_id payload) (cs_caption payload)
                   (cs_visibility payload)));
  story ← populate_story 1 story;
  _ ← invalidate_followers_feeds e auth false true;
  mret story.

Definition get_user_stories (id auth : Uuid) (query : PaginationQuery) : M App AppError (ListResponse Story) :=
  limit ← from_result (check_limit (pq_limit query));
  cursor ← from_result (parse_cursor (pq_cursor query));
  stories ← map_err map_story_error (db (Stories.get_user_stories (clk e 0) id auth cursor (limit + 1)));
  let '(stories, next_cursor) := page_of story_key limit stories in
  stories ← populate_stories 1 stories;
  mret (mkListResponse stories (encode_cursor next_cursor)).

Definition get_story (id auth : Uuid) : M App AppError Story :=
  story ← map_err map_story_error (db (Stories.get_story (clk e 0) id auth));
  story ← ok_or story (not_found "story not found");
  populate_story 1 story.

Definition delete_story (id auth : Uuid) : M App AppError Z :=
  deleted ← map_err map_story_error (db (Stories.delete_story id auth));
  if deleted : bool then
    _ ← invalidate_followers_feeds e auth false true;
    mret NO_CONTENT
  else throw (not_found "story not found").

Definition get_story_viewers (id auth : Uuid) (query : PaginationQuery) :
    M App AppError (ListResponse StoryView) :=
  limit ← from_result (check_limit (pq_limit query));
  cursor ← from_result (parse_cursor (pq_cursor query));
  owner ← map_err map_story_error (db (get_story_owner id));
  _ ← match owner with
      | Some owner_id => guard_else (bool_decide (owner_id = auth))
                           (forbidden "only the story owner can view viewers")
      | None => throw (not_found "story not found")
      end;
  viewers ← map_err map_story_error (db (list_viewers id cursor (limit + 1)));
  let '(viewers, next_cursor) := page_of view_key limit viewers in
  viewers ← on_world (populate_story_view_avatar_urls (s3_public_endpoint st) (app_now (clk e 1)) viewers);
  mret (mkListResponse viewers (encode_cursor next_cursor)).

(** ** Reactions and views *)

(** The visibility gate of the engagement handlers: [get_story] and
    [is_none() => 404]. *)
Definition ensure_story_visible (id auth : Uuid) : M App AppError unit :=
  visible ← map_err map_story_error (db (Stories.get_story (clk e 0) id auth));
  guard_else (bool_decide (is_Some visible)) (not_found "story not found").

Definition add_story_reaction (id auth : Uuid) (emoji : string) : M App AppError Domain.StoryReaction :=
  let emoji := trim emoji in
  _ ← fail_if (is_empty emoji) (bad_request "emoji cannot be empty");
  _ ← fail_if (7 <? length (chars emoji))%nat (bad_request "emoji must be at most 7 characters");
  _ ← ensure_story_visible id auth;
  reaction ← map_err map_story_error (db (add_reaction (clk e 1) (fresh e 0) id auth emoji));
  _ ← try_send st (Notifications.StoryReaction id auth emoji);
  mret reaction.

Definition list_story_reactions (id auth : Uuid) (query : PaginationQuery) :
    M App AppError (ListResponse Domain.StoryReaction) :=
  limit ← from_result (check_limit (pq_limit query));
  cursor ← from_result (parse_cursor (pq_cursor query));
  _ ← ensure_story_visible id auth;
  reactions ← map_err map_story_error (db (list_reactions id cursor (limit + 1)));
  mret (list_response reaction_key (λ x, x) limit reactions).

Definition remove_story_reaction (id auth : Uuid) : M App AppError Z :=
  removed ← map_err map_story_error (db (remove_reaction id auth));
  if removed : bool then mret NO_CONTENT else throw (not_found "reaction not found").

Definition mark_story_seen (id auth : Uuid) : M App AppError Z :=
  _ ← ensure_story_visible id auth;
  _ ← map_err map_story_error (db (mark_seen (clk e 1) id auth));
  mret NO_CONTENT.

Definition get_stories_feed (auth : Uuid) (query : PaginationQuery) : M App AppError (ListResponse Story) :=
  limit ← from_result (check_limit (pq_limit query));
  cursor ← from_result (parse_cursor (pq_cursor query));
  stories ← map_err map_story_error
              (on_world (Stories.get_stories_feed (clk e 0) (rnow e 0) auth cursor (limit + 1)));
  let '(stories, next_cursor) := page_of story_key limit stories in
  stories ← populate_stories 1 stories;
  mret (mkListResponse stories (encode_cursor next_cursor)).

Definition get_story_metrics (id auth : Uuid) : M App AppError StoryMetrics :=
  metrics ← map_err map_story_error (db (get_metrics id auth));
  ok_or metrics (not_found "story not found").

(** ** Highlights *)

Definition add_story_to_highlight (id auth : Uuid) (highlight_name : string) : M App AppError StoryHighlight :=
  _ ← fail_if (is_empty (trim highlight_name)) (bad_request "highlight_name cannot be empty");
  _ ← fail_if (MAX_HIGHLIGHT_NAME_LEN <? length (chars highlight_name))%nat
        (bad_request "highlight_name must be at most 50 characters");
  map_err map_story_error (db (add_to_highlight (clk e 0) (fresh e 0) auth id highlight_name)).

Definition get_user_highlights (id : Uuid) (query : PaginationQuery) :
    M App AppError (ListResponse StoryHighlight) :=
  limit ← from_result (check_limit (pq_limit query));
  cursor ← from_result (parse_cursor (pq_cursor query));
  highlights ← map_err map_story_error (db (Stories.get_user_highlights id cursor (limit + 1)));
  mret (list_response highlight_key (λ x, x) limit highlights).
End handlers.
