(* ===== verification/Endpoints.v ===== *)
(** * Endpoints: extraction and dispatch

    The extractors of [src/http/extract.rs] and the parameter lists of the handlers
    of [src/http/handlers.rs]: which credentials an endpoint asks for, and in which
    order its inputs are taken out of the request. [serve] is one request to one
    endpoint, from the extractors to the response. *)

From S2P Require Import Prelude Text Sql Keyset Domain Schema RateLimits Redis RateLimiter Social Users Posts.
From S2P Require Import Engagement Trust Invites Crypto Auth World Feed Stories Notifications Moderation.
From S2P Require Import Fingerprint Search Media Http App HandlersUsers HandlersPosts HandlersMedia.
From S2P Require Import HandlersSafety HandlersStories.
From stdpp Require Import options.

#[local] Open Scope Z_scope.

(** ** Extractors *)

(** What axum's own [Path], [Query] and [Json] extractors make of the request:
    [None] when they reject it. *)
Definition Path (A : Type) : Type := option A.
Definition Query (A : Type) : Type := option A.
Definition Body (A : Type) : Type := option A.

Definition path {A} (p : Path A) : M App AppError A := ok_or p (bad_request "invalid request").
Definition query {A} (q : Query A) : M App AppError A := ok_or q (bad_request "invalid request").
Definition json {A} (b : Body A) : M App AppError A := ok_or b (bad_request "invalid request body").

(** ** Endpoints *)

Inductive Endpoint :=
| Health | Metrics
| Login (b : Body LoginRequest) | RefreshToken (b : Body string) | RevokeToken (b : Body string)
| GetCurrentUser | ValidateInvite (code : Path string)
| CreateUser (b : Body CreateUserRequest) | GetUser (id : Path Uuid)
| UpdateProfile (id : Path Uuid) (b : Body UpdateProfileRequest)
| ListUserPosts (id : Path Uuid) (q : Query PaginationQuery)
| GetUserStories (id : Path Uuid) (q : Query PaginationQuery)
| GetUserHighlights (id : Path Uuid) (q : Query PaginationQuery)
| FollowUser (id : Path Uuid) | UnfollowUser (id : Path Uuid)
| BlockUser (id : Path Uuid) | UnblockUser (id : Path Uuid)
| ListFollowers (id : Path Uuid) (q : Query PaginationQuery)
| ListFollowing (id : Path Uuid) (q : Query PaginationQuery)
| Relationship (id : Path Uuid) | DeleteAccount
| CreatePost (b : Body CreatePostRequest) | GetPost (id : Path Uuid)
| UpdatePostCaption (id : Path Uuid) (b : Body (option string)) | DeletePost (id : Path Uuid)
| LikePost (id : Path Uuid) | UnlikePost (id : Path Uuid)
| ListPostLikes (id : Path Uuid) (q : Query PaginationQuery)
| CommentPost (id : Path Uuid) (b : Body string)
| ListPostComments (id : Path Uuid) (q : Query PaginationQuery)
| DeleteComment (ids : Path (Uuid * Uuid))
| HomeFeed (q : Query PaginationQuery) | RefreshFeed
| CreateUpload (b : Body UploadRequest) | CompleteUpload (id : Path Uuid)
| GetMedia (id : Path Uuid) | DeleteMedia (id : Path Uuid) | GetUploadStatus (id : Path Uuid)
| ListNotifications (q : Query PaginationQuery) | MarkNotificationRead (id : Path Uuid)
| FlagUser (id : Path Uuid) (b : Body (option string)) | FlagPost (id : Path Uuid) (b : Body (option string))
| TakedownPost (id : Path Uuid) (b : Body (option string))
| TakedownComment (id : Path Uuid) (b : Body (option string))
| ListModerationAudit (q : Query PaginationQuery) | AdminCreateInvite (b : Body (option Z))
| SearchUsers (q : Query SearchQuery) | SearchPosts (q : Query SearchQuery)
| CreateStory (b : Body CreateStoryRequest) | GetStory (id : Path Uuid) | DeleteStory (id : Path Uuid)
| GetStoryViewers (id : Path Uuid) (q : Query PaginationQuery)
| AddStoryReaction (id : Path Uuid) (b : Body string)
| ListStoryReactions (id : Path Uuid) (q : Query PaginationQuery)
| RemoveStoryReaction (id : Path Uuid) | MarkStorySeen (id : Path Uuid) | GetStoryMetrics (id : Path Uuid)
| AddStoryToHighlight (id : Path Uuid) (b : Body string)
| GetStoriesFeed (q : Query PaginationQuery)
| GetTrustScore | GetRateLimits | RegisterDevice (b : Body string) | ListUserDevices
| ListInvites | CreateInvite (b : Body (option Z)) | GetInviteStats | RevokeInvite (code : Path string).

(** The bodies of successful responses. *)
Inductive Reply :=
| RStatus (code : Z) | RText_ (s : string) | RJson (j : Json) | RFlag (b : bool)
| RTokens (t : TokenPair) | RUser (u : User) | RPublicUser (u : PublicUser)
| RPosts (l : ListResponse Post) | RPost (p : Post)
| RSocialUsers (l : ListResponse SocialUserItem) | RRelationship (r : RelationshipStatus)
| RLikes (l : ListResponse Like) | RComment (c : Comment) | RComments (l : ListResponse Comment)
| RUploadIntent (i : UploadIntent) | RMedia (m : Media) | RUploadStatus (s : UploadStatusView)
| RNotifications (l : ListResponse Notification) | RUserFlag (f : UserFlag) | RPostFlag (f : PostFlag)
| RActions (l : ListResponse ModerationAction) | RPublicUsers (l : ListResponse PublicUser)
| RStory (s : Story) | RStories (l : ListResponse Story) | RViews (l : ListResponse StoryView)
| RReaction (r : Domain.StoryReaction) | RReactions (l : ListResponse Domain.StoryReaction)
| RMetrics (m : StoryMetrics) | RHighlight (h : StoryHighlight) | RHighlights (l : ListResponse StoryHighlight)
| RTrust (t : TrustScoreResponse) | RLimits (l : RateLimitsResponse) | RDevices (l : list DeviceResponse)
| RInvite (i : InviteCode) | RInvites (l : list InviteCode) | RInviteStats (s : InviteStats).

(** [IntoResponse] of [StatusCode] and of [Json]. *)
Definition reply_status (r : Reply) : Z := match r with RStatus code => code | _ => 200 end.

Section serve.
Context `{Libs} (st : AppState) (e : Env) (rq : Request).

(** The [AuthUser], [Option<AuthUser>] and [AdminToken] parameters. *)
Definition authed : M App AppError Uuid :=
  ur ← db (auth_user (auth_config st) (auth_clk e) rq);
  mret ur.1.
Definition authed_opt : M App AppError (option Uuid) :=
  ur ← db (auth_user_opt (auth_config st) (auth_clk e) rq);
  mret ur.1.
Definition admin : M App AppError unit := from_result (admin_token (expected_admin_token st) rq).

(** Run a handler on its extracted inputs and wrap its result. *)
Definition respond {A} (k : A → Reply) (m : M App AppError A) : M App AppError Reply := a ← m; mret (k a).

Definition serve (ep : Endpoint) : M App AppError Reply :=
  match ep with
  | Health => respond RText_ (health e)
  | Metrics => _ ← admin; respond RText_ (metrics e)
  | Login b => b ← json b; respond RTokens (login st e b)
  | RefreshToken b => b ← json b; respond RTokens (refresh_token st e b)
  | RevokeToken b => b ← json b; respond RStatus (revoke_token st e b)
  | GetCurrentUser => u ← authed; respond RUser (get_current_user st e u)
  | ValidateInvite c => c ← path c; respond RJson (validate_invite e c)
  | CreateUser b => b ← json b; respond RUser (create_user st e b)
  | GetUser i => i ← path i; respond RPublicUser (get_user st e i)
  | UpdateProfile i b => i ← path i; u ← authed; b ← json b; respond RUser (update_profile st e i u b)
  | ListUserPosts i q => i ← path i; u ← authed_opt; q ← query q; respond RPosts (list_user_posts st e i u q)
  | GetUserStories i q => i ← path i; u ← authed; q ← query q; respond RStories (get_user_stories st e i u q)
  | GetUserHighlights i q => i ← path i; _ ← authed; q ← query q; respond RHighlights (get_user_highlights i q)
  | FollowUser i => i ← path i; u ← authed; respond RFlag (follow_user st e i u)
  | UnfollowUser i => i ← path i; u ← authed; respond RFlag (unfollow_user e i u)
  | BlockUser i => i ← path i; u ← authed; respond RFlag (block_user e i u)
  | UnblockUser i => i ← path i; u ← authed; respond RFlag (unblock_user e i u)
  | ListFollowers i q => i ← path i; _ ← authed; q ← query q; respond RSocialUsers (list_followers i q)
  | ListFollowing i q => i ← path i; _ ← authed; q ← query q; respond RSocialUsers (list_following i q)
  | Relationship i => i ← path i; u ← authed; respond RRelationship (relationship_status i u)
  | DeleteAccount => u ← authed; respond RStatus (delete_account e u)
  | CreatePost b => u ← authed; b ← json b; respond RPost (create_post st e u b)
  | GetPost i => i ← path i; u ← authed_opt; respond RPost (get_post st e i u)
  | UpdatePostCaption i b => i ← path i; u ← authed; b ← json b; respond RPost (update_post_caption st e i u b)
  | DeletePost i => i ← path i; u ← authed; respond RStatus (delete_post i u)
  | LikePost i => i ← path i; u ← authed; respond RFlag (like_post st e i u)
  | UnlikePost i => i ← path i; u ← authed; respond RStatus (unlike_post i u)
  | ListPostLikes i q => i ← path i; u ← authed; q ← query q; respond RLikes (list_post_likes i u q)
  | CommentPost i b => i ← path i; u ← authed; b ← json b; respond RComment (comment_post st e i u b)
  | ListPostComments i q => i ← path i; u ← authed; q ← query q; respond RComments (list_post_comments i u q)
  | DeleteComment ids => ids ← path ids; u ← authed; respond RStatus (delete_comment ids.1 ids.2 u)
  | HomeFeed q => u ← authed; q ← query q; respond RPosts (home_feed st e u q)
  | RefreshFeed => u ← authed; respond RStatus (refresh_feed u)
  | CreateUpload b => u ← authed; b ← json b; respond RUploadIntent (create_upload st e u b)
  | CompleteUpload i => u ← authed; i ← path i; respond RStatus (complete_upload e u i)
  | GetMedia i => u ← authed; i ← path i; respond RMedia (get_media st e u i)
  | DeleteMedia i => u ← authed; i ← path i; respond RStatus (delete_media u i)
  | GetUploadStatus i => u ← authed; i ← path i; respond RUploadStatus (get_upload_status u i)
  | ListNotifications q => u ← authed; q ← query q; respond RNotifications (list_notifications u q)
  | MarkNotificationRead i => u ← authed; i ← path i; respond RStatus (mark_notification_read e u i)
  | FlagUser i b => u ← authed; i ← path i; b ← json b; respond RUserFlag (flag_user e u i b)
  | FlagPost i b => u ← authed; i ← path i; b ← json b; respond RPostFlag (flag_post e u i b)
  | TakedownPost i b =>
      u ← authed_opt; _ ← admin; i ← path i; b ← json b; respond RStatus (takedown_post e u i b)
  | TakedownComment i b =>
      u ← authed_opt; _ ← admin; i ← path i; b ← json b; respond RStatus (takedown_comment e u i b)
  | ListModerationAudit q => _ ← admin; q ← query q; respond RActions (list_moderation_audit q)
  | AdminCreateInvite b => _ ← admin; b ← json b; respond RInvite (admin_create_invite e b)
  | SearchUsers q => _ ← authed; q ← query q; respond RPublicUsers (search_users st e q)
  | SearchPosts q => _ ← authed; q ← query q; respond RPosts (search_posts st e q)
  | CreateStory b => u ← authed; b ← json b; respond RStory (create_story st e u b)
  | GetStory i => i ← path i; u ← authed; respond RStory (get_story st e i u)
  | DeleteStory i => i ← path i; u ← authed; respond RStatus (delete_story e i u)
  | GetStoryViewers i q => i ← path i; u ← authed; q ← query q; respond RViews (get_story_viewers st e i u q)
  | AddStoryReaction i b =>
      i ← path i; u ← authed; b ← json b; respond RReaction (add_story_reaction st e i u b)
  | ListStoryReactions i q =>
      i ← path i; u ← authed; q ← query q; respond RReactions (list_story_reactions e i u q)
  | RemoveStoryReaction i => i ← path i; u ← authed; respond RStatus (remove_story_reaction i u)
  | MarkStorySeen i => i ← path i; u ← authed; respond RStatus (mark_story_seen e i u)
  | GetStoryMetrics i => i ← path i; u ← authed; respond RMetrics (get_story_metrics i u)
  | AddStoryToHighlight i b =>
      i ← path i; u ← authed; b ← json b; respond RHighlight (add_story_to_highlight e i u b)
  | GetStoriesFeed q => u ← authed; q ← query q; respond RStories (get_stories_feed st e u q)
  | GetTrustScore => u ← authed; respond RTrust (get_trust_score e u)
  | GetRateLimits => u ← authed; respond RLimits (get_rate_limits e u)
  | RegisterDevice b =>
      u ← authed_opt; b ← json b;
      respond RStatus (register_device_fingerprint e u (rq_headers rq !! "user-agent") b)
  | ListUserDevices => u ← authed; respond RDevices (list_user_devices u)
  | ListInvites => u ← authed; respond RInvites (list_invites u)
  | CreateInvite b => u ← authed; b ← json b; respond RInvite (create_invite e u b)
  | GetInviteStats => u ← authed; respond RInviteStats (get_invite_stats u)
  | RevokeInvite c => u ← authed; c ← path c; respond RStatus (revoke_invite u c)
  end.
End serve.
