(* ===== verification/ClientErrors.v ===== *)
(** * What a rejected request leaves behind

    The failures of every endpoint: which services only read, which ones undo their
    effects when they fail, and that a handler whose answer is a 4xx status changed
    nothing. [Rejections] carries this through the layers in front of the handlers. *)

From S2P Require Import Prelude Effects Text Sql Keyset Domain Schema RateLimits Redis RateLimiter Social Users.
From S2P Require Import Posts Engagement Trust Invites Crypto Auth World Feed Stories Notifications Moderation.
From S2P Require Import Fingerprint Search Media Http App HandlersUsers HandlersPosts HandlersMedia.
From S2P Require Import HandlersSafety HandlersStories Endpoints.
From stdpp Require Import options.

#[local] Open Scope Z_scope.

(** Execute a service on a generic state and look at every way out. *)
Tactic Notation "every_exit" reference(op) :=
  intros ?; unfold op; try unfold undone_at; run; try done.

(** ** Services that only read *)

Section reading.
Context `{Libs}.

Lemma auth_user_reads cfg c rq : read_only (auth_user cfg c rq).
Proof. every_exit auth_user; unfold authenticate_access_token in *; run; done. Qed.
Lemma auth_user_opt_reads cfg c rq : read_only (auth_user_opt cfg c rq).
Proof.
  intros d. unfold auth_user_opt. pose proof (auth_user_reads cfg c rq d) as Hd.
  by destruct (auth_user cfg c rq d) as [[[]|]?].
Qed.
Lemma can_view_post_reads p u : read_only (can_view_post p u).
Proof. every_exit can_view_post. Qed.
Lemma get_post_reads p u : read_only (Posts.get_post p u).
Proof. every_exit Posts.get_post. Qed.
Lemma get_media_for_user_reads s3 c m u : read_only (get_media_for_user s3 c m u).
Proof. every_exit get_media_for_user. Qed.
Lemma search_users_reads q c l : read_only (Search.search_users lower q c l).
Proof. every_exit Search.search_users. Qed.
Lemma search_posts_reads q c l : read_only (Search.search_posts lower q c l).
Proof. every_exit Search.search_posts. Qed.
Lemma get_remaining_reads now rnow u a l : read_only (get_remaining now rnow u a l).
Proof. every_exit get_remaining; unfold redis_get, connected in *; run; done. Qed.
Lemma check_device_risk_reads h : read_only (check_device_risk h).
Proof. every_exit check_device_risk. Qed.
Lemma ping_reads : read_only ping.
Proof. every_exit ping. unfold connected. run; done. Qed.
Lemma get_metrics_reads i u : read_only (get_metrics i u).
Proof. every_exit get_metrics. Qed.
Lemma get_invite_stats_reads u : read_only (Invites.get_invite_stats u).
Proof. every_exit Invites.get_invite_stats. Qed.
End reading.

#[export] Hint Resolve auth_user_reads auth_user_opt_reads can_view_post_reads get_post_reads
  get_media_for_user_reads search_users_reads search_posts_reads get_remaining_reads check_device_risk_reads
  get_metrics_reads get_invite_stats_reads ping_reads : reads.

(** ** Services that fail without a trace *)

Definition any {E} (_ : E) : Prop := True.

Lemma undone_any {S E A} P (m : M S E A) : undone any m → undone P m.
Proof. intros Hm s. specialize (Hm s). unfold undone_at in *. destruct (m s) as [[]?]; [done|]. intros _. by apply Hm. Qed.

Section failing.
Context `{Libs}.

Lemma login_undone cfg c dr i p : undone any (Auth.login cfg c dr i p).
Proof. every_exit Auth.login. unfold issue_token_pair in *. run; done. Qed.
Lemma revoke_undone cfg c t : undone any (revoke_refresh_token cfg c t).
Proof. every_exit revoke_refresh_token. Qed.
Lemma signup_undone c sa i h m n b k p code : undone any (signup c sa i h m n b k p code).
Proof.
  unfold signup, hash_password. apply undone_bind_reads; [auto with reads|].
  intros. apply undone_transaction.
Qed.
Lemma update_profile_undone i n b k : undone any (Users.update_profile i n b k).
Proof. every_exit Users.update_profile. Qed.
Lemma delete_account_undone c i : undone any (Users.delete_account c i).
Proof. apply undone_transaction. Qed.
Lemma follow_undone c a b : undone any (follow c a b).
Proof. apply undone_transaction. Qed.
Lemma unfollow_undone a b : undone any (unfollow a b).
Proof. every_exit unfollow. Qed.
Lemma block_undone c a b : undone any (block c a b).
Proof. apply undone_transaction. Qed.
Lemma unblock_undone a b : undone any (unblock a b).
Proof. every_exit unblock. Qed.
Lemma create_post_undone c i u ms cap : undone any (Posts.create_post c i u ms cap).
Proof. every_exit Posts.create_post. Qed.
Lemma update_caption_undone i u cap : undone any (update_caption i u cap).
Proof. every_exit update_caption. Qed.
Lemma delete_post_undone i u : undone any (Posts.delete_post i u).
Proof. every_exit Posts.delete_post. Qed.
Lemma like_post_undone c i u p : undone any (Engagement.like_post c i u p).
Proof. every_exit Engagement.like_post. Qed.
Lemma unlike_post_undone u p : undone any (Engagement.unlike_post u p).
Proof. every_exit Engagement.unlike_post. Qed.
Lemma comment_post_undone c i u p b : undone any (Engagement.comment_post c i u p b).
Proof.
  every_exit Engagement.comment_post. unfold comment_of, user_exists in *. bool_to_prop.
  match goal with Hu : has_key _ (users _) = true |- _ => apply has_key_true in Hu as [x Hx] end.
  simpl in *. by rewrite Hx in *.
Qed.
Lemma delete_comment_undone i p u : undone any (Engagement.delete_comment i p u).
Proof. every_exit Engagement.delete_comment. Qed.
Lemma mark_read_undone c i u : undone any (mark_read c i u).
Proof. every_exit mark_read. Qed.
Lemma flag_user_undone c i a u t r : undone any (Moderation.flag_user c i a u t r).
Proof. apply undone_transaction. Qed.
Lemma flag_post_undone c i a u t r : undone any (Moderation.flag_post c i a u t r).
Proof. apply undone_transaction. Qed.
Lemma takedown_post_undone c i a p r : undone any (Moderation.takedown_post c i a p r).
Proof. apply undone_transaction. Qed.
Lemma takedown_comment_undone c i a p r : undone any (Moderation.takedown_comment c i a p r).
Proof. apply undone_transaction. Qed.
Lemma register_fingerprint_undone c h u ua : undone any (register_fingerprint c h u ua).
Proof. every_exit register_fingerprint. Qed.
Lemma create_invite_undone c dr u n : undone any (Invites.create_invite c dr u n).
Proof. every_exit Invites.create_invite. Qed.
Lemma create_admin_invite_undone c dr n : undone any (create_admin_invite c dr n).
Proof. every_exit create_admin_invite; unfold insert_invite, generate_unique_code in *; run; done. Qed.
Lemma revoke_invite_undone code u : undone any (Invites.revoke_invite code u).
Proof. every_exit Invites.revoke_invite. Qed.
Lemma delete_story_undone i u : undone any (Stories.delete_story i u).
Proof. every_exit Stories.delete_story. Qed.
Lemma remove_reaction_undone s u : undone any (remove_reaction s u).
Proof. every_exit remove_reaction. Qed.
Lemma mark_seen_undone c s u : undone any (mark_seen c s u).
Proof. every_exit mark_seen; unfold int4 in *; run; done. Qed.
(** The last statement of these two looks the account up again. *)
Lemma create_story_undone c i u m cap v d :
  is_Some (active_user d u) → undone_at any (Stories.create_story c i u m cap v) d.
Proof. intros [x Hx]. unfold undone_at, Stories.create_story. run; try done. by rewrite Hx in *. Qed.
Lemma add_reaction_undone c i s u em d :
  is_Some (active_user d u) → undone_at any (add_reaction c i s u em) d.
Proof.
  intros [x Hx]. unfold undone_at, add_reaction, int4. run; try done; by rewrite Hx in *.
Qed.
(** The position of the new item can overflow after the highlight was touched; that
    failure is a 500. *)
Lemma add_to_highlight_undone c i u s n :
  undone (λ err, err ≠ StoryDb NumericOutOfRange) (add_to_highlight c i u s n).
Proof. every_exit add_to_highlight; unfold int4 in *; run; naive_solver. Qed.
End failing.

(** ** Services that say they did nothing *)

Section idling.
Context `{Libs}.

Lemma login_idle cfg c dr i p : idle (λ t, t = None) (Auth.login cfg c dr i p).
Proof. every_exit Auth.login. Qed.
Lemma update_profile_idle i n b k : idle (λ u, u = None) (Users.update_profile i n b k).
Proof. every_exit Users.update_profile. Qed.
Lemma delete_account_idle c i : idle (λ b, b = false) (Users.delete_account c i).
Proof. every_exit Users.delete_account. Qed.
Lemma update_caption_exits i u cap d :
  is_Some (active_user d u) →
  match update_caption i u cap d with (Ok (Some _), _) => True | (_, d') => d' = d end.
Proof. intros [x Hx]. unfold update_caption. run; try done; by rewrite Hx in *. Qed.
Lemma delete_post_idle i u : idle (λ b, b = false) (Posts.delete_post i u).
Proof. every_exit Posts.delete_post. Qed.
Lemma unlike_post_idle u p : idle (λ b, b = false) (Engagement.unlike_post u p).
Proof.
  intros d. unfold Engagement.unlike_post, has_liked. unfold_m. intros Hn. unfold set_likes.
  rewrite delete_where_none by done. by destruct d.
Qed.
Lemma delete_comment_idle i p u : idle (λ b, b = false) (Engagement.delete_comment i p u).
Proof. every_exit Engagement.delete_comment. Qed.
Lemma complete_upload_idle c i u : idle (λ b, b = false) (Media.complete_upload c i u).
Proof.
  every_exit Media.complete_upload. unfold on_db, mark_uploaded in *. run; intros _; apply set_w_db_id.
Qed.
Lemma mark_read_idle c i u : idle (λ b, b = false) (mark_read c i u).
Proof. every_exit mark_read. Qed.
Lemma takedown_post_idle c i a p r : idle (λ o, o = None) (Moderation.takedown_post c i a p r).
Proof. every_exit Moderation.takedown_post. Qed.
Lemma takedown_comment_idle c i a p r : idle (λ o, o = None) (Moderation.takedown_comment c i a p r).
Proof. every_exit Moderation.takedown_comment. Qed.
Lemma revoke_invite_idle code u : idle (λ b, b = false) (Invites.revoke_invite code u).
Proof. every_exit Invites.revoke_invite. Qed.
Lemma delete_story_idle i u : idle (λ b, b = false) (Stories.delete_story i u).
Proof. every_exit Stories.delete_story. Qed.
(** A reaction has its story. *)
Lemma remove_reaction_exits s u d :
  story_inv d → match remove_reaction s u d with (Ok true, _) => True | (_, d') => d' = d end.
Proof.
  intros Hd. unfold remove_reaction. run; try done.
  match goal with Hr : story_reactions _ !! _ = Some _ |- _ => apply (inv_reactions_fk _ Hd) in Hr end.
  apply has_key_true in Heqo as [x Hx]. simpl in Hx. congruence.
Qed.

Lemma delete_media_row_exits i u d :
  match delete_media_row i u d with
  | (Ok None, d') | (Err _, d') => d' = d
  | (Ok (Some _), _) => True
  end.
Proof. unfold delete_media_row. run; done. Qed.
Lemma delete_media_exits i u w :
  match Media.delete_media i u w with (Ok true, _) => True | (_, w') => w' = w end.
Proof.
  unfold Media.delete_media. pose proof (delete_media_row_exits i u (w_db w)) as Hd.
  unfold on_db. run; subst; try done; apply set_w_db_id.
Qed.
Lemma delete_media_idle i u : idle (λ b, b = false) (Media.delete_media i u).
Proof. intros w. pose proof (delete_media_exits i u w). by destruct (Media.delete_media i u w) as [[[]|]?]. Qed.
Lemma delete_media_undone i u : undone any (Media.delete_media i u).
Proof. intros w. unfold undone_at. pose proof (delete_media_exits i u w). by destruct (Media.delete_media i u w) as [[[]|]?]. Qed.
End idling.

(** ** Tails that cannot fail *)

Section tails.
Context `{Libs}.

Lemma sign_total {E} s3 now key x : total (E := E) (generate_presigned_get_url s3 now key x).
Proof.
  destruct key as [key|]; [|done]. apply total_bind; [auto with total|].
  intros r. repeat (cbv zeta; case_match); auto with total.
Qed.
Lemma avatar_total {E} s3 now key old : total (E := E) (avatar_url s3 now key old).
Proof. destruct key; [apply sign_total|done]. Qed.
Lemma join_all_total {E A B} (f : A → M World E B) l : (∀ x, total (f x)) → total (join_all f l).
Proof. intros Hf. induction l; simpl; auto with total. Qed.
Lemma media_or_none_total {E} s3 c m : total (E := E) (media_or_none s3 c m).
Proof. unfold media_or_none. auto with total. Qed.
Lemma populate_user_total {E} s3 now u : total (E := E) (populate_user_avatar_url s3 now u).
Proof. apply total_bind; [apply avatar_total|auto with total]. Qed.
Lemma populate_posts_total {E} s3 now l : total (E := E) (populate_post_avatar_urls s3 now l).
Proof. apply join_all_total. intros. apply total_bind; [apply avatar_total|auto with total]. Qed.
Lemma populate_post_media_total {E} s3 c l : total (E := E) (populate_post_primary_media s3 c l).
Proof. apply join_all_total. intros p. destruct (post_media_ids p); auto using media_or_none_total with total. Qed.
Lemma populate_stories_total {E} s3 now l : total (E := E) (populate_story_avatar_urls s3 now l).
Proof. apply join_all_total. intros. apply total_bind; [apply avatar_total|auto with total]. Qed.
Lemma populate_story_media_total {E} s3 c l : total (E := E) (populate_story_media s3 c l).
Proof. apply join_all_total. intros. auto using media_or_none_total with total. Qed.
Lemma populate_views_total {E} s3 now l : total (E := E) (populate_story_view_avatar_urls s3 now l).
Proof. apply join_all_total. intros. apply total_bind; [apply avatar_total|auto with total]. Qed.
Lemma populate_users_total {E} s3 now l : total (E := E) (populate_users_avatar_urls s3 now l).
Proof. apply join_all_total. intros. apply populate_user_total. Qed.
Lemma drop_presigned_total {E} key : total (E := E) (invalidate_presigned_cache key).
Proof. apply total_best_effort. Qed.
Lemma invalidate_viewer_total e u : total (invalidate_viewer_feeds e u).
Proof. unfold invalidate_viewer_feeds, invalidate_stories_feed. auto with total. Qed.
Lemma invalidate_followers_total e u h s : total (invalidate_followers_feeds e u h s).
Proof.
  unfold invalidate_followers_feeds, invalidate_stories_feed. apply total_bind; [auto with total|].
  intros [ids|]; [|auto with total]. apply total_bind; [|auto using invalidate_viewer_total].
  apply total_for_each. intros. destruct h, s; auto with total.
Qed.
End tails.

#[export] Hint Resolve populate_user_total populate_posts_total populate_post_media_total
  populate_stories_total populate_story_media_total populate_views_total populate_users_total
  drop_presigned_total invalidate_viewer_total
  invalidate_followers_total : total.

#[export] Hint Resolve login_undone revoke_undone signup_undone update_profile_undone delete_account_undone
  follow_undone unfollow_undone block_undone unblock_undone create_post_undone update_caption_undone
  delete_post_undone like_post_undone unlike_post_undone comment_post_undone delete_comment_undone
  mark_read_undone flag_user_undone flag_post_undone takedown_post_undone takedown_comment_undone
  register_fingerprint_undone create_invite_undone create_admin_invite_undone revoke_invite_undone
  delete_story_undone remove_reaction_undone mark_seen_undone delete_media_undone
  login_idle update_profile_idle delete_account_idle delete_post_idle unlike_post_idle delete_comment_idle
  complete_upload_idle mark_read_idle takedown_post_idle takedown_comment_idle revoke_invite_idle
  delete_story_idle delete_media_idle : undo.

(** ** Handlers *)

(** The response blames the request. *)
Definition client_error (err : AppError) : Prop := 400 ≤ err_status err < 500.

Lemma undone_never {S E A} (P : E → Prop) (m : M S E A) : (∀ err, ¬ P err) → undone P m.
Proof. intros HP s. unfold undone_at. destruct (m s) as [[]?]; [done|]. by intros ?%HP. Qed.

Lemma fail_if_reads {S} b err : read_only (S := S) (fail_if b err).
Proof. by destruct b. Qed.
Lemma try_send_total st job : total (try_send st job).
Proof. done. Qed.
#[export] Hint Resolve fail_if_reads : reads.
#[export] Hint Extern 3 (read_only _) => apply read_only_reads : reads.
#[export] Hint Resolve try_send_total : total.

(** A prefix that only reads. *)
Ltac solve_reads :=
  repeat first
    [ progress intros
    | solve [auto with reads nocore]
    | apply read_only_bind | apply read_only_map_err | apply read_only_db | apply read_only_on_world
    | progress case_match ].
(** A tail that cannot fail. *)
Ltac solve_total :=
  repeat first
    [ progress intros
    | solve [auto with total nocore]
    | apply total_bind | apply total_on_world | apply total_map_err | progress case_match ].
(** A service under its error mapping. *)
Ltac solve_service :=
  apply undone_map_err;
  first [ apply undone_never; intros ?; unfold client_error; simpl; lia
        | first [apply undone_db | apply undone_on_world]; apply undone_any; solve [auto with undo nocore] ].
Ltac idle_service :=
  apply idle_map_err; first [apply idle_db | apply idle_on_world]; solve [auto with undo nocore].
Ltac idle_rest := intros [] ?; cbn [ok_or]; first [congruence | solve [solve_total]].
Ltac solve_undone :=
  repeat first
    [ progress intros
    | apply undone_bind_reads; [solve [solve_reads]|]
    | solve [apply undone_read_only; solve_reads]
    | solve [apply undone_total; solve_total]
    | solve_service
    | apply undone_bind_idle with (Q := λ b, b = false);
      [apply _ | solve_service | idle_service | intros ? ->; solve [solve_reads] | idle_rest]
    | apply undone_bind_idle with (Q := λ o, o = None);
      [apply _ | solve_service | idle_service | intros ? ->; solve [solve_reads] | idle_rest]
    | apply undone_bind_total; [|solve [solve_total]]
    | progress case_match ].

(** The identity of a signed-in request belongs to a live account. *)
Section identity.
Context `{Libs} (st : AppState) (e : Env) (rq : Request).

Lemma authed_reads : read_only (authed st e rq).
Proof. unfold authed. solve_reads. Qed.
Lemma authed_opt_reads : read_only (authed_opt st e rq).
Proof. unfold authed_opt. solve_reads. Qed.
Lemma admin_reads : read_only (admin st rq).
Proof. apply read_only_from_result. Qed.
Lemma path_reads {A} (p : Path A) : read_only (path p).
Proof. apply read_only_ok_or. Qed.
Lemma query_reads {A} (p : Query A) : read_only (query p).
Proof. apply read_only_ok_or. Qed.
Lemma json_reads {A} (p : Body A) : read_only (json p).
Proof. apply read_only_ok_or. Qed.
End identity.
#[export] Hint Resolve authed_reads authed_opt_reads admin_reads path_reads query_reads json_reads : reads.

(** Unfold the handlers down to service calls. *)
Ltac unfold_handlers :=
  unfold serve, respond, health, metrics, HandlersUsers.login, HandlersUsers.refresh_token, revoke_token,
    HandlersUsers.get_current_user, HandlersUsers.get_user, create_user, HandlersUsers.update_profile,
    HandlersUsers.delete_account, list_user_posts, follow_user, unfollow_user, block_user, unblock_user,
    HandlersUsers.list_followers, HandlersUsers.list_following, HandlersUsers.relationship_status,
    HandlersPosts.create_post,
    HandlersPosts.get_post, update_post_caption, HandlersPosts.delete_post,
    HandlersPosts.like_post, HandlersPosts.unlike_post, list_post_likes, HandlersPosts.comment_post,
    list_post_comments, HandlersPosts.delete_comment, home_feed, refresh_feed, HandlersPosts.search_users,
    HandlersPosts.search_posts, HandlersMedia.create_upload, HandlersMedia.complete_upload,
    HandlersMedia.get_media, HandlersMedia.get_upload_status, HandlersMedia.delete_media,
    HandlersMedia.list_notifications, mark_notification_read, HandlersMedia.flag_user, HandlersMedia.flag_post,
    HandlersMedia.takedown_post, HandlersMedia.takedown_comment, list_moderation_audit,
    HandlersSafety.get_trust_score, get_rate_limits, register_device_fingerprint, list_user_devices,
    list_invites, HandlersSafety.create_invite, HandlersSafety.get_invite_stats, HandlersSafety.revoke_invite,
    HandlersSafety.validate_invite, admin_create_invite,
    HandlersStories.create_story, HandlersStories.get_user_stories, HandlersStories.get_story,
    HandlersStories.delete_story, get_story_viewers, add_story_reaction,
    list_story_reactions, remove_story_reaction, mark_story_seen, HandlersStories.get_stories_feed,
    get_story_metrics, add_story_to_highlight, HandlersStories.get_user_highlights,
    populate_avatar, populate_post, populate_posts, check_caption, ensure_post_visible, trust_score, remaining,
    populate_story, populate_stories, ensure_story_visible.

Section theorem.
Context `{Libs} (st : AppState) (e : Env) (rq : Request).

(** The endpoints whose rejections can have effects. A reused refresh token is
    answered with 401 and revokes the whole family; an upload that cannot be signed
    is answered with 400 and leaves its row. *)
Definition rejects_with_effect (ep : Endpoint) : bool :=
  match ep with RefreshToken _ | CreateUpload _ => true | _ => false end.

(** The endpoints whose last statement looks at the account, the story or the
    position again. *)
Definition looks_again (ep : Endpoint) : bool :=
  match ep with
  | CreateStory _ | AddStoryReaction _ _ | UpdatePostCaption _ _ | RemoveStoryReaction _
  | AddStoryToHighlight _ _ => true
  | _ => false
  end.

Lemma plain_undone ep :
  rejects_with_effect ep = false → looks_again ep = false → undone client_error (serve st e rq ep).
Proof using Type. destruct ep; try done; intros _ _; unfold_handlers; solve_undone. Qed.

(** The identity the extractor hands to the handler belongs to an account that is
    not deleted: either the token was just checked, or a middleware did it. *)
Definition identity_ok (a : App) : Prop :=
  ∀ u, rq_auth rq = Some u → is_Some (active_user (w_db (app_world a)) u).

Lemma authed_active a u a' :
  identity_ok a → authed st e rq a = (Ok u, a') → is_Some (active_user (w_db (app_world a)) u).
Proof using Type.
  intros Hid. unfold authed, db, on_world, on_db. unfold_m. cbv beta.
  destruct (auth_user (auth_config st) (auth_clk e) rq (w_db (app_world a))) as [[[v r]|err] d'] eqn:Ha;
    [|done]. cbv beta iota. intros [= <- _]. simpl. revert Ha. unfold auth_user.
  destruct (rq_auth rq) as [w|] eqn:Hw; [intros [= <- _ _]; by apply Hid|].
  unfold authenticate_access_token, account_active. run; try done. intros. naive_solver.
Qed.

Lemma undone_at_any {S E A} P (m : M S E A) s : undone_at any m s → undone_at P m s.
Proof using Type. unfold undone_at. destruct (m s) as [[]?]; [done|]. intros Hm _. by apply Hm. Qed.

(** One step of a signed-in endpoint, with what is known of the identity. *)
Ltac step_at := apply undone_at_bind_reads; [solve [solve_reads]|]; intros ? ?.

Lemma update_caption_undone_at i u cap (k : option Post → M App AppError Post) a :
  is_Some (active_user (w_db (app_world a)) u) → read_only (k None) → (∀ p, total (k (Some p))) →
  undone_at client_error (map_err (λ _, internal "failed to update post") (db (update_caption i u cap)) ≫= k) a.
Proof using Type.
  intros Hu Hn Hs. apply undone_at_bind; [solve_service|]. intros o a'. unfold map_err. rewrite run_db.
  pose proof (update_caption_exits i u cap _ Hu) as Hx.
  destruct (update_caption i u cap _) as [[[p|]|err] d']; simpl in *; intros [= <- <-]; [by right|].
  left. by rewrite Hx, set_db_id.
Qed.

Lemma remove_reaction_undone_at i u (k : bool → M App AppError Z) a :
  story_inv (w_db (app_world a)) → read_only (k false) → total (k true) →
  undone_at client_error (map_err map_story_error (db (remove_reaction i u)) ≫= k) a.
Proof using Type.
  intros Hd Hn Hs. apply undone_at_bind; [solve_service|]. intros o a'. unfold map_err. rewrite run_db.
  pose proof (remove_reaction_exits i u _ Hd) as Hx.
  destruct (remove_reaction i u _) as [[[]|err] d']; simpl in *; intros [= <- <-]; [by right|].
  left. by rewrite Hx, set_db_id.
Qed.

Lemma looks_again_undone ep a :
  story_inv (w_db (app_world a)) → identity_ok a → looks_again ep = true →
  undone_at client_error (serve st e rq ep) a.
Proof using Type.
  intros Hstory Hid. destruct ep; try done; intros _; unfold_handlers; repeat step_at;
    apply undone_at_bind_total; try solve [solve_total]; repeat step_at;
    try match goal with Hu : authed _ _ _ _ = (Ok ?u, _) |- _ => apply authed_active in Hu; [|done] end.
  - apply update_caption_undone_at; [done|solve_reads|solve_total].
  - apply undone_at_bind_total; [|solve [solve_total]].
    by apply undone_at_map_err, undone_at_db, undone_at_any, create_story_undone.
  - apply undone_at_bind_total; [|solve [solve_total]].
    by apply undone_at_map_err, undone_at_db, undone_at_any, add_reaction_undone.
  - apply remove_reaction_undone_at; [done|solve_reads|solve_total].
  - apply undone_at_map_err, undone_at_db.
    match goal with |- undone_at _ (add_to_highlight ?c ?i ?u ?s ?n) ?d =>
      pose proof (add_to_highlight_undone c i u s n d) as Hx end.
    unfold undone_at in *. destruct (add_to_highlight _ _ _ _ _ _) as [[]?]; [done|].
    intros Hc. apply Hx. intros ->. unfold client_error in Hc. simpl in Hc. lia.
Qed.

(** A handler that is answered with a 4xx status changed nothing: neither the
    database nor Redis, the queue, the bucket or the notification channel. *)
Lemma serve_client_error ep a err a' :
  story_inv (w_db (app_world a)) → identity_ok a → rejects_with_effect ep = false →
  serve st e rq ep a = (Err err, a') → client_error err → a' = a.
Proof using Type.
  intros Hstory Hid Hep Hrun Hc.
  assert (undone_at client_error (serve st e rq ep) a) as Hu.
  { destruct (looks_again ep) eqn:Hl; [by apply looks_again_undone|by apply plain_undone]. }
  unfold undone_at in Hu. rewrite Hrun in Hu. by apply Hu.
Qed.
End theorem.

Lemma story_inv_feed_db : story_inv feed_db.
Proof. split; simpl; intros ? ?; by rewrite lookup_empty. Qed.
