(* ===== verification/Access.v ===== *)
(** * Who may call what

    The credentials each endpoint asks for, read off the handlers' parameter lists,
    and what a caller without credentials can do. *)

From S2P Require Import Prelude Effects Text Sql Keyset Domain Schema RateLimits Redis RateLimiter Social Users.
From S2P Require Import Posts Engagement Trust Invites Crypto Auth World Feed Stories Notifications Moderation.
From S2P Require Import Fingerprint Search Media Http App HandlersUsers HandlersPosts HandlersMedia.
From S2P Require Import HandlersSafety HandlersStories Endpoints ClientErrors.
From stdpp Require Import options.

#[local] Open Scope Z_scope.

Inductive Credential := Anyone | MaybeUser | SignedIn | AdminOnly.
Global Instance Credential_eq_dec : EqDecision Credential.
Proof. solve_decision. Defined.

(** The parameter that guards the endpoint. *)
Definition credential (ep : Endpoint) : Credential :=
  match ep with
  | Health | Login _ | RefreshToken _ | RevokeToken _ | ValidateInvite _ | CreateUser _ | GetUser _ => Anyone
  | ListUserPosts _ _ | GetPost _ | RegisterDevice _ => MaybeUser
  | Metrics | TakedownPost _ _ | TakedownComment _ _ | ListModerationAudit _ | AdminCreateInvite _ => AdminOnly
  | _ => SignedIn
  end.

(** The five endpoints meant to write for a caller without a session: sessions
    begin and end here, accounts are created, devices registered. *)
Definition entry_point (ep : Endpoint) : bool :=
  match ep with
  | Login _ | RefreshToken _ | RevokeToken _ | CreateUser _ | RegisterDevice _ => true
  | _ => false
  end.

(** What outlives the caches. *)
Definition durable (a : App) : Db * list MediaJob * gmap string Object * list NotificationJob :=
  (w_db (app_world a), w_queue (app_world a), w_objects (app_world a), notification_queue a).

(** ** Reads that only fill caches *)

Section caching.
Context `{Libs}.

(** The stores other than Redis. *)
Definition stored (w : World) : Db * list MediaJob * gmap string Object := (w_db w, w_queue w, w_objects w).

Lemma keeps_read_only {S T E A} (f : S → T) (m : M S E A) : read_only m → keeps f m.
Proof. intros Hm s. by rewrite Hm. Qed.
Lemma keeps_bind {S T E A B} (f : S → T) (m : M S E A) (k : A → M S E B) :
  keeps f m → (∀ a, keeps f (k a)) → keeps f (m ≫= k).
Proof.
  intros Hm Hk s. unfold mbind, M_bind. specialize (Hm s). destruct (m s) as [[a|err] s']; [|done].
  rewrite Hk. exact Hm.
Qed.
Lemma keeps_redis {E A} (m : M Redis E A) : keeps stored (on_redis m).
Proof. intros w. unfold on_redis. by destruct (m (w_redis w)). Qed.
Lemma keeps_try {T E E' A} (f : World → T) (m : M World E A) : keeps f m → keeps (E := E') f (try_ m).
Proof. intros Hm w. unfold try_. specialize (Hm w). by destruct (m w). Qed.
Lemma keeps_best_effort {T E E' A} (f : World → T) (m : M World E A) :
  keeps f m → keeps (E := E') f (best_effort m).
Proof. intros Hm w. apply Hm. Qed.

Lemma sign_stored {E} s3 now key x : keeps (E := E) stored (generate_presigned_get_url s3 now key x).
Proof.
  destruct key as [key|]; [|done]. apply keeps_bind; [apply keeps_try, keeps_redis|].
  intros r. repeat (cbv zeta; case_match); try done.
  all: apply keeps_bind; [apply keeps_best_effort, keeps_redis|done].
Qed.
Lemma avatar_stored {E} s3 now key old : keeps (E := E) stored (avatar_url s3 now key old).
Proof. destruct key; [apply sign_stored|done]. Qed.
Lemma join_all_stored {E A B} (f : A → M World E B) l : (∀ x, keeps stored (f x)) → keeps stored (join_all f l).
Proof.
  intros Hf. induction l; simpl; [done|]. apply keeps_bind; [done|]. intros. by apply keeps_bind.
Qed.
Lemma populate_user_stored {E} s3 now u : keeps (E := E) stored (populate_user_avatar_url s3 now u).
Proof. apply keeps_bind; [apply avatar_stored|done]. Qed.
Lemma populate_posts_stored {E} s3 now l : keeps (E := E) stored (populate_post_avatar_urls s3 now l).
Proof. apply join_all_stored. intros. apply keeps_bind; [apply avatar_stored|done]. Qed.
Lemma media_or_none_stored {E} s3 c m : keeps (E := E) stored (media_or_none s3 c m).
Proof.
  apply keeps_read_only. unfold media_or_none. apply read_only_bind; [|done].
  intros w. unfold try_, Media.get_media. run; done.
Qed.
Lemma populate_post_media_stored {E} s3 c l : keeps (E := E) stored (populate_post_primary_media s3 c l).
Proof.
  apply join_all_stored. intros p. destruct (post_media_ids p) as [|m ms]; [done|].
  apply keeps_bind; [apply media_or_none_stored|done].
Qed.

Lemma populate_users_stored {E} s3 now l : keeps (E := E) stored (populate_users_avatar_urls s3 now l).
Proof. apply join_all_stored. intros. apply populate_user_stored. Qed.
Lemma populate_stories_stored {E} s3 now l : keeps (E := E) stored (populate_story_avatar_urls s3 now l).
Proof. apply join_all_stored. intros. apply keeps_bind; [apply avatar_stored|done]. Qed.
Lemma populate_story_media_stored {E} s3 c l : keeps (E := E) stored (populate_story_media s3 c l).
Proof. apply join_all_stored. intros. apply keeps_bind; [apply media_or_none_stored|done]. Qed.
Lemma populate_views_stored {E} s3 now l : keeps (E := E) stored (populate_story_view_avatar_urls s3 now l).
Proof. apply join_all_stored. intros. apply keeps_bind; [apply avatar_stored|done]. Qed.
Lemma drop_presigned_stored {E} k : keeps (E := E) stored (invalidate_presigned_cache k).
Proof. apply keeps_best_effort, keeps_redis. Qed.
Lemma refresh_feed_stored u : keeps stored (refresh_home_feed u).
Proof. apply keeps_best_effort, keeps_redis. Qed.
Lemma invalidate_stories_stored {E} r u : keeps (E := E) stored (invalidate_stories_feed r u).
Proof. apply keeps_best_effort, keeps_redis. Qed.
Lemma home_feed_stored t u c l : keeps stored (get_home_feed t u c l).
Proof.
  unfold get_home_feed, cached_page, store_page. cbv zeta.
  repeat first [apply keeps_bind; [|intros ?] | apply keeps_try, keeps_redis | apply keeps_best_effort, keeps_redis
    | solve [apply keeps_read_only; auto with reads] | case_match].
Qed.
Lemma stories_feed_stored k t u c l : keeps stored (Stories.get_stories_feed k t u c l).
Proof.
  unfold Stories.get_stories_feed. cbv zeta.
  repeat first [apply keeps_bind; [|intros ?] | apply keeps_try, keeps_redis | apply keeps_best_effort, keeps_redis
    | solve [apply keeps_read_only; auto with reads] | case_match].
Qed.

Lemma on_world_durable {E A} (m : M World E A) : keeps stored m → keeps durable (on_world m).
Proof.
  intros Hm a. unfold on_world, durable. specialize (Hm (app_world a)).
  destruct (m (app_world a)) as [r w]. unfold stored in Hm. simpl in *. by injection Hm as -> -> ->.
Qed.
End caching.

Create HintDb caching.
#[export] Hint Resolve keeps_bind on_world_durable populate_user_stored populate_posts_stored
  populate_post_media_stored populate_users_stored populate_stories_stored populate_story_media_stored
  populate_views_stored drop_presigned_stored refresh_feed_stored invalidate_stories_stored
  home_feed_stored stories_feed_stored : caching.

(** ** The theorem *)

Section access.
Context `{Libs} (st : AppState) (e : Env) (rq : Request).

(** The request carries no valid access token, and no valid admin token. *)
Definition no_session (a : App) : Prop :=
  ∃ err, fst (auth_user (auth_config st) (auth_clk e) rq (w_db (app_world a))) = Err err ∧ err_status err = 401.
Definition no_admin : Prop := ∃ err, admin_token (expected_admin_token st) rq = Err err ∧ err_status err = 403.

(** The ways to be turned away before the handler runs. *)
Definition turned_away (status : Z) (m : M App AppError Reply) (a : App) : Prop :=
  ∃ err, m a = (Err err, a) ∧ (err_status err = status ∨ err = bad_request "invalid request").

Lemma turned_away_path {A} status (p : Path A) (k : A → M App AppError Reply) a :
  (∀ x, turned_away status (k x) a) → turned_away status (path p ≫= k) a.
Proof.
  intros Hk. destruct p as [x|]; [apply Hk|]. exists (bad_request "invalid request"). split; [done|by right].
Qed.
Lemma turned_away_authed (k : Uuid → M App AppError Reply) a :
  no_session a → turned_away 401 (authed st e rq ≫= k) a.
Proof.
  intros (err & Herr & Hs). exists err. split; [|by left]. unfold authed, mbind, M_bind. rewrite run_db, Herr.
  pose proof (auth_user_reads (auth_config st) (auth_clk e) rq (w_db (app_world a))) as ->.
  by rewrite set_db_id.
Qed.
Lemma turned_away_admin (k : unit → M App AppError Reply) a :
  no_admin → turned_away 403 (admin st rq ≫= k) a.
Proof. intros (err & Herr & Hs). exists err. split; [|by left]. unfold admin. unfold_m. by rewrite Herr. Qed.
Lemma turned_away_opt status (k : option Uuid → M App AppError Reply) a :
  (∀ x, turned_away status (k x) a) → turned_away status (authed_opt st e rq ≫= k) a.
Proof.
  intros Hk. pose proof (authed_opt_reads st e rq a) as Hr.
  assert (total (authed_opt st e rq)) as Ht.
  { apply total_bind; [|done]. intros b. rewrite run_db. unfold auth_user_opt. by repeat case_match. }
  specialize (Ht a). unfold turned_away, mbind, M_bind.
  destruct (authed_opt st e rq a) as [[x|]a']; simpl in *; [|done]. subst a'. apply Hk.
Qed.

Lemma signed_in_turned_away ep a :
  no_session a → credential ep = SignedIn → turned_away 401 (serve st e rq ep) a.
Proof.
  intros Hn. destruct ep; try done; intros _; unfold serve;
    repeat first [by apply turned_away_authed | apply turned_away_path; intros ?].
Qed.
Lemma admin_turned_away ep a :
  no_admin → credential ep = AdminOnly → turned_away 403 (serve st e rq ep) a.
Proof.
  intros Hn. destruct ep; try done; intros _; unfold serve;
    repeat first [by apply turned_away_admin | apply turned_away_opt; intros ?].
Qed.

Ltac solve_cached :=
  repeat first
    [ progress intros
    | solve [apply keeps_read_only; solve_reads]
    | solve [auto with caching nocore]
    | apply keeps_bind | progress case_match ].

Lemma open_reads_durable ep :
  credential ep = Anyone ∨ credential ep = MaybeUser → entry_point ep = false →
  keeps durable (serve st e rq ep).
Proof.
  destruct ep; try (intros [?|?]; done); try done; intros _ _; unfold_handlers; solve_cached.
Qed.

(** C6: a caller without a valid token gets nothing but what is public. An endpoint
    that asks for a user answers 401 (or 400 when its path does not parse), one that
    asks for the administrator 403, before anything was read or written; and apart
    from logging in, refreshing, revoking, signing up and registering a device, no
    request without a token changes the database, the media queue, the bucket or the
    notification channel. *)
Theorem credentials_required ep a :
  no_session a → no_admin →
  (credential ep = SignedIn → turned_away 401 (serve st e rq ep) a) ∧
  (credential ep = AdminOnly → turned_away 403 (serve st e rq ep) a) ∧
  (entry_point ep = false → durable (snd (serve st e rq ep a)) = durable a).
Proof.
  intros Hs Ha. split; [by apply signed_in_turned_away|]. split; [by apply admin_turned_away|].
  intros He. destruct (credential ep) eqn:Hc.
  - apply open_reads_durable; auto.
  - apply open_reads_durable; auto.
  - destruct (signed_in_turned_away ep a Hs Hc) as (err & -> & _). done.
  - destruct (admin_turned_away ep a Ha Hc) as (err & -> & _). done.
Qed.
End access.

Lemma credentials_required_witness :
  let serve := @serve Sample.toy_libs Sample.st (Sample.env 50) (Sample.request None) in
  fst (serve (FollowUser (Some 2%N)) Sample.app) = Err (unauthorized "missing Authorization header") ∧
  fst (serve (TakedownPost (Some 20%N) (Some None)) Sample.app) = Err (forbidden "missing admin token") ∧
  durable (snd (serve (GetUser (Some 2%N)) Sample.app)) = durable Sample.app.
Proof.
  intros serve. split; [reflexivity|]. split; [reflexivity|].
  apply (@credentials_required Sample.toy_libs Sample.st (Sample.env 50) (Sample.request None)
           (GetUser (Some 2%N)) Sample.app).
  - by exists (unauthorized "missing Authorization header").
  - by exists (forbidden "missing admin token").
  - reflexivity.
Defined.
