(* ===== verification/Hidden.v ===== *)
(** * Hidden content

    Most handlers that are given one post or one story ask first whether the caller may
    see it ([ensure_post_visible], [get_story]) or owns it. This file shows that these
    gates make hidden content indistinguishable from content that does not exist, and
    which two handlers have no such gate. *)

From S2P Require Import Prelude Effects Text Sql Keyset Domain Schema RateLimits Redis RateLimiter Social Users.
From S2P Require Import Posts Engagement Trust Invites Crypto Auth World Feed Stories Notifications Moderation.
From S2P Require Import Fingerprint Search Media Http App HandlersUsers HandlersPosts HandlersMedia.
From S2P Require Import HandlersSafety HandlersStories Endpoints ClientErrors Access.
From stdpp Require Import options.

#[local] Open Scope Z_scope.

Inductive Content := APost (id : Uuid) | AStory (id : Uuid).

(** The post or story an endpoint is given: all endpoints that name one. *)
Definition content_of (ep : Endpoint) : option Content :=
  match ep with
  | GetPost (Some i) | UpdatePostCaption (Some i) _ | DeletePost (Some i) | LikePost (Some i) | UnlikePost (Some i)
  | ListPostLikes (Some i) _ | CommentPost (Some i) _ | ListPostComments (Some i) _ | DeleteComment (Some (i, _))
  | FlagPost (Some i) _ | TakedownPost (Some i) _ => Some (APost i)
  | GetStory (Some i) | DeleteStory (Some i) | GetStoryViewers (Some i) _ | AddStoryReaction (Some i) _
  | ListStoryReactions (Some i) _ | RemoveStoryReaction (Some i) | MarkStorySeen (Some i) | GetStoryMetrics (Some i)
  | AddStoryToHighlight (Some i) _ => Some (AStory i)
  | _ => None
  end.
(** The handlers without a gate, and the one for administrators. *)
Definition ungated (ep : Endpoint) : bool :=
  match ep with FlagPost _ _ | GetStoryViewers _ _ | TakedownPost _ _ => true | _ => false end.
(** The handlers that take back a like, a comment or a reaction of the caller. *)
Definition takes_back (ep : Endpoint) : bool :=
  match ep with UnlikePost _ | DeleteComment _ | RemoveStoryReaction _ => true | _ => false end.
(** The same request for another identifier. *)
Definition retarget (i : Uuid) (ep : Endpoint) : Endpoint :=
  match ep with
  | GetPost _ => GetPost (Some i) | UpdatePostCaption _ b => UpdatePostCaption (Some i) b
  | DeletePost _ => DeletePost (Some i) | LikePost _ => LikePost (Some i) | UnlikePost _ => UnlikePost (Some i)
  | ListPostLikes _ q => ListPostLikes (Some i) q | CommentPost _ b => CommentPost (Some i) b
  | ListPostComments _ q => ListPostComments (Some i) q
  | DeleteComment (Some (_, j)) => DeleteComment (Some (i, j))
  | GetStory _ => GetStory (Some i) | DeleteStory _ => DeleteStory (Some i)
  | AddStoryReaction _ b => AddStoryReaction (Some i) b
  | ListStoryReactions _ q => ListStoryReactions (Some i) q | RemoveStoryReaction _ => RemoveStoryReaction (Some i)
  | MarkStorySeen _ => MarkStorySeen (Some i) | GetStoryMetrics _ => GetStoryMetrics (Some i)
  | AddStoryToHighlight _ b => AddStoryToHighlight (Some i) b
  | _ => ep
  end.
Definition rename (i : Uuid) (c : Content) : Content :=
  match c with APost _ => APost i | AStory _ => AStory i end.

Section hidden.
Context `{Libs} (st : AppState) (e : Env) (rq : Request).

(** The caller [u] can neither open nor manage it: it is not visible to [u], and it is
    not [u]'s own. *)
Definition owned_by (u : Uuid) (c : Content) (d : Db) : Prop :=
  match c with
  | APost i => p_owner_id <$> posts d !! i = Some u
  | AStory i => s_user_id <$> stories d !! i = Some u
  end.
Definition hidden (u : Uuid) (c : Content) (a : App) : Prop :=
  match c with
  | APost i => fst (Posts.get_post i (Some u) (w_db (app_world a))) = Ok None
  | AStory i => fst (Stories.get_story (clk e 0) i u (w_db (app_world a))) = Ok None
  end ∧ ¬ owned_by u c (w_db (app_world a)).
(** [u] has left no like, comment or reaction there. *)
Definition untouched (u : Uuid) (c : Content) (a : App) : Prop :=
  let d := w_db (app_world a) in
  match c with
  | APost i => has_liked d u i = false ∧ ∀ k x, comments d !! k = Some x → c_post_id x = i → c_user_id x ≠ u
  | AStory i => story_reactions d !! (i, u) = None
  end.
(** There is no such post or story. *)
Definition absent (c : Content) (a : App) : Prop :=
  match c with
  | APost i => posts (w_db (app_world a)) !! i = None
  | AStory i => stories (w_db (app_world a)) !! i = None
  end.

(** Two requests refused alike, without effect. *)
Definition refused (err : AppError) : Prop := err_status err = 400 ∨ err_status err = 404.
Definition alike {A B} (m : M App AppError A) (m' : M App AppError B) (a : App) : Prop :=
  ∃ err, m a = (Err err, a) ∧ m' a = (Err err, a) ∧ refused err.

(** A check of the request that may refuse it. *)
Definition checks {A} (p : M App AppError A) : Prop :=
  read_only p ∧ ∀ a err, fst (p a) = Err err → refused err.

Section rules.
Context {A B C : Type}.
Lemma alike_check (p : M App AppError C) (k : C → M App AppError A) (k' : C → M App AppError B) a :
  checks p → (∀ x, alike (k x) (k' x) a) → alike (p ≫= k) (p ≫= k') a.
Proof using Type.
  intros [Hr He] Hk. specialize (Hr a). specialize (He a). unfold alike, mbind, M_bind.
  destruct (p a) as [[x|err] a']; simpl in Hr, He; subst a'; [apply Hk|]. exists err. auto.
Qed.
Lemma alike_gate (p p' : M App AppError C) (k : C → M App AppError A) (k' : C → M App AppError B) a :
  alike p p' a → alike (p ≫= k) (p' ≫= k') a.
Proof using Type. intros (err & Hp & Hp' & Hr). exists err. unfold mbind, M_bind. by rewrite Hp, Hp'. Qed.
End rules.

Lemma checks_ok_or {A} (o : option A) msg : checks (ok_or o (bad_request msg)).
Proof using Type. split; [apply read_only_ok_or|]. intros a err. destruct o; [done|]. intros [= <-]. by left. Qed.
Lemma checks_fail_if b msg : checks (fail_if b (bad_request msg)).
Proof using Type.
  unfold fail_if. split; [apply read_only_guard|]. intros a err. destruct b; [|done]. intros [= <-]. by left.
Qed.
Lemma checks_limit l : checks (from_result (check_limit l)).
Proof using Type.
  split; [apply read_only_from_result|]. intros a err. unfold check_limit, from_result. simpl.
  by case_match; intros [= <-]; left.
Qed.
Lemma checks_cursor c : checks (from_result (parse_cursor c)).
Proof using Type.
  split; [apply read_only_from_result|]. intros a err. simpl. intros ->%parse_cursor_err. by left.
Qed.

(** The two gates. *)
Lemma can_view_get i u d :
  fst (Posts.get_post i (Some u) d) = Ok None → can_view_post i u d = (Ok false, d).
Proof using Type.
  unfold Posts.get_post, can_view_post, reads. simpl. destruct (posts d !! i) as [p|]; [|done]. simpl.
  destruct (active_user d (p_owner_id p)); simpl; [|done].
  by case_match.
Qed.
Lemma post_gates_alike i i' u a :
  hidden u (APost i) a → hidden u (APost i') a → alike (ensure_post_visible i u) (ensure_post_visible i' u) a.
Proof using Type.
  intros [Hi _] [Hi' _]. exists (not_found "post not found").
  split; [|split; [|by right]]; unfold ensure_post_visible, map_err; unfold_m; rewrite run_db, can_view_get by done;
    cbn; by rewrite set_db_id.
Qed.
Lemma story_gates_alike i i' u a :
  hidden u (AStory i) a → hidden u (AStory i') a → alike (ensure_story_visible e i u) (ensure_story_visible e i' u) a.
Proof using Type.
  intros [Hi _] [Hi' _]. exists (not_found "story not found").
  split; [|split; [|by right]]; unfold ensure_story_visible, map_err; unfold_m; rewrite run_db; simpl in Hi, Hi' |- *;
    injection Hi as Hi; injection Hi' as Hi'; first [rewrite Hi|rewrite Hi']; cbn; by rewrite set_db_id.
Qed.

(** Opening it: [GetPost] and [GetStory] answer with the same 404. *)
Lemma get_post_alike i i' u a :
  hidden u (APost i) a → hidden u (APost i') a → alike (get_post st e i (Some u)) (get_post st e i' (Some u)) a.
Proof using Type.
  intros [Hi _] [Hi' _]. exists (not_found "post not found").
  split; [|split; [|by right]]; unfold get_post, map_err; unfold_m; rewrite run_db; simpl in Hi, Hi' |- *;
    injection Hi as Hi; injection Hi' as Hi'; first [rewrite Hi|rewrite Hi']; cbn; by rewrite set_db_id.
Qed.
Lemma get_story_alike i i' u a :
  hidden u (AStory i) a → hidden u (AStory i') a → alike (get_story st e i u) (get_story st e i' u) a.
Proof using Type.
  intros [Hi _] [Hi' _]. exists (not_found "story not found").
  split; [|split; [|by right]]; unfold get_story, map_err; unfold_m; rewrite run_db; simpl in Hi, Hi' |- *;
    injection Hi as Hi; injection Hi' as Hi'; first [rewrite Hi|rewrite Hi']; cbn; by rewrite set_db_id.
Qed.

Lemma absent_hidden u c a : absent c a → hidden u c a.
Proof using Type.
  destruct c; unfold hidden, owned_by; simpl; unfold Posts.get_post, Stories.get_story, reads; simpl; by intros ->.
Qed.

(** A service call that answers the same on both, and changes nothing. *)
Lemma alike_call {A B C E} f (m m' : M Db E C) x (k : C → M App AppError A) (k' : C → M App AppError B) a :
  m (w_db (app_world a)) = (Ok x, w_db (app_world a)) → m' (w_db (app_world a)) = (Ok x, w_db (app_world a)) →
  alike (k x) (k' x) a → alike (map_err f (db m) ≫= k) (map_err f (db m') ≫= k') a.
Proof using Type.
  intros Hm Hm' Hk. unfold alike, mbind, M_bind, map_err. rewrite !run_db, Hm, Hm'. cbn. by rewrite set_db_id.
Qed.
Lemma alike_throw {A B} err a : refused err → alike (throw err : M App AppError A) (throw err : M App AppError B) a.
Proof using Type. intros Hr. by exists err. Qed.
Lemma checks_caption c : checks (check_caption c).
Proof using Type. destruct c; [apply checks_fail_if|]. by split. Qed.

(** The handlers that look for the owner's row. *)
Section owner.
Context (u i i' : Uuid) (a : App).
Notation d := (w_db (app_world a)).
Lemma not_own_post j p : hidden u (APost j) a → posts d !! j = Some p → p_owner_id p ≠ u.
Proof using Type. intros [_ Ho] Hp He. apply Ho. simpl. by rewrite Hp, <-He. Qed.
Lemma not_own_story j x : hidden u (AStory j) a → stories d !! j = Some x → s_user_id x ≠ u.
Proof using Type. intros [_ Ho] Hp He. apply Ho. simpl. by rewrite Hp, <-He. Qed.

Lemma update_caption_hidden j cap : hidden u (APost j) a → update_caption j u cap d = (Ok None, d).
Proof using Type.
  intros Hh. unfold update_caption. unfold_m. cbv beta. destruct (posts d !! j) as [p|] eqn:Hp; [|done].
  by rewrite bool_decide_false by (by eapply not_own_post).
Qed.
Lemma delete_post_hidden j : hidden u (APost j) a → Posts.delete_post j u d = (Ok false, d).
Proof using Type.
  intros Hh. unfold Posts.delete_post. unfold_m. cbv beta. destruct (posts d !! j) as [p|] eqn:Hp; [|done].
  by rewrite bool_decide_false by (by eapply not_own_post).
Qed.
Lemma delete_story_hidden j : hidden u (AStory j) a → Stories.delete_story j u d = (Ok false, d).
Proof using Type.
  intros Hh. unfold Stories.delete_story. unfold_m. cbv beta. destruct (stories d !! j) as [p|] eqn:Hp; [|done].
  by rewrite bool_decide_false by (by eapply not_own_story).
Qed.
Lemma get_metrics_hidden j : hidden u (AStory j) a → get_metrics j u d = (Ok None, d).
Proof using Type.
  intros Hh. unfold get_metrics, reads. destruct (stories d !! j) as [p|] eqn:Hp; [|done]. simpl.
  by rewrite decide_False by (by eapply not_own_story).
Qed.
Lemma add_to_highlight_hidden c n j name : hidden u (AStory j) a → add_to_highlight c n u j name d = (Err StoryNotFound, d).
Proof using Type.
  intros Hh. unfold add_to_highlight. unfold_m. cbv beta. destruct (stories d !! j) as [p|] eqn:Hp; [|done]. simpl.
  by rewrite bool_decide_false by (by eapply not_own_story).
Qed.
Lemma unlike_untouched j : untouched u (APost j) a → Engagement.unlike_post u j d = (Ok false, d).
Proof using Type.
  intros [Hl _]. pose proof (unlike_post_idle u j d) as Hi. unfold Engagement.unlike_post in *. unfold_m.
  unfold mbind, M_bind, get_db, modifies, mret, M_ret in Hi. simpl in Hi. rewrite Hl in Hi |- *. by rewrite (Hi eq_refl).
Qed.
Lemma delete_comment_untouched j k : untouched u (APost j) a → Engagement.delete_comment k j u d = (Ok false, d).
Proof using Type.
  intros [_ Hc]. unfold Engagement.delete_comment. unfold_m. cbv beta. destruct (comments d !! k) as [x|] eqn:Hx; [|done].
  case_bool_decide as Hp; [|done]. by rewrite (bool_decide_false (c_user_id x = u)) by (by eapply Hc).
Qed.
Lemma remove_reaction_untouched j : untouched u (AStory j) a → remove_reaction j u d = (Ok false, d).
Proof using Type. intros Hr. simpl in Hr. unfold remove_reaction. unfold_m. cbv beta. by rewrite Hr. Qed.
Lemma add_story_to_highlight_alike name :
  hidden u (AStory i) a → hidden u (AStory i') a →
  alike (map_err map_story_error (db (add_to_highlight (clk e 0) (fresh e 0) u i name)))
        (map_err map_story_error (db (add_to_highlight (clk e 0) (fresh e 0) u i' name))) a.
Proof using Type.
  intros Hi Hi'. exists (not_found "story not found"). unfold map_err.
  rewrite !run_db, !add_to_highlight_hidden by done. cbn. rewrite set_db_id. split_and!; [done..|by right].
Qed.
End owner.
#[local] Hint Resolve update_caption_hidden delete_post_hidden delete_story_hidden get_metrics_hidden
  unlike_untouched delete_comment_untouched remove_reaction_untouched : hidden.

(** A signed-in request. *)
Lemma alike_authed {A B} (k : Uuid → M App AppError A) (k' : Uuid → M App AppError B) u a :
  authed st e rq a = (Ok u, a) → alike (k u) (k' u) a → alike (authed st e rq ≫= k) (authed st e rq ≫= k') a.
Proof using Type. intros Hu Hk. unfold alike, mbind, M_bind. by rewrite Hu. Qed.
Lemma authed_opt_of u a : authed st e rq a = (Ok u, a) → authed_opt st e rq a = (Ok (Some u), a).
Proof using Type.
  unfold authed, authed_opt, mbind, M_bind. rewrite !run_db. unfold auth_user_opt.
  destruct (auth_user _ _ _ _) as [[[v r]|]d] eqn:Hr; simpl; [|done]. by intros [= -> ->].
Qed.
Lemma alike_authed_opt {A B} (k : option Uuid → M App AppError A) (k' : option Uuid → M App AppError B) u a :
  authed st e rq a = (Ok u, a) → alike (k (Some u)) (k' (Some u)) a →
  alike (authed_opt st e rq ≫= k) (authed_opt st e rq ≫= k') a.
Proof using Type. intros Hu%authed_opt_of Hk. unfold alike, mbind, M_bind. by rewrite Hu. Qed.

Lemma alike_path {A B C} (x x' : C) (k : C → M App AppError A) (k' : C → M App AppError B) a :
  alike (k x) (k' x') a → alike (path (Some x) ≫= k) (path (Some x') ≫= k') a.
Proof using Type. done. Qed.

Ltac solve_alike Hu :=
  repeat lazymatch goal with
  | |- alike (path _ ≫= _) _ _ => apply alike_path
  | |- alike (authed _ _ _ ≫= _) _ _ => apply (alike_authed _ _ _ _ Hu)
  | |- alike (authed_opt _ _ _ ≫= _) _ _ => apply (alike_authed_opt _ _ _ _ Hu)
  | |- alike (ok_or _ _ ≫= _) _ _ => apply alike_check; [apply checks_ok_or|intros ?]
  | |- alike (fail_if _ _ ≫= _) _ _ => apply alike_check; [apply checks_fail_if|intros ?]
  | |- alike (from_result (check_limit _) ≫= _) _ _ => apply alike_check; [apply checks_limit|intros ?]
  | |- alike (from_result (parse_cursor _) ≫= _) _ _ => apply alike_check; [apply checks_cursor|intros ?]
  | |- alike (check_caption _ ≫= _) _ _ => apply alike_check; [apply checks_caption|intros ?]
  | |- alike (map_err _ (db (add_to_highlight _ _ _ _ _))) _ _ => by apply add_story_to_highlight_alike
  | |- alike (map_err _ (db _) ≫= _) _ _ => eapply alike_call; [solve [by apply get_metrics_hidden | eauto with hidden]..|]; cbv beta iota
  | |- alike (throw _) _ _ => apply alike_throw; by right
  | |- alike (ok_or None _) _ _ => exists (not_found "story not found"); split_and!; [done..|by right]
  | |- alike (get_post _ _ _ _) _ _ => by apply get_post_alike
  | |- alike (get_story _ _ _ _) _ _ => by apply get_story_alike
  | |- alike (ensure_post_visible _ _) _ _ => by apply post_gates_alike
  | |- alike (ensure_story_visible _ _ _) _ _ => by apply story_gates_alike
  | |- alike (_ ≫= _) _ _ => apply alike_gate
  end.

Lemma hidden_alike ep c i u a :
  authed st e rq a = (Ok u, a) → content_of ep = Some c → ungated ep = false →
  hidden u c a → hidden u (rename i c) a →
  (takes_back ep = true → untouched u c a ∧ untouched u (rename i c) a) →
  alike (serve st e rq ep) (serve st e rq (retarget i ep)) a.
Proof using Type.
  intros Hu Hc Hg Hh Hn Ht. destruct ep; try done.
  all: first [ match goal with j : Path Uuid |- _ => destruct j as [j|]; [|done] end
             | match goal with j : Path (Uuid * Uuid) |- _ => destruct j as [[j k]|]; [|done] end ].
  all: injection Hc as <-; cbn [retarget serve rename] in *; try (destruct Ht as [Ht Ht']; [done|]).
  all: unfold respond, update_post_caption, delete_post, like_post, unlike_post, list_post_likes, comment_post,
    list_post_comments, delete_comment, delete_story, add_story_reaction, list_story_reactions, remove_story_reaction,
    mark_story_seen, get_story_metrics, add_story_to_highlight, json, query; cbn [fst snd]; solve_alike Hu.
Qed.

(** C11: content a caller may not see does not exist for the caller. Whatever a
    signed-in caller asks of a post or story of somebody else that is not visible to
    the caller - opening it, liking, commenting on, reacting to or marking it as seen,
    listing its likes, comments or reactions, editing or deleting it, its metrics, adding
    it to a highlight -, the answer is the one for an identifier that is not in use:
    the same 404 (or 400 for a malformed request), and nothing changes. Taking back a
    like, a comment or a reaction is answered like that when the caller has left none
    there. Of all endpoints that name a post or a story the exceptions are the
    administrators' takedown and the two of [hidden_content_revealed]. *)
Theorem hidden_content_absent ep c i u a :
  authed st e rq a = (Ok u, a) → content_of ep = Some c → ungated ep = false →
  hidden u c a → absent (rename i c) a →
  (takes_back ep = true → untouched u c a ∧ untouched u (rename i c) a) →
  serve st e rq ep a = serve st e rq (retarget i ep) a ∧
  ∃ err, serve st e rq ep a = (Err err, a) ∧ (err_status err = 400 ∨ err_status err = 404).
Proof using Type.
  intros Hu Hc Hg Hh Ha Ht. destruct (hidden_alike ep c i u a Hu Hc Hg Hh) as (err & Hr & Hr' & Hs); [|done|].
  { by apply absent_hidden. }
  split; [by rewrite Hr, Hr'|by exists err].
Qed.

(** The two handlers that do not ask whether the caller may see the content. *)
Lemma viewers_reveal i u q a :
  authed st e rq a = (Ok u, a) →
  is_ok (check_limit (pq_limit q)) = true → is_ok (parse_cursor (pq_cursor q)) = true →
  ¬ owned_by u (AStory i) (w_db (app_world a)) →
  serve st e rq (GetStoryViewers (Some i) (Some q)) a =
  (Err (if has_key i (stories (w_db (app_world a))) then forbidden "only the story owner can view viewers"
        else not_found "story not found"), a).
Proof using Type.
  intros Hu Hl Hcur Ho. cbn [serve].
  assert (Hrun : map_err map_story_error (db (get_story_owner i)) a = (Ok (s_user_id <$> stories (w_db (app_world a)) !! i), a)).
  { unfold map_err. rewrite run_db. unfold get_story_owner, reads. cbn. by rewrite set_db_id. }
  destruct (check_limit (pq_limit q)) as [l|] eqn:El; [|done]. destruct (parse_cursor (pq_cursor q)) as [cur|] eqn:Ec; [|done].
  unfold respond, get_story_viewers, path, query, ok_or, from_result, guard_else. unfold_m. cbv beta iota.
  rewrite Hu. cbv beta iota. rewrite El. cbv beta iota. rewrite Ec. cbv beta iota. rewrite Hrun. cbv beta iota.
  simpl in Ho. unfold has_key. destruct (stories (w_db (app_world a)) !! i) as [x|]; simpl in *; [|done].
  by rewrite (bool_decide_false (s_user_id x = u)) by congruence.
Qed.
Lemma report_reveals i u reason a :
  authed st e rq a = (Ok u, a) → user_exists (w_db (app_world a)) u = true →
  is_Some (posts (w_db (app_world a)) !! i) → ¬ owned_by u (APost i) (w_db (app_world a)) →
  has_key (u, i) (post_flags (w_db (app_world a))) = false →
  exists_where (λ _ f, bool_decide (f_id f = fresh e 0)) (post_flags (w_db (app_world a))) = false →
  has_key (fresh e 1) (moderation_actions (w_db (app_world a))) = false →
  fst (serve st e rq (FlagPost (Some i) (Some reason)) a)
  = Ok (RPostFlag (mkPostFlag (fresh e 0) u i reason (db_now (clk e 0)))).
Proof using Type.
  intros Hu Hx [p Hp] Ho Hf Hid Hact. cbn [serve].
  assert (Hrun : db (post_owner i) a = (Ok (Some (p_owner_id p)), a)).
  { rewrite run_db. unfold post_owner, reads. cbn. by rewrite Hp, set_db_id. }
  assert (Hflag : fst (Moderation.flag_post (clk e 0) (fresh e 0) (fresh e 1) u i reason (w_db (app_world a)))
                  = Ok (mkPostFlag (fresh e 0) u i reason (db_now (clk e 0)))).
  { unfold Moderation.flag_post, insert_action. unfold_m. cbv beta. rewrite Hid, Hf, Hx. unfold has_key at 1.
    rewrite Hp, bool_decide_true by done. cbn. rewrite Hact. cbn.
    change (user_exists _ u) with (user_exists (w_db (app_world a)) u). by rewrite Hx. }
  assert (Howner : bool_decide (u = p_owner_id p) = false).
  { apply bool_decide_false. simpl in Ho. rewrite Hp in Ho. simpl in Ho. congruence. }
  unfold respond, flag_post, path, json, ok_or, fail_if, guard_else. unfold_m. cbv beta iota.
  rewrite Hu. cbv beta iota. rewrite Hrun, Howner. cbn [negb]. cbv beta iota. rewrite run_db.
  destruct (Moderation.flag_post _ _ _ _ _ _ (w_db (app_world a))) as [[flag|] d']; simpl in Hflag; [|done]. by injection Hflag as ->.
Qed.

End hidden.

(** User 2 has blocked user 1, who then tries to like one of 2's posts. *)
Definition blocked_app : App := snd (block_user (Sample.env 45) 1 2 Sample.app).
Lemma hidden_content_absent_witness :
  let serve := @serve Sample.toy_libs Sample.st (Sample.env 50) (Sample.request (Some 1%N)) in
  fst (serve (LikePost (Some 20%N)) Sample.app) = Ok (RFlag true) ∧
  serve (LikePost (Some 20%N)) blocked_app = (Err (not_found "post not found"), blocked_app) ∧
  serve (LikePost (Some 20%N)) blocked_app = serve (LikePost (Some 77%N)) blocked_app.
Proof.
  intros serve. split; [vm_compute; reflexivity|]. split; [vm_compute; reflexivity|].
  apply (@hidden_content_absent Sample.toy_libs Sample.st (Sample.env 50) (Sample.request (Some 1%N))
           (LikePost (Some 20%N)) (APost 20) 77 1 blocked_app).
  - vm_compute. reflexivity.
  - reflexivity.
  - reflexivity.
  - split; vm_compute; [reflexivity|discriminate].
  - vm_compute. reflexivity.
  - discriminate.
Defined.

