(* ===== verification/Routes.v ===== *)
(** * Routes

    The route table of [src/http/routes.rs] and its assembly in [router] of
    [src/http/mod.rs]: which layers stand before which group of routes, in which
    order, and what they do to a request for an endpoint. The rate limiter decides by
    the text of the path; this file relates its patterns to the routes. *)

From S2P Require Import Prelude Effects Text Sql Keyset Domain Schema RateLimits Redis RateLimiter Social Users.
From S2P Require Import Posts Engagement Trust Invites Crypto Auth World Feed Stories Notifications Moderation.
From S2P Require Import Fingerprint Search Media Http App Middleware HandlersUsers HandlersPosts HandlersMedia.
From S2P Require Import HandlersSafety HandlersStories Endpoints ClientErrors Access.
From Stdlib Require Import Ascii.
From stdpp Require Import options.

#[local] Open Scope Z_scope.

(** ** The table *)

Record Route := mkRoute { r_path : string; r_method : string; r_handler : string }.

Module Table.
Definition get (path handler : string) : Route := mkRoute path "GET" handler.
Definition post (path handler : string) : Route := mkRoute path "POST" handler.
Definition patch (path handler : string) : Route := mkRoute path "PATCH" handler.
Definition delete (path handler : string) : Route := mkRoute path "DELETE" handler.

Definition health : list Route := [get "/health" "health"; get "/metrics" "metrics"].
Definition auth : list Route :=
  [ post "/auth/login" "login"; post "/auth/refresh" "refresh_token"; post "/auth/revoke" "revoke_token";
    get "/auth/me" "get_current_user"; get "/invites/validate/:code" "validate_invite" ].
Definition users : list Route :=
  [ post "/users" "create_user"; get "/users/:id" "get_user"; patch "/users/:id" "update_profile";
    get "/users/:id/posts" "list_user_posts"; get "/users/:id/stories" "get_user_stories";
    get "/users/:id/highlights" "get_user_highlights"; post "/users/:id/follow" "follow_user";
    post "/users/:id/unfollow" "unfollow_user"; post "/users/:id/block" "block_user";
    post "/users/:id/unblock" "unblock_user"; get "/users/:id/followers" "list_followers";
    get "/users/:id/following" "list_following"; get "/users/:id/relationship" "relationship_status";
    delete "/account" "delete_account" ].
Definition posts : list Route :=
  [ post "/posts" "create_post"; get "/posts/:id" "get_post"; patch "/posts/:id" "update_post_caption";
    delete "/posts/:id" "delete_post"; post "/posts/:id/like" "like_post"; delete "/posts/:id/like" "unlike_post";
    get "/posts/:id/likes" "list_post_likes"; post "/posts/:id/comment" "comment_post";
    get "/posts/:id/comments" "list_post_comments"; delete "/posts/:id/comments/:comment_id" "delete_comment" ].
Definition feed : list Route := [get "/feed" "home_feed"; post "/feed/refresh" "refresh_feed"].
Definition media : list Route :=
  [ post "/media/upload" "create_upload"; post "/media/upload/:id/complete" "complete_upload";
    get "/media/:id" "get_media"; delete "/media/:id" "delete_media";
    get "/media/upload/:id/status" "get_upload_status" ].
Definition notifications : list Route :=
  [get "/notifications" "list_notifications"; post "/notifications/:id/read" "mark_notification_read"].
Definition moderation : list Route :=
  [ post "/moderation/users/:id/flag" "flag_user"; post "/moderation/posts/:id/flag" "flag_post";
    post "/moderation/posts/:id/takedown" "takedown_post"; post "/moderation/comments/:id/takedown" "takedown_comment";
    get "/moderation/audit" "list_moderation_audit"; post "/admin/invites" "admin_create_invite" ].
Definition search : list Route := [get "/search/users" "search_users"; get "/search/posts" "search_posts"].
Definition stories : list Route :=
  [ post "/stories" "create_story"; get "/stories/:id" "get_story"; delete "/stories/:id" "delete_story";
    get "/stories/:id/viewers" "get_story_viewers"; post "/stories/:id/reactions" "add_story_reaction";
    get "/stories/:id/reactions" "list_story_reactions"; delete "/stories/:id/reactions" "remove_story_reaction";
    post "/stories/:id/seen" "mark_story_seen"; get "/stories/:id/metrics" "get_story_metrics";
    post "/stories/:id/highlights" "add_story_to_highlight"; get "/feed/stories" "get_stories_feed" ].
Definition safety : list Route :=
  [ get "/account/trust-score" "get_trust_score"; get "/account/rate-limits" "get_rate_limits";
    post "/account/device/register" "register_device_fingerprint"; get "/account/devices" "list_user_devices";
    get "/invites" "list_invites"; post "/invites" "create_invite"; get "/invites/stats" "get_invite_stats";
    post "/invites/:code/revoke" "revoke_invite" ].
End Table.

(** ** The groups and their layers *)

Inductive Group :=
| GHealth | GAuth | GUsers | GPosts | GFeed | GMedia | GNotifications | GModeration | GSearch | GStories | GSafety.
Global Instance Group_eq_dec : EqDecision Group.
Proof. solve_decision. Defined.
Definition groups : list Group :=
  [GHealth; GAuth; GUsers; GPosts; GFeed; GMedia; GNotifications; GModeration; GSearch; GStories; GSafety].

Definition group_routes (g : Group) : list Route :=
  match g with
  | GHealth => Table.health | GAuth => Table.auth | GUsers => Table.users | GPosts => Table.posts
  | GFeed => Table.feed | GMedia => Table.media | GNotifications => Table.notifications
  | GModeration => Table.moderation | GSearch => Table.search | GStories => Table.stories | GSafety => Table.safety
  end.

Inductive Layer := Ban | UserLimit | IpLimit.
Global Instance Layer_eq_dec : EqDecision Layer.
Proof. solve_decision. Defined.

(** The layers of a group, outermost first (the one added last). *)
Definition group_layers (g : Group) : list Layer :=
  match g with
  | GHealth | GAuth => [IpLimit]
  | GUsers => [Ban; UserLimit; IpLimit]
  | GSafety => [Ban; IpLimit]
  | _ => [Ban; UserLimit]
  end.

(** The group and the handler of an endpoint. *)
Definition endpoint_route (ep : Endpoint) : Group * string :=
  match ep with
  | Health => (GHealth, "health") | Metrics => (GHealth, "metrics")
  | Login _ => (GAuth, "login") | RefreshToken _ => (GAuth, "refresh_token") | RevokeToken _ => (GAuth, "revoke_token")
  | GetCurrentUser => (GAuth, "get_current_user") | ValidateInvite _ => (GAuth, "validate_invite")
  | CreateUser _ => (GUsers, "create_user") | GetUser _ => (GUsers, "get_user")
  | UpdateProfile _ _ => (GUsers, "update_profile") | ListUserPosts _ _ => (GUsers, "list_user_posts")
  | GetUserStories _ _ => (GUsers, "get_user_stories") | GetUserHighlights _ _ => (GUsers, "get_user_highlights")
  | FollowUser _ => (GUsers, "follow_user") | UnfollowUser _ => (GUsers, "unfollow_user")
  | BlockUser _ => (GUsers, "block_user") | UnblockUser _ => (GUsers, "unblock_user")
  | ListFollowers _ _ => (GUsers, "list_followers") | ListFollowing _ _ => (GUsers, "list_following")
  | Relationship _ => (GUsers, "relationship_status") | DeleteAccount => (GUsers, "delete_account")
  | CreatePost _ => (GPosts, "create_post") | GetPost _ => (GPosts, "get_post")
  | UpdatePostCaption _ _ => (GPosts, "update_post_caption") | DeletePost _ => (GPosts, "delete_post")
  | LikePost _ => (GPosts, "like_post") | UnlikePost _ => (GPosts, "unlike_post")
  | ListPostLikes _ _ => (GPosts, "list_post_likes") | CommentPost _ _ => (GPosts, "comment_post")
  | ListPostComments _ _ => (GPosts, "list_post_comments") | DeleteComment _ => (GPosts, "delete_comment")
  | HomeFeed _ => (GFeed, "home_feed") | RefreshFeed => (GFeed, "refresh_feed")
  | CreateUpload _ => (GMedia, "create_upload") | CompleteUpload _ => (GMedia, "complete_upload")
  | GetMedia _ => (GMedia, "get_media") | DeleteMedia _ => (GMedia, "delete_media")
  | GetUploadStatus _ => (GMedia, "get_upload_status")
  | ListNotifications _ => (GNotifications, "list_notifications")
  | MarkNotificationRead _ => (GNotifications, "mark_notification_read")
  | FlagUser _ _ => (GModeration, "flag_user") | FlagPost _ _ => (GModeration, "flag_post")
  | TakedownPost _ _ => (GModeration, "takedown_post") | TakedownComment _ _ => (GModeration, "takedown_comment")
  | ListModerationAudit _ => (GModeration, "list_moderation_audit")
  | AdminCreateInvite _ => (GModeration, "admin_create_invite")
  | SearchUsers _ => (GSearch, "search_users") | SearchPosts _ => (GSearch, "search_posts")
  | CreateStory _ => (GStories, "create_story") | GetStory _ => (GStories, "get_story")
  | DeleteStory _ => (GStories, "delete_story") | GetStoryViewers _ _ => (GStories, "get_story_viewers")
  | AddStoryReaction _ _ => (GStories, "add_story_reaction") | ListStoryReactions _ _ => (GStories, "list_story_reactions")
  | RemoveStoryReaction _ => (GStories, "remove_story_reaction") | MarkStorySeen _ => (GStories, "mark_story_seen")
  | GetStoryMetrics _ => (GStories, "get_story_metrics") | AddStoryToHighlight _ _ => (GStories, "add_story_to_highlight")
  | GetStoriesFeed _ => (GStories, "get_stories_feed")
  | GetTrustScore => (GSafety, "get_trust_score") | GetRateLimits => (GSafety, "get_rate_limits")
  | RegisterDevice _ => (GSafety, "register_device_fingerprint") | ListUserDevices => (GSafety, "list_user_devices")
  | ListInvites => (GSafety, "list_invites") | CreateInvite _ => (GSafety, "create_invite")
  | GetInviteStats => (GSafety, "get_invite_stats") | RevokeInvite _ => (GSafety, "revoke_invite")
  end.

Section stack.
Context `{Libs} `{IpLib} (st : AppState) (trusted_proxy_cidrs : list IpNet).
(** The JSON text of a reply. *)
Context (render : Reply → Json).

(** What the outside supplies to the layers: the clocks each of them reads. *)
Record LayerEnv := mkLayerEnv { l_clk : Layer → Clock; l_rnow : Layer → Time }.

Definition apply_layer (le : LayerEnv) (l : Layer) (next : Service) : Service :=
  match l with
  | Ban => ban_check_middleware (auth_config st) (l_clk le Ban) next
  | UserLimit => rate_limit_middleware (auth_config st) (l_clk le UserLimit) (l_rnow le UserLimit) next
  | IpLimit => ip_rate_limit_middleware (ip_signup_rate_limit st) (l_clk le IpLimit) (l_rnow le IpLimit) next
  end.

(** [IntoResponse] of the handler's result. *)
Definition endpoint_service (e : Env) (ep : Endpoint) : Service := λ i a,
  match serve st e (in_request i) ep a with
  | (Ok reply, a') => (mkResponse (reply_status reply) ∅ (render reply), a')
  | (Err err, a') => (into_response err, a')
  end.

(** A request that the router matched with [ep], from the network to its response. *)
Definition routed (le : LayerEnv) (e : Env) (ep : Endpoint) : Service :=
  global_layers trusted_proxy_cidrs
    (foldr (apply_layer le) (endpoint_service e ep) (group_layers (endpoint_route ep).1)).
End stack.

(** ** Paths *)

(** A route with its parameters filled in. *)
Fixpoint fill_segments (params segments : list string) : list string :=
  match segments with
  | [] => []
  | s :: rest =>
      match params with
      | p :: params' => if starts_with ":" s then p :: fill_segments params' rest else s :: fill_segments params rest
      | [] => s :: fill_segments [] rest
      end
  end.
Fixpoint join_slash (l : list string) : string :=
  match l with [] => "" | [x] => x | x :: l' => x +:+ "/" +:+ join_slash l' end.
Definition instantiate (params : list string) (path : string) : string :=
  join_slash (fill_segments params (split_char "/"%char path)).

Example instantiate_comment :
  instantiate ["p"; "c"] "/posts/:id/comments/:comment_id" = "/posts/p/comments/c".
Proof. reflexivity. Qed.

(** The action a signed-in caller is charged for, by handler. *)
Definition charged_action (handler : string) : option string :=
  str_case handler
    [ ("create_post", Some "post"); ("create_story", Some "post"); ("like_post", Some "like");
      ("mark_story_seen", Some "like"); ("add_story_reaction", Some "like"); ("comment_post", Some "comment");
      ("follow_user", Some "follow"); ("unfollow_user", Some "unfollow"); ("home_feed", Some "feed");
      ("get_stories_feed", Some "feed"); ("refresh_feed", Some "feed"); ("list_notifications", Some "notifications");
      ("mark_notification_read", Some "notifications"); ("search_users", Some "search");
      ("search_posts", Some "search"); ("get_media", Some "media_read"); ("get_upload_status", Some "media_read");
      ("create_upload", Some "media_upload"); ("complete_upload", Some "media_upload");
      ("delete_media", Some "media_upload"); ("flag_user", Some "moderation"); ("flag_post", Some "moderation");
      ("takedown_post", Some "moderation"); ("takedown_comment", Some "moderation");
      ("list_moderation_audit", Some "moderation") ] None.
(** The per-address quota of a handler. *)
Definition address_quota (signup_limit : Z) (handler : string) : option (string * Z * RateWindow) :=
  str_case handler
    [ ("login", Some ("login", 30, Hour)); ("refresh_token", Some ("auth_refresh", 120, Hour));
      ("revoke_token", Some ("auth_revoke", 60, Hour)); ("create_user", Some ("signup", signup_limit, Day));
      ("health", Some ("health", 60, Minute)); ("register_device_fingerprint", Some ("device_register", 60, Hour));
      ("validate_invite", Some ("invite_validate", 120, Hour)) ] None.

(** *** Patterns over a path with a uuid in it *)

(** All the patterns need to know of the text of a uuid. *)
Definition uuid_text (s : string) : Prop := all_chars is_hex_or_dash s = true ∧ (2 ≤ String.length s)%nat.
Lemma uuid_str_text u : uuid_text (uuid_str u).
Proof. split; [apply uuid_str_chars|]. rewrite uuid_str_length. lia. Qed.

Lemma hex_not_letter c : is_hex_or_dash c = true → c ≠ "/"%char ∧ c ≠ "o"%char ∧ c ≠ "u"%char.
Proof. intros Hc. split_and!; intros ->; discriminate. Qed.
(** Nothing that starts with a slash occurs inside a uuid. *)
Lemma contains_skip p s t :
  all_chars is_hex_or_dash s = true → contains (String "/" p) (s +:+ t) = contains (String "/" p) t.
Proof.
  induction s as [|c s IH]; [done|]. change (String c s +:+ t) with (String c (s +:+ t)).
  cbn [contains all_chars]. intros [(Hc & _)%hex_not_letter Hs]%andb_true_iff. rewrite IH by done.
  unfold starts_with. cbn [strip_prefix]. by rewrite decide_False.
Qed.
Lemma ends_with_skip p s t : (String.length p ≤ String.length t)%nat → ends_with p (s +:+ t) = ends_with p t.
Proof.
  intros Hl. induction s as [|c s IH]; [done|]. change (String c s +:+ t) with (String c (s +:+ t)).
  cbn [ends_with]. rewrite IH.
  rewrite bool_decide_false; [done|]. intros He. apply (f_equal String.length) in He. simpl in He.
  rewrite append_length in He. lia.
Qed.
(** The patterns of the follow routes look through a uuid. *)
Lemma follow_skip s t :
  uuid_text s →
  contains "/follow" (String "/" (s +:+ t)) = contains "/follow" t ∧
  contains "/unfollow" (String "/" (s +:+ t)) = contains "/unfollow" t.
Proof.
  intros [Hs Hl]. cbn [contains]. rewrite !contains_skip by done.
  destruct s as [|a [|b s]]; [simpl in Hl; lia..|]. cbn [all_chars] in Hs.
  apply andb_true_iff in Hs as [(_ & _ & Ha)%hex_not_letter Hs].
  apply andb_true_iff in Hs as [(_ & Hb & _)%hex_not_letter _].
  change (String a (String b s) +:+ t) with (String a (String b (s +:+ t))).
  unfold starts_with. cbn [strip_prefix]. split; repeat case_decide; naive_solver.
Qed.

(** [p] and [s] differ before either ends. *)
Fixpoint mismatch (p s : string) : bool :=
  match p, s with
  | String c p', String c' s' => negb (bool_decide (c = c')) || mismatch p' s'
  | _, _ => false
  end.
Lemma mismatch_strip p s t : mismatch p s = true → strip_prefix p (s +:+ t) = None.
Proof.
  revert s. induction p as [|c p IH]; intros [|c' s]; try done.
  change (String c' s +:+ t) with (String c' (s +:+ t)). cbn [mismatch strip_prefix].
  case_bool_decide; simpl; intros; [rewrite decide_True by done; by apply IH|by rewrite decide_False].
Qed.
(** [p] occurs nowhere in a text that starts with [x], as far as [x] goes. *)
Fixpoint never (p x : string) : bool :=
  match x with EmptyString => true | String c x' => mismatch p x && never p x' end.
Lemma contains_literal p x t : never p x = true → contains p (x +:+ t) = contains p t.
Proof.
  induction x as [|c x IH]; [done|]. cbn [never]. intros [Hm Hn]%andb_true_iff.
  change (String c x +:+ t) with (String c (x +:+ t)). cbn [contains]. rewrite IH by done. unfold starts_with.
  change (String c (x +:+ t)) with (String c x +:+ t). by rewrite mismatch_strip.
Qed.

Section one_parameter.
Context (p : string) (Hp : uuid_text p) (x t : string).
Lemma follow_path : never "/follow" x = true →
  contains "/follow" (x +:+ String "/" (p +:+ t)) = contains "/follow" t.
Proof using Hp. intros Hx. rewrite contains_literal by done. by apply follow_skip. Qed.
Lemma unfollow_path : never "/unfollow" x = true →
  contains "/unfollow" (x +:+ String "/" (p +:+ t)) = contains "/unfollow" t.
Proof using Hp. intros Hx. rewrite contains_literal by done. by apply follow_skip. Qed.
Lemma ends_path e : (String.length e <=? String.length t)%nat = true →
  ends_with e (x +:+ String "/" (p +:+ t)) = ends_with e t.
Proof using Type.
  intros He%Nat.leb_le. rewrite ends_with_skip by (cbn [String.length]; rewrite append_length; lia).
  change (String "/" (p +:+ t)) with (String "/" p +:+ t). by apply ends_with_skip.
Qed.
(** The [/v1] prefix makes no difference. *)
Lemma logical_v1 s : logical_path ("/v1" +:+ s) = s.
Proof using Type. done. Qed.
End one_parameter.

(** Decide the arms of the limiter on a path [x/<uuid>t]. *)
Ltac classify p Hp x t :=
  change (instantiate _ _) with (x +:+ String "/" (p +:+ t));
  unfold rate_limit_action; rewrite ?logical_v1;
  try change (logical_path (EmptyString +:+ (x +:+ String "/" (p +:+ t)))) with (x +:+ String "/" (p +:+ t));
  cbv zeta; rewrite ?(follow_path p Hp x t), ?(unfollow_path p Hp x t) by reflexivity;
  try rewrite (ends_path p x t "/like") by reflexivity; try rewrite (ends_path p x t "/comment") by reflexivity;
  try rewrite (ends_path p x t "/seen") by reflexivity; try rewrite (ends_path p x t "/reactions") by reflexivity;
  reflexivity.

(** The routes with a parameter that the limiter has to look into. *)
Ltac classify_route p Hp :=
  lazymatch goal with
  | |- context [Table.post "/users/:id/follow" _] => classify p Hp "/users" "/follow"
  | |- context [Table.post "/users/:id/unfollow" _] => classify p Hp "/users" "/unfollow"
  | |- context [Table.post "/users/:id/block" _] => classify p Hp "/users" "/block"
  | |- context [Table.post "/users/:id/unblock" _] => classify p Hp "/users" "/unblock"
  | |- context [Table.post "/posts/:id/like" _] => classify p Hp "/posts" "/like"
  | |- context [Table.post "/posts/:id/comment" _] => classify p Hp "/posts" "/comment"
  | |- context [Table.post "/media/upload/:id/complete" _] => classify p Hp "/media/upload" "/complete"
  | |- context [Table.post "/notifications/:id/read" _] => classify p Hp "/notifications" "/read"
  | |- context [Table.post "/moderation/users/:id/flag" _] => classify p Hp "/moderation/users" "/flag"
  | |- context [Table.post "/moderation/posts/:id/flag" _] => classify p Hp "/moderation/posts" "/flag"
  | |- context [Table.post "/moderation/posts/:id/takedown" _] => classify p Hp "/moderation/posts" "/takedown"
  | |- context [Table.post "/moderation/comments/:id/takedown" _] => classify p Hp "/moderation/comments" "/takedown"
  | |- context [Table.post "/stories/:id/reactions" _] => classify p Hp "/stories" "/reactions"
  | |- context [Table.post "/stories/:id/seen" _] => classify p Hp "/stories" "/seen"
  | |- context [Table.post "/stories/:id/highlights" _] => classify p Hp "/stories" "/highlights"
  end.

Lemma user_limit_routes g r p q prefix :
  r ∈ group_routes g → UserLimit ∈ group_layers g → uuid_text p → prefix = "" ∨ prefix = "/v1" →
  rate_limit_action (prefix +:+ instantiate [p; q] (r_path r)) (r_method r) = charged_action (r_handler r).
Proof.
  intros Hr Hg Hp Hpre. destruct g; try (exfalso; revert Hg; cbn; set_solver).
  all: cbn in Hr; repeat (apply elem_of_cons in Hr as [->|Hr]); try by apply not_elem_of_nil in Hr.
  all: destruct Hpre as [-> | ->].
  all: try reflexivity.
  all: classify_route p Hp.
Qed.

Lemma address_limit_routes g r ps lim prefix :
  r ∈ group_routes g → IpLimit ∈ group_layers g → prefix = "" ∨ prefix = "/v1" → (2 ≤ length ps)%nat →
  ip_rate_limit_config (prefix +:+ instantiate ps (r_path r)) (r_method r) lim = address_quota lim (r_handler r).
Proof.
  intros Hr Hg Hpre Hps. destruct ps as [|p [|q ps]]; [simpl in Hps; lia..|].
  destruct g; try (exfalso; revert Hg; cbn; set_solver).
  all: cbn in Hr; repeat (apply elem_of_cons in Hr as [->|Hr]); try by apply not_elem_of_nil in Hr.
  all: destruct Hpre as [-> | ->]; reflexivity.
Qed.

(** Every endpoint has its route. *)
Lemma endpoint_routed ep :
  ∃ r, r ∈ group_routes (endpoint_route ep).1 ∧ r_handler r = (endpoint_route ep).2.
Proof.
  assert (Hall : ∀ g h, existsb (λ r, bool_decide (r_handler r = h)) (group_routes g) = true →
                        ∃ r, r ∈ group_routes g ∧ r_handler r = h).
  { intros g h (r & Hr & Hh)%existsb_exists. exists r. split; [by apply list_elem_of_In|by apply bool_decide_eq_true in Hh]. }
  apply Hall. by destruct ep.
Qed.

(** Some limiter charges for the endpoint. *)
Definition throttled (ep : Endpoint) : bool :=
  let '(g, handler) := endpoint_route ep in
  (bool_decide (UserLimit ∈ group_layers g) && bool_decide (charged_action handler ≠ None))
  || (bool_decide (IpLimit ∈ group_layers g) && bool_decide (is_Some (address_quota 0 handler))).
Definition unthrottled_handlers : list string :=
  [ "get_current_user"; "update_profile"; "get_user_stories"; "get_user_highlights"; "block_user"; "unblock_user";
    "list_followers"; "list_following"; "relationship_status"; "delete_account"; "update_post_caption"; "delete_post";
    "unlike_post"; "list_post_likes"; "list_post_comments"; "delete_comment"; "get_story"; "delete_story";
    "get_story_viewers"; "list_story_reactions"; "remove_story_reaction"; "get_story_metrics";
    "add_story_to_highlight"; "get_trust_score"; "get_rate_limits"; "list_user_devices"; "list_invites";
    "create_invite"; "get_invite_stats"; "revoke_invite" ].
Lemma unthrottled_spec ep :
  credential ep = SignedIn → throttled ep = false ↔ (endpoint_route ep).2 ∈ unthrottled_handlers.
Proof.
  intros Hc. rewrite <-(bool_decide_eq_true ((endpoint_route ep).2 ∈ unthrottled_handlers)).
  assert (negb (throttled ep) = bool_decide ((endpoint_route ep).2 ∈ unthrottled_handlers)) as <-
    by (destruct ep; first [discriminate Hc | vm_compute; reflexivity]).
  by rewrite negb_true_iff.
Qed.

(** C21: the rate limiter and the route table agree. The limiter decides by the text of
    the path; on every route of a group it guards, with or without the version
    prefix and whatever uuids the path contains, it charges exactly the action of the
    route's handler (none for the handlers that have no action), and the per-address
    limiter applies exactly the quota of the handler. Thirty of the endpoints that ask
    for a user, blocking and inviting among them, are charged by neither. *)
Theorem limits_match_routes g r u v prefix :
  r ∈ group_routes g → prefix = "" ∨ prefix = "/v1" →
  (UserLimit ∈ group_layers g →
   rate_limit_action (prefix +:+ instantiate [uuid_str u; uuid_str v] (r_path r)) (r_method r)
   = charged_action (r_handler r)) ∧
  (IpLimit ∈ group_layers g → ∀ params lim, (2 ≤ length params)%nat →
   ip_rate_limit_config (prefix +:+ instantiate params (r_path r)) (r_method r) lim
   = address_quota lim (r_handler r)) ∧
  (∀ ep, credential ep = SignedIn → throttled ep = false ↔ (endpoint_route ep).2 ∈ unthrottled_handlers).
Proof.
  intros Hr Hp. split_and!; [intros; apply (user_limit_routes g); auto using uuid_str_text| |].
  - intros. by apply (address_limit_routes g).
  - apply unthrottled_spec.
Qed.

Lemma limits_match_routes_witness :
  rate_limit_action "/v1/posts/123e4567-e89b-12d3-a456-426614174000/like" "POST" = Some "like" ∧
  ip_rate_limit_config "/v1/users" "POST" 10 = Some ("signup", 10, Day).
Proof.
  split.
  - apply (proj1 (limits_match_routes GPosts (Table.post "/posts/:id/like" "like_post")
      0x123e4567e89b12d3a456426614174000 0 "/v1" ltac:(cbn; set_solver) ltac:(by right))). cbn. set_solver.
  - apply (proj1 (proj2 (limits_match_routes GUsers (Table.post "/users" "create_user") 0 0 "/v1"
      ltac:(cbn; set_solver) ltac:(by right))) ltac:(cbn; set_solver) ["a"; "b"] 10). simpl. lia.
Defined.

(** ** Through the whole stack *)

Section through.
Context `{Libs} `{IpLib} (st : AppState) (cidrs : list IpNet) (render : Reply → Json).

Lemma user_limited_layers g : UserLimit ∈ group_layers g → ∃ rest, group_layers g = Ban :: UserLimit :: rest.
Proof using Type. destruct g; cbn; intros Hg; try (by eexists); exfalso; set_solver. Qed.

(** The quota holds from the network to the database: on every endpoint of the
    guarded groups, a signed-in request whose action is over its quota is answered
    with 429 before its handler runs. Only the counter in Redis has changed. *)
Theorem over_quota_refused le e ep i a u i' action info s :
  in_peer i = None → rq_auth (in_request i) = None → UserLimit ∈ group_layers (endpoint_route ep).1 →
  db_now (l_clk le Ban) ≤ app_now (l_clk le Ban) →
  optional_auth (auth_config st) (l_clk le Ban) (set_peer (resolve_peer cidrs i) i) a = (Some u, i') →
  rate_limit_action (rq_path (in_request i')) (rq_method (in_request i')) = Some action →
  check_and_increment (app_now (l_clk le UserLimit)) (l_rnow le UserLimit) u action
    (trust_level_of (w_db (app_world a)) u) (w_redis (app_world a)) = (Ok info, s) →
  limited info = true →
  let '(r, a') := routed st cidrs render le e ep i a in
  rs_status r = 429 ∧ a' = set_redis s a ∧ durable a' = durable a.
Proof using Type.
  intros Hp Hauth Hg Hclk Ho Hact Hc Hl. unfold routed. rewrite global_layers_run by done.
  destruct (user_limited_layers _ Hg) as [rest ->]. cbn [foldr apply_layer].
  rewrite ban_check_passes, Ho by done. cbn [snd].
  erewrite rate_limit_refuses; [|by eapply optional_auth_cached|done|done|done].
  split_and!; [|done|done]. unfold secure_headers. by repeat case_match.
Qed.
End through.

(** User 1 of the sample installation, with a valid token, wants to post; the eleventh
    attempt within the hour is one too many for a new account. *)
#[local] Existing Instance Sample.toy_libs.
#[local] Existing Instance toy_ip.
Definition posting_time : Z := 1700000000.
Definition sample_token : string := access_token (issued_pair sample_cfg (clk_at posting_time) (mkDraws 7 "n" "m") 1).
Definition posting : Incoming :=
  mkIncoming (mkRequest "POST" "/v1/posts" {[ "authorization" := "Bearer " +:+ sample_token ]} None) "1.2.3.4" None.
Definition posting_layers : LayerEnv := mkLayerEnv (λ _, clk_at posting_time) (λ _, seconds posting_time).
Definition post_once : Service :=
  routed Sample.st [] (λ _, JNull) posting_layers (Sample.env (seconds posting_time))
    (CreatePost (Some (mkCreatePost [] None))).
Definition after_posts (n : nat) : App := Nat.iter n (λ a, (post_once posting a).2) Sample.app.

Lemma over_quota_refused_witness :
  rs_status (post_once posting (after_posts 9)).1 = 400 ∧ rs_status (post_once posting (after_posts 10)).1 = 429.
Proof.
  split; [vm_compute; reflexivity|].
  assert (∃ i' info s,
    optional_auth (auth_config Sample.st) (clk_at posting_time) (set_peer (resolve_peer [] posting) posting)
      (after_posts 10) = (Some 1%N, i') ∧
    rate_limit_action (rq_path (in_request i')) (rq_method (in_request i')) = Some "post" ∧
    check_and_increment (seconds posting_time) (seconds posting_time) 1 "post"
      (trust_level_of (w_db (app_world (after_posts 10))) 1) (w_redis (app_world (after_posts 10))) = (Ok info, s) ∧
    limited info = true) as (i' & info & s & Ho & Hact & Hc & Hl).
  { do 3 eexists. split_and!; vm_compute; reflexivity. }
  unfold post_once. revert Ho Hc. generalize (after_posts 10). intros a Ho Hc.
  pose proof (over_quota_refused Sample.st [] (λ _, JNull) posting_layers (Sample.env (seconds posting_time))
    (CreatePost (Some (mkCreatePost [] None))) posting a 1%N i' "post" info s eq_refl eq_refl
    ltac:(cbn; set_solver) ltac:(cbn; lia) Ho Hact Hc Hl) as Hq.
  destruct (routed Sample.st _ _ _ _ _ posting a) as [r a']. apply Hq.
Defined.
