(* ===== verification/Rejections.v ===== *)
(** * Rejected requests, from the network on

    [ClientErrors] shows that a handler whose answer is a 4xx status changed nothing.
    A request also passes the layers of [src/http/mod.rs]: the rate limiters count it
    in Redis before the handler sees it. This file follows a request through all of
    them: when the response that leaves the service is a 4xx status, nothing but the
    counters of the rate limiter can have changed. *)

From S2P Require Import Prelude Effects Text Sql Keyset Domain Schema RateLimits Redis RateLimiter Social Users.
From S2P Require Import Posts Engagement Trust Invites Crypto Auth World Feed Stories Notifications Moderation.
From S2P Require Import Fingerprint Search Media Http App Middleware HandlersUsers HandlersPosts HandlersMedia.
From S2P Require Import HandlersSafety HandlersStories Endpoints ClientErrors Access Routes.
From stdpp Require Import options.

#[local] Open Scope Z_scope.

(** ** What the limiters touch *)

(** The keys of the rate limiter. *)
Definition counter_key (k : string) : bool := starts_with "ratelimit:" k.
(** [r'] differs from [r] in counters at most. *)
Definition same_entries (r r' : Redis) : Prop :=
  redis_up r' = redis_up r ∧ ∀ k, counter_key k = false → store r' !! k = store r !! k.
(** Everything the service keeps is as it was, the counters apart. *)
Definition counters_only (a a' : App) : Prop :=
  a' = set_redis (w_redis (app_world a')) a ∧ same_entries (w_redis (app_world a)) (w_redis (app_world a')).

Global Instance same_entries_preorder : PreOrder same_entries.
Proof.
  split; [by intros r; split|]. intros x y z [Hu Hs] [Hu' Hs']. split; [congruence|].
  intros k Hk. by rewrite Hs', Hs.
Qed.
Global Instance counters_only_preorder : PreOrder counters_only.
Proof.
  split; [intros [[] ? ?]; by split|]. intros x y z [Hx Hs] [Hy Hs']. split; [|by etrans].
  rewrite Hy, Hx. by destruct x as [[] ? ?].
Qed.
Lemma counters_only_redis a r : same_entries (w_redis (app_world a)) r → counters_only a (set_redis r a).
Proof. intros Hr. by destruct a as [[] ? ?]. Qed.

(** A command sequence that touches counters at most. *)
Definition counts {A} (m : M Redis RedisError A) : Prop := ∀ r, same_entries r (snd (m r)).
Lemma counts_bind {A B} (m : M Redis RedisError A) (k : A → M Redis RedisError B) :
  counts m → (∀ x, counts (k x)) → counts (m ≫= k).
Proof.
  intros Hm Hk r. specialize (Hm r). unfold_m. destruct (m r) as [[x|err] r']; [|done]. etrans; [exact Hm|apply Hk].
Qed.
Lemma counts_read_only {A} (m : M Redis RedisError A) : read_only m → counts m.
Proof. intros Hm r. by rewrite (Hm r). Qed.
Lemma same_entries_set r k f : counter_key k = true → (∀ m j, j ≠ k → f m !! j = m !! j) → same_entries r (set_store f r).
Proof. intros Hk Hf. split; [done|]. intros j Hj. apply Hf. intros ->. congruence. Qed.
Lemma incr_counts rnow k ttl : counter_key k = true → counts (incr_with_ttl rnow k ttl).
Proof.
  intros Hk. apply counts_bind; [apply counts_read_only; intros r; unfold connected; run; done|]. intros _.
  apply counts_bind; [|intros; apply counts_read_only; intros r; run; done].
  apply counts_bind; [|intros count; apply counts_bind; [case_match|done]; [|done]].
  - intros r. unfold redis_incr. run; try done; apply (same_entries_set _ k); try done; intros; by rewrite lookup_insert_ne.
  - intros r. apply (same_entries_set _ k); [done|]. intros m j Hj. by rewrite lookup_alter_ne.
Qed.
Lemma check_loop_counts now rnow u action cs acc : counts (check_loop now rnow u action cs acc).
Proof.
  revert acc. induction cs as [|[lim w] cs IH]; intros acc; [done|]. simpl.
  apply counts_bind; [by apply incr_counts|intros; apply IH].
Qed.
Lemma check_and_increment_counts now rnow u action level : counts (check_and_increment now rnow u action level).
Proof. unfold check_and_increment. case_match; [|done]. apply counts_bind; [apply check_loop_counts|done]. Qed.
Lemma check_and_increment_ip_counts now rnow ip action lim w : counts (check_and_increment_ip now rnow ip action lim w).
Proof. apply counts_bind; [by apply incr_counts|done]. Qed.

(** ** Statuses *)

Definition is_4xx (r : Response) : Prop := 400 ≤ rs_status r < 500.

(** The results of a handler satisfy [P]. *)
Definition returns {S E A} (P : A → Prop) (m : M S E A) : Prop := ∀ s a s', m s = (Ok a, s') → P a.
Lemma returns_bind {S E A B} P (m : M S E A) (k : A → M S E B) : (∀ a, returns P (k a)) → returns P (m ≫= k).
Proof. intros Hk s b s'. unfold_m. destruct (m s) as [[a|err] s1]; [apply Hk|done]. Qed.
Lemma returns_mret {S E A} (P : A → Prop) a : P a → returns (S := S) (E := E) P (mret a).
Proof. intros Ha s b s'. unfold_m. by intros [= <- _]. Qed.
Lemma returns_throw {S E A} (P : A → Prop) err : returns (S := S) (E := E) P (throw err).
Proof. by intros s b s'. Qed.
(** A status code that is handed on. *)
Lemma returns_code {S E} (P : Reply → Prop) (m : M S E Z) :
  returns (λ code, P (RStatus code)) m → returns P (m ≫= λ code, mret (RStatus code)).
Proof. intros Hm s b s'. specialize (Hm s). unfold_m. destruct (m s) as [[a|err] s1]; [|done]. intros [= <- _]. by eapply Hm. Qed.
Ltac solve_returns :=
  repeat first [ progress intros | apply returns_code | apply returns_mret; unfold NO_CONTENT, ACCEPTED; cbn; lia | apply returns_throw | apply returns_bind
               | progress case_match ].

Section layers.
Context `{Libs} `{IpLib} (st : AppState) (cidrs : list IpNet) (render : Reply → Json).

(** A successful handler never answers with a client error. *)
Lemma serve_status e rq ep : returns (λ r, ¬ 400 ≤ reply_status r < 500) (serve st e rq ep).
Proof using Type.
  destruct ep; unfold serve, respond; unfold_handlers; solve_returns.
Qed.

Lemma status_into err : rs_status (into_response err) = err_status err.
Proof using Type.
  unfold into_response.
  assert (Hf : ∀ l r, rs_status (foldl (λ r nv, insert_header nv.1 nv.2 r) r l) = rs_status r); [|by rewrite Hf].
  intros l. induction l as [|x l IH]; intros r; [done|]. simpl. by rewrite IH.
Qed.
Lemma status_secure b r : rs_status (secure_headers b r) = rs_status r.
Proof using Type. unfold secure_headers. by repeat case_match. Qed.

(** ** Through the layers *)

(** What a layer may rely on: the stories are consistent, and an identity that is
    already attached to the request belongs to an account that is not deleted. *)
Definition admissible (i : Incoming) (a : App) : Prop :=
  story_inv (w_db (app_world a)) ∧ identity_ok (in_request i) a.
(** Where the service answers with a client error, it has changed counters at most. *)
Definition rejects_cleanly (s : Service) : Prop :=
  ∀ i a r a', admissible i a → s i a = (r, a') → is_4xx r → counters_only a a'.

Lemma admissible_counters i a a' : counters_only a a' → admissible i a → admissible i a'.
Proof using Type. intros [-> _]. by destruct a as [[] ? ?]. Qed.
Lemma admissible_optional clk i a :
  admissible i a → admissible (optional_auth (auth_config st) clk i a).2 a.
Proof using Type.
  intros [Hs Hid]. split; [done|]. destruct (rq_auth (in_request i)) as [u|] eqn:Hu.
  - unfold optional_auth, auth_user_opt, auth_user. rewrite Hu. by destruct i.
  - destruct (optional_auth (auth_config st) clk i a) as [[u|] i'] eqn:Ho; simpl.
    + apply optional_auth_spec in Ho as Hact; [|done]. pose proof (optional_auth_cached (auth_config st) clk clk _ _ _ _ Ho) as Hc.
      intros v Hv. unfold optional_auth, auth_user_opt, auth_user in Hc. rewrite Hv in Hc. injection Hc as ->.
      unfold account_active in Hact. by destruct (active_user (w_db (app_world a)) u).
    + assert (i' = i) as ->; [|done]. unfold optional_auth, auth_user_opt in Ho.
      destruct (auth_user _ _ _ _) as [[[]|] ?]; [done|]. injection Ho as <-. by destruct i.
Qed.

Lemma endpoint_clean e ep : rejects_with_effect ep = false → rejects_cleanly (endpoint_service st render e ep).
Proof using Type.
  intros Hep i a r a' [Hs Hid]. unfold endpoint_service. destruct (serve st e (in_request i) ep a) as [[reply|err] a1] eqn:Hrun.
  - intros [= <- <-] Hr. exfalso. by eapply serve_status.
  - intros [= <- <-]. unfold is_4xx. rewrite status_into. intros Hc. by rewrite (serve_client_error st e (in_request i) ep a err a1).
Qed.
Lemma ban_clean clk next : rejects_cleanly next → rejects_cleanly (ban_check_middleware (auth_config st) clk next).
Proof using Type.
  intros Hn i a r a' Ha. unfold ban_check_middleware. pose proof (admissible_optional clk i a Ha) as Ha'.
  destruct (optional_auth _ _ _ _) as [[u|] i']; [|by apply Hn].
  destruct (is_banned _ _ _) as [[[]|] ?]; [by intros [= _ <-]|by apply Hn|by intros [= _ <-]].
Qed.
Lemma user_limit_clean clk rnow next :
  rejects_cleanly next → rejects_cleanly (rate_limit_middleware (auth_config st) clk rnow next).
Proof using Type.
  intros Hn i a r a' Ha. unfold rate_limit_middleware. pose proof (admissible_optional clk i a Ha) as Ha'.
  destruct (optional_auth _ _ _ _) as [auth i']. simpl in Ha'.
  destruct (rate_limit_action _ _) as [action|]; [|by apply Hn]. destruct auth as [u|]; [|by apply Hn].
  unfold Trust.get_trust_score, reads, on_world, on_redis. cbv beta iota.
  match goal with |- context [check_and_increment ?n ?rn ?u ?ac ?l ?rd] =>
    pose proof (check_and_increment_counts n rn u ac l rd) as Hc;
    destruct (check_and_increment n rn u ac l rd) as [[info|err] rd'] end; cbn [snd] in Hc;
    pose proof (counters_only_redis a rd' Hc) as Hca; [|by intros [= _ <-]].
  destruct (limited info); [by intros [= _ <-]|]. unfold set_redis in *.
  destruct (next i' _) as [r1 a1] eqn:Hr1. intros [= <- <-] H4. etrans; [exact Hca|].
  eapply Hn; [|exact Hr1|done]. by eapply admissible_counters.
Qed.
Lemma ip_limit_clean limit clk rnow next :
  rejects_cleanly next → rejects_cleanly (ip_rate_limit_middleware limit clk rnow next).
Proof using Type.
  intros Hn i a r a' Ha. unfold ip_rate_limit_middleware.
  destruct (ip_rate_limit_config _ _ _) as [[[action lim] w]|]; [|by apply Hn].
  unfold on_world, on_redis. cbv beta iota.
  match goal with |- context [check_and_increment_ip ?n ?rn ?u ?ac ?l ?w ?rd] =>
    pose proof (check_and_increment_ip_counts n rn u ac l w rd) as Hc;
    destruct (check_and_increment_ip n rn u ac l w rd) as [[[]|err] rd'] end; cbn [snd] in Hc;
    pose proof (counters_only_redis a rd' Hc) as Hca; [by intros [= _ <-]| |by intros [= _ <-]].
  intros Hr1 H4. etrans; [exact Hca|]. eapply Hn; [|exact Hr1|done]. by eapply admissible_counters.
Qed.
Lemma layers_clean le layers next : rejects_cleanly next → rejects_cleanly (foldr (apply_layer st le) next layers).
Proof using Type.
  intros Hn. induction layers as [|[] layers IH]; [done|..]; simpl;
    [by apply ban_clean|by apply user_limit_clean|by apply ip_limit_clean].
Qed.

(** C7: a request that is answered with a 4xx status, wherever on its way through the
    layers and the handler it was refused, left Postgres, the media queue, the bucket
    and the notification channel as they were, and Redis too but for the keys of the
    rate limiter, which had counted it. It holds for every endpoint, input and clock
    on a database with consistent stories, and has two exceptions: a reused refresh
    token is answered with 401 and revokes its family, and an upload that cannot be
    signed is answered with 400 and leaves its row. *)
Theorem client_error_no_effect le e ep i a r a' :
  rq_auth (in_request i) = None → story_inv (w_db (app_world a)) → rejects_with_effect ep = false →
  routed st cidrs render le e ep i a = (r, a') → is_4xx r → counters_only a a'.
Proof using Type.
  intros Hauth Hs Hep. unfold routed, global_layers, security_headers_middleware, request_context_middleware.
  case_match; [by intros [= _ <-]|].
  match goal with |- context [foldr ?f ?x ?l ?j a] => destruct (foldr f x l j a) as [r1 a1] eqn:Hr end. intros [= <- <-]. unfold is_4xx. rewrite status_secure. intros H4.
  eapply (layers_clean le); [by apply endpoint_clean| |exact Hr|done]. split; [done|]. intros u. simpl. by rewrite Hauth.
Qed.
End layers.

(** A post without a picture is refused with 400 by the handler, after the limiter has
    counted the attempt. *)
#[local] Existing Instance Sample.toy_libs.
#[local] Existing Instance toy_ip.
Lemma client_error_no_effect_witness :
  rs_status (post_once posting Sample.app).1 = 400 ∧ (post_once posting Sample.app).2 ≠ Sample.app ∧
  counters_only Sample.app (post_once posting Sample.app).2.
Proof.
  assert (Hst : rs_status (post_once posting Sample.app).1 = 400) by (vm_compute; reflexivity).
  split; [exact Hst|]. split.
  - intros He. assert (Hl : size (store (w_redis (app_world (post_once posting Sample.app).2))) = 0%nat) by (by rewrite He).
    vm_compute in Hl. discriminate.
  - eapply (client_error_no_effect Sample.st [] (λ _, JNull) posting_layers (Sample.env (seconds posting_time))
      (CreatePost (Some (mkCreatePost [] None))) posting Sample.app).
    + reflexivity.
    + exact story_inv_feed_db.
    + reflexivity.
    + apply surjective_pairing.
    + unfold is_4xx. change (400 ≤ rs_status (post_once posting Sample.app).1 < 500). rewrite Hst. lia.
Defined.
