(* ===== verification/Startup.v ===== *)
(** * Start-up

    [main] of [src/main.rs] and [Db::connect] of [src/infra/db.rs]: which services a
    process needs and which tasks it runs in each mode, the bounded retry of the
    database connection, and how the configuration becomes the state of the handlers. *)

From S2P Require Import Prelude Effects Text Sql Keyset Domain Schema Redis RateLimits RateLimiter Trust.
From S2P Require Import Invites Crypto Auth World Feed Stories Notifications Media Http App Middleware Config.
From S2P Require Import HandlersUsers HandlersPosts HandlersMedia HandlersSafety HandlersStories Endpoints.
From S2P Require Import ClientErrors Access.
From stdpp Require Import options.

#[local] Open Scope Z_scope.

(** ** The database connection *)

Definition CONNECT_MAX_ATTEMPTS : nat := 10.
Definition CONNECT_RETRY_DELAY_SECS : Z := 2.

(** [db_statement_timeout_seconds * 1000] in [u64], as a release build computes it. *)
Definition statement_timeout_ms (seconds_ : Z) : Z := (seconds_ * 1000) mod 2 ^ 64.

(** What the loop did: its result, the number of attempts and the seconds slept. *)
Record Connecting := mkConnecting { conn_result : Result string unit; attempts : nat; slept : Z }.

(** The [loop]; [outcome] is what the [n]-th attempt meets. *)
Fixpoint connect_loop (fuel : nat) (outcome : nat → Result string unit) (attempt : nat) (slept : Z) :
    option Connecting :=
  match fuel with
  | O => None
  | S fuel' =>
      match outcome attempt with
      | Ok _ => Some (mkConnecting (Ok tt) attempt slept)
      | Err err =>
          if (attempt <? CONNECT_MAX_ATTEMPTS)%nat
          then connect_loop fuel' outcome (S attempt) (slept + CONNECT_RETRY_DELAY_SECS)
          else Some (mkConnecting (Err err) attempt slept)
      end
  end.
Definition connect (outcome : nat → Result string unit) : option Connecting :=
  connect_loop CONNECT_MAX_ATTEMPTS outcome 1 0.

Lemma connect_loop_spec fuel outcome n s :
  (1 ≤ n)%nat → (n + fuel = 11)%nat → (1 ≤ fuel)%nat → (∀ m, (1 ≤ m < n)%nat → is_ok (outcome m) = false) →
  ∃ c, connect_loop fuel outcome n s = Some c ∧ (n ≤ attempts c ≤ 10)%nat ∧
    slept c = s + 2 * Z.of_nat (attempts c - n) ∧ conn_result c = (if is_ok (outcome (attempts c)) then Ok tt else outcome (attempts c)) ∧
    (∀ m, (1 ≤ m < attempts c)%nat → is_ok (outcome m) = false) ∧
    (is_ok (conn_result c) = false → attempts c = 10%nat).
Proof.
  revert n s. induction fuel as [|fuel IH]; intros n s Hn Hf H1 Hbad; [lia|]. cbn [connect_loop].
  destruct (outcome n) as [[]|err] eqn:Ho.
  - eexists. split; [done|]. simpl. rewrite Ho. split_and!; [lia|lia|lia|done|done|done].
  - destruct (Nat.ltb_spec n CONNECT_MAX_ATTEMPTS) as [Hlt|Hge]; unfold CONNECT_MAX_ATTEMPTS in *.
    + destruct (IH (S n) (s + CONNECT_RETRY_DELAY_SECS)) as (c & Hc & Hr & Hs & Hres & Hb & Hten); [lia..| |].
      { intros m Hm. destruct (decide (m = n)) as [->|]; [by rewrite Ho|]. apply Hbad. lia. }
      exists c. split; [done|]. unfold CONNECT_RETRY_DELAY_SECS in *. split_and!; try done; lia.
    + eexists. split; [done|]. simpl. rewrite Ho. split_and!; [lia|lia|lia|done|done|]. intros. lia.
Qed.

(** Waiting for the database is bounded: the connection loop always ends, after at
    most ten attempts and eighteen seconds of sleep; it connects at the first attempt
    that works, and gives up, with the error of the tenth, only if all ten failed. *)
Theorem connect_terminates outcome :
  ∃ c, connect outcome = Some c ∧ (1 ≤ attempts c ≤ 10)%nat ∧ slept c = 2 * (Z.of_nat (attempts c) - 1) ∧
    (∀ m, (1 ≤ m < attempts c)%nat → is_ok (outcome m) = false) ∧
    (is_ok (conn_result c) = is_ok (outcome (attempts c))) ∧
    (is_ok (conn_result c) = false → attempts c = 10%nat ∧ conn_result c = outcome 10%nat).
Proof.
  destruct (connect_loop_spec 10 outcome 1 0) as (c & Hc & Hr & Hs & Hres & Hb & Hten); [lia..|].
  exists c. split_and!; try done; [lia..| |].
  - rewrite Hres. by destruct (outcome (attempts c)) as [[]|].
  - intros Hbad. specialize (Hten Hbad). split; [done|]. rewrite Hres in Hbad |- *. rewrite Hten in Hbad |- *.
    by destruct (outcome 10%nat) as [[]|].
Qed.

(** ** [main] *)

Inductive Task := ApiServer | ServerlessServer | NotificationWorker | CleanupLoop | MediaLoop.
Inductive Outcome := Running (tasks : list Task) | Failed (err : string) | Panicked.

(** What the services answer when the process connects, and the listening socket. *)
Record Services := mkServices {
  sv_db : nat → Result string unit; sv_redis : Result string unit; sv_storage : Result string unit;
  sv_queue : Result string unit; sv_recorder : Result string unit; sv_bind : Result string unit }.

Definition connect_result (outcome : nat → Result string unit) : Result string unit :=
  match connect outcome with Some c => conn_result c | None => Err "" end.

(** [x?; rest]. *)
Definition and_then (x : Result string unit) (rest : Outcome) : Outcome :=
  match x with Ok _ => rest | Err err => Failed err end.
(** [mpsc::channel] panics without room for a message. *)
Definition MAX_PERMITS : Z := 2 ^ 61 - 1.
Definition channel (capacity : Z) (rest : Outcome) : Outcome :=
  if (1 <=? capacity) && (capacity <=? MAX_PERMITS) then rest else Panicked.

Section main.
Context `{ConfigLib}.

Definition main (env : EnvVars) (sv : Services) : Outcome :=
  match fst (from_env env) with
  | Err err => Failed err
  | Ok config =>
      if bool_decide (app_mode config = "serverless-worker") then
        and_then (connect_result (sv_db sv)) (and_then (sv_storage sv) (and_then (sv_bind sv)
          (Running [ServerlessServer])))
      else if bool_decide (app_mode config = "worker") then
        and_then (connect_result (sv_db sv)) (and_then (sv_storage sv) (and_then (sv_queue sv)
          (Running [MediaLoop])))
      else
        and_then (connect_result (sv_db sv)) (and_then (sv_redis sv) (and_then (sv_storage sv) (and_then (sv_queue sv)
          (and_then (sv_recorder sv) (channel (notification_queue_capacity config)
            (if bool_decide (app_mode config = "api")
             then and_then (sv_bind sv) (Running [NotificationWorker; CleanupLoop; ApiServer])
             else if bool_decide (app_mode config = "combined")
             then and_then (sv_bind sv) (Running [NotificationWorker; CleanupLoop; MediaLoop; ApiServer])
             else Failed ("unknown APP_MODE: " +:+ app_mode config)))))))
  end.

(** The tasks of a mode, and whether the services it needs answered. *)
Definition mode_tasks (mode : string) : option (list Task) :=
  str_case mode
    [ ("serverless-worker", Some [ServerlessServer]); ("worker", Some [MediaLoop]);
      ("api", Some [NotificationWorker; CleanupLoop; ApiServer]);
      ("combined", Some [NotificationWorker; CleanupLoop; MediaLoop; ApiServer]) ] None.
Definition mode_needs (mode : string) (capacity : Z) (sv : Services) : bool :=
  is_ok (connect_result (sv_db sv)) && is_ok (sv_storage sv) &&
  str_case mode
    [ ("serverless-worker", is_ok (sv_bind sv)); ("worker", is_ok (sv_queue sv)) ]
    (is_ok (sv_redis sv) && is_ok (sv_queue sv) && is_ok (sv_recorder sv) && is_ok (sv_bind sv)
     && (1 <=? capacity) && (capacity <=? MAX_PERMITS)).

Lemma and_then_running x rest tasks :
  and_then x rest = Running tasks ↔ is_ok x = true ∧ rest = Running tasks.
Proof using Type. destruct x; simpl; naive_solver. Qed.
Lemma channel_running c rest tasks :
  channel c rest = Running tasks ↔ (1 <=? c) && (c <=? MAX_PERMITS) = true ∧ rest = Running tasks.
Proof using Type. unfold channel. case_match; naive_solver. Qed.

(** C32: a process runs what its mode says, or does not run: [main] comes up exactly
    when the environment is a valid configuration, the mode is one of the four, and
    the services that mode needs answered (a worker needs neither Redis nor a socket,
    the serverless container neither Redis nor the queue); it then runs the tasks of
    the mode and no others. In the API modes it also takes a positive capacity of the
    notification channel: with 0, which the configuration accepts, it panics. *)
Theorem startup_exact env sv tasks :
  main env sv = Running tasks ↔
  ∃ config, fst (from_env env) = Ok config ∧
    mode_tasks (app_mode config) = Some tasks ∧
    mode_needs (app_mode config) (notification_queue_capacity config) sv = true.
Proof using Type.
  unfold main. destruct (fst (from_env env)) as [config|err]; [|naive_solver].
  transitivity (mode_tasks (app_mode config) = Some tasks ∧
                mode_needs (app_mode config) (notification_queue_capacity config) sv = true).
  2:{ split; [by exists config|]. by intros (? & [= <-] & ?). }
  unfold mode_tasks, mode_needs, bool_decide. cbn [str_case].
  repeat case_decide; try congruence.
  all: rewrite ?and_then_running, ?channel_running, ?and_then_running, ?andb_true_iff; naive_solver.
Qed.

(** ** The state of the handlers *)

(** The fields of [AppState] that come from the configuration. *)
Definition state_of (config : AppConfig) : AppState :=
  mkAppState (Config.upload_url_ttl_seconds config) (Config.upload_max_bytes config) (admin_token config)
    (mkAuthConfig (paseto_access_key config) (paseto_refresh_key config)
       (Config.access_ttl_minutes config) (Config.refresh_ttl_days config))
    (Config.s3_public_endpoint config) (Config.ip_signup_rate_limit config)
    (Z.to_nat (notification_queue_capacity config)).

(** C33: who is the administrator is decided by the environment alone: a request passes
    the administrator check exactly when the variable is set and the header repeats
    its value. The empty value counts: with [ADMIN_TOKEN] set to nothing, as the
    compose files do by default, an empty header opens every administrative
    endpoint. *)
Theorem admin_access_exact env config rq a :
  fst (from_env env) = Ok config →
  admin (state_of config) rq a = (Ok tt, a) ↔
  ∃ token, env "ADMIN_TOKEN" = Some token ∧ rq_headers rq !! "x-admin-token" = Some token.
Proof using Type.
  intros Hc. destruct (from_env_spec env) as [_ Hs]. rewrite Hc in Hs. pose proof (d_admin _ _ Hs) as Ht.
  unfold admin, Http.admin_token, state_of, from_result. cbn [expected_admin_token]. rewrite Ht.
  destruct (env "ADMIN_TOKEN") as [expected|]; [|naive_solver].
  destruct (rq_headers rq !! "x-admin-token") as [provided|]; [|naive_solver].
  case_bool_decide; naive_solver.
Qed.
End main.

(** ** Concrete starts *)

#[local] Existing Instances one_net text_config.
Definition all_up : Services := mkServices (λ n, if (n <? 3)%nat then Err "refused" else Ok tt) (Ok tt) (Ok tt) (Ok tt) (Ok tt) (Ok tt).

(** The database answers at the third attempt. *)
Lemma startup_exact_witness : main dev_env all_up = Running [NotificationWorker; CleanupLoop; ApiServer].
Proof. apply (proj2 (startup_exact dev_env all_up _)). exists dev_config. by vm_compute. Defined.

(** A capacity of zero is a valid configuration on which the process panics. *)
Definition no_capacity : EnvVars := λ key,
  if decide (key = "NOTIFICATION_QUEUE_CAPACITY") then Some "0" else dev_env key.
Example no_capacity_panics : main no_capacity all_up = Panicked.
Proof. vm_compute. reflexivity. Qed.

(** With the empty token of the sample environment, an empty header makes an invite. *)
#[local] Existing Instance Sample.toy_libs.
Definition empty_header : Request := mkRequest "POST" "/admin/invites" {[ "x-admin-token" := "" ]} None.
Lemma admin_access_exact_witness :
  admin (state_of dev_config) empty_header Sample.app = (Ok tt, Sample.app) ∧
  is_ok (fst (serve (state_of dev_config) (Sample.env 50) empty_header (AdminCreateInvite (Some None)) Sample.app)) = true.
Proof.
  split; [|vm_compute; reflexivity].
  apply (proj2 (admin_access_exact dev_env dev_config empty_header Sample.app dev_env_read)).
  exists "". split; reflexivity.
Defined.
