(* ===== verification/Clients.v ===== *)
(** * The clients of the database, the object store and the queue

    How [Db::connect] ([src/infra/db.rs]), [ObjectStorage::new] ([src/infra/storage.rs])
    and [QueueClient::new] ([src/infra/queue.rs]) set up their clients from the
    configuration: endpoints, credentials, and the limits on how long a call may take.
    What the SDK reads from its environment is the interface [AwsEnv]. *)

From S2P Require Import Prelude Text Sql Http Middleware Config Queue Startup.
From stdpp Require Import pretty.
From stdpp Require Import options.

#[local] Open Scope Z_scope.

(** ** The pool *)

Record PoolOptions := mkPoolOptions {
  max_connections : Z; acquire_timeout : Z; idle_timeout : Z; max_lifetime : Z; after_connect : string }.

Section pool.
Context `{IpLib}.
(** The options; [after_connect] is the statement every new connection runs. *)
Definition pool_options (config : AppConfig) : PoolOptions :=
  let statement_timeout_ms := statement_timeout_ms (db_statement_timeout_seconds config) in
  mkPoolOptions (db_max_connections config) (seconds (db_connect_timeout_seconds config))
    (seconds (db_idle_timeout_seconds config)) (seconds (db_max_lifetime_seconds config))
    ("SET statement_timeout = " +:+ pretty (Z.to_N statement_timeout_ms)).
End pool.

(** The longest a statement may run: PostgreSQL takes 0 for no limit. *)
Definition statement_limit (config_seconds : Z) : option Z :=
  let ms := statement_timeout_ms config_seconds in if ms =? 0 then None else Some (ms * 1000).

(** Statements are limited to the configured time, except by a configured 0, and by a
    number of seconds whose milliseconds do not fit 64 bits, which wraps around. *)
Lemma statement_limit_exact n : 0 ≤ n < 2 ^ 64 →
  (0 < n → n * 1000 < 2 ^ 64 → statement_limit n = Some (seconds n)) ∧ statement_limit 0 = None ∧
  statement_limit (2 ^ 61) = None.
Proof.
  intros Hn. unfold statement_limit, statement_timeout_ms, seconds. split; [|split; reflexivity].
  intros H0 Hw. rewrite Z.mod_small by lia. destruct (Z.eqb_spec (n * 1000) 0); [lia|]. f_equal. lia.
Qed.

(** ** The AWS clients *)

Record TimeoutConfig := mkTimeouts { connect_timeout : Z; operation_attempt_timeout : Z; operation_timeout : Z }.

(** Keys given by the configuration, or a provider of the default chain. *)
Inductive CredentialsProvider := Keys (access secret : string) | Chain (source : string).

(** [aws_config::defaults(..).region(..).load()]. *)
Record SharedConfig := mkShared { sh_region : option string; sh_credentials : option CredentialsProvider }.
Class AwsEnv := load : string → SharedConfig.

Record ClientConfig := mkClient {
  cc_region : option string; cc_endpoint : string; cc_timeouts : TimeoutConfig;
  cc_path_style : bool; cc_credentials : option CredentialsProvider }.

Section aws.
Context `{IpLib} `{AwsEnv}.

Definition storage_timeouts : TimeoutConfig := mkTimeouts (seconds 5) (seconds 60) (seconds 120).
Definition storage_config (config : AppConfig) : ClientConfig :=
  let shared_config := load (s3_region config) in
  mkClient (sh_region shared_config) (s3_endpoint config) storage_timeouts (s3_force_path_style config)
    (sh_credentials shared_config).
(** [ObjectStorage::new]. *)
Record ObjectStorage := mkObjectStorage { os_client : ClientConfig; os_bucket : string }.
Definition object_storage (config : AppConfig) : ObjectStorage :=
  mkObjectStorage (storage_config config) (s3_bucket config).

Definition queue_timeouts : TimeoutConfig := mkTimeouts (seconds 5) (seconds 30) (seconds 60).
(** Explicit keys when there are any, otherwise the default chain. *)
Definition queue_credentials (config : AppConfig) : option CredentialsProvider :=
  if negb (is_empty (sqs_access_key config)) then Some (Keys (sqs_access_key config) (sqs_secret_key config))
  else sh_credentials (load (queue_region config)).
Definition queue_config (config : AppConfig) : ClientConfig :=
  mkClient (Some (queue_region config)) (queue_endpoint config) queue_timeouts false (queue_credentials config).
(** [QueueClient::new], with the answers of the service to [get_queue_url] and
    [create_queue]. *)
Record Queue := mkQueue { qc_client : ClientConfig; qc_name : string; qc_url : string }.
Definition queue_client (config : AppConfig) (found : QueueClient.UrlReply) (create : QueueClient.CreateReply) :
    Result string Queue :=
  match QueueClient.resolve_url found create with
  | Ok queue_url => Ok (mkQueue (queue_config config) (queue_name config) queue_url)
  | Err err => Err err
  end.

(** The keys of the configuration reach the queue's client and no other: an empty access
    key leaves both clients to the default chain. *)
Lemma client_credentials config found create q :
  queue_client config found create = Ok q →
  cc_credentials (os_client (object_storage config)) = sh_credentials (load (s3_region config)) ∧
  cc_credentials (qc_client q) =
    if is_empty (sqs_access_key config) then sh_credentials (load (queue_region config))
    else Some (Keys (sqs_access_key config) (sqs_secret_key config)).
Proof using Type.
  unfold queue_client. destruct (QueueClient.resolve_url _ _); [|done]. intros [= <-]. split; [done|]. simpl.
  unfold queue_credentials. by destruct (is_empty _).
Qed.

(** [QUEUE_VISIBILITY_TIMEOUT_SECONDS], the attribute of a queue the service creates. *)
Definition QUEUE_VISIBILITY_TIMEOUT : Z := seconds 300.

(** The long poll of the worker fits into one attempt, and an attempt into a call. *)
Lemma timeouts_nest :
  seconds POLL_WAIT_SECONDS < operation_attempt_timeout queue_timeouts < operation_timeout queue_timeouts ∧
  connect_timeout queue_timeouts < operation_attempt_timeout queue_timeouts ∧
  connect_timeout storage_timeouts < operation_attempt_timeout storage_timeouts < operation_timeout storage_timeouts.
Proof. by vm_compute. Qed.
End aws.
