(* ===== verification/Delivery.v ===== *)
(** * One message of the media queue, with time

    [MediaWorker] lets the queue hand any message to any worker at any moment. Here is
    one message with the clock: a received message is invisible for the visibility
    timeout that [src/infra/queue.rs] sets, and every await point of [process_job]
    ([src/jobs/media_processor.rs]) takes at most its limit. The message is processed
    once when the limits of a whole job stay below the visibility timeout; with the
    operation timeout of [src/infra/storage.rs] they do not, and a slow job is
    processed twice. Jobs that [requeue_stale_uploads] puts on the queue again are
    messages of their own. *)

From S2P Require Import Prelude Sql Domain Schema Redis World Media MediaWorker Clients.
From stdpp Require Import options.

#[local] Open Scope Z_scope.

(** ** The message and its workers *)

(** The longest an await point of [process_job] takes: the claim, the download with the
    rendering, an upload, and the final transaction. *)
Record Limits := mkLimits { li_claim : Z; li_fetch : Z; li_store : Z; li_finish : Z }.
Definition budget (l : Limits) : Z := li_claim l + li_fetch l + 2 * li_store l + li_finish l.

(** A worker that holds the message: when it received it, and since when it has been
    at the await point it is at. *)
Record Call := mkCall { received_at : Time; since : Time }.
Record Lane := mkLane {
  ln_sys : Sys; ln_clock : Time;
  ln_visible : Time;                    (* the message is invisible until then *)
  ln_calls : gmap nat Call;
  ln_rows : list Uuid }.                (* the media rows workers have inserted *)

Inductive LaneMove :=
| LReceive (i : nat)
| LClaim (i : nat)
| LAdvance (i : nat) (clk : Clock) (media_id : Uuid)   (* the await point returns *)
| LCrash (i : nat)
| LClient (e : Event)                   (* a request that does not touch the message *)
| LOutage (queue_up storage_up : bool)
| LWait (dt : Z).

Section lane.
Context `{ImageLib} (job : MediaJob) (l : Limits).

(** The await point a worker is at: before its claim it is not yet in [sys_workers]. *)
Definition limit_of (b : option Busy) : Z :=
  match b_phase <$> b with
  | None => li_claim l
  | Some Claimed => li_fetch l
  | Some (Rendered _) | Some (ThumbStored _) => li_store l
  | Some (BothStored _) => li_finish l
  end.
Definition next_event (i : nat) (clk : Clock) (media_id : Uuid) (b : Busy) : Event :=
  match b_phase b with
  | Claimed => Render i
  | Rendered _ => StoreThumb i
  | ThumbStored _ => StoreMedium i
  | BothStored _ => Finish i clk media_id
  end.
Definition elsewhere (e : Event) : bool :=
  match e with
  | CreateUpload _ _ _ _ _ _ | DeleteMediaRow _ _ => true
  | CompleteUpload _ id _ => bool_decide (id ≠ job_upload_id job)
  | _ => false
  end.

Definition with_outage (queue_up storage_up : bool) (w : World) : World :=
  mkWorld (w_db w) (w_redis w) (w_queue w) queue_up (w_objects w) storage_up.
Definition inserted (media_id : Uuid) (d d' : Db) : bool :=
  has_key media_id (media d') && negb (has_key media_id (media d)).

Definition lane_move (m : LaneMove) (s : Lane) : option Lane :=
  let 'mkLane sys clock visible calls rows := s in
  let w := sys_world sys in
  match m with
  | LReceive i =>
      match calls !! i, list_find (λ j, j = job) (w_queue w) with
      | None, Some _ =>
          if w_queue_up w && (visible <=? clock)
          then Some (mkLane sys clock (clock + QUEUE_VISIBILITY_TIMEOUT) (<[i := mkCall clock clock]> calls) rows)
          else None
      | _, _ => None
      end
  | LClaim i =>
      match calls !! i, sys_workers sys !! i with
      | Some c, None =>
          match on_db (claim job) w with
          | (Ok (Some cl), w') =>
              Some (mkLane (busy i (mkBusy job cl Claimed) w' sys) clock visible (<[i := mkCall (received_at c) clock]> calls) rows)
          | (Ok None, w') => Some (mkLane (set_world (snd (delete_message job w')) sys) clock visible (delete i calls) rows)
          | (Err _, w') => Some (mkLane (set_world w' sys) clock visible (delete i calls) rows)
          end
      | _, _ => None
      end
  | LAdvance i clk media_id =>
      match calls !! i, sys_workers sys !! i with
      | Some c, Some b =>
          sys' ← sys_step (next_event i clk media_id b) sys;
          Some (mkLane sys' clock visible
            (match sys_workers sys' !! i with Some _ => <[i := mkCall (received_at c) clock]> calls | None => delete i calls end)
            (if inserted media_id (w_db w) (w_db (sys_world sys')) then media_id :: rows else rows))
      | _, _ => None
      end
  | LCrash i => Some (mkLane (idle i w sys) clock visible (delete i calls) rows)
  | LClient e => if elsewhere e then sys' ← sys_step e sys; Some (mkLane sys' clock visible calls rows) else None
  | LOutage queue_up storage_up => Some (mkLane (set_world (with_outage queue_up storage_up w) sys) clock visible calls rows)
  | LWait dt =>
      (* a call that has reached its limit returns before time goes on *)
      if (0 <=? dt) && bool_decide (map_Forall (λ i c, clock + dt ≤ since c + limit_of (sys_workers sys !! i)) calls)
      then Some (mkLane sys (clock + dt) visible calls rows) else None
  end.
Fixpoint lane_moves (ms : list LaneMove) (s : Lane) : option Lane :=
  match ms with [] => Some s | m :: ms' => s' ← lane_move m s; lane_moves ms' s' end.

(** A message nobody has received. *)
Definition fresh_lane (now : Time) (w : World) : Lane := mkLane (mkSys w ∅) now now ∅ [].
End lane.

(** ** Within the visibility timeout *)

(** What is left of the budget from the await point on. *)
Definition remaining (l : Limits) (b : option Busy) : Z :=
  match b_phase <$> b with
  | None => budget l
  | Some Claimed => li_fetch l + 2 * li_store l + li_finish l
  | Some (Rendered _) => 2 * li_store l + li_finish l
  | Some (ThumbStored _) => li_store l + li_finish l
  | Some (BothStored _) => li_finish l
  end.

Section once.
Context `{ImageLib} (job : MediaJob) (l : Limits).
Context (Hpos : 0 ≤ li_claim l ∧ 0 ≤ li_fetch l ∧ 0 ≤ li_store l ∧ 0 ≤ li_finish l).
Context (Hbudget : budget l < QUEUE_VISIBILITY_TIMEOUT).
#[local] Arguments delete_message : simpl never.
#[local] Arguments on_db : simpl never.

Definition owned (d : Db) : Prop :=
  ∃ u, media_uploads d !! job_upload_id job = Some u ∧ mu_owner_id u = job_owner_id job.
Definition settled (d : Db) : Prop :=
  ∃ u, media_uploads d !! job_upload_id job = Some u ∧ mu_status u = Completed.

Lemma owned_evolves d d' : uploads_evolve d d' → owned d → owned d'.
Proof using Type. intros He (u & Hu & Ho). destruct (He _ _ Hu) as (u' & Hu' & Hr & _). exists u'. split; [done|congruence]. Qed.
Lemma settled_evolves d d' : uploads_evolve d d' → settled d → settled d'.
Proof using Type.
  intros He (u & Hu & Hs). destruct (He _ _ Hu) as (u' & Hu' & _ & _ & _ & _ & _ & Hr & _). exists u'. split; [done|].
  rewrite Hs in Hr. destruct (mu_status u'); simpl in Hr; done || lia.
Qed.

Lemma step_evolves e s s' : sys_step e s = Some s' → uploads_evolve (w_db (sys_world s)) (w_db (sys_world s')).
Proof using Type. intros Hs. eapply db_step_evolves. by eapply sys_step_db. Qed.

Lemma give_back_spec i j err w s :
  sys_workers (give_back i j err w s) = delete i (sys_workers s) ∧
  media (w_db (sys_world (give_back i j err w s))) = media (w_db w).
Proof using Type.
  unfold give_back. destruct (is_permanent_error err); [|done]. split; [done|]. unfold idle. cbn [sys_world].
  rewrite (proj1 (delete_message_keeps j _)). unfold best_effort. cbn [snd]. by rewrite on_db_db.
Qed.

(** The final transaction inserts the row and settles the upload, or does nothing. *)
Lemma finish_spec clk mid c tk mk x y d :
  let d' := snd (finish clk mid job c tk mk x y d) in
  media d' = media d ∨ (owned d → settled d').
Proof using Type.
  unfold finish, transaction. run; [right|by left|by left]. intros (u & Hu & Ho). unfold settled. simpl.
  rewrite lookup_update_where, Hu. simpl. eexists. rewrite !bool_decide_true by done. by split.
Qed.

(** An await point that returns: the worker goes on, or it lets go of the message. *)
Definition went_on (i : nat) (b : Busy) (s s' : Sys) : Prop :=
  ∃ b', sys_workers s' = <[i := b']> (sys_workers s) ∧ b_job b' = job ∧
    remaining l (Some b') = remaining l (Some b) - limit_of l (Some b) ∧
    media (w_db (sys_world s')) = media (w_db (sys_world s)).
Definition let_go (i : nat) (s s' : Sys) : Prop :=
  sys_workers s' = delete i (sys_workers s) ∧
  (media (w_db (sys_world s')) = media (w_db (sys_world s)) ∨
   (owned (w_db (sys_world s)) → settled (w_db (sys_world s')))).

Lemma give_back_let_go i err w s s' :
  media (w_db w) = media (w_db (sys_world s)) → s' = give_back i job err w s → let_go i s s'.
Proof using Type.
  intros Hw ->. destruct (give_back_spec i job err w s) as [H1 H2]. split; [done|]. left. by rewrite H2, Hw.
Qed.

Lemma advance_spec i clk mid b s s' :
  sys_workers s !! i = Some b → b_job b = job → sys_step (next_event i clk mid b) s = Some s' →
  went_on i b s s' ∨ let_go i s s'.
Proof using Type.
  intros Hi Hj. destruct b as [j c ph]. simpl in Hj. subst j. unfold sys_step, next_event.
  destruct ph as [|r|r|r]; cbn [b_phase]; rewrite Hi.
  - assert (Hw : w_db (snd (fetch_and_render c (sys_world s))) = w_db (sys_world s)) by (unfold fetch_and_render, get_object; by run).
    destruct (fetch_and_render c _) as [[r|err] w']; simpl in Hw; intros [= <-].
    + left. eexists. split_and!; [done|done|unfold remaining, limit_of; simpl; lia|simpl; by rewrite Hw].
    + right. eapply give_back_let_go; [|done]. by rewrite Hw.
  - destruct (variant_keys job c) as [keys|]; [|intros [= <-]; right; by eapply give_back_let_go].
    unfold upload_variant. unfold_m. destruct (w_storage_up _); simpl; intros [= <-].
    + left. eexists. split_and!; [done|done|unfold remaining, limit_of; simpl; lia|done].
    + right. by eapply give_back_let_go.
  - destruct (variant_keys job c) as [keys|]; [|intros [= <-]; right; by eapply give_back_let_go].
    unfold upload_variant. unfold_m. destruct (w_storage_up _); simpl; intros [= <-].
    + left. eexists. split_and!; [done|done|unfold remaining, limit_of; simpl; lia|done].
    + right. by eapply give_back_let_go.
  - destruct (variant_keys job c) as [keys|]; [|intros [= <-]; right; by eapply give_back_let_go].
    pose proof (on_db_db (finish clk mid job c keys.1 keys.2 (rd_width r) (rd_height r)) (sys_world s)) as Hdb.
    pose proof (finish_spec clk mid c keys.1 keys.2 (rd_width r) (rd_height r) (w_db (sys_world s))) as Hf.
    destruct (on_db _ _) as [[u|err] w']; cbn [snd] in Hdb; intros Hs; apply (inj Some) in Hs; subst s'; right.
    + split; [done|]. unfold idle. cbn [sys_world]. by rewrite (proj1 (delete_message_keeps job _)), Hdb.
    + split; [done|]. unfold give_back. cbn [is_permanent_error idle sys_world]. by rewrite Hdb.
Qed.

(** At most one worker holds the message, within its budget and while the message is
    invisible; and once a row has been inserted the upload is settled. *)
Definition on_time (clock visible : Time) (b : option Busy) (c : Call) : Prop :=
  received_at c + QUEUE_VISIBILITY_TIMEOUT = visible ∧ since c ≤ clock ≤ since c + limit_of l b ∧
  since c + remaining l b ≤ received_at c + budget l.
Record lane_inv (s : Lane) : Prop := {
  lv_time : ∀ i c, ln_calls s !! i = Some c → on_time (ln_clock s) (ln_visible s) (sys_workers (ln_sys s) !! i) c;
  lv_one : ∀ i j c c', ln_calls s !! i = Some c → ln_calls s !! j = Some c' → i = j;
  lv_busy : ∀ i b, sys_workers (ln_sys s) !! i = Some b →
    is_Some (ln_calls s !! i) ∧ b_job b = job ∧ owned (w_db (sys_world (ln_sys s)));
  lv_rows : ln_rows s = [] ∨
    (length (ln_rows s) = 1%nat ∧ sys_workers (ln_sys s) = ∅ ∧ settled (w_db (sys_world (ln_sys s)))) }.

Lemma limit_le_remaining b : 0 ≤ limit_of l b ≤ remaining l b.
Proof using Hpos. unfold limit_of, remaining, budget. destruct b as [[j c []]|]; simpl; lia. Qed.
(** Nobody holds a message that is visible. *)
Lemma visible_free s : lane_inv s → ln_visible s ≤ ln_clock s → ln_calls s = ∅.
Proof using All.
  intros Hs Hv. apply map_empty. intros i. destruct (ln_calls s !! i) as [c|] eqn:Hc; [|done].
  destruct (lv_time s Hs i c Hc) as (H1 & H2 & H3). pose proof (limit_le_remaining (sys_workers (ln_sys s) !! i)). lia.
Qed.

(** Moves that leave the workers and the calls alone. *)
Lemma lane_inv_world s w :
  lane_inv s → uploads_evolve (w_db (sys_world (ln_sys s))) (w_db w) →
  lane_inv (mkLane (set_world w (ln_sys s)) (ln_clock s) (ln_visible s) (ln_calls s) (ln_rows s)).
Proof using Type.
  intros [Ht H1 Hb Hr] He. split; simpl; [done|done| |].
  - intros i b Hi. destruct (Hb i b Hi) as (? & ? & ?). eauto using owned_evolves.
  - destruct Hr as [?|(? & ? & ?)]; [by left|right]. eauto using settled_evolves.
Qed.
(** A worker lets go of the message. *)
Lemma lane_inv_drop s i s' rows :
  lane_inv s → sys_workers s' = delete i (sys_workers (ln_sys s)) →
  uploads_evolve (w_db (sys_world (ln_sys s))) (w_db (sys_world s')) →
  (rows = ln_rows s ∨ ln_rows s = [] ∧ is_Some (ln_calls s !! i) ∧ length rows = 1%nat ∧ settled (w_db (sys_world s'))) →
  lane_inv (mkLane s' (ln_clock s) (ln_visible s) (delete i (ln_calls s)) rows).
Proof using Type.
  intros [Ht H1 Hb Hr] Hw He Hrows. split; simpl.
  - intros j c [Hne Hc]%lookup_delete_Some. rewrite Hw, lookup_delete_ne by done. by apply Ht.
  - intros j k c c' [_ Hc]%lookup_delete_Some [_ Hc']%lookup_delete_Some. by eapply H1.
  - intros j b. rewrite Hw. intros [Hne Hj]%lookup_delete_Some. destruct (Hb j b Hj) as (? & ? & ?).
    rewrite lookup_delete_ne by done. eauto using owned_evolves.
  - destruct Hrows as [->|(_ & [c Hc] & Hl & Hset)].
    + destruct Hr as [?|(? & Hem & ?)]; [by left|right]. rewrite Hw, Hem, delete_empty. eauto using settled_evolves.
    + right. split_and!; [done| |done]. rewrite Hw. apply map_empty. intros j.
      destruct (delete i _ !! j) as [b|] eqn:Hj; [|done]. apply lookup_delete_Some in Hj as [Hne Hj].
      destruct (Hb j b Hj) as ([c' Hc'] & _). destruct Hne. by eapply H1.
Qed.
(** The worker goes on to its next await point. *)
Lemma lane_inv_next s i c b' s' :
  lane_inv s → ln_calls s !! i = Some c → ln_rows s = [] → sys_workers s' = <[i := b']> (sys_workers (ln_sys s)) →
  b_job b' = job → owned (w_db (sys_world s')) →
  remaining l (Some b') = remaining l (sys_workers (ln_sys s) !! i) - limit_of l (sys_workers (ln_sys s) !! i) →
  lane_inv (mkLane s' (ln_clock s) (ln_visible s) (<[i := mkCall (received_at c) (ln_clock s)]> (ln_calls s)) []).
Proof using Hpos.
  intros [Ht H1 Hb _] Hc Hrows Hw Hj Hown Hrem.
  assert (Honly : ∀ j c', ln_calls s !! j = Some c' → j = i) by (intros j c' Hc'; by eapply H1). split; simpl.
  - intros j c' [[<- <-]|[Hne Hc']]%lookup_insert_Some; [|by destruct Hne; apply Honly in Hc'].
    rewrite Hw, lookup_insert_eq. destruct (Ht _ _ Hc) as (? & ? & ?). pose proof (limit_le_remaining (Some b')).
    split_and!; simpl; [done|lia|lia|lia].
  - intros j k cj ck Hcj Hck. assert (Hji : ∀ x cx, <[i := mkCall (received_at c) (ln_clock s)]> (ln_calls s) !! x = Some cx → x = i).
    { intros x cx [[<- _]|[_ Hx]]%lookup_insert_Some; [done|by apply Honly in Hx]. }
    by rewrite (Hji j cj), (Hji k ck).
  - intros j b. rewrite Hw. intros [[<- <-]|[Hne Hb']]%lookup_insert_Some; [rewrite lookup_insert_eq; eauto|].
    destruct (Hb j b Hb') as ([cj Hcj] & _). by destruct Hne; apply Honly in Hcj.
  - by left.
Qed.

(** What the claim says about the upload. *)
Lemma claim_spec d :
  uploads_evolve d (snd (claim job d)) ∧
  match fst (claim job d) with Ok (Some _) => owned (snd (claim job d)) ∧ ¬ settled d | _ => True end.
Proof using Type.
  split; [apply claim_evolves|]. unfold claim. run; try done. bool_to_prop. split.
  - eexists. simpl. rewrite lookup_insert_eq. by split.
  - intros (v & Hv & Hs). match goal with Hc : (_ || _) = true |- _ => apply orb_true_iff in Hc as [?|?] end; bool_to_prop; congruence.
Qed.

Lemma elsewhere_workers e s s' :
  elsewhere job e = true → sys_step e s = Some s' → s' = set_world (sys_world s') s.
Proof using Type. destruct e; simpl; try done; unfold run_world; intros _ Hs; apply (inj Some) in Hs; by subst s'. Qed.

Lemma busy_no_rows s i b : lane_inv s → sys_workers (ln_sys s) !! i = Some b → ln_rows s = [].
Proof using Type. intros Hs Hi. destruct (lv_rows s Hs) as [?|(_ & He & _)]; [done|]. by rewrite He, lookup_empty in Hi. Qed.

Lemma lane_inv_receive sys clock visible calls rows i s' :
  lane_inv (mkLane sys clock visible calls rows) → lane_move job l (LReceive i) (mkLane sys clock visible calls rows) = Some s' →
  lane_inv s'.
Proof using All.
  intros Hs. simpl. destruct (calls !! i) eqn:Hci; [done|]. destruct (list_find _ _); [|done].
  destruct (w_queue_up _ && _) eqn:Hg; [|done]. intros [= <-]. apply andb_true_iff in Hg as [_ Hv%Z.leb_le].
  pose proof (visible_free _ Hs Hv) as Hem. simpl in Hem. subst calls.
  assert (Hno : ∀ j b, sys_workers sys !! j = Some b → False).
  { intros j b Hb. destruct (lv_busy _ Hs j b Hb) as ([c Hc] & _). simpl in Hc. by rewrite lookup_empty in Hc. }
  split; simpl.
  - intros j c [[<- <-]|[_ Hc]]%lookup_insert_Some; [|by rewrite lookup_empty in Hc].
    destruct (sys_workers sys !! i) as [b|] eqn:Hb; [by destruct (Hno i b)|]. pose proof (limit_le_remaining None).
    split_and!; simpl in *; [done|lia|lia|unfold remaining; simpl; lia].
  - intros j k c c' [[<- _]|[_ Hc]]%lookup_insert_Some [[<- _]|[_ Hc']]%lookup_insert_Some; [done|..]; by rewrite ?lookup_empty in *.
  - intros j b Hb. by destruct (Hno j b).
  - apply (lv_rows _ Hs).
Qed.

Lemma lane_inv_claim sys clock visible calls rows i s' :
  lane_inv (mkLane sys clock visible calls rows) → lane_move job l (LClaim i) (mkLane sys clock visible calls rows) = Some s' →
  lane_inv s'.
Proof using All.
  intros Hs. unfold lane_move. destruct (calls !! i) as [c|] eqn:Hc; [|done]. destruct (sys_workers sys !! i) eqn:Hw; [done|].
  destruct (claim_spec (w_db (sys_world sys))) as [Hev Hcl]. pose proof (on_db_db (claim job) (sys_world sys)) as Hdb.
  assert (Hfst : fst (on_db (claim job) (sys_world sys)) = fst (claim job (w_db (sys_world sys)))) by (unfold on_db; by destruct (claim _ _)).
  destruct (on_db (claim job) (sys_world sys)) as [[[cl|]|e] w']; cbn [fst snd] in *; rewrite <-Hfst in Hcl; rewrite <-Hdb in *;
    intros Hm; apply (inj Some) in Hm; subst s'.
  - destruct Hcl as [Hown Hnot]. assert (rows = []) as -> by (destruct (lv_rows _ Hs) as [?|(_ & _ & ?)]; done).
    eapply (lane_inv_next (mkLane sys clock visible calls [])); simpl; try done. rewrite Hw. unfold remaining, limit_of, budget. simpl. lia.
  - apply (lane_inv_drop (mkLane sys clock visible calls rows)); cbn [ln_sys set_world sys_world sys_workers];
      [done|by rewrite delete_id| |by left]. by rewrite (proj1 (delete_message_keeps job _)).
  - apply (lane_inv_drop (mkLane sys clock visible calls rows)); simpl; [done|by rewrite delete_id|done|by left].
Qed.

Lemma lane_inv_advance sys clock visible calls rows i clk mid s' :
  lane_inv (mkLane sys clock visible calls rows) →
  lane_move job l (LAdvance i clk mid) (mkLane sys clock visible calls rows) = Some s' → lane_inv s'.
Proof using All.
  intros Hs. unfold lane_move. destruct (calls !! i) as [c|] eqn:Hc; [|done]. destruct (sys_workers sys !! i) as [b|] eqn:Hb; [|done].
  destruct (sys_step _ sys) as [sys'|] eqn:Hst; cbn [mbind option_bind]; [|done]. intros Hm. apply (inj Some) in Hm. subst s'.
  pose proof (busy_no_rows _ i b Hs Hb) as Hrows. simpl in Hrows. subst rows.
  destruct (lv_busy _ Hs i b Hb) as (_ & Hj & Hown). simpl in Hown. pose proof (step_evolves _ _ _ Hst) as Hev.
  assert (Hsame : media (w_db (sys_world sys')) = media (w_db (sys_world sys)) → inserted mid (w_db (sys_world sys)) (w_db (sys_world sys')) = false).
  { intros Hm. unfold inserted. rewrite Hm. by destruct (has_key _ _). }
  destruct (advance_spec i clk mid b sys sys' Hb Hj Hst) as [(b' & Hw & Hj' & Hrem & Hmed)|[Hw Hend]].
  - rewrite (Hsame Hmed), Hw, lookup_insert_eq.
    eapply (lane_inv_next (mkLane sys clock visible calls [])); simpl; try done; [by eapply owned_evolves|by rewrite Hb].
  - rewrite Hw, lookup_delete_eq. apply (lane_inv_drop (mkLane sys clock visible calls [])); simpl; [done|done|done|].
    destruct Hend as [Hmed|Hset]; [rewrite (Hsame Hmed); by left|].
    destruct (inserted mid _ _); [|by left]. right. rewrite Hc. eauto.
Qed.

Lemma lane_inv_move m s s' : lane_inv s → lane_move job l m s = Some s' → lane_inv s'.
Proof using All.
  intros Hs. destruct s as [sys clock visible calls rows]. destruct m as [i|i|i clk mid|i|e|q st|dt].
  - by apply lane_inv_receive.
  - by apply lane_inv_claim.
  - by apply lane_inv_advance.
  - intros [= <-]. apply (lane_inv_drop (mkLane sys clock visible calls rows)); [done|done|by apply uploads_evolve_eq|by left].
  - unfold lane_move. destruct (elsewhere job e) eqn:He; [|done]. destruct (sys_step e sys) as [sys'|] eqn:Hst; [|done].
    cbn [mbind option_bind]. intros [= <-]. rewrite (elsewhere_workers e sys sys' He Hst).
    apply (lane_inv_world (mkLane sys clock visible calls rows)); [done|]. by eapply step_evolves.
  - intros [= <-]. apply (lane_inv_world (mkLane sys clock visible calls rows)); [done|by apply uploads_evolve_eq].
  - simpl. destruct (Z.leb_spec 0 dt); simpl; [|done]. case_bool_decide as Hall; [|done]. intros [= <-].
    destruct Hs as [Ht H1 Hb Hr]. split; simpl in *; [|done..]. intros i c Hc. specialize (Hall i c Hc). simpl in Hall.
    destruct (Ht i c Hc) as (? & ? & ?). split_and!; [done|lia|lia|done].
Qed.

Lemma lane_inv_moves ms s s' : lane_inv s → lane_moves job l ms s = Some s' → lane_inv s'.
Proof using All.
  revert s. induction ms as [|m ms IH]; intros s Hs; simpl; [by intros [= <-]|].
  destruct (lane_move job l m s) as [s1|] eqn:Hm; simpl; [|done]. apply IH. by eapply lane_inv_move.
Qed.
End once.

(** The limits the storage client sets, with instant statements and rendering. *)
Definition s3_limits : Limits :=
  mkLimits 0 (operation_timeout storage_timeouts) (operation_timeout storage_timeouts) 0.

(** The first worker is slow but within its limits; the second gets the message when
    it becomes visible again, and both finish. *)
Definition slow_job : list LaneMove :=
  [LReceive 0; LClaim 0; LWait (seconds 120); LAdvance 0 (mkClock 0 0) 0; LWait (seconds 120); LAdvance 0 (mkClock 0 0) 0;
   LWait (seconds 60); LReceive 1; LClaim 1]
  ++ replicate 3 (LAdvance 1 (mkClock 0 0) 0) ++ [LAdvance 1 (mkClock 5 5) 61; LAdvance 0 (mkClock 0 0) 0; LAdvance 0 (mkClock 6 6) 60].
Definition after_lane (l : Limits) (ms : list LaneMove) : Lane :=
  let s := fresh_lane 0 (upload_world Uploaded) in default s (@lane_moves ToyImage.toy_image the_job l ms s).
Lemma after_lane_run l ms :
  (if @lane_moves ToyImage.toy_image the_job l ms (fresh_lane 0 (upload_world Uploaded)) then true else false) = true →
  @lane_moves ToyImage.toy_image the_job l ms (fresh_lane 0 (upload_world Uploaded)) = Some (after_lane l ms).
Proof. unfold after_lane. by destruct (lane_moves _ _ _ _). Qed.

(** ** Larger limits allow more *)

Definition within (l l' : Limits) : Prop :=
  li_claim l ≤ li_claim l' ∧ li_fetch l ≤ li_fetch l' ∧ li_store l ≤ li_store l' ∧ li_finish l ≤ li_finish l'.
Lemma limit_of_mono l l' b : within l l' → limit_of l b ≤ limit_of l' b.
Proof. intros (? & ? & ? & ?). unfold limit_of. by destruct b as [[j c []]|]. Qed.
Lemma lane_move_mono `{ImageLib} job l l' m s s' :
  within l l' → lane_move job l m s = Some s' → lane_move job l' m s = Some s'.
Proof.
  intros Hw. destruct s as [sys clock visible calls rows]. destruct m; try done. simpl.
  destruct (0 <=? dt); simpl; [|done]. case_bool_decide as Hall; [|done]. intros <-. rewrite bool_decide_true; [done|].
  intros i c Hc. specialize (Hall i c Hc). simpl in *. pose proof (limit_of_mono l l' (sys_workers sys !! i) Hw). lia.
Qed.
Lemma lane_moves_mono `{ImageLib} job l l' ms s s' :
  within l l' → lane_moves job l ms s = Some s' → lane_moves job l' ms s = Some s'.
Proof.
  intros Hw. revert s. induction ms as [|m ms IH]; intros s; simpl; [done|].
  destruct (lane_move job l m s) as [s1|] eqn:Hm; simpl; [|done]. rewrite (lane_move_mono _ _ _ _ _ _ Hw Hm). apply IH.
Qed.

(** C40: the visibility timeout protects exactly the jobs that fit into it. When the
    limits of all await points of a job add up to less than the 300 seconds a received
    message stays invisible, then whatever crashes, outages, deliveries and requests of
    clients come in between, at most one worker holds the message at any moment and at
    most one media row is ever inserted for it. With the 120 seconds that the storage
    client allows a call, the download and the two uploads alone exceed the 300 seconds,
    and a run in which every call keeps to its limit inserts two rows for one upload. *)
Theorem redelivery_budget l :
  0 ≤ li_claim l ∧ 0 ≤ li_fetch l ∧ 0 ≤ li_store l ∧ 0 ≤ li_finish l →
  (budget l < QUEUE_VISIBILITY_TIMEOUT →
   ∀ `{ImageLib} job ms now w s, lane_moves job l ms (fresh_lane now w) = Some s →
   (length (ln_rows s) ≤ 1)%nat ∧ ∀ i j c c', ln_calls s !! i = Some c → ln_calls s !! j = Some c' → i = j) ∧
  (operation_timeout storage_timeouts ≤ li_fetch l → operation_timeout storage_timeouts ≤ li_store l →
   QUEUE_VISIBILITY_TIMEOUT < budget l ∧
   ∃ s, @lane_moves ToyImage.toy_image the_job l slow_job (fresh_lane 0 (upload_world Uploaded)) = Some s ∧
     ln_rows s = [60%N; 61%N] ∧
     m_original_key <$> media (w_db (sys_world (ln_sys s))) !! 60%N = Some "uploads/a.png" ∧
     m_original_key <$> media (w_db (sys_world (ln_sys s))) !! 61%N = Some "uploads/a.png").
Proof.
  intros Hpos. split.
  - intros Hb ? job ms now w s Hms. assert (Hs : lane_inv job l s).
    { eapply lane_inv_moves; [done|done| |exact Hms]. split; simpl; try (intros ?? Hx; by rewrite lookup_empty in Hx).
      - intros ???? Hx. by rewrite lookup_empty in Hx.
      - by left. }
    split; [|apply (lv_one _ _ _ Hs)]. destruct (lv_rows _ _ _ Hs) as [->|(-> & _)]; simpl; lia.
  - intros Hf Hst. split; [unfold budget, QUEUE_VISIBILITY_TIMEOUT, storage_timeouts, seconds in *; simpl in *; lia|].
    exists (after_lane s3_limits slow_job). split; [|split; [|split]; vm_compute; reflexivity].
    apply (lane_moves_mono _ s3_limits); [unfold within; simpl in *; lia|].
    apply after_lane_run. vm_compute. reflexivity.
Qed.

(** ** Concrete runs *)

(** A crash in the middle of a job whose limits add up to 270 seconds. *)
Definition tight_limits : Limits := mkLimits (seconds 30) (seconds 60) (seconds 60) (seconds 60).
Definition crashed_job : list LaneMove :=
  [LReceive 0; LClaim 0; LAdvance 0 (mkClock 0 0) 0; LCrash 0; LWait (seconds 300); LReceive 1; LClaim 1]
  ++ replicate 4 (LAdvance 1 (mkClock 5 5) 61).
Lemma redelivery_budget_witness :
  (length (ln_rows (after_lane tight_limits crashed_job)) ≤ 1)%nat ∧
  ∃ s, @lane_moves ToyImage.toy_image the_job s3_limits slow_job (fresh_lane 0 (upload_world Uploaded)) = Some s ∧
     ln_rows s = [60%N; 61%N].
Proof.
  split.
  - destruct (redelivery_budget tight_limits) as [Honce _]; [by vm_compute|].
    apply (Honce ltac:(by vm_compute) ToyImage.toy_image the_job crashed_job 0 (upload_world Uploaded)).
    apply after_lane_run. vm_compute. reflexivity.
  - destruct (redelivery_budget s3_limits) as [_ Htwice]; [by vm_compute|].
    destruct Htwice as (_ & s & Hs & Hrows & _); [by vm_compute..|]. exists s. exact (conj Hs Hrows).
Defined.
Example crashed_job_rows : ln_rows (after_lane tight_limits crashed_job) = [61%N].
Proof. vm_compute. reflexivity. Qed.
