(* ===== verification/Invariant.v ===== *)
(** * The invariant of the whole service

    Each component keeps its own invariant. This file shows that no other component
    breaks it: every operation that writes states which tables it writes (a frame
    rule, parametric in the invariant), and the conjunction of all invariants, with
    the referential integrity of the schema, is kept by every request to every
    endpoint and by the background jobs. *)

From S2P Require Import Prelude Effects Text Sql Keyset Domain Schema RateLimits Redis RateLimiter Social Users.
From S2P Require Import Posts Engagement Trust Invites Crypto Auth World Feed Stories Notifications Moderation.
From S2P Require Import Fingerprint Search Media MediaWorker Cleanup Http App HandlersUsers HandlersPosts.
From S2P Require Import HandlersMedia HandlersSafety HandlersStories Endpoints ClientErrors Access.
From stdpp Require Import options.

#[local] Open Scope Z_scope.

Create HintDb db_inv.

(** ** Frame rules *)

(** [I] does not depend on the table [set] writes. *)
Class Stable {T} (set : (T → T) → Db → Db) (I : Db → Prop) : Prop := stable f d : I d → I (set f d).

Ltac frame_step :=
  first
    [ progress intros
    | solve [auto with ciel nocore]
    | apply preserves_bind | apply preserves_transaction | apply preserves_map_err
    | apply preserves_best_effort | apply preserves_for_each
    | apply preserves_modifies; intros ? ?; repeat apply stable; assumption
    | progress case_match ].
Tactic Notation "frame" reference(op) := unfold op; repeat frame_step.

Section frames.
Context (I : Db → Prop).

Lemma int4_frame z : preserves I (int4 z).
Proof using Type. frame int4. Qed.
#[local] Hint Resolve int4_frame : ciel.

Section trust.
Context `{!Stable set_user_trust_scores I}.
Lemma update_trust_frame u f : preserves I (update_trust u f).
Proof using All. frame update_trust. Qed.
#[local] Hint Resolve update_trust_frame : ciel.
Lemma recalculate_tx_frame c u : preserves I (recalculate_trust_level_with_tx c u).
Proof using All. frame recalculate_trust_level_with_tx. Qed.
#[local] Hint Resolve recalculate_tx_frame : ciel.
Lemma recalculate_frame c u : preserves I (recalculate_trust_level c u).
Proof using All. frame recalculate_trust_level. Qed.
#[local] Hint Resolve recalculate_frame : ciel.
Lemma record_activity_frame c u k : preserves I (record_activity c u k).
Proof using All. frame record_activity. Qed.
Lemma add_strike_tx_frame c u : preserves I (add_strike_with_tx c u).
Proof using All. frame add_strike_with_tx. Qed.
#[local] Hint Resolve add_strike_tx_frame : ciel.
Lemma record_flag_frame c u : preserves I (record_flag c u).
Proof using All. frame record_flag. Qed.
Lemma initialize_user_frame c u : preserves I (initialize_user c u).
Proof using All. frame initialize_user. Qed.
End trust.
#[local] Hint Resolve update_trust_frame initialize_user_frame : ciel.

Section accounts.
Context `{Crypto} (cfg : AuthConfig).
Lemma insert_refresh_token_frame i r : Stable set_refresh_tokens I → preserves I (insert_refresh_token i r).
Proof using Type. intros ?. frame insert_refresh_token. Qed.
#[local] Hint Resolve insert_refresh_token_frame : ciel.
Lemma issue_tx_frame c dr u : Stable set_refresh_tokens I → preserves I (issue_token_pair_with_tx cfg c dr u).
Proof using Type. intros ?. frame issue_token_pair_with_tx. Qed.
#[local] Hint Resolve issue_tx_frame : ciel.
Lemma login_frame c dr i p : Stable set_refresh_tokens I → preserves I (Auth.login cfg c dr i p).
Proof using Type. intros ?. unfold Auth.login, issue_token_pair. repeat frame_step. Qed.
Lemma refresh_frame c dr t : Stable set_refresh_tokens I → preserves I (Auth.refresh cfg c dr t).
Proof using Type. intros ?. unfold Auth.refresh, revoke_all_tokens. repeat frame_step. Qed.
Lemma revoke_frame c t : Stable set_refresh_tokens I → preserves I (revoke_refresh_token cfg c t).
Proof using Type. intros ?. frame revoke_refresh_token. Qed.
Lemma insert_user_frame i r : Stable set_users I → preserves I (insert_user i r).
Proof using Type. intros ?. frame insert_user. Qed.
#[local] Hint Resolve insert_user_frame : ciel.
Lemma consume_frame c code u :
  Stable set_invite_codes I → Stable set_invite_relationships I → Stable set_user_trust_scores I →
  preserves I (consume_invite_with_tx c code u).
Proof using Type. intros ???. frame consume_invite_with_tx. Qed.
#[local] Hint Resolve consume_frame : ciel.
Lemma signup_frame c sa i h m n b k p code :
  Stable set_users I → Stable set_invite_codes I → Stable set_invite_relationships I →
  Stable set_user_trust_scores I → preserves I (signup c sa i h m n b k p code).
Proof using Type. intros ????. unfold signup, hash_password. repeat frame_step. Qed.
Lemma update_profile_frame i n b k : Stable set_users I → preserves I (Users.update_profile i n b k).
Proof using Type. intros ?. frame Users.update_profile. Qed.
Lemma delete_account_frame c u :
  Stable set_users I → Stable set_refresh_tokens I → Stable set_follows I → Stable set_blocks I →
  preserves I (Users.delete_account c u).
Proof using Type. intros ????. unfold Users.delete_account, revoke_all_tokens. repeat frame_step. Qed.
Lemma insert_invite_frame code r : Stable set_invite_codes I → preserves I (insert_invite code r).
Proof using Type. intros ?. frame insert_invite. Qed.
#[local] Hint Resolve insert_invite_frame : ciel.
Lemma create_invite_frame c dr u n :
  Stable set_invite_codes I → Stable set_user_trust_scores I → preserves I (Invites.create_invite c dr u n).
Proof using Type. intros ??. unfold Invites.create_invite, generate_unique_code. repeat frame_step. Qed.
Lemma create_admin_invite_frame c dr n : Stable set_invite_codes I → preserves I (create_admin_invite c dr n).
Proof using Type. intros ?. unfold create_admin_invite, generate_unique_code. repeat frame_step. Qed.
Lemma revoke_invite_frame code u : Stable set_invite_codes I → preserves I (Invites.revoke_invite code u).
Proof using Type. intros ?. frame Invites.revoke_invite. Qed.
Lemma register_frame c h u ua :
  Stable set_device_fingerprints I → preserves I (register_fingerprint c h u ua).
Proof using Type. intros ?. frame register_fingerprint. Qed.
End accounts.

Section graph.
Lemma follow_frame c a b : Stable set_follows I → preserves I (follow c a b).
Proof using Type. intros ?. frame follow. Qed.
Lemma unfollow_frame a b : Stable set_follows I → preserves I (unfollow a b).
Proof using Type. intros ?. frame unfollow. Qed.
Lemma block_frame c a b : Stable set_follows I → Stable set_blocks I → preserves I (block c a b).
Proof using Type. intros ??. frame block. Qed.
Lemma unblock_frame a b : Stable set_blocks I → preserves I (unblock a b).
Proof using Type. intros ?. frame unblock. Qed.
End graph.

Section content.
Lemma delete_post_rows_frame id :
  Stable set_posts I → Stable set_post_media I → Stable set_likes I → Stable set_comments I →
  Stable set_post_flags I → ∀ d, I d → I (delete_post_rows id d).
Proof using Type. intros ????? d Hd. unfold delete_post_rows. repeat apply stable. exact Hd. Qed.
Lemma insert_post_media_frame p m n : Stable set_post_media I → preserves I (insert_post_media p m n).
Proof using Type. intros ?. frame insert_post_media. Qed.
#[local] Hint Resolve insert_post_media_frame : ciel.
Lemma create_post_frame c i u ms cap :
  Stable set_posts I → Stable set_post_media I → preserves I (Posts.create_post c i u ms cap).
Proof using Type. intros ??. frame Posts.create_post. Qed.
Lemma update_caption_frame i u cap : Stable set_posts I → preserves I (update_caption i u cap).
Proof using Type. intros ?. frame update_caption. Qed.
Lemma delete_post_frame i u : (∀ d, I d → I (delete_post_rows i d)) → preserves I (Posts.delete_post i u).
Proof using Type. intros ?. unfold Posts.delete_post. repeat first [by apply preserves_modifies | frame_step]. Qed.
Lemma like_post_frame c i u p : Stable set_likes I → preserves I (Engagement.like_post c i u p).
Proof using Type. intros ?. frame Engagement.like_post. Qed.
Lemma unlike_post_frame u p : Stable set_likes I → preserves I (Engagement.unlike_post u p).
Proof using Type. intros ?. frame Engagement.unlike_post. Qed.
Lemma comment_post_frame c i u p b : Stable set_comments I → preserves I (Engagement.comment_post c i u p b).
Proof using Type. intros ?. frame Engagement.comment_post. Qed.
Lemma delete_comment_frame i p u : Stable set_comments I → preserves I (Engagement.delete_comment i p u).
Proof using Type. intros ?. frame Engagement.delete_comment. Qed.
Lemma insert_action_frame c i a t x r : Stable set_moderation_actions I → preserves I (insert_action c i a t x r).
Proof using Type. intros ?. frame insert_action. Qed.
#[local] Hint Resolve insert_action_frame : ciel.
Lemma flag_user_frame c i a u t r :
  Stable set_user_flags I → Stable set_moderation_actions I → preserves I (Moderation.flag_user c i a u t r).
Proof using Type. intros ??. frame Moderation.flag_user. Qed.
Lemma flag_post_frame c i a u t r :
  Stable set_post_flags I → Stable set_moderation_actions I → preserves I (Moderation.flag_post c i a u t r).
Proof using Type. intros ??. frame Moderation.flag_post. Qed.
Lemma takedown_post_frame c i a p r :
  (∀ d, I d → I (delete_post_rows p d)) → Stable set_moderation_actions I →
  preserves I (Moderation.takedown_post c i a p r).
Proof using Type.
  intros ??. unfold Moderation.takedown_post. repeat first [by apply preserves_modifies | frame_step].
Qed.
Lemma takedown_comment_frame c i a p r :
  (∀ d, I d → I (set_comments (delete p) d)) → Stable set_moderation_actions I →
  preserves I (Moderation.takedown_comment c i a p r).
Proof using Type.
  intros ??. unfold Moderation.takedown_comment. repeat first [by apply preserves_modifies | frame_step].
Qed.
Lemma mark_read_frame c i u : Stable set_notifications I → preserves I (mark_read c i u).
Proof using Type. intros ?. frame mark_read. Qed.
End content.

Section story_frames.
Lemma create_story_frame c i u m cap v : Stable set_stories I → preserves I (Stories.create_story c i u m cap v).
Proof using Type. intros ?. frame Stories.create_story. Qed.
Lemma delete_story_frame i u :
  Stable set_stories I → Stable set_story_views I → Stable set_story_reactions I →
  Stable set_story_highlight_items I → Stable set_story_highlights I → preserves I (Stories.delete_story i u).
Proof using Type. intros ?????. unfold Stories.delete_story, delete_story_rows. repeat frame_step. Qed.
Lemma mark_seen_frame c s u : Stable set_stories I → Stable set_story_views I → preserves I (mark_seen c s u).
Proof using Type. intros ??. frame mark_seen. Qed.
Lemma add_reaction_frame c i s u em :
  Stable set_stories I → Stable set_story_reactions I → preserves I (add_reaction c i s u em).
Proof using Type. intros ??. frame add_reaction. Qed.
Lemma remove_reaction_frame s u :
  Stable set_stories I → Stable set_story_reactions I → preserves I (remove_reaction s u).
Proof using Type. intros ??. frame remove_reaction. Qed.
Lemma add_to_highlight_frame c i u s n :
  Stable set_story_highlights I → Stable set_story_highlight_items I → preserves I (add_to_highlight c i u s n).
Proof using Type. intros ??. frame add_to_highlight. Qed.
End story_frames.

Section media_frames.
Lemma insert_upload_frame c i u k t b : Stable set_media_uploads I → preserves I (insert_upload c i u k t b).
Proof using Type. intros ?. frame insert_upload. Qed.
Lemma mark_uploaded_frame c i u : Stable set_media_uploads I → preserves I (mark_uploaded c i u).
Proof using Type. intros ?. frame mark_uploaded. Qed.
Lemma delete_media_row_frame i u :
  Stable set_media I → Stable set_media_uploads I → preserves I (delete_media_row i u).
Proof using Type. intros ??. frame delete_media_row. Qed.
End media_frames.
End frames.

(** ** Referential integrity *)

(** The foreign keys of posts, of stories and of uploads (those to [users] cannot
    break, since no statement deletes a user row). *)
Record post_refs (d : Db) : Prop := {
  ref_pm_post k x : post_media d !! k = Some x → has_key k.1 (posts d) = true;
  ref_pm_media k x : post_media d !! k = Some x → has_key k.2 (media d) = true;
  ref_like k l : likes d !! k = Some l → has_key (l_post_id l) (posts d) = true;
  ref_comment k c : comments d !! k = Some c → has_key (c_post_id c) (posts d) = true;
  ref_flag k f : post_flags d !! k = Some f → has_key k.2 (posts d) = true }.
Record story_refs (d : Db) : Prop := {
  ref_story_media k s : stories d !! k = Some s → has_key (s_media_id s) (media d) = true;
  ref_item_story k p : story_highlight_items d !! k = Some p → has_key k.2 (stories d) = true;
  ref_item_highlight k p : story_highlight_items d !! k = Some p → has_key k.1 (story_highlights d) = true }.
Definition upload_refs (d : Db) : Prop :=
  ∀ k u m, media_uploads d !! k = Some u → mu_processed_media_id u = Some m → has_key m (media d) = true.

(** ** The invariant *)

Record db_inv (d : Db) : Prop := {
  inv_social : social_inv d; inv_story : story_inv d; inv_trust : trust_inv d; inv_invite : invite_inv d;
  inv_device : device_inv d; inv_likes : likes_unique d; inv_audit : audited d;
  inv_post_refs : post_refs d; inv_story_refs : story_refs d; inv_upload_refs : upload_refs d }.

Ltac solve_stable :=
  let Hd := fresh "Hd" in intros ? ? Hd; first [exact Hd | destruct Hd; split; assumption].
#[local] Hint Extern 1 (Stable _ _) => solve_stable : typeclass_instances.

Lemma preserves_db_inv {E A} (m : M Db E A) :
  preserves social_inv m → preserves story_inv m → preserves trust_inv m → preserves invite_inv m →
  preserves device_inv m → preserves likes_unique m → preserves audited m → preserves post_refs m →
  preserves story_refs m → preserves upload_refs m → preserves db_inv m.
Proof. intros ?????????? d []. split; auto. Qed.

(** Discharge the components the operation does not touch. *)
Tactic Notation "by_frame" uconstr(lem) := apply preserves_db_inv; try (apply lem; apply _).

(** ** What each component does to its own tables *)

Section own.

Lemma bump_invites_ok a b p r r' : 0 ≤ p → trust_ok r → bump_invites a b p r = Ok r' → trust_ok r'.
Proof.
  intros Hp [H1 H2]. unfold bump_invites, Trust.in_range. case_match; [|done]. intros [= <-]. split; simpl; [lia|done].
Qed.
Lemma update_trust_ok u f :
  (∀ r r', trust_ok r → f r = Ok r' → trust_ok r') → preserves trust_inv (update_trust u f).
Proof.
  intros Hf d Hd. rewrite update_trust_run. repeat case_match; try done.
  apply trust_inv_put; [done|]. eapply Hf; [|done]. by eapply Hd.
Qed.
Lemma bump_invites_preserves u a b p : 0 ≤ p → preserves trust_inv (update_trust u (bump_invites a b p)).
Proof. intros. apply update_trust_ok. intros. by eapply bump_invites_ok. Qed.

Lemma consume_trust c code u : preserves trust_inv (consume_invite_with_tx c code u).
Proof.
  pose proof (λ v, bump_invites_preserves v 0 1 10 ltac:(lia)) as Hb.
  unfold consume_invite_with_tx. repeat first [apply preserves_map_err; apply Hb | frame_step].
Qed.
Lemma consume_invites c code u : preserves invite_inv (consume_invite_with_tx c code u).
Proof.
  intros d Hd. unfold consume_invite_with_tx, update_trust. run; bool_to_prop; try done.
  all: eapply invite_inv_insert; [reflexivity| |exact Hd].
  all: apply mark_used_ok; [by eapply Hd|by apply Z.ltb_lt].
Qed.
Lemma insert_invite_inv code t u x k : preserves invite_inv (insert_invite code (fresh_invite t u x k)).
Proof.
  intros d Hd. unfold insert_invite. run; try done.
  all: eapply invite_inv_insert; [reflexivity|apply fresh_invite_ok|exact Hd].
Qed.
Lemma revoke_invite_inv code u : preserves invite_inv (Invites.revoke_invite code u).
Proof.
  intros d Hd. destruct (revoke_invite_codes code u d) as [He|(x & Hx & He)].
  - unfold invite_inv. by rewrite He.
  - eapply invite_inv_insert; [exact He| |exact Hd]. by apply invalidate_ok; eapply Hd.
Qed.

(** Fewer likes and fewer reports keep the invariants about them. *)
Lemma likes_unique_shrink P d : likes_unique d → likes_unique (set_likes (delete_where P) d).
Proof.
  intros Hd i j l l' [Hi _]%lookup_delete_where [Hj _]%lookup_delete_where. by apply Hd.
Qed.
Lemma audited_shrink P d : audited d → audited (set_post_flags (delete_where P) d).
Proof.
  intros [Hu Hp]. split; [exact Hu|]. intros r p f [Hf _]%lookup_delete_where. by apply Hp.
Qed.
Lemma likes_unique_delete_post id d : likes_unique d → likes_unique (delete_post_rows id d).
Proof. intros Hd. by apply (likes_unique_shrink (λ _ l, bool_decide (l_post_id l = id))). Qed.
Lemma audited_delete_post id d : audited d → audited (delete_post_rows id d).
Proof. intros Hd. by apply (audited_shrink (λ k _, bool_decide (k.2 = id)) d). Qed.

Lemma post_refs_delete_post id d : post_refs d → post_refs (delete_post_rows id d).
Proof.
  intros [H1 H2 H3 H4 H5].
  assert (Hstay : ∀ x, has_key x (posts d) = true → x ≠ id → has_key x (delete id (posts d)) = true).
  { intros x [p Hp]%has_key_true Hne. apply has_key_true. exists p. by rewrite lookup_delete_ne. }
  split; simpl.
  - intros k x [Hk Hne%bool_decide_eq_false]%lookup_delete_where. apply Hstay; [by eapply H1|done].
  - intros k x [Hk _]%lookup_delete_where. by eapply H2.
  - intros k l [Hk Hne%bool_decide_eq_false]%lookup_delete_where. apply Hstay; [by eapply H3|done].
  - intros k c [Hk Hne%bool_decide_eq_false]%lookup_delete_where. apply Hstay; [by eapply H4|done].
  - intros k f [Hk Hne%bool_decide_eq_false]%lookup_delete_where. apply Hstay; [by eapply H5|done].
Qed.

(** Inserting a row keeps what was there. *)
Lemma post_refs_insert_post id p d : post_refs d → post_refs (set_posts (<[id := p]>) d).
Proof. intros [H1 H2 H3 H4 H5]. split; simpl; intros; try apply has_key_insert_mono; eauto. Qed.
Lemma post_refs_insert_media id m d : post_refs d → post_refs (set_media (<[id := m]>) d).
Proof. intros [H1 H2 H3 H4 H5]. split; simpl; intros; try apply has_key_insert_mono; eauto. Qed.
Lemma story_refs_insert_media id m d : story_refs d → story_refs (set_media (<[id := m]>) d).
Proof. intros [H1 H2 H3]. split; simpl; intros; try apply has_key_insert_mono; eauto. Qed.
Lemma upload_refs_insert_media id m d : upload_refs d → upload_refs (set_media (<[id := m]>) d).
Proof. intros H k u x Hk Hx. simpl. apply has_key_insert_mono. by eapply H. Qed.

Lemma insert_post_media_refs p m n : preserves post_refs (insert_post_media p m n).
Proof.
  intros d [H1 H2 H3 H4 H5]. unfold insert_post_media. run; try done. split; simpl; try done.
  all: intros k x [[<- _]|[_ Hk]]%lookup_insert_Some; eauto.
Qed.
Lemma create_post_refs c i u ms cap : preserves post_refs (Posts.create_post c i u ms cap).
Proof.
  unfold Posts.create_post. repeat first
    [ apply preserves_modifies; intros; by apply post_refs_insert_post
    | apply preserves_for_each; intros; apply preserves_map_err, insert_post_media_refs | frame_step ].
Qed.
Lemma update_caption_refs i u cap : preserves post_refs (update_caption i u cap).
Proof. intros d Hd. unfold update_caption. run; try done; by apply post_refs_insert_post. Qed.
Lemma like_post_refs c i u p : preserves post_refs (Engagement.like_post c i u p).
Proof.
  intros d [H1 H2 H3 H4 H5]. unfold Engagement.like_post. run; try done. split; simpl; try done.
  intros k l [[<- <-]|[_ Hk]]%lookup_insert_Some; eauto.
Qed.
Lemma unlike_post_refs u p : preserves post_refs (Engagement.unlike_post u p).
Proof.
  intros d [H1 H2 H3 H4 H5]. unfold Engagement.unlike_post. run. split; simpl; try done.
  intros k l [Hk _]%lookup_delete_where; eauto.
Qed.
Lemma comment_post_refs c i u p b : preserves post_refs (Engagement.comment_post c i u p b).
Proof.
  intros d [H1 H2 H3 H4 H5]. unfold Engagement.comment_post. run; try done; split; simpl; try done;
    intros k l [[<- <-]|[_ Hk]]%lookup_insert_Some; eauto.
Qed.
Lemma post_refs_delete_comment i d : post_refs d → post_refs (set_comments (delete i) d).
Proof.
  intros [H1 H2 H3 H4 H5]. split; simpl; try done. intros k l [_ Hk]%lookup_delete_Some; eauto.
Qed.
Lemma delete_comment_refs i p u : preserves post_refs (Engagement.delete_comment i p u).
Proof. intros d Hd. unfold Engagement.delete_comment. run; try done; by apply post_refs_delete_comment. Qed.
Lemma flag_post_refs c i a u p r : preserves post_refs (Moderation.flag_post c i a u p r).
Proof.
  intros d Hd. unfold Moderation.flag_post, insert_action. run; try done;
    destruct Hd as [H1 H2 H3 H4 H5]; split; simpl; try done;
    intros k f [[<- _]|[_ Hk]]%lookup_insert_Some; eauto.
Qed.

(** The stories keep their media, and the items of highlights their stories. *)
Lemma create_story_refs c i u m cap v : preserves story_refs (Stories.create_story c i u m cap v).
Proof.
  intros d [H1 H2 H3]. unfold Stories.create_story. run; try done; split; simpl; try done.
  1, 3: intros k x [[<- <-]|[_ Hk]]%lookup_insert_Some; [|by eauto]; simpl;
    apply has_key_true; by destruct (media d !! m).
  all: intros k p Hk; apply has_key_insert_mono; eauto.
Qed.
(** Changing a counter of a story. *)
Lemma story_refs_update i s s' d :
  stories d !! i = Some s → s_media_id s' = s_media_id s → story_refs d →
  story_refs (set_stories (<[i := s']>) d).
Proof.
  intros Hs Hm [H1 H2 H3]. split; simpl; [| |done].
  - intros k x [[<- <-]|[_ Hk]]%lookup_insert_Some; [|by eauto]. rewrite Hm. by eapply H1.
  - intros k p Hk. apply has_key_insert_mono. eauto.
Qed.
Lemma mark_seen_refs c i u : preserves story_refs (mark_seen c i u).
Proof.
  intros d Hd. unfold mark_seen, int4. run; try done.
  eapply (story_refs_update i); [simpl; eassumption|done|]. by destruct Hd.
Qed.
Lemma add_reaction_refs c i s u em : preserves story_refs (add_reaction c i s u em).
Proof.
  intros d Hd. unfold add_reaction, int4. run; try done; try (by destruct Hd);
    (eapply (story_refs_update s); [simpl; eassumption|done|]; by destruct Hd).
Qed.
Lemma remove_reaction_refs i u : preserves story_refs (remove_reaction i u).
Proof.
  intros d Hd. unfold remove_reaction. run; try done; try (by destruct Hd);
    (eapply (story_refs_update i); [simpl; eassumption|done|]; by destruct Hd).
Qed.
Lemma story_refs_delete P d : story_refs d → story_refs (delete_story_rows P d).
Proof.
  intros [H1 H2 H3]. unfold delete_story_rows. split; simpl.
  - intros k s [Hk _]%lookup_delete_where; eauto.
  - intros k p [Hk Hg]%lookup_delete_where. pose proof (H2 _ _ Hk) as [s Hs]%has_key_true.
    rewrite Hs in Hg. apply has_key_true. exists s. by apply lookup_delete_where.
  - intros k p [Hk _]%lookup_delete_where. apply has_key_true. rewrite lookup_update_where.
    pose proof (H3 _ _ Hk) as [h Hh]%has_key_true. rewrite Hh. simpl. eauto.
Qed.
Lemma delete_story_refs i u : preserves story_refs (Stories.delete_story i u).
Proof. intros d Hd. unfold Stories.delete_story. run; try done; by apply story_refs_delete. Qed.
Lemma story_refs_highlight h r d : story_refs d → story_refs (set_story_highlights (<[h := r]>) d).
Proof. intros [H1 H2 H3]. split; simpl; try done. intros k p Hk. apply has_key_insert_mono. eauto. Qed.
Lemma story_refs_item h s p d :
  has_key s (stories d) = true → has_key h (story_highlights d) = true → story_refs d →
  story_refs (set_story_highlight_items (<[(h, s) := p]>) d).
Proof.
  intros Hs Hh [H1 H2 H3]. split; simpl; [done|..].
  all: intros k x [[<- _]|[_ Hk]]%lookup_insert_Some; eauto.
Qed.
Lemma add_to_highlight_refs c i u s n : preserves story_refs (add_to_highlight c i u s n).
Proof.
  intros d Hd. unfold add_to_highlight, int4. run; try done; try by apply story_refs_highlight.
  all: apply story_refs_item; [|apply has_key_insert_eq|by apply story_refs_highlight].
  all: match goal with Ho : s_user_id <$> _ = Some _ |- _ => apply fmap_Some in Ho as (x & Hx & _) end.
  all: apply has_key_true; by exists x.
Qed.

(** Media rows: deleting one needs that nothing shows it. *)
Lemma delete_media_row_posts i u : preserves post_refs (delete_media_row i u).
Proof.
  intros d [H1 H2 H3 H4 H5]. unfold delete_media_row. run; bool_to_prop; try done. split; simpl; try done.
  intros k x Hk. pose proof (H2 _ _ Hk) as [y Hy]%has_key_true. apply has_key_true. exists y.
  rewrite lookup_delete_ne; [done|]. intros Hi.
  match goal with Hn : exists_where _ (post_media d) = false |- _ =>
    rewrite exists_where_false in Hn; specialize (Hn _ _ Hk) end.
  bool_to_prop. congruence.
Qed.
Lemma delete_media_row_stories i u : preserves story_refs (delete_media_row i u).
Proof.
  intros d [H1 H2 H3]. unfold delete_media_row. run; bool_to_prop; try done. split; simpl; try done.
  intros k s Hk. pose proof (H1 _ _ Hk) as [y Hy]%has_key_true. apply has_key_true. exists y.
  rewrite lookup_delete_ne; [done|]. intros Hi.
  match goal with Hn : exists_where _ (stories d) = false |- _ =>
    rewrite exists_where_false in Hn; specialize (Hn _ _ Hk) end.
  bool_to_prop. congruence.
Qed.
Lemma delete_media_row_uploads i u : preserves upload_refs (delete_media_row i u).
Proof.
  intros d Hd. unfold delete_media_row. run; bool_to_prop; try done. intros k x y. simpl.
  rewrite lookup_update_where. destruct (media_uploads d !! k) as [z|] eqn:Hk; simpl; [|done].
  intros [= <-]. case_bool_decide as Hz; simpl; [done|]. intros Hy.
  pose proof (Hd _ _ _ Hk Hy) as [v Hv]%has_key_true. apply has_key_true. exists v.
  rewrite lookup_delete_ne; congruence.
Qed.
Lemma insert_upload_refs c i u k t b : preserves upload_refs (insert_upload c i u k t b).
Proof.
  intros d Hd. unfold insert_upload. run; try done.
  intros x y z. simpl. intros [[<- <-]|[_ Hx]]%lookup_insert_Some; [done|]. by eapply Hd.
Qed.
Lemma mark_uploaded_refs c i u : preserves upload_refs (mark_uploaded c i u).
Proof.
  intros d Hd. unfold mark_uploaded. run; try done;
    intros x y z; simpl; intros [[<- <-]|[_ Hx]]%lookup_insert_Some; simpl; by eapply Hd.
Qed.
End own.

(** ** Every write keeps the whole invariant *)

Section writes.
Context `{Libs} (cfg : AuthConfig).

Lemma record_activity_inv c u k : preserves db_inv (record_activity c u k).
Proof using Type. by_frame record_activity_frame. apply record_activity_preserves. Qed.
Lemma record_flag_inv c u : preserves db_inv (record_flag c u).
Proof using Type. by_frame record_flag_frame. apply record_flag_preserves. Qed.
Lemma login_inv c dr i p : preserves db_inv (Auth.login cfg c dr i p).
Proof using Type. by_frame login_frame. Qed.
Lemma refresh_inv c dr t : preserves db_inv (Auth.refresh cfg c dr t).
Proof using Type. by_frame refresh_frame. Qed.
Lemma revoke_inv c t : preserves db_inv (revoke_refresh_token cfg c t).
Proof using Type. by_frame revoke_frame. Qed.
Lemma signup_inv c sa i h m n b k p code : preserves db_inv (signup c sa i h m n b k p code).
Proof using Type.
  by_frame signup_frame; unfold signup, hash_password, insert_user.
  - repeat first [apply preserves_map_err, consume_trust | apply preserves_map_err, initialize_user_preserves
      | apply preserves_modifies; intros; assumption | frame_step].
  - repeat first [apply preserves_map_err, consume_invites | apply preserves_map_err, initialize_user_frame; apply _
      | apply preserves_modifies; intros; assumption | frame_step].
Qed.
Lemma update_profile_inv i n b k : preserves db_inv (Users.update_profile i n b k).
Proof using Type. by_frame update_profile_frame. Qed.
Lemma delete_account_inv c u : preserves db_inv (Users.delete_account c u).
Proof using Type. by_frame delete_account_frame. apply delete_account_preserves. Qed.
Lemma create_invite_inv c dr u n : preserves db_inv (Invites.create_invite c dr u n).
Proof using Type.
  pose proof (λ v, bump_invites_preserves v 1 0 0 ltac:(lia)) as Hb.
  by_frame create_invite_frame; unfold Invites.create_invite, generate_unique_code.
  - repeat first [apply preserves_map_err; apply Hb | apply preserves_map_err, insert_invite_frame; apply _ | frame_step].
  - repeat first [apply preserves_map_err, insert_invite_inv | apply preserves_map_err, update_trust_frame; apply _ | frame_step].
Qed.
Lemma create_admin_invite_inv c dr n : preserves db_inv (create_admin_invite c dr n).
Proof using Type.
  by_frame create_admin_invite_frame. unfold create_admin_invite, generate_unique_code.
  repeat first [apply preserves_map_err, insert_invite_inv | frame_step].
Qed.
Lemma revoke_invite_db_inv code u : preserves db_inv (Invites.revoke_invite code u).
Proof using Type. by_frame revoke_invite_frame. apply revoke_invite_inv. Qed.
Lemma register_db_inv c h u ua : preserves db_inv (register_fingerprint c h u ua).
Proof using Type. by_frame register_frame. apply register_inv. Qed.

Lemma follow_inv c a b : preserves db_inv (follow c a b).
Proof using Type. by_frame follow_frame. apply follow_preserves. Qed.
Lemma unfollow_inv a b : preserves db_inv (unfollow a b).
Proof using Type. by_frame unfollow_frame. apply unfollow_preserves. Qed.
Lemma block_inv c a b : preserves db_inv (block c a b).
Proof using Type. by_frame block_frame. apply block_preserves. Qed.
Lemma unblock_inv a b : preserves db_inv (unblock a b).
Proof using Type. by_frame unblock_frame. apply unblock_preserves. Qed.

Lemma create_post_inv c i u ms cap : preserves db_inv (Posts.create_post c i u ms cap).
Proof using Type. by_frame create_post_frame. apply create_post_refs. Qed.
Lemma update_caption_inv i u cap : preserves db_inv (update_caption i u cap).
Proof using Type. by_frame update_caption_frame. apply update_caption_refs. Qed.

(** Deleting a post with its cascades. *)
Lemma delete_post_rows_inv id d : db_inv d → db_inv (delete_post_rows id d).
Proof using Type.
  intros []. split; try (apply delete_post_rows_frame; first [apply _ | assumption]).
  - by apply likes_unique_delete_post.
  - by apply audited_delete_post.
  - by apply post_refs_delete_post.
Qed.
Lemma delete_post_inv i u : preserves db_inv (Posts.delete_post i u).
Proof using Type. apply delete_post_frame. apply delete_post_rows_inv. Qed.
Lemma like_post_inv c i u p : preserves db_inv (Engagement.like_post c i u p).
Proof using Type. by_frame like_post_frame; [apply like_post_unique|apply like_post_refs]. Qed.
Lemma unlike_post_inv u p : preserves db_inv (Engagement.unlike_post u p).
Proof using Type. by_frame unlike_post_frame; [apply unlike_post_unique|apply unlike_post_refs]. Qed.
Lemma comment_post_inv c i u p b : preserves db_inv (Engagement.comment_post c i u p b).
Proof using Type. by_frame comment_post_frame. apply comment_post_refs. Qed.
Lemma delete_comment_inv i p u : preserves db_inv (Engagement.delete_comment i p u).
Proof using Type. by_frame delete_comment_frame. apply delete_comment_refs. Qed.
Lemma mark_read_inv c i u : preserves db_inv (mark_read c i u).
Proof using Type. by_frame mark_read_frame. Qed.

Lemma mod_audited {A} (m : M Db DbError A) c op :
  (∀ d, snd (m d) = snd (mod_step c op d)) → preserves audited m.
Proof using Type. intros Hm d Hd. rewrite Hm. by apply mod_step_audited. Qed.
Lemma flag_user_inv c i a u t r : preserves db_inv (Moderation.flag_user c i a u t r).
Proof using Type.
  by_frame flag_user_frame. apply (mod_audited _ c (Moderation.FlagUser i a u t r)). intros d. simpl.
  by destruct (Moderation.flag_user c i a u t r d).
Qed.
Lemma flag_post_inv c i a u t r : preserves db_inv (Moderation.flag_post c i a u t r).
Proof using Type.
  by_frame flag_post_frame; [|apply flag_post_refs].
  apply (mod_audited _ c (Moderation.FlagPost i a u t r)). intros d. simpl.
  by destruct (Moderation.flag_post c i a u t r d).
Qed.
Lemma takedown_post_inv c i a p r : preserves db_inv (Moderation.takedown_post c i a p r).
Proof using Type.
  assert (∀ J : Db → Prop, (∀ d, J d → J (delete_post_rows p d)) → Stable set_moderation_actions J →
            preserves J (Moderation.takedown_post c i a p r)) as Hf by (intros; by apply takedown_post_frame).
  apply preserves_db_inv; try (apply Hf; [apply delete_post_rows_frame; apply _ | apply _]).
  - apply Hf; [apply likes_unique_delete_post | apply _].
  - apply (mod_audited _ c (Moderation.TakedownPost i a p r)). intros d. simpl.
    by destruct (Moderation.takedown_post c i a p r d).
  - apply Hf; [apply post_refs_delete_post | apply _].
Qed.
Lemma takedown_comment_inv c i a p r : preserves db_inv (Moderation.takedown_comment c i a p r).
Proof using Type.
  apply preserves_db_inv; try (apply takedown_comment_frame; [intros ?; apply stable | apply _]).
  - apply (mod_audited _ c (Moderation.TakedownComment i a p r)). intros d. simpl.
    by destruct (Moderation.takedown_comment c i a p r d).
  - apply takedown_comment_frame; [apply post_refs_delete_comment | apply _].
Qed.

Lemma create_story_inv c i u m cap v : preserves db_inv (Stories.create_story c i u m cap v).
Proof using Type.
  by_frame create_story_frame; [|apply create_story_refs]. intros d. apply story_step_inv, step_create.
Qed.
Lemma delete_story_inv i u : preserves db_inv (Stories.delete_story i u).
Proof using Type.
  by_frame delete_story_frame; [|apply delete_story_refs]. intros d. apply story_step_inv, step_delete.
Qed.
Lemma mark_seen_inv c i u : preserves db_inv (mark_seen c i u).
Proof using Type.
  by_frame mark_seen_frame; [|apply mark_seen_refs]. intros d. apply story_step_inv, step_seen.
Qed.
Lemma add_reaction_inv c i s u em : preserves db_inv (add_reaction c i s u em).
Proof using Type.
  by_frame add_reaction_frame; [|apply add_reaction_refs]. intros d. apply story_step_inv, step_react.
Qed.
Lemma remove_reaction_inv i u : preserves db_inv (remove_reaction i u).
Proof using Type.
  by_frame remove_reaction_frame; [|apply remove_reaction_refs]. intros d. apply story_step_inv, step_unreact.
Qed.
Lemma add_to_highlight_inv c i u s n : preserves db_inv (add_to_highlight c i u s n).
Proof using Type. by_frame add_to_highlight_frame. apply add_to_highlight_refs. Qed.

Lemma insert_upload_inv c i u k t b : preserves db_inv (insert_upload c i u k t b).
Proof using Type. by_frame insert_upload_frame. apply insert_upload_refs. Qed.
Lemma mark_uploaded_inv c i u : preserves db_inv (mark_uploaded c i u).
Proof using Type. by_frame mark_uploaded_frame. apply mark_uploaded_refs. Qed.
Lemma delete_media_row_inv i u : preserves db_inv (delete_media_row i u).
Proof using Type.
  by_frame delete_media_row_frame.
  - apply delete_media_row_posts.
  - apply delete_media_row_stories.
  - apply delete_media_row_uploads.
Qed.
End writes.

(** What an invariant of the database has to show to be kept by every request: the
    operations that write, one by one. *)
Class Kept `{Libs} (cfg : AuthConfig) (I : Db → Prop) : Prop := {
  kept_record_activity c u k : preserves I (record_activity c u k);
  kept_record_flag c u : preserves I (record_flag c u);
  kept_login c dr i p : preserves I (Auth.login cfg c dr i p);
  kept_refresh c dr t : preserves I (Auth.refresh cfg c dr t);
  kept_revoke c t : preserves I (revoke_refresh_token cfg c t);
  kept_signup c sa i h m n b k p code : preserves I (signup c sa i h m n b k p code);
  kept_update_profile i n b k : preserves I (Users.update_profile i n b k);
  kept_delete_account c u : preserves I (Users.delete_account c u);
  kept_create_invite c dr u n : preserves I (Invites.create_invite c dr u n);
  kept_create_admin_invite c dr n : preserves I (create_admin_invite c dr n);
  kept_revoke_invite code u : preserves I (Invites.revoke_invite code u);
  kept_register c h u ua : preserves I (register_fingerprint c h u ua);
  kept_follow c a b : preserves I (follow c a b);
  kept_unfollow a b : preserves I (unfollow a b);
  kept_block c a b : preserves I (block c a b);
  kept_unblock a b : preserves I (unblock a b);
  kept_create_post c i u ms cap : preserves I (Posts.create_post c i u ms cap);
  kept_update_caption i u cap : preserves I (update_caption i u cap);
  kept_delete_post i u : preserves I (Posts.delete_post i u);
  kept_like_post c i u p : preserves I (Engagement.like_post c i u p);
  kept_unlike_post u p : preserves I (Engagement.unlike_post u p);
  kept_comment_post c i u p b : preserves I (Engagement.comment_post c i u p b);
  kept_delete_comment i p u : preserves I (Engagement.delete_comment i p u);
  kept_mark_read c i u : preserves I (mark_read c i u);
  kept_flag_user c i a u t r : preserves I (Moderation.flag_user c i a u t r);
  kept_flag_post c i a u t r : preserves I (Moderation.flag_post c i a u t r);
  kept_takedown_post c i a p r : preserves I (Moderation.takedown_post c i a p r);
  kept_takedown_comment c i a p r : preserves I (Moderation.takedown_comment c i a p r);
  kept_create_story c i u m cap v : preserves I (Stories.create_story c i u m cap v);
  kept_delete_story i u : preserves I (Stories.delete_story i u);
  kept_mark_seen c i u : preserves I (mark_seen c i u);
  kept_add_reaction c i s u em : preserves I (add_reaction c i s u em);
  kept_remove_reaction i u : preserves I (remove_reaction i u);
  kept_add_to_highlight c i u s n : preserves I (add_to_highlight c i u s n);
  kept_insert_upload c i u k t b : preserves I (insert_upload c i u k t b);
  kept_mark_uploaded c i u : preserves I (mark_uploaded c i u);
  kept_delete_media_row i u : preserves I (delete_media_row i u) }.
Ltac kept := first
  [ apply kept_record_activity | apply kept_record_flag | apply kept_login | apply kept_refresh
  | apply kept_revoke | apply kept_signup | apply kept_update_profile | apply kept_delete_account
  | apply kept_create_invite | apply kept_create_admin_invite | apply kept_revoke_invite
  | apply kept_register | apply kept_follow | apply kept_unfollow | apply kept_block
  | apply kept_unblock | apply kept_create_post | apply kept_update_caption | apply kept_delete_post
  | apply kept_like_post | apply kept_unlike_post | apply kept_comment_post | apply kept_delete_comment
  | apply kept_mark_read | apply kept_flag_user | apply kept_flag_post | apply kept_takedown_post
  | apply kept_takedown_comment | apply kept_create_story | apply kept_delete_story
  | apply kept_mark_seen | apply kept_add_reaction | apply kept_remove_reaction
  | apply kept_add_to_highlight | apply kept_insert_upload | apply kept_mark_uploaded
  | apply kept_delete_media_row ].
Global Instance db_inv_kept `{Libs} cfg : Kept cfg db_inv.
Proof.
  split; auto using record_activity_inv, record_flag_inv, login_inv, refresh_inv, revoke_inv, signup_inv,
    update_profile_inv, delete_account_inv, create_invite_inv, create_admin_invite_inv, revoke_invite_db_inv,
    register_db_inv, follow_inv, unfollow_inv, block_inv, unblock_inv, create_post_inv, update_caption_inv,
    delete_post_inv, like_post_inv, unlike_post_inv, comment_post_inv, delete_comment_inv, mark_read_inv,
    flag_user_inv, flag_post_inv, takedown_post_inv, takedown_comment_inv, create_story_inv, delete_story_inv,
    mark_seen_inv, add_reaction_inv, remove_reaction_inv, add_to_highlight_inv, insert_upload_inv,
    mark_uploaded_inv, delete_media_row_inv.
Qed.

(** ** Every request keeps the invariant *)

(** The database is consistent, and the channel holds no more than its capacity. *)
Definition app_inv (st : AppState) (a : App) : Prop :=
  db_inv (w_db (app_world a)) ∧ (length (notification_queue a) ≤ notification_capacity st)%nat.

Section requests.
Context `{Libs} (st : AppState) (e : Env) (rq : Request).
Context (I : Db → Prop) `{HI : !Kept (auth_config st) I} (n : nat).

(** The same for any such invariant, with a channel that may hold [n] jobs already. *)
Definition app_holds (a : App) : Prop :=
  I (w_db (app_world a)) ∧ (length (notification_queue a) ≤ Nat.max n (notification_capacity st))%nat.
#[local] Hint Extern 1 (preserves I _) => kept : db_inv.

Lemma world_call_inv {E A} (m : M World E A) :
  preserves (λ w, I (w_db w)) m → preserves app_holds (on_world m).
Proof using Type.
  intros Hm a [Hd Hq]. unfold on_world. specialize (Hm (app_world a) Hd). by destruct (m (app_world a)).
Qed.
Lemma on_db_inv {E A} (m : M Db E A) : preserves I m → preserves (λ w, I (w_db w)) (on_db m).
Proof using Type.
  intros Hm w Hw. unfold on_db. specialize (Hm (w_db w) Hw). by destruct (m (w_db w)).
Qed.
Lemma db_call_inv {E A} (m : M Db E A) : preserves I m → preserves app_holds (db m).
Proof using Type. intros Hm. by apply world_call_inv, on_db_inv. Qed.
Lemma stored_inv {E A} (m : M World E A) : keeps stored m → preserves app_holds (on_world m).
Proof using Type.
  intros Hm. apply world_call_inv. intros w Hw.
  specialize (Hm w). unfold stored in Hm. injection Hm as -> _ _. exact Hw.
Qed.
Lemma try_send_inv job : preserves app_holds (try_send st job).
Proof using Type.
  apply preserves_modifies. intros a [Hd Hq]. case_match eqn:Hc; [|done]. split; [exact Hd|].
  apply andb_true_iff in Hc as [_ Hc%Nat.ltb_lt]. simpl. rewrite length_app. simpl. lia.
Qed.
Lemma try_inv {S E E' A} (J : S → Prop) (m : M S E A) : preserves J m → preserves (E := E') J (try_ m).
Proof using Type. intros Hm s Hs. unfold try_. specialize (Hm s Hs). by destruct (m s). Qed.

Lemma invalidate_viewer_inv u : preserves app_holds (invalidate_viewer_feeds e u).
Proof using Type.
  apply preserves_bind; [|intros _]; [apply preserves_best_effort|]; apply stored_inv; auto with caching.
Qed.
Lemma invalidate_followers_inv u h s : preserves app_holds (invalidate_followers_feeds e u h s).
Proof using Type.
  apply preserves_bind; [apply try_inv, preserves_read_only; solve_reads|].
  intros [ids|]; [|auto with ciel]. apply preserves_bind; [|intros; apply invalidate_viewer_inv].
  apply preserves_for_each. intros i. apply preserves_bind.
  - destruct h; [apply preserves_best_effort, stored_inv|]; auto with caching ciel.
  - intros _. destruct s; [apply stored_inv|]; auto with caching ciel.
Qed.

Lemma create_upload_inv c i u t b x : preserves app_holds (on_world (Media.create_upload c i u t b x)).
Proof using HI.
  apply world_call_inv. unfold Media.create_upload. cbv zeta.
  repeat first [apply preserves_map_err, on_db_inv; auto with db_inv | frame_step].
Qed.
Lemma complete_upload_inv c i u : preserves app_holds (on_world (Media.complete_upload c i u)).
Proof using HI.
  apply world_call_inv. unfold Media.complete_upload.
  repeat first [apply preserves_map_err, on_db_inv; auto with db_inv
    | apply preserves_modifies; intros; assumption
    | unfold enqueue_processing, enqueue_media_job; frame_step | frame_step].
Qed.
Lemma delete_media_inv i u : preserves app_holds (on_world (Media.delete_media i u)).
Proof using HI.
  apply world_call_inv. unfold Media.delete_media.
  repeat first [apply preserves_map_err, on_db_inv; auto with db_inv
    | apply preserves_modifies; intros; assumption
    | apply preserves_best_effort; intros w Hw; unfold on_redis; by destruct (redis_del _ _)
    | unfold delete_object; frame_step | frame_step].
Qed.

Ltac inv_step :=
  lazymatch goal with
  | |- ∀ _, _ => intros ?
  | |- preserves _ (_ ≫= _) => apply preserves_bind
  | |- preserves _ (map_err _ (db _)) =>
      apply preserves_map_err, db_call_inv;
      first [solve [auto with db_inv nocore] | apply preserves_read_only; solve [auto with reads nocore]]
  | |- preserves _ (best_effort _) => apply preserves_best_effort
  | |- preserves _ (try_ _) => apply try_inv
  | |- preserves _ (db _) =>
      apply db_call_inv;
      first [solve [auto with db_inv nocore] | apply preserves_read_only; solve [auto with reads nocore]]
  | |- preserves _ (on_world _) =>
      first [ apply stored_inv; solve [auto with caching nocore]
            | apply create_upload_inv | apply complete_upload_inv | apply delete_media_inv
            | apply preserves_read_only; solve [auto with reads nocore] ]
  | |- preserves _ (map_err _ _) => apply preserves_map_err
  | |- preserves _ (try_send _ _) => apply try_send_inv
  | |- preserves _ (invalidate_viewer_feeds _ _) => apply invalidate_viewer_inv
  | |- preserves _ (invalidate_followers_feeds _ _ _ _) => apply invalidate_followers_inv
  | |- preserves _ (match _ with _ => _ end) => case_match
  | |- _ => first [solve [auto with ciel nocore] | apply preserves_read_only; solve [auto with reads nocore]]
  end.

(** Whatever the endpoint, its inputs, the credentials and the clocks. *)
Lemma serve_holds ep : preserves app_holds (serve st e rq ep).
Proof using HI. destruct ep; unfold_handlers; repeat inv_step. Qed.
End requests.
Lemma serve_inv `{Libs} st e rq ep : preserves (app_inv st) (serve st e rq ep).
Proof. exact (serve_holds st e rq db_inv 0 ep). Qed.
