(* ===== verification/System.v ===== *)
(** * The service as a whole

    The processes of [src/main.rs] around one set of stores: the HTTP server, the
    notification worker on the other end of the in-process channel, the cleanup loop
    and the media worker (queue loop or serverless container). [service_step] is one
    move of one of them, or a store going down or up; [service_run] is any
    interleaving. *)

From S2P Require Import Prelude Effects Text Sql Keyset Domain Schema RateLimits Redis RateLimiter Social Users.
From S2P Require Import Posts Engagement Trust Invites Crypto Auth World Feed Stories Notifications Moderation.
From S2P Require Import Fingerprint Search Media MediaWorker Cleanup Http App HandlersUsers HandlersPosts.
From S2P Require Import HandlersMedia HandlersSafety HandlersStories Endpoints ClientErrors Access Middleware.
From S2P Require Import Routes Invariant.
From stdpp Require Import options.

#[local] Open Scope Z_scope.
#[local] Hint Extern 1 (Stable _ _) => solve_stable : typeclass_instances.

(** ** The processes *)

(** The stores with the channel, and the cleanup loop's [backoff_secs]. *)
Record System := mkSystem { sy_app : App; sy_backoff : Z }.

Inductive Move `{IpLib} :=
| Arrive (le : LayerEnv) (e : Env) (i : Incoming) (ep : Endpoint)   (* a request the router matches with [ep] *)
| TakeJob (c : Clock) (new_id : Uuid)            (* the notification worker receives *)
| StopWorker                                     (* its receiver is dropped *)
| CleanRound (c : Clock) (h : Cleanup.Health)
| Deliver (c : Clock) (new_id : Uuid) (job : MediaJob)      (* the queue loop got a message *)
| Invoke (c : Clock) (new_id : Uuid) (job : MediaJob)       (* the trigger calls the container *)
| Outage (queue_up storage_up redis_up : bool).

Definition set_receiver (alive : bool) (a : App) : App := mkApp (app_world a) (notification_queue a) alive.

(** One turn of [run_notification_worker]: the oldest job leaves the channel. *)
Definition take_job (c : Clock) (new_id : Uuid) (a : App) : App :=
  match notification_queue a with
  | job :: rest =>
      snd (best_effort (E' := AppError) (db (Notifications.process_job c new_id job))
             (set_notification_queue rest a))
  | [] => a
  end.

Definition outage (queue_up storage_up redis_up : bool) (w : World) : World :=
  mkWorld (w_db w) (mkRedis redis_up (store (w_redis w))) (w_queue w) queue_up (w_objects w) storage_up.

Section service.
Context `{Libs} `{IpLib} `{ImageLib} (st : AppState) (cidrs : list IpNet) (render : Reply → Json).

Definition service_step (s : System) (m : Move) : System :=
  let a := sy_app s in
  match m with
  | Arrive le e i ep => mkSystem (snd (routed st cidrs render le e ep i a)) (sy_backoff s)
  | TakeJob c new_id => mkSystem (take_job c new_id a) (sy_backoff s)
  | StopWorker => mkSystem (set_receiver false a) (sy_backoff s)
  | CleanRound c h =>
      let '(backoff, w) := cleanup_round c h (sy_backoff s) (app_world a) in
      mkSystem (set_app_world w a) backoff
  | Deliver c new_id job => mkSystem (snd (on_world (handle_message c new_id job) a)) (sy_backoff s)
  | Invoke c new_id job => mkSystem (snd (on_world (handle_media_job c new_id job) a)) (sy_backoff s)
  | Outage q o r => mkSystem (set_app_world (outage q o r (app_world a)) a) (sy_backoff s)
  end.

Definition service_run (moves : list Move) (s : System) : System := foldl service_step s moves.
End service.

(** ** The background jobs and the tables they write *)

Section jobs.

Lemma notify_frame (I : Db → Prop) c n job :
  Stable set_notifications I → preserves I (Notifications.process_job c n job).
Proof. intros ?. unfold Notifications.process_job, create_if_not_self, create. repeat frame_step. Qed.
Lemma claim_frame (I : Db → Prop) job : Stable set_media_uploads I → preserves I (claim job).
Proof. intros ?. frame claim. Qed.
Lemma mark_failed_frame (I : Db → Prop) job : Stable set_media_uploads I → preserves I (mark_failed job).
Proof. intros ?. frame mark_failed. Qed.
Lemma finish_frame (I : Db → Prop) c i job cl tk mk x y :
  Stable set_media I → Stable set_media_uploads I → preserves I (finish c i job cl tk mk x y).
Proof. intros ??. frame finish. Qed.

Lemma notify_inv c n job : preserves db_inv (Notifications.process_job c n job).
Proof. by_frame notify_frame. Qed.

Lemma claim_refs job : preserves upload_refs (claim job).
Proof.
  intros d Hd. unfold claim. run; try done.
  intros x y z. simpl. intros [[<- <-]|[_ Hx]]%lookup_insert_Some; simpl; by eapply Hd.
Qed.
Lemma claim_inv job : preserves db_inv (claim job).
Proof. by_frame claim_frame. apply claim_refs. Qed.
Lemma mark_failed_refs job : preserves upload_refs (mark_failed job).
Proof.
  intros d Hd x y z. simpl. rewrite lookup_update_where.
  destruct (media_uploads d !! x) as [u|] eqn:Hu; simpl; [|done]. intros [= <-].
  case_match; simpl; by eapply Hd.
Qed.
Lemma mark_failed_inv job : preserves db_inv (mark_failed job).
Proof. by_frame mark_failed_frame. apply mark_failed_refs. Qed.

Lemma finish_posts c i job cl tk mk x y : preserves post_refs (finish c i job cl tk mk x y).
Proof. intros d Hd. unfold finish. run; try done. by apply stable, post_refs_insert_media. Qed.
Lemma finish_stories c i job cl tk mk x y : preserves story_refs (finish c i job cl tk mk x y).
Proof. intros d Hd. unfold finish. run; try done. by apply stable, story_refs_insert_media. Qed.
Lemma finish_uploads c i job cl tk mk x y : preserves upload_refs (finish c i job cl tk mk x y).
Proof.
  intros d Hd. unfold finish. run; try done. intros k u m. simpl. rewrite lookup_update_where.
  destruct (media_uploads d !! k) as [v|] eqn:Hv; simpl; [|done]. intros [= <-]. case_match; simpl.
  - intros [= <-]. apply has_key_insert_eq.
  - intros Hm. apply has_key_insert_mono. by eapply Hd.
Qed.
Lemma finish_inv c i job cl tk mk x y : preserves db_inv (finish c i job cl tk mk x y).
Proof.
  by_frame finish_frame; [apply finish_posts | apply finish_stories | apply finish_uploads].
Qed.

(** The cleanup round works on four groups of tables. *)
Lemma expired_stories_inv c d : db_inv d → db_inv (delete_expired_stories c d).
Proof.
  intros []. split; try (unfold delete_expired_stories, delete_story_rows; repeat apply stable; assumption).
  - by apply story_inv_delete.
  - by apply story_refs_delete.
Qed.
Lemma expired_invites_inv c d : db_inv d → db_inv (cleanup_expired_invites c d).
Proof.
  intros []. split; try (unfold cleanup_expired_invites; apply stable; assumption).
  by apply invite_inv_cleanup.
Qed.
Lemma ages_inv c d : db_inv d → db_inv (update_account_ages c d).
Proof.
  intros []. split; try (unfold update_account_ages; apply stable; assumption).
  by apply trust_inv_ages.
Qed.
End jobs.

(** What an invariant of the database has to show to be kept by the background jobs. *)
Class KeptByJobs (I : Db → Prop) : Prop := {
  kept_notify c n job : preserves I (Notifications.process_job c n job);
  kept_claim job : preserves I (claim job);
  kept_mark_failed job : preserves I (mark_failed job);
  kept_finish c i job cl tk mk x y : preserves I (finish c i job cl tk mk x y);
  kept_stories c d : I d → I (delete_expired_stories c d);
  kept_invites c d : I d → I (cleanup_expired_invites c d);
  kept_ages c d : I d → I (update_account_ages c d) }.
Global Instance db_inv_kept_by_jobs : KeptByJobs db_inv.
Proof.
  split; auto using notify_inv, claim_inv, mark_failed_inv, finish_inv, expired_stories_inv, expired_invites_inv, ages_inv.
Qed.

(** ** The invariant *)

Section invariant.
Context `{Libs} `{IpLib} `{ImageLib} (st : AppState) (cidrs : list IpNet) (render : Reply → Json).
Context (I : Db → Prop) `{HI : !Kept (auth_config st) I} `{HJ : !KeptByJobs I} (n : nat).
Notation world_inv := (λ w, I (w_db w)).
Notation app_holds := (app_holds st I n).

Lemma round_inv c h b w : I (w_db w) → I (w_db (snd (cleanup_round c h b w))).
Proof using HJ.
  intros Hw. destruct (stories_ok h) eqn:Hok; [|unfold cleanup_round; by rewrite Hok].
  rewrite cleanup_round_db by done. unfold round_db.
  apply (kept_stories c) in Hw. destruct (invites_ok h).
  - apply (kept_invites c) in Hw. destruct (ages_ok h); [by apply kept_ages|done].
  - destruct (ages_ok h); [by apply kept_ages|done].
Qed.

Lemma process_media_inv c i job : preserves world_inv (MediaWorker.process_job c i job).
Proof using HI HJ.
  pose proof kept_claim. pose proof kept_finish.
  unfold MediaWorker.process_job, fetch_and_render, get_object, upload_variant.
  repeat first [ apply preserves_map_err, on_db_inv; solve [auto]
               | apply preserves_modifies; intros; assumption | frame_step ].
Qed.
Lemma fail_media_inv job : preserves world_inv (best_effort (E' := WorkerError) (on_db (mark_failed job))).
Proof using HI HJ. apply preserves_best_effort, on_db_inv, kept_mark_failed. Qed.
Lemma handle_message_inv c i job : preserves world_inv (handle_message c i job).
Proof using HI HJ.
  unfold handle_message, delete_message.
  repeat first [ apply try_inv, process_media_inv | apply fail_media_inv
               | apply preserves_modifies; intros ? ?; case_match; assumption | frame_step ].
Qed.
Lemma handle_media_job_inv c i job : preserves world_inv (handle_media_job c i job).
Proof using HI HJ.
  unfold handle_media_job.
  repeat first [apply try_inv, process_media_inv | apply fail_media_inv | frame_step].
Qed.

Lemma take_job_inv c i a : app_holds a → app_holds (take_job c i a).
Proof using HI HJ.
  intros [Hd Hq]. unfold take_job. destruct (notification_queue a) as [|job rest] eqn:Hn.
  { split; [done|]. by rewrite Hn. }
  apply preserves_best_effort; [apply db_call_inv, kept_notify|]. split; [done|]. simpl in *. lia.
Qed.

(** The layers change nothing but counters in Redis. *)
Definition service_keeps (sv : Service) : Prop := ∀ i a, app_holds a → app_holds (snd (sv i a)).
Lemma redis_call_inv {E A} (m : M Redis E A) : preserves app_holds (on_world (on_redis m)).
Proof using HI HJ. apply stored_inv, keeps_redis. Qed.
Lemma ban_keeps c sv : service_keeps sv → service_keeps (ban_check_middleware (auth_config st) c sv).
Proof using HI HJ.
  intros Hs i a Ha. unfold ban_check_middleware. destruct (optional_auth _ _ _ _) as [[u|] i']; [|by apply Hs].
  destruct (is_banned c u _) as [[[]|] ?]; [done|by apply Hs|done].
Qed.
Lemma user_limit_keeps c t sv : service_keeps sv → service_keeps (rate_limit_middleware (auth_config st) c t sv).
Proof using HI HJ.
  intros Hs i a Ha. unfold rate_limit_middleware. destruct (optional_auth _ _ _ _) as [[u|] i'].
  2:{ case_match; by apply Hs. }
  destruct (rate_limit_action _ _) as [action|]; [|by apply Hs].
  destruct (Trust.get_trust_score u _) as [[score|] ?]; [|done].
  match goal with |- context [on_world (on_redis ?m) a] => pose proof (redis_call_inv m a Ha) as Hr;
    destruct (on_world (on_redis m) a) as [[info|] a'] end; [|done].
  destruct (limited info); [done|]. specialize (Hs i' a' Hr). by destruct (sv i' a').
Qed.
Lemma address_limit_keeps lim c t sv : service_keeps sv → service_keeps (ip_rate_limit_middleware lim c t sv).
Proof using HI HJ.
  intros Hs i a Ha. unfold ip_rate_limit_middleware.
  destruct (ip_rate_limit_config _ _ _) as [[[action quota] w]|]; [|by apply Hs].
  match goal with |- context [on_world (on_redis ?m) a] => pose proof (redis_call_inv m a Ha) as Hr;
    destruct (on_world (on_redis m) a) as [[[]|] a'] end; [done|by apply Hs|done].
Qed.
Lemma routed_inv le e ep : service_keeps (routed st cidrs render le e ep).
Proof using HI HJ.
  unfold routed. assert (service_keeps (endpoint_service st render e ep)) as Hep.
  { intros i a Ha. unfold endpoint_service. pose proof (serve_holds st e (in_request i) I n ep a Ha) as Hi.
    by destruct (serve st e (in_request i) ep a) as [[]]. }
  assert (Hl : ∀ ls, service_keeps (foldr (apply_layer st le) (endpoint_service st render e ep) ls)).
  { induction ls as [|[] ls IH]; [exact Hep|..]; cbn [foldr apply_layer];
      [by apply ban_keeps|by apply user_limit_keeps|by apply address_limit_keeps]. }
  intros i a Ha. unfold global_layers, security_headers_middleware, request_context_middleware.
  case_match; [done|].
  match goal with |- context [foldr ?f ?x ?ls ?j a] => pose proof (Hl ls j a Ha) as Hi; by destruct (foldr f x ls j a) end.
Qed.

(** A step of any process keeps it. *)
Lemma step_holds s m : app_holds (sy_app s) → app_holds (sy_app (service_step st cidrs render s m)).
Proof using HI HJ.
  intros Ha. destruct m; cbn [service_step sy_app].
  - by apply routed_inv.
  - by apply take_job_inv.
  - exact Ha.
  - pose proof (round_inv c h (sy_backoff s) _ (proj1 Ha)) as Hr.
    destruct (cleanup_round c h (sy_backoff s) (app_world (sy_app s))) as [b w]. split; [exact Hr|apply Ha].
  - by apply world_call_inv; [apply handle_message_inv|].
  - by apply world_call_inv; [apply handle_media_job_inv|].
  - exact Ha.
Qed.
Lemma run_holds moves s : app_holds (sy_app s) → app_holds (sy_app (service_run st cidrs render moves s)).
Proof using HI HJ.
  unfold service_run. revert s. induction moves as [|m moves IH]; intros s Hs; [exact Hs|].
  simpl. by apply IH, step_holds.
Qed.
End invariant.

Definition service_inv (st : AppState) (s : System) : Prop := app_inv st (sy_app s) ∧ 0 ≤ sy_backoff s ≤ 300.

Lemma service_step_inv `{Libs} `{IpLib} `{ImageLib} st cidrs render s m :
  service_inv st s → service_inv st (service_step st cidrs render s m).
Proof.
  intros [Ha Hb]. split; [exact (step_holds st cidrs render db_inv 0 s m Ha)|].
  destruct m; try exact Hb. cbn [service_step].
  pose proof (cleanup_round_backoff c h (sy_backoff s) (app_world (sy_app s)) Hb) as Hr.
  by destruct (cleanup_round c h (sy_backoff s) (app_world (sy_app s))) as [b w].
Qed.

(** A freshly migrated installation. *)
Definition fresh_service : System := mkSystem (mkApp (mkWorld empty_db (mkRedis true ∅) [] true ∅ true) [] true) 0.

Lemma empty_db_inv : db_inv empty_db.
Proof.
  assert (∀ {K V} `{Countable K} (k : K) (v : V), (∅ : gmap K V) !! k = Some v → False) as Hempty
    by (intros * Hk; by rewrite lookup_empty in Hk).
  split; try solve [split; intros *; simpl; intros []%Hempty | intros ?*; simpl; intros []%Hempty].
  split; [done|done|done|]. intros u. by vm_compute.
Qed.
Lemma fresh_service_inv st : service_inv st fresh_service.
Proof. split; [split; [apply empty_db_inv|simpl; lia]|simpl; lia]. Qed.

#[local] Existing Instance Sample.toy_libs.
#[local] Existing Instance toy_ip.
#[local] Existing Instance ToyImage.toy_image.
Definition from_network (headers : gmap string string) (method path : string) : Incoming :=
  mkIncoming (mkRequest method path headers None) "198.51.100.7" None.
Definition signup_of (handle code : string) : CreateUserRequest :=
  mkCreateUser handle (handle +:+ "@x.org") handle None None "Passw0rd" code.
(** The identifiers and codes drawn at second [t] start at [base]. *)
Definition env_from (t : Time) (base : N) : Env :=
  mkEnv (clk_at t) (λ _, clk_at t) (λ _, seconds t) (λ i, (base + N.of_nat i)%N) (mkDraws base "n" "m") "salt"
    (λ i, "CODE" +:+ pretty (base + N.of_nat i)%N) (λ _, []) true "".
Definition arrive (t : Time) (base : N) (headers : gmap string string) (method path : string) (ep : Endpoint) : Move :=
  Arrive (mkLayerEnv (λ _, clk_at t) (λ _, seconds t)) (env_from t base) (from_network headers method path) ep.
Definition ann_token : string := access_token (issued_pair sample_cfg (clk_at 45) (mkDraws 7 "n" "m") 100).
(** Two people are invited and sign up, one follows the other, who is notified; the
    cleanup loop runs, and Redis goes down. *)
Definition first_day : list Move :=
  let admin : gmap string string := {[ "x-admin-token" := "admin" ]} in
  [ arrive 10 0 admin "POST" "/v1/admin/invites" (AdminCreateInvite (Some None));
    arrive 20 100 ∅ "POST" "/v1/users" (CreateUser (Some (signup_of "ann" "CODE0")));
    arrive 30 1 admin "POST" "/v1/admin/invites" (AdminCreateInvite (Some None));
    arrive 40 200 ∅ "POST" "/v1/users" (CreateUser (Some (signup_of "bob" "CODE1")));
    arrive 50 300 {[ "authorization" := "Bearer " +:+ ann_token ]} "POST" "/v1/users/x/follow" (FollowUser (Some 200%N));
    TakeJob (clk_at 60) 400; CleanRound (clk_at 70) healthy; Outage true true false ].

(** C1: the service never corrupts its data. Whatever requests arrive from the
    network for whatever endpoints, and however they are interleaved with
    notification jobs, cleanup rounds, media messages (redelivered ones included) and
    outages: nobody follows across a block or over the follower cap;
    the counters of a story equal its views and reactions; trust points stay
    non-negative and three strikes mean a ban; an invite is never used more often
    than allowed; the device records match their accounts; a user likes a post at
    most once; every report has its audit entry; the foreign keys of posts, stories,
    highlights and uploads hold; the notification channel stays within its capacity
    and the cleanup pause within 300 seconds. *)
Theorem service_keeps_invariant `{Libs} `{IpLib} `{ImageLib} st cidrs render moves s :
  service_inv st s → service_inv st (service_run st cidrs render moves s).
Proof.
  unfold service_run. revert s. induction moves as [|m moves IH]; intros s Hs; [exact Hs|].
  simpl. by apply IH, service_step_inv.
Qed.

Lemma service_keeps_invariant_witness :
  let s := service_run Sample.st [] (λ _, JNull) first_day fresh_service in
  let d := w_db (app_world (sy_app s)) in
  service_inv Sample.st s ∧ size (users d) = 2%nat ∧ follows_edge d 100 200 = true ∧
  size (notifications d) = 1%nat ∧ notification_queue (sy_app s) = [].
Proof.
  intros s d. split; [|split_and!; vm_compute; reflexivity].
  apply service_keeps_invariant. apply fresh_service_inv.
Defined.
