(* ===== verification/Sessions.v ===== *)
(** * Rotated refresh tokens, for the rest of the service's life

    [Auth] has the single calls of [src/app/auth.rs]. This file says what becomes of a
    refresh token after it was rotated, whatever the service does afterwards: the row
    of the token stays, stays revoked and stays the only one with its hash, through
    every request, job and cleanup round of [System]. *)

From S2P Require Import Prelude Effects Text Sql Keyset Domain Schema RateLimits Redis RateLimiter Social Users.
From S2P Require Import Posts Engagement Trust Invites Crypto Auth World Feed Stories Notifications Moderation.
From S2P Require Import Fingerprint Search Media MediaWorker Cleanup Http App HandlersUsers HandlersPosts.
From S2P Require Import HandlersMedia HandlersSafety HandlersStories Endpoints ClientErrors Access Middleware.
From S2P Require Import Routes Invariant System.
From stdpp Require Import options.

#[local] Open Scope Z_scope.

(** [UNIQUE (token_hash)] of [refresh_tokens]. *)
Definition hash_unique (d : Db) : Prop :=
  ∀ i j r r', refresh_tokens d !! i = Some r → refresh_tokens d !! j = Some r' →
    rt_token_hash r = rt_token_hash r' → i = j.

(** The token with the hash [h] was issued to [u] in row [id] until [until], and is
    revoked. *)
Definition revoked_row (u : Uuid) (h : string) (until : Time) (r : RefreshRow) : Prop :=
  rt_user_id r = u ∧ rt_token_hash r = h ∧ rt_expires_at r = until ∧ rt_revoked_at r ≠ None.
Record spent (id u : Uuid) (h : string) (until : Time) (d : Db) : Prop := {
  sp_row : ∃ r, refresh_tokens d !! id = Some r ∧ revoked_row u h until r;
  sp_owner : is_Some (users d !! u);
  sp_unique : hash_unique d }.

(** ** What keeps a token spent *)

Section keeping.
Context (id u : Uuid) (h : string) (until : Time).
Notation spent := (spent id u h until).

Lemma unique_insert k row d :
  exists_where (λ _ r, bool_decide (rt_token_hash r = rt_token_hash row)) (refresh_tokens d) = false →
  hash_unique d → hash_unique (set_refresh_tokens (<[k := row]>) d).
Proof.
  intros Hh Hu. rewrite exists_where_false in Hh.
  assert (Hnew : ∀ j x, refresh_tokens d !! j = Some x → rt_token_hash x ≠ rt_token_hash row).
  { intros j x Hx. specialize (Hh j x Hx). by apply bool_decide_eq_false in Hh. }
  intros i j x y. simpl. intros [[<- <-]|[Hi Hx]]%lookup_insert_Some [[<- <-]|[Hj Hy]]%lookup_insert_Some He;
    [done|by destruct (Hnew j y)|by destruct (Hnew i x)|by eapply Hu].
Qed.
Lemma spent_insert k row d :
  has_key k (refresh_tokens d) = false →
  exists_where (λ _ r, bool_decide (rt_token_hash r = rt_token_hash row)) (refresh_tokens d) = false →
  spent d → spent (set_refresh_tokens (<[k := row]>) d).
Proof.
  intros Hk%has_key_false Hh [(r & Hr & Hrow) Ho Hu]. split; [|exact Ho|by apply unique_insert].
  exists r. simpl. rewrite lookup_insert_ne by congruence. done.
Qed.
(** An update that revokes, and keeps owner, hash and expiry. *)
Definition revokes (f : RefreshRow → RefreshRow) : Prop :=
  ∀ r, rt_user_id (f r) = rt_user_id r ∧ rt_token_hash (f r) = rt_token_hash r ∧
       rt_expires_at (f r) = rt_expires_at r ∧ rt_revoked_at (f r) ≠ None.
Lemma unique_update P f d : revokes f → hash_unique d → hash_unique (set_refresh_tokens (update_where P f) d).
Proof.
  intros Hf Hun i j x y. simpl. rewrite !lookup_update_where.
  destruct (refresh_tokens d !! i) as [ri|] eqn:Hi, (refresh_tokens d !! j) as [rj|] eqn:Hj; try done. simpl.
  intros [= <-] [= <-] Heq. eapply Hun; [done..|]. destruct (Hf ri) as (_ & Hhi & _), (Hf rj) as (_ & Hhj & _).
  repeat case_match; congruence.
Qed.
Lemma spent_update P f d : revokes f → spent d → spent (set_refresh_tokens (update_where P f) d).
Proof.
  intros Hf [(r & Hr & Hu & Hh & He & Hrev) Ho Hun]. split; [|exact Ho|by apply unique_update].
  exists (if P id r then f r else r). simpl. rewrite lookup_update_where, Hr. split; [done|].
  destruct (Hf r) as (H1 & H2 & H3 & H4). case_match; split_and!; congruence.
Qed.
Lemma spent_revoke k r t d :
  refresh_tokens d !! k = Some r → spent d → spent (set_refresh_tokens (<[k := revoked t r]>) d).
Proof.
  intros Hk Hd. assert (set_refresh_tokens (<[k := revoked t r]>) d
    = set_refresh_tokens (update_where (λ x _, bool_decide (x = k)) (revoked t)) d) as ->; [|by apply spent_update].
  unfold set_refresh_tokens. f_equal. apply map_eq. intros x. rewrite lookup_update_where.
  destruct (decide (x = k)) as [->|Hne]; [rewrite lookup_insert_eq, Hk; simpl; by rewrite bool_decide_true|].
  rewrite lookup_insert_ne by done. destruct (refresh_tokens d !! x); simpl; [|done]. by rewrite bool_decide_false.
Qed.
Lemma spent_users f d : (∀ x, is_Some (users d !! x) → is_Some (f (users d) !! x)) → spent d → spent (set_users f d).
Proof. intros Hf [Hr Ho Hu]. split; [exact Hr|by apply Hf|exact Hu]. Qed.

(** The tables that do not matter. *)
#[local] Hint Extern 1 (Stable _ _) =>
  let Hd := fresh in intros ? ? Hd; destruct Hd; split; assumption : typeclass_instances.

Lemma insert_refresh_token_spent k row : preserves spent (insert_refresh_token k row).
Proof.
  intros d Hd. unfold insert_refresh_token. run; try done. bool_to_prop. by apply spent_insert.
Qed.
Lemma insert_user_spent k row : preserves spent (insert_user k row).
Proof.
  intros d Hd. unfold insert_user. run; try done. apply spent_users; [|done].
  intros x Hx. apply lookup_insert_is_Some'. by right.
Qed.
#[local] Hint Resolve insert_refresh_token_spent insert_user_spent : ciel.

Section accounts.
Context `{Crypto} (cfg : AuthConfig).
Lemma issue_tx_spent c dr v : preserves spent (issue_token_pair_with_tx cfg c dr v).
Proof. unfold issue_token_pair_with_tx. repeat frame_step. Qed.
#[local] Hint Resolve issue_tx_spent : ciel.
Lemma login_spent c dr i p : preserves spent (Auth.login cfg c dr i p).
Proof. unfold Auth.login, issue_token_pair. repeat frame_step. Qed.
Lemma refresh_spent c dr t : preserves spent (Auth.refresh cfg c dr t).
Proof.
  unfold Auth.refresh. repeat first [apply preserves_modifies; intros; by apply spent_update | frame_step].
Qed.
Lemma revoke_spent c t : preserves spent (revoke_refresh_token cfg c t).
Proof. intros d Hd. unfold revoke_refresh_token. run; try done. by apply spent_revoke. Qed.
(** The constraint itself. *)
Lemma refresh_unique c dr t : preserves hash_unique (Auth.refresh cfg c dr t).
Proof.
  assert (Hi : ∀ k row, preserves hash_unique (insert_refresh_token k row)).
  { intros k row d Hd. unfold insert_refresh_token. run; try done. bool_to_prop. by apply unique_insert. }
  unfold Auth.refresh, issue_token_pair_with_tx.
  repeat first [apply preserves_modifies; intros; by apply unique_update | apply preserves_map_err, Hi | frame_step].
Qed.
Lemma signup_spent c sa i hd m n b k p code : preserves spent (signup c sa i hd m n b k p code).
Proof.
  unfold signup, hash_password.
  repeat first [ apply preserves_map_err, consume_frame; apply _ | apply preserves_map_err, initialize_user_frame; apply _
               | frame_step ].
Qed.
Lemma update_profile_spent i n b k : preserves spent (Users.update_profile i n b k).
Proof.
  intros d Hd. unfold Users.update_profile. run; try done; (apply spent_users; [|done]);
    intros x Hx; apply lookup_insert_is_Some'; by right.
Qed.
Lemma delete_account_spent c v : preserves spent (Users.delete_account c v).
Proof.
  unfold Users.delete_account. repeat first
    [ apply preserves_modifies; intros; by apply spent_update
    | apply preserves_modifies; intros; apply spent_users; [intros; by apply lookup_alter_is_Some|done] | frame_step ].
Qed.
End accounts.

Global Instance spent_kept `{Libs} cfg : Kept cfg spent.
Proof.
  split; intros; auto using login_spent, refresh_spent, revoke_spent, signup_spent, update_profile_spent, delete_account_spent.
  all: first [ apply record_activity_frame | apply record_flag_frame | apply create_invite_frame
    | apply create_admin_invite_frame | apply revoke_invite_frame | apply register_frame | apply follow_frame
    | apply unfollow_frame | apply block_frame | apply unblock_frame | apply create_post_frame
    | apply update_caption_frame | apply like_post_frame | apply unlike_post_frame | apply comment_post_frame
    | apply delete_comment_frame | apply mark_read_frame | apply flag_user_frame | apply flag_post_frame
    | apply create_story_frame | apply delete_story_frame | apply mark_seen_frame | apply add_reaction_frame
    | apply remove_reaction_frame | apply add_to_highlight_frame | apply insert_upload_frame
    | apply mark_uploaded_frame | apply delete_media_row_frame
    | apply delete_post_frame, delete_post_rows_frame
    | apply takedown_post_frame; [apply delete_post_rows_frame|]
    | apply takedown_comment_frame; [intros ?; apply stable|] ]; apply _.
Qed.
Global Instance spent_kept_by_jobs : KeptByJobs spent.
Proof.
  split; intros; first [apply notify_frame | apply claim_frame | apply mark_failed_frame | apply finish_frame | idtac]; try apply _.
  all: unfold delete_expired_stories, delete_story_rows, cleanup_expired_invites, update_account_ages;
    repeat apply stable; assumption.
Qed.
End keeping.

(** ** The life of a rotated token *)

Section rotated.
Context `{Libs} `{IpLib} `{ImageLib} (st : AppState) (cidrs : list IpNet) (render : Reply → Json).
Notation cfg := (auth_config st).

(** Rotation leaves the token spent. *)
Lemma refresh_spends clk dr token d p d1 :
  hash_unique d → Auth.refresh cfg clk dr token d = (Ok (Some p), d1) →
  ∃ u id r, verify_refresh_token cfg (app_now clk) token = Some (u, id) ∧ refresh_tokens d !! id = Some r ∧
    spent id u (hash_token token) (rt_expires_at r) d1.
Proof using Type.
  intros Hu Hr. pose proof (refresh_unique cfg clk dr token d Hu) as Hu1. rewrite Hr in Hu1.
  apply refresh_ok in Hr as (u & id & r & owner & Hv & Hrow & Hru & Hh & _ & _ & Ho & _ & _ & _ & _ & _ & ->).
  exists u, id, r. split_and!; [done..|]. split; [|by exists owner|exact Hu1].
  eexists. simpl. rewrite lookup_insert_eq. split; [done|]. by split_and!.
Qed.
(** What presenting a spent token does, whoever it is verified for. *)
Lemma spent_refused clk dr token id u until d p d' :
  spent id u (hash_token token) until d → Auth.refresh cfg clk dr token d ≠ (Ok (Some p), d').
Proof using Type.
  intros [(r & Hr & _ & Hh & _ & Hrev) _ Hun] Hok.
  apply refresh_ok in Hok as (v & k & x & _ & _ & Hx & _ & Hhx & _ & Hlive & _).
  assert (k = id) as -> by (eapply Hun; [done..|congruence]). congruence.
Qed.
Lemma spent_reuse clk dr token id u until d :
  spent id u (hash_token token) until d → verify_refresh_token cfg (app_now clk) token = Some (u, id) →
  db_now clk < until → Auth.refresh cfg clk dr token d = (Ok None, revoke_all_tokens (db_now clk) u d).
Proof using Type.
  intros [(r & Hr & Hu & Hh & He & Hrev) [owner Ho] _] Hv Hlt.
  rewrite (refresh_reused cfg clk dr token d u id r owner) by done. by rewrite (proj2 (Z.ltb_lt _ _)) by congruence.
Qed.

(** C9: a refresh token works once. After it was rotated, the service may do whatever
    it does, any requests, jobs, cleanup rounds and outages one after another:
    presenting the token again never yields tokens, at any time. While its row has
    not expired and the token still verifies, the attempt also revokes every session
    the user has at that moment, all successors included. The requests of the history
    run one after another; what overlapping ones can do to the last part is
    [reuse_misses_successor]. *)
Theorem refresh_single_use clk dr token s p d1 moves :
  let d := w_db (app_world (sy_app s)) in
  hash_unique d → Auth.refresh cfg clk dr token d = (Ok (Some p), d1) →
  let s1 := mkSystem (set_app_world (set_w_db d1 (app_world (sy_app s))) (sy_app s)) (sy_backoff s) in
  let d2 := w_db (app_world (sy_app (service_run st cidrs render moves s1))) in
  hash_unique d2 ∧
  (∀ clk' dr' p' d', Auth.refresh cfg clk' dr' token d2 ≠ (Ok (Some p'), d')) ∧
  ∃ u id r, verify_refresh_token cfg (app_now clk) token = Some (u, id) ∧ refresh_tokens d !! id = Some r ∧
    ∀ clk' dr', verify_refresh_token cfg (app_now clk') token = Some (u, id) → db_now clk' < rt_expires_at r →
      fst (Auth.refresh cfg clk' dr' token d2) = Ok None ∧
      sessions (snd (Auth.refresh cfg clk' dr' token d2)) u = 0.
Proof using Type.
  intros d Hu Hr s1 d2. destruct (refresh_spends _ _ _ _ _ _ Hu Hr) as (u & id & r & Hv & Hrow & Hs).
  assert (Hs2 : spent id u (hash_token token) (rt_expires_at r) d2).
  { apply (run_holds st cidrs render (spent id u (hash_token token) (rt_expires_at r))
      (length (notification_queue (sy_app s))) moves s1). split; [exact Hs|]. simpl. lia. }
  split; [apply Hs2|]. split; [intros; by eapply spent_refused|].
  exists u, id, r. split; [done|]. split; [done|]. intros clk' dr' Hv' Hlt. rewrite (spent_reuse _ _ _ _ _ _ _ Hs2) by done.
  split; [done|apply revoke_all_sessions].
Qed.
End rotated.

(** Ann rotates her token, logs in once more, and the old token is presented again. *)
#[local] Existing Instance Sample.toy_libs.
#[local] Existing Instance toy_ip.
#[local] Existing Instance ToyImage.toy_image.
Definition ann_online : System := mkSystem (mkApp (mkWorld logged_in (mkRedis true ∅) [] true ∅ true) [] true) 0.
Definition second_login : list Move :=
  [ arrive 25 9 ∅ "POST" "/v1/auth/login" (Login (Some (mkLogin "ann" "pw"))); CleanRound (clk_at 27) healthy ].
Lemma refresh_single_use_witness :
  let s1 := mkSystem (set_app_world (set_w_db rotated (app_world (sy_app ann_online))) (sy_app ann_online)) 0 in
  let d2 := w_db (app_world (sy_app (service_run Sample.st [] (λ _, JNull) second_login s1))) in
  sessions d2 5 = 2 ∧ hash_unique d2 ∧
  (∀ clk' dr' p' d', Auth.refresh sample_cfg clk' dr' (Auth.refresh_token sample_pair) d2 ≠ (Ok (Some p'), d')) ∧
  sessions (snd (Auth.refresh sample_cfg (clk_at 30) (mkDraws 11 "n" "m") (Auth.refresh_token sample_pair) d2)) 5 = 0.
Proof.
  intros s1 d2. split; [vm_compute; reflexivity|].
  destruct (refresh_single_use Sample.st [] (λ _, JNull) (clk_at 20) (mkDraws 8 "n" "m") (Auth.refresh_token sample_pair)
    ann_online (issued_pair sample_cfg (clk_at 20) (mkDraws 8 "n" "m") 5) rotated second_login)
    as (Hu & Hno & u & id & r & Hv & Hr & Hs).
  - assert (He : refresh_tokens logged_in = {[7%N := issued_row sample_cfg (clk_at 10) (mkDraws 7 "n" "m") 5]})
      by (vm_compute; reflexivity).
    intros i j x y. simpl. rewrite He. intros [<- _]%lookup_singleton_Some [<- _]%lookup_singleton_Some _. done.
  - vm_compute. reflexivity.
  - split; [exact Hu|]. split; [exact Hno|].
    assert (u = 5%N ∧ id = 7%N) as [-> ->] by (vm_compute in Hv; by simplify_eq).
    apply (Hs (clk_at 30) (mkDraws 11 "n" "m")); [vm_compute; reflexivity|]. vm_compute in Hr. injection Hr as <-. reflexivity.
Defined.
