(* ===== verification/Pages.v ===== *)
(** * Reading a list to its end

    Fifteen handlers of [src/http/handlers.rs] answer a page at a time, with a
    cursor for the next one; two of them, the feeds, keep their first page in a cache. [fetch] is any of them seen by a client that only looks
    at which rows it got; [read_all] is the loop every client writes: ask, keep the
    items, follow [next_cursor] until there is none. *)

From S2P Require Import Prelude Effects Text Sql Keyset Domain Schema RateLimits Redis RateLimiter Social Users.
From S2P Require Import Posts Engagement Trust Invites Crypto Auth World Feed Stories Notifications Moderation.
From S2P Require Import Fingerprint Search Media Http App HandlersUsers HandlersPosts HandlersMedia.
From S2P Require Import HandlersSafety HandlersStories Endpoints ClientErrors Access.
From stdpp Require Import options.

#[local] Open Scope Z_scope.

(** ** The listings *)

Inductive Listing :=
| Followers (id : Uuid) | Following (id : Uuid)
| PostsOf (id : Uuid) (viewer : option Uuid)
| LikesOn (id viewer : Uuid) | CommentsOn (id viewer : Uuid)
| InboxOf (user : Uuid) | AuditLog
| StoriesOf (id viewer : Uuid) | ViewersOf (id viewer : Uuid)
| ReactionsOn (id viewer : Uuid) | HighlightsOf (id : Uuid)
| UserSearch (q : string) | PostSearch (q : string)
| HomeFeedOf (user : Uuid) | StoriesFeedOf (user : Uuid).

Definition item_key (i : SocialUserItem) : Key := (si_followed_at i, pu_id (si_user i)).
Definition public_user_key (u : PublicUser) : Key := (pu_created_at u, pu_id u).

(** The items by their positions. *)
Definition keyed {B} (key : B → Key) (m : M App AppError (ListResponse B)) : M App AppError (ListResponse Key) :=
  r ← m; mret (mkListResponse (key <$> lr_items r) (lr_next_cursor r)).
Definition as_search (q : string) (pq : PaginationQuery) : SearchQuery :=
  mkSearchQuery q (pq_limit pq) (pq_cursor pq).

Section listings.
Context `{Libs} (st : AppState) (e : Env).

Definition fetch (l : Listing) (q : PaginationQuery) : M App AppError (ListResponse Key) :=
  match l with
  | Followers id => keyed item_key (HandlersUsers.list_followers id q)
  | Following id => keyed item_key (HandlersUsers.list_following id q)
  | PostsOf id viewer => keyed post_key (list_user_posts st e id viewer q)
  | LikesOn id viewer => keyed like_key (list_post_likes id viewer q)
  | CommentsOn id viewer => keyed comment_key (list_post_comments id viewer q)
  | InboxOf user => keyed notification_key (HandlersMedia.list_notifications user q)
  | AuditLog => keyed action_key (list_moderation_audit q)
  | StoriesOf id viewer => keyed story_key (HandlersStories.get_user_stories st e id viewer q)
  | ViewersOf id viewer => keyed view_key (get_story_viewers st e id viewer q)
  | ReactionsOn id viewer => keyed reaction_key (list_story_reactions e id viewer q)
  | HighlightsOf id => keyed highlight_key (HandlersStories.get_user_highlights id q)
  | UserSearch term => keyed public_user_key (HandlersPosts.search_users st e (as_search term q))
  | PostSearch term => keyed post_key (HandlersPosts.search_posts st e (as_search term q))
  | HomeFeedOf user => keyed post_key (home_feed st e user q)
  | StoriesFeedOf user => keyed story_key (HandlersStories.get_stories_feed st e user q)
  end.

(** The rows the listing is about, in no particular order. *)
Definition search_rows {A} (rows : (string → bool) → list A) (term : string) : list A :=
  match ilike_tokens lower (pattern_of (trim term)) with Some p => rows (ilike lower p) | None => [] end.
Definition rows_of (l : Listing) (d : Db) : list Key :=
  match l with
  | Followers id => edge_key <$> follower_rows d id
  | Following id => edge_key <$> following_rows d id
  | PostsOf id viewer => post_key <$> posts_by d id viewer
  | LikesOn id _ => like_key <$> likes_on d id
  | CommentsOn id _ => comment_key <$> comments_on d id
  | InboxOf user => notification_key <$> notifications_of d user
  | AuditLog => action_key <$> select (λ k a, Some (action_of k a)) (moderation_actions d)
  | StoriesOf id viewer =>
      story_key <$> story_rows (λ s, bool_decide (s_user_id s = id)
                                     && story_visible (app_now (clk e 0)) d viewer s) d
  | ViewersOf id _ => view_key <$> views_on d id
  | ReactionsOn id _ => reaction_key <$> reactions_on d id
  | HighlightsOf id => highlight_key <$> highlights_of d id
  | UserSearch term => user_key <$> search_rows (λ m, users_matching m d) term
  | PostSearch term => post_key <$> search_rows (λ m, posts_matching m d) term
  | HomeFeedOf user => post_key <$> feed_rows d user
  | StoriesFeedOf user => story_key <$> story_rows (story_in_feed (app_now (clk e 0)) d user) d
  end.
Definition order_of (l : Listing) : Dir :=
  match l with StoriesOf _ _ | HighlightsOf _ => Asc | _ => Desc end.

Definition term_ok (term : string) : Prop :=
  (2 ≤ String.length (trim term) ≤ MAX_SEARCH_QUERY_LEN)%nat ∧
  is_Some (ilike_tokens lower (pattern_of (trim term))).
(** Who may read the listing, and that the ids of reactions are distinct (the
    primary key of [story_reactions], whose rows are stored here by story and user). *)
Definition may_list (l : Listing) (d : Db) : Prop :=
  match l with
  | LikesOn id viewer | CommentsOn id viewer => fst (can_view_post id viewer d) = Ok true
  | ViewersOf id viewer => fst (get_story_owner id d) = Ok (Some viewer)
  | ReactionsOn id viewer =>
      fst (Stories.get_story (clk e 0) id viewer d) ≠ Ok None ∧ NoDup (rows_of l d)
  | UserSearch term | PostSearch term => term_ok term
  | _ => True
  end.

(** The first page of a feed is not in the cache: Redis is down, or holds nothing live
    and readable under its key. The home feed has one key per user, the stories feed one
    per user and limit. Later pages, and the other listings, are never cached. *)
Definition stories_cached (user : Uuid) (limit : Z) (w : World) : option (list Story) :=
  if redis_up (w_redis w)
  then match fst <$> live (store (w_redis w)) (rnow e 0) (stories_feed_key user limit) with
       | Some (RText payload) => stories_from_json payload
       | _ => None
       end
  else None.
Definition cold (l : Listing) (q : PaginationQuery) (w : World) : Prop :=
  pq_cursor q = None →
  match l with
  | HomeFeedOf user => cache_miss (rnow e 0) user w
  | StoriesFeedOf user => stories_cached user (default 30 (pq_limit q) + 1) w = None
  | _ => True
  end.

(** The page a query asks for. *)
Definition page_result (l : Listing) (q : PaginationQuery) (d : Db) : Result AppError (ListResponse Key) :=
  match check_limit (pq_limit q), parse_cursor (pq_cursor q) with
  | Err err, _ => Err err
  | _, Err err => Err err
  | Ok limit, Ok cursor =>
      let '(items, next) := page_of id limit (keyset id (order_of l) cursor (limit + 1) (rows_of l d)) in
      Ok (mkListResponse items (encode_cursor next))
  end.

(** ** Handlers that always answer *)

(** From any state [m] returns a value in [P] and at most fills caches. *)
Definition yields {A} (P : A → Prop) (m : M App AppError A) : Prop :=
  ∀ a, ∃ v, fst (m a) = Ok v ∧ P v ∧ durable (snd (m a)) = durable a.

Lemma yields_ret {A} (P : A → Prop) v : P v → yields P (mret v).
Proof using Type. intros Hv a. by exists v. Qed.
Lemma yields_bind {A B} (P : A → Prop) (Q : B → Prop) m (k : A → M App AppError B) :
  yields P m → (∀ v, P v → yields Q (k v)) → yields Q (m ≫= k).
Proof using Type.
  intros Hm Hk a. destruct (Hm a) as (v & Hv & HP & Ha). destruct (Hk v HP (snd (m a))) as (u & Hu & HQ & Hb).
  exists u. unfold mbind, M_bind. destruct (m a) as [r a']. simpl in *. subst r. by rewrite Hb.
Qed.

(** The entries of a list are filled in one by one, each under its own key. *)
Definition keeps_key {A} (key : A → Key) (m : M World AppError A) (x : A) : Prop :=
  ∀ w, ∃ y, fst (m w) = Ok y ∧ key y = key x ∧ stored (snd (m w)) = stored w.
Lemma join_all_keys {A} (key : A → Key) f (xs : list A) w :
  (∀ x, keeps_key key (f x) x) →
  ∃ ys, fst (join_all f xs w) = Ok ys ∧ key <$> ys = key <$> xs ∧ stored (snd (join_all f xs w)) = stored w.
Proof using Type.
  intros Hf. revert w. induction xs as [|x xs IH]; intros w; [by exists []|]. cbn [join_all].
  destruct (Hf x w) as (y & Hy & Hk & Hs). unfold mbind, M_bind.
  destruct (f x w) as [r w1]. simpl in *. subst r. destruct (IH w1) as (ys & Hys & Hks & Hss).
  destruct (join_all f xs w1) as [r w2]. simpl in *. subst r. exists (y :: ys). simpl.
  split_and!; [done|by f_equal|congruence].
Qed.
Lemma yields_join {A} (key : A → Key) f (xs : list A) :
  (∀ x, keeps_key key (f x) x) → yields (λ ys, key <$> ys = key <$> xs) (on_world (join_all f xs)).
Proof using Type.
  intros Hf a. destruct (join_all_keys key f xs (app_world a) Hf) as (ys & Hy & Hk & Hs).
  exists ys. unfold on_world, durable. destruct (join_all f xs (app_world a)) as [r w]. simpl in *.
  split_and!; [done|done|]. unfold stored in Hs. by injection Hs as -> -> ->.
Qed.
Lemma keeps_key_bind {A B} (key : A → Key) x (m : M World AppError B) (g : B → A) :
  total m → keeps stored m → (∀ b, key (g b) = key x) → keeps_key key (b ← m; mret (g b)) x.
Proof using Type.
  intros Ht Hs Hg w. specialize (Ht w). specialize (Hs w). unfold mbind, M_bind.
  destruct (m w) as [[b|] w']; [|done]. by exists (g b).
Qed.
Lemma keeps_key_ret {A} (key : A → Key) x : keeps_key key (mret x) x.
Proof using Type. intros w. by exists x. Qed.

Lemma page_rows {A} (key : A → Key) d c n (rows : list A) :
  NoDup (key <$> rows) →
  page_of id n (keyset id d c (n + 1) (key <$> rows))
  = (key <$> (page_of key n (keyset key d c (n + 1) rows)).1, (page_of key n (keyset key d c (n + 1) rows)).2).
Proof using Type. intros Hnd. by rewrite <-keyset_keys_of, page_keys_of. Qed.

(** What is left to do once the rows are there: fill in URLs, wrap up. *)
Definition dresses {A B} (key : A → Key) (bkey : B → Key) (limit : Z) (rows : list A)
    (m : M App AppError (ListResponse B)) : Prop :=
  yields (λ r, bkey <$> lr_items r = key <$> (page_of key limit rows).1 ∧
               lr_next_cursor r = encode_cursor (page_of key limit rows).2) m.

Lemma list_response_dresses {A B} (key : A → Key) (bkey : B → Key) (f : A → B) limit rows :
  (∀ x, bkey (f x) = key x) → dresses key bkey limit rows (mret (list_response key f limit rows)).
Proof using Type.
  intros Hf. apply yields_ret. unfold list_response. destruct (page_of key limit rows) as [items next]. simpl.
  split; [|done]. rewrite <-list_fmap_compose. apply list_fmap_ext. intros i x _. apply Hf.
Qed.

(** The common part: check the query, pass the gate, read, dress. *)
Definition listing {B} (q : PaginationQuery) (inner : Z → option Key → M App AppError (ListResponse B)) :
    M App AppError (ListResponse B) :=
  limit ← from_result (check_limit (pq_limit q));
  cursor ← from_result (parse_cursor (pq_cursor q));
  inner limit cursor.
Lemma keyed_from {A B} (key : A → Key) (bkey : B → Key) (l : Listing) (q : PaginationQuery) a
    (inner : Z → option Key → M App AppError (ListResponse B)) (rows : Db → list A)
    (rest : Z → list A → M App AppError (ListResponse B)) :
  (∀ limit cursor, check_limit (pq_limit q) = Ok limit → parse_cursor (pq_cursor q) = Ok cursor →
     ∃ a', inner limit cursor a
           = rest limit (keyset key (order_of l) cursor (limit + 1) (rows (w_db (app_world a)))) a' ∧
           durable a' = durable a) →
  rows_of l (w_db (app_world a)) = key <$> rows (w_db (app_world a)) →
  NoDup (key <$> rows (w_db (app_world a))) →
  (∀ limit xs, dresses key bkey limit xs (rest limit xs)) →
  let m := keyed bkey (listing q inner) in
  fst (m a) = page_result l q (w_db (app_world a)) ∧ durable (snd (m a)) = durable a.
Proof using Type.
  intros Hin Hrows Hnd Hrest m. unfold m, page_result, keyed, listing. unfold_m.
  destruct (check_limit (pq_limit q)) as [limit|]; [|done]. cbn.
  destruct (parse_cursor (pq_cursor q)) as [cursor|]; [|done]. cbn.
  destruct (Hin limit cursor eq_refl eq_refl) as (a' & -> & Ha'). rewrite Hrows, page_rows by done.
  match goal with |- context [rest limit ?xs a'] => destruct (Hrest limit xs a') as (r & Hr & [Hk Hc] & Hd);
    destruct (rest limit xs a') as [res b] end.
  simpl in *. subst res. simpl. rewrite Hk, Hc. split; [done|congruence].
Qed.
(** A listing that goes straight to the database. *)
Lemma keyed_run {A B Er} (key : A → Key) (bkey : B → Key) (l : Listing) (q : PaginationQuery) a
    (inner : Z → option Key → M App AppError (ListResponse B)) (err : Er → AppError) (rows : Db → list A)
    (rest : Z → list A → M App AppError (ListResponse B)) :
  (∀ limit cursor, inner limit cursor a =
     (xs ← map_err err (db (reads (λ d, keyset key (order_of l) cursor (limit + 1) (rows d))));
      rest limit xs) a) →
  rows_of l (w_db (app_world a)) = key <$> rows (w_db (app_world a)) →
  NoDup (key <$> rows (w_db (app_world a))) →
  (∀ limit xs, dresses key bkey limit xs (rest limit xs)) →
  let m := keyed bkey (listing q inner) in
  fst (m a) = page_result l q (w_db (app_world a)) ∧ durable (snd (m a)) = durable a.
Proof using Type.
  intros Hin. apply keyed_from. intros limit cursor _ _. eexists. rewrite Hin. split; [reflexivity|].
  by destruct a as [[] ? ?].
Qed.

(** ** The entries that carry URLs *)

Lemma populate_posts_keys now xs :
  yields (λ ys, post_key <$> ys = post_key <$> xs) (on_world (populate_post_avatar_urls (s3_public_endpoint st) now xs)).
Proof using Type. apply yields_join. intros x. apply keeps_key_bind; [apply avatar_total|apply avatar_stored|done]. Qed.
Lemma populate_post_media_keys c xs :
  yields (λ ys, post_key <$> ys = post_key <$> xs) (on_world (populate_post_primary_media (s3_public_endpoint st) c xs)).
Proof using Type.
  apply yields_join. intros x. destruct (post_media_ids x); [apply keeps_key_ret|].
  apply keeps_key_bind; [apply media_or_none_total|apply media_or_none_stored|done].
Qed.
Lemma populate_stories_keys i xs :
  yields (λ ys, story_key <$> ys = story_key <$> xs) (populate_stories st e i xs).
Proof using Type.
  apply (yields_bind (λ ys, story_key <$> ys = story_key <$> xs)).
  - apply yields_join. intros x. apply keeps_key_bind; [apply avatar_total|apply avatar_stored|done].
  - intros ys <-. apply yields_join. intros x.
    apply keeps_key_bind; [apply media_or_none_total|apply media_or_none_stored|done].
Qed.
Lemma populate_views_keys now xs :
  yields (λ ys, view_key <$> ys = view_key <$> xs)
    (on_world (populate_story_view_avatar_urls (s3_public_endpoint st) now xs)).
Proof using Type. apply yields_join. intros x. apply keeps_key_bind; [apply avatar_total|apply avatar_stored|done]. Qed.
Lemma populate_users_keys now xs :
  yields (λ ys, user_key <$> ys = user_key <$> xs)
    (on_world (populate_users_avatar_urls (s3_public_endpoint st) now xs)).
Proof using Type. apply yields_join. intros x. apply keeps_key_bind; [apply avatar_total|apply avatar_stored|done]. Qed.

(** Dress a page with one pass over its items. *)
Lemma dress_page {A B C} (key : A → Key) (ckey : C → Key) (limit : Z) (xs : list A)
    (pop : list A → M App AppError (list B)) (bkey : B → Key) (f : B → C) :
  (∀ ys, yields (λ zs, bkey <$> zs = key <$> ys) (pop ys)) → (∀ x, ckey (f x) = bkey x) →
  dresses key ckey limit xs
    (let '(items, next) := page_of key limit xs in
     items ← pop items; mret (mkListResponse (f <$> items) (encode_cursor next))).
Proof using Type.
  intros Hpop Hf. unfold dresses. destruct (page_of key limit xs) as [items next]. simpl.
  eapply yields_bind; [apply Hpop|]. intros zs Hz. apply yields_ret. simpl. split; [|done].
  rewrite <-Hz, <-list_fmap_compose. apply list_fmap_ext. intros i x _. apply Hf.
Qed.

(** ** Every listing is a keyset page *)

(** Rows of a table keyed by pairs, one half of which is fixed. *)
Lemma paired_keys {A V} (key : A → Key) (pair : N → N * N) (f : N * N → V → option A) (m : gmap (N * N) V) :
  (∀ k v x, f k v = Some x → pair (key x).2 = k) → NoDup (key <$> select f m).
Proof using Type.
  intros Hf. eapply (NoDup_fmap_1 (λ k : Key, pair k.2)). rewrite <-list_fmap_compose.
  by apply (select_NoDup f (λ x, pair (key x).2)).
Qed.
Lemma simple_keys {A V} (key : A → Key) (f : N → V → option A) (m : gmap N V) :
  (∀ k v x, f k v = Some x → (key x).2 = k) → NoDup (key <$> select f m).
Proof using Type.
  intros Hf. eapply NoDup_fmap_1. rewrite <-list_fmap_compose.
  by apply (select_NoDup f (λ x, (key x).2)).
Qed.

Lemma rows_of_distinct l d : may_list l d → NoDup (rows_of l d).
Proof using Type.
  destruct l as [i|i|i v|i v|i v|u| |i v|i v|i v|i|q|q|u|u]; intros Hl; cbn [rows_of].
  - apply (paired_keys _ (λ x, (x, i))). intros [a b] t x. simpl. case_decide; [|done]. subst b.
    by intros (r & _ & ->)%fmap_Some.
  - apply (paired_keys _ (λ x, (i, x))). intros [a b] t x. simpl. case_decide; [|done]. subst a.
    by intros (r & _ & ->)%fmap_Some.
  - apply posts_by_keys.
  - apply simple_keys. intros k v' x. case_decide; naive_solver.
  - apply simple_keys. intros k v' x. case_decide; [|done]. unfold comment_of. by intros (r & _ & ->)%fmap_Some.
  - apply simple_keys. intros k v' x. case_decide; naive_solver.
  - apply simple_keys. naive_solver.
  - apply story_rows_keys.
  - apply (paired_keys _ (λ x, (i, x))). intros [a b] t x. simpl. case_decide; [|done]. subst a.
    by intros (r & _ & ->)%fmap_Some.
  - apply Hl.
  - apply simple_keys. intros k v' x. case_decide; naive_solver.
  - unfold search_rows. case_match; [apply users_matching_keys|constructor].
  - unfold search_rows. case_match; [apply posts_matching_keys|constructor].
  - apply feed_rows_keys.
  - apply story_rows_keys.
Qed.

(** A search with a usable term starts like every other listing. *)
Lemma search_as_listing {B} (k : string → Z → option Key → M App AppError (ListResponse B)) q pq a :
  term_ok q →
  ('(term, limit, cursor) ← from_result (search_params (as_search q pq)); k term limit cursor) a
  = listing pq (k (trim q)) a.
Proof using Type.
  intros [[H2 Hmax] _]. unfold search_params, longer. cbn [as_search sq_q sq_limit sq_cursor]. cbv zeta.
  rewrite (proj2 (Nat.ltb_ge _ _)) by exact H2. rewrite (proj2 (Nat.ltb_ge _ _)) by exact Hmax. unfold listing. unfold_m.
  destruct (check_limit (pq_limit pq)); [|done]. by destruct (parse_cursor (pq_cursor pq)).
Qed.
Lemma keyed_ext {B} (key : B → Key) m m' a : m a = m' a → keyed key m a = keyed key m' a.
Proof using Type. intros Hm. unfold keyed, mbind, M_bind. by rewrite Hm. Qed.

Lemma pass_gate {A B} (m : M App AppError A) (k : A → M App AppError B) v a :
  m a = (Ok v, a) → (m ≫= k) a = k v a.
Proof using Type. intros Hm. unfold mbind, M_bind. by rewrite Hm. Qed.
Lemma pass_gate_then {Er A B} (f : Er → AppError) (m : M App Er A) (k : A → M App AppError B) r a :
  (∃ v, m a = (Ok v, a) ∧ k v a = r) → (map_err f m ≫= k) a = r.
Proof using Type. intros (v & Hm & Hk). unfold mbind, M_bind, map_err. by rewrite Hm. Qed.
Lemma post_gate i v a : fst (can_view_post i v (w_db (app_world a))) = Ok true → ensure_post_visible i v a = (Ok tt, a).
Proof using Type. intros Hv. unfold ensure_post_visible. unfold_m. rewrite run_db, Hv. simpl. by rewrite set_db_id. Qed.
Lemma story_gate i v a :
  fst (Stories.get_story (clk e 0) i v (w_db (app_world a))) ≠ Ok None → ensure_story_visible e i v a = (Ok tt, a).
Proof using Type.
  intros Hv. unfold ensure_story_visible. apply pass_gate_then. rewrite run_db.
  unfold Stories.get_story, reads in *. cbn [fst snd] in *. rewrite set_db_id.
  revert Hv. generalize (stories (w_db (app_world a)) !! i ≫= λ s, if story_visible (app_now (clk e 0))
    (w_db (app_world a)) v s then row_to_story i s <$> active_user (w_db (app_world a)) (s_user_id s) else None).
  intros [x|] Hv; [|done]. by exists (Some x).
Qed.

(** The two searches. *)
Lemma user_search_run t q a :
  term_ok t → fst (fetch (UserSearch t) q a) = page_result (UserSearch t) q (w_db (app_world a)) ∧
  durable (snd (fetch (UserSearch t) q a)) = durable a.
Proof using Type.
  intros Hl. unfold fetch.
  erewrite keyed_ext by exact (search_as_listing _ _ _ _ Hl). destruct Hl as [_ [p Hp]].
  eapply (keyed_run user_key _ (UserSearch t) _ _ _ _ (λ d, users_matching (ilike lower p) d)
            (λ limit xs, let '(users, next) := page_of user_key limit xs in
               users ← on_world (populate_users_avatar_urls (s3_public_endpoint st) (app_now (clk e 1)) users);
               mret (mkListResponse (public_user_from <$> users) (encode_cursor next)))).
  - intros limit c. unfold Search.search_users. by rewrite Hp.
  - cbn [rows_of]. unfold search_rows. by rewrite Hp.
  - apply users_matching_keys.
  - intros limit xs. apply (dress_page _ _ _ _ _ user_key); [|done]. intros. apply populate_users_keys.
Qed.
Lemma post_search_run t q a :
  term_ok t → fst (fetch (PostSearch t) q a) = page_result (PostSearch t) q (w_db (app_world a)) ∧
  durable (snd (fetch (PostSearch t) q a)) = durable a.
Proof using Type.
  intros Hl. unfold fetch.
  erewrite keyed_ext by exact (search_as_listing _ _ _ _ Hl). destruct Hl as [_ [p Hp]].
  eapply (keyed_run post_key _ (PostSearch t) _ _ _ _ (λ d, posts_matching (ilike lower p) d)
            (λ limit xs, let '(posts, next) := page_of post_key limit xs in
               posts ← populate_posts st e 1 posts; mret (mkListResponse posts (encode_cursor next)))).
  - intros limit c. unfold Search.search_posts. by rewrite Hp.
  - cbn [rows_of]. unfold search_rows. by rewrite Hp.
  - apply posts_matching_keys.
  - intros limit xs. unfold dresses. destruct (page_of post_key limit xs) as [items next]. simpl.
    eapply yields_bind; [apply populate_posts_keys|]. intros ys <-. by apply yields_ret.
Qed.

(** The two feeds, with nothing in the cache. *)
Lemma cold_cursor l q w cursor :
  cold l q w → parse_cursor (pq_cursor q) = Ok cursor → cursor = None →
  match l with
  | HomeFeedOf user => cache_miss (rnow e 0) user w
  | StoriesFeedOf user => stories_cached user (default 30 (pq_limit q) + 1) w = None
  | _ => True
  end.
Proof using Type.
  intros Hc Hp ->. apply Hc. destruct (pq_cursor q) as [s|]; [|done]. exfalso. revert Hp. simpl. repeat case_match; done.
Qed.
Lemma check_limit_ok o limit : check_limit o = Ok limit → default 30 o = limit.
Proof using Type. unfold check_limit. cbv zeta. case_match; naive_solver. Qed.
Lemma home_feed_run u q a :
  cold (HomeFeedOf u) q (app_world a) →
  fst (fetch (HomeFeedOf u) q a) = page_result (HomeFeedOf u) q (w_db (app_world a)) ∧
  durable (snd (fetch (HomeFeedOf u) q a)) = durable a.
Proof using Type.
  intros Hc. apply (keyed_from post_key post_key (HomeFeedOf u) q a _ (λ d, feed_rows d u)
    (λ limit xs, posts ← populate_posts st e 1 (page_of post_key limit xs).1;
                 mret (mkListResponse posts (encode_cursor (page_of post_key limit xs).2)))).
  - intros limit cursor _ Hp. destruct (get_home_feed_db (rnow e 0) u cursor limit (app_world a)) as [Hr _].
    { intros Hn. by apply (cold_cursor _ _ _ _ Hc Hp). }
    pose proof (on_world_durable _ (home_feed_stored (rnow e 0) u cursor limit) a) as Hd. unfold on_world in Hd.
    unfold mbind at 1, M_bind at 1, map_err, on_world. destruct (get_home_feed _ _ _ _ _) as [o w]. simpl in Hr, Hd |- *. subst o.
    eexists. split; [reflexivity|done].
  - done.
  - apply feed_rows_keys.
  - intros limit xs. eapply yields_bind; [apply populate_posts_keys|]. intros ys <-. by apply yields_ret.
Qed.
Lemma stories_feed_db u cursor limit w :
  (cursor = None → stories_cached u limit w = None) →
  fst (Stories.get_stories_feed (clk e 0) (rnow e 0) u cursor limit w)
  = Ok (stories_page (app_now (clk e 0)) (w_db w) u cursor limit).
Proof using Type.
  intros Hm. unfold Stories.get_stories_feed. destruct cursor as [k|]; [done|]. specialize (Hm eq_refl).
  rewrite bool_decide_true by done. unfold stories_cached in Hm. unfold try_, best_effort, on_redis, redis_get, connected.
  unfold_m. cbv beta.
  destruct (redis_up (w_redis w)) eqn:Hup; cbn [fst snd]; rewrite ?set_w_redis_id, ?Hm; by destruct (stories_to_json _).
Qed.
Lemma stories_feed_run u q a :
  cold (StoriesFeedOf u) q (app_world a) →
  fst (fetch (StoriesFeedOf u) q a) = page_result (StoriesFeedOf u) q (w_db (app_world a)) ∧
  durable (snd (fetch (StoriesFeedOf u) q a)) = durable a.
Proof using Type.
  intros Hc. apply (keyed_from story_key story_key (StoriesFeedOf u) q a _
    (λ d, story_rows (story_in_feed (app_now (clk e 0)) d u) d)
    (λ limit xs, let '(items, next) := page_of story_key limit xs in
                 items ← populate_stories st e 1 items; mret (mkListResponse items (encode_cursor next)))).
  - intros limit cursor Hlim Hp. pose proof (stories_feed_db u cursor (limit + 1) (app_world a)) as Hr.
    pose proof (on_world_durable _ (stories_feed_stored (clk e 0) (rnow e 0) u cursor (limit + 1)) a) as Hd. unfold on_world in Hd.
    unfold mbind at 1, M_bind at 1, map_err, on_world. destruct (Stories.get_stories_feed _ _ _ _ _ _) as [o w]. simpl in Hr, Hd |- *.
    rewrite Hr; [by eexists|]. intros Hn. apply check_limit_ok in Hlim as <-. by apply (cold_cursor _ _ _ _ Hc Hp).
  - done.
  - apply story_rows_keys.
  - intros limit xs. unfold dresses. destruct (page_of story_key limit xs) as [items next]. simpl.
    eapply yields_bind; [apply populate_stories_keys|]. intros ys <-. by apply yields_ret.
Qed.

(** Every listing. *)
Lemma fetch_run l q a :
  may_list l (w_db (app_world a)) → cold l q (app_world a) →
  fst (fetch l q a) = page_result l q (w_db (app_world a)) ∧ durable (snd (fetch l q a)) = durable a.
Proof using Type.
  intros Hl Hc. pose proof (rows_of_distinct l _ Hl) as Hnd.
  destruct l as [i|i|i v|i v|i v|u| |i v|i v|i v|i|t|t|u|u]; unfold fetch; [..|by apply home_feed_run|by apply stories_feed_run].
  all: try (eapply keyed_run; [by intros|reflexivity|exact Hnd|]; intros; by apply list_response_dresses).
  - eapply (keyed_run post_key); [by intros|reflexivity|exact Hnd|]. intros limit xs. simpl.
    unfold dresses. destruct (page_of post_key limit xs) as [items next]. simpl.
    eapply yields_bind; [apply populate_posts_keys|]. intros ys <-.
    eapply yields_bind; [apply populate_post_media_keys|]. intros zs <-. by apply yields_ret.
  - eapply (keyed_run like_key _ _ _ _ _ _ (λ d, likes_on d i));
      [|reflexivity|exact Hnd|intros; by apply list_response_dresses].
    intros limit c. by rewrite (pass_gate _ _ tt) by by apply post_gate.
  - eapply (keyed_run comment_key _ _ _ _ _ _ (λ d, comments_on d i));
      [|reflexivity|exact Hnd|intros; by apply list_response_dresses].
    intros limit c. by rewrite (pass_gate _ _ tt) by by apply post_gate.
  - eapply (keyed_run story_key); [by intros|reflexivity|exact Hnd|]. intros limit xs. simpl.
    unfold dresses. destruct (page_of story_key limit xs) as [items next]. simpl.
    eapply yields_bind; [apply populate_stories_keys|]. intros ys <-. by apply yields_ret.
  - eapply (keyed_run view_key _ (ViewersOf i v) _ _ _ map_story_error (λ d, views_on d i)
              (λ limit xs, let '(viewers, next) := page_of view_key limit xs in
                 viewers ← on_world (populate_story_view_avatar_urls (s3_public_endpoint st) (app_now (clk e 1)) viewers);
                 mret (mkListResponse viewers (encode_cursor next)))); [|reflexivity|exact Hnd|].
    + intros limit c. rewrite (pass_gate _ _ (Some v)).
      * by rewrite (pass_gate _ _ tt) by by rewrite bool_decide_true.
      * unfold map_err. rewrite run_db. unfold may_list in Hl. rewrite Hl. simpl. by rewrite set_db_id.
    + intros limit xs. unfold dresses. destruct (page_of view_key limit xs) as [items next]. simpl.
      eapply yields_bind; [apply populate_views_keys|]. intros ys <-. by apply yields_ret.
  - eapply (keyed_run reaction_key _ _ _ _ _ _ (λ d, reactions_on d i));
      [|reflexivity|exact Hnd|intros; by apply list_response_dresses].
    intros limit c. by rewrite (pass_gate _ _ tt) by by apply story_gate, Hl.
  - by apply user_search_run.
  - by apply post_search_run.
Qed.

(** ** Reading to the end *)

(** A client that follows [next_cursor]; [None] when it did not reach the end within
    [fuel] requests. *)
Fixpoint read_all (fuel : nat) (l : Listing) (limit : Z) (cursor : option string) :
    M App AppError (option (list Key)) :=
  match fuel with
  | O => mret None
  | S fuel' =>
      r ← fetch l (mkPagination (Some limit) cursor);
      match lr_next_cursor r with
      | None => mret (Some (lr_items r))
      | Some next =>
          rest ← read_all fuel' l limit (Some next);
          mret (app (lr_items r) <$> rest)
      end
  end.

(** A position that has a wire format. *)
Definition encodable (k : Key) : Prop := valid_uuid k.2 ∧ is_Some (rfc3339_format k.1).

Lemma encode_parse `{!CursorLaws} k :
  encodable k → ∃ s, encode_cursor (Some k) = Some s ∧ parse_cursor (Some s) = Ok (Some k).
Proof using Type.
  destruct k as [t u]. intros [Hu [s Hs]]. simpl in *. unfold encode_cursor. simpl. rewrite Hs. simpl.
  eexists. split; [done|]. unfold parse_cursor. rewrite split_slash_app by (by eapply rfc3339_no_slash).
  by rewrite (rfc3339_roundtrip _ _ Hs), (uuid_roundtrip _ Hu).
Qed.

(** One request of the loop. *)
Lemma fetch_page l n s c a :
  may_list l (w_db (app_world a)) → cold l (mkPagination (Some (Z.of_nat n)) s) (app_world a) → (1 ≤ n ≤ 200)%nat →
  parse_cursor s = Ok c →
  let page := page_of id (Z.of_nat n) (keyset id (order_of l) c (Z.of_nat n + 1) (rows_of l (w_db (app_world a)))) in
  ∃ a', fetch l (mkPagination (Some (Z.of_nat n)) s) a
        = (Ok (mkListResponse page.1 (encode_cursor page.2)), a') ∧ durable a' = durable a.
Proof using Type.
  intros Hl Hc Hn Hs page. destruct (fetch_run l (mkPagination (Some (Z.of_nat n)) s) a Hl Hc) as [Hr Hd].
  destruct (fetch l _ a) as [r a']. cbn [fst snd] in *. exists a'. split; [|exact Hd]. rewrite Hr. f_equal.
  assert (Hlim : check_limit (Some (Z.of_nat n)) = Ok (Z.of_nat n)).
  { unfold check_limit. simpl. by rewrite (proj2 (Z.leb_le 1 _)), (proj2 (Z.leb_le _ 200)) by lia. }
  unfold page_result. cbn [pq_limit pq_cursor]. rewrite Hlim, Hs. fold page. by destruct page.
Qed.

Lemma read_all_run `{!CursorLaws} l n fuel d s c a :
  may_list l d → (∀ k, k ∈ rows_of l d → encodable k) → (1 ≤ n ≤ 200)%nat → parse_cursor s = Ok c →
  (length (walk id (order_of l) c (rows_of l d)) < fuel * S n)%nat → w_db (app_world a) = d →
  cold l (mkPagination (Some (Z.of_nat n)) s) (app_world a) →
  ∃ a', read_all fuel l (Z.of_nat n) s a
        = (Ok (Some (drop_every n (walk id (order_of l) c (rows_of l d)))), a') ∧ durable a' = durable a.
Proof using Type.
  intros Hl Henc Hn. assert (Hnd : NoDup (id <$> rows_of l d)) by (rewrite list_fmap_id; by apply rows_of_distinct).
  revert s c a. induction fuel as [|fuel IH]; intros s c a Hs Hf Hdb Hcold; [lia|]. cbn [read_all].
  destruct (fetch_page l n s c a) as (a1 & Hrun & Hd1); [by rewrite Hdb|done..|].
  rewrite Hdb in Hrun. unfold mbind at 1, M_bind at 1. rewrite Hrun. cbn [lr_next_cursor lr_items].
  destruct (page_cases id _ Hnd (order_of l) c n) as [[Hle ->]|(l1 & x & l2 & Hw & Hlen & -> & Hr)];
    cbn [fst snd lr_next_cursor lr_items].
  - exists a1. by rewrite drop_every_short.
  - assert (Hx : encodable x).
    { apply Henc. eapply (elem_of_walk id). rewrite Hw. set_solver. }
    change (id x) with x. destruct (encode_parse x Hx) as (next & -> & Hp).
    rewrite Hw, length_app in Hf. simpl in Hf. change (id x) with x in Hr.
    destruct (IH (Some next) (Some x) a1) as (a2 & Hrest & Hd2); [done|rewrite Hr; nia|unfold durable in Hd1; congruence|done|].
    unfold mbind, M_bind. rewrite Hrest. cbn. exists a2. rewrite Hr, Hw, drop_every_app by done.
    split; [done|congruence].
Qed.


End listings.

(** ** A concrete inbox *)

(** Three notifications of user 1, all of one instant. *)
Definition inbox_db : Db :=
  set_notifications (λ _, {[ 11%N := mkNotificationRow 1 "a" (JObject []) None 7;
                             12%N := mkNotificationRow 1 "b" (JObject []) None 7;
                             13%N := mkNotificationRow 1 "c" (JObject []) None 7 ]}) empty_db.
Definition inbox : App := mkApp (mkWorld inbox_db (mkRedis true ∅) [] true ∅ true) [] true.


