(* ===== verification/Freshness.v ===== *)
(** * Reading one's own writes

    The home feed is served from a cache that lives for 30 seconds. The handlers that
    change what a feed shows ([follow_user], [unfollow_user], [block_user],
    [unblock_user], [create_post]) drop the cached pages they affect. This file shows
    that after such a request the readers concerned get their feed from the database. *)

From S2P Require Import Prelude Effects Text Sql Keyset Domain Schema RateLimits Redis RateLimiter Social Users.
From S2P Require Import Posts Engagement Trust Invites Crypto Auth World Feed Stories Notifications Moderation.
From S2P Require Import Fingerprint Search Media Http App HandlersUsers HandlersPosts HandlersMedia.
From S2P Require Import HandlersSafety HandlersStories Endpoints ClientErrors Access Invariant.
From stdpp Require Import options.

#[local] Open Scope Z_scope.

(** The cache holds no home feed of [u], as far as anybody can read it. *)
Definition uncached (u : Uuid) (w : World) : Prop :=
  redis_up (w_redis w) = true → store (w_redis w) !! feed_key u = None.
Definition app_uncached (u : Uuid) (a : App) : Prop := uncached u (app_world a).

(** [m], when it succeeds, ends in a state in [P]. *)
Definition lands {S E A} (P : A → S → Prop) (m : M S E A) : Prop :=
  ∀ s v s', m s = (Ok v, s') → P v s'.

Section rules.
Context {S E : Type}.
Lemma lands_bind {A B} (P : B → S → Prop) (m : M S E A) (k : A → M S E B) :
  (∀ x, lands P (k x)) → lands P (m ≫= k).
Proof.
  intros Hk s v s'. unfold mbind, M_bind. destruct (m s) as [[x|] s1]; [|done]. apply Hk.
Qed.
(** What [m] reached, the rest keeps. *)
Lemma lands_then {A B} (P : S → Prop) (m : M S E A) (k : A → M S E B) :
  lands (λ _, P) m → (∀ x, preserves P (k x)) → lands (λ _, P) (m ≫= k).
Proof.
  intros Hm Hk s v s'. unfold mbind, M_bind. destruct (m s) as [[x|] s1] eqn:He; [|done].
  intros Hr. specialize (Hk x s1 (Hm _ _ _ He)). by rewrite Hr in Hk.
Qed.
Lemma lands_weaken {A} (P Q : A → S → Prop) (m : M S E A) :
  (∀ v s, P v s → Q v s) → lands P m → lands Q m.
Proof. intros HPQ Hm s v s' Hr. by eapply HPQ, Hm. Qed.

(** The same from states in [I]. *)
Definition leads {A} (I P : S → Prop) (m : M S E A) : Prop :=
  ∀ s, I s → ∀ v s', m s = (Ok v, s') → P s'.
Lemma leads_after {A B} (I P : S → Prop) (m : M S E A) (k : A → M S E B) :
  preserves I m → (∀ x, leads I P (k x)) → leads I P (m ≫= k).
Proof.
  intros Hm Hk s Hs v s'. unfold mbind, M_bind. specialize (Hm s Hs).
  destruct (m s) as [[x|] s1]; [|done]. by apply Hk.
Qed.
Lemma leads_then {A B} (I P : S → Prop) (m : M S E A) (k : A → M S E B) :
  leads I P m → (∀ x, preserves P (k x)) → leads I P (m ≫= k).
Proof.
  intros Hm Hk s Hs v s'. unfold mbind, M_bind. destruct (m s) as [[x|] s1] eqn:He; [|done].
  intros Hr. specialize (Hk x s1 (Hm _ Hs _ _ He)). by rewrite Hr in Hk.
Qed.
End rules.

Lemma presigned_not_feed k u : presigned_key k ≠ feed_key u.
Proof. done. Qed.

(** ** The operations that may follow the invalidation keep it *)

Section keeps.
Context (u : Uuid).

Lemma uncached_on_redis {E A} (m : M Redis E A) :
  (∀ r, redis_up (snd (m r)) = redis_up r) →
  (∀ r, store r !! feed_key u = None → store (snd (m r)) !! feed_key u = None) →
  preserves (uncached u) (on_redis m).
Proof.
  intros Hup Hs w Hw. unfold on_redis. specialize (Hup (w_redis w)). specialize (Hs (w_redis w)).
  destruct (m (w_redis w)) as [r x]. unfold uncached in *. simpl in *. rewrite Hup. auto.
Qed.
Lemma uncached_del k : preserves (uncached u) (on_redis (redis_del k)).
Proof.
  apply uncached_on_redis; intros r; unfold redis_del, connected; unfold_m; destruct (redis_up r) eqn:Hr; simpl; try done.
  intros Hn. rewrite lookup_delete_None. by right.
Qed.
Lemma uncached_set now key v ttl : preserves (uncached u) (on_redis (redis_set_ex now (presigned_key key) v ttl)).
Proof.
  apply uncached_on_redis; intros r; unfold redis_set_ex, connected; unfold_m; destruct (redis_up r) eqn:Hr; simpl; try done.
  intros Hn. rewrite lookup_insert_ne; [done|apply presigned_not_feed].
Qed.
Lemma uncached_pattern replies : preserves (uncached u) (on_redis (delete_pattern replies)).
Proof.
  apply uncached_on_redis; intros r; destruct (redis_up r) eqn:Hr.
  1, 3: rewrite delete_pattern_run by done.
  1: done.
  1: simpl; intros Hn; rewrite lookup_foldr_delete; by case_decide.
  all: assert (snd (delete_pattern replies r) = r) as ->; [|done].
  all: destruct replies as [|ks replies]; [done|]; unfold delete_pattern; cbn [for_each]; unfold scan_round, connected;
    unfold_m; by rewrite Hr.
Qed.
Lemma uncached_get now k : preserves (uncached u) (on_redis (redis_get now k)).
Proof. apply uncached_on_redis; intros r; unfold redis_get, connected; unfold_m; by destruct (redis_up r) eqn:Hr. Qed.

Lemma preserves_try {S E E' A} (I : S → Prop) (m : M S E A) : preserves I m → preserves (E := E') I (try_ m).
Proof. intros Hm s Hs. unfold try_. specialize (Hm s Hs). by destruct (m s). Qed.
Lemma uncached_sign {E} `{S3Signer, UrlLib} s3 now k x :
  preserves (E := E) (uncached u) (generate_presigned_get_url s3 now k x).
Proof.
  unfold generate_presigned_get_url. destruct k as [key|]; [|auto with ciel].
  apply preserves_bind; [apply preserves_try, uncached_get|]. intros r. repeat (cbv zeta; case_match); auto with ciel.
  all: apply preserves_bind; [apply preserves_best_effort, uncached_set|auto with ciel].
Qed.
Lemma uncached_avatar {E} `{S3Signer, UrlLib} s3 now k old :
  preserves (E := E) (uncached u) (avatar_url s3 now k old).
Proof. destruct k; [apply uncached_sign|apply preserves_ret]. Qed.
Lemma uncached_join {E A B} (f : A → M World E B) l :
  (∀ x, preserves (uncached u) (f x)) → preserves (uncached u) (join_all f l).
Proof.
  intros Hf. induction l as [|x l IH]; [apply preserves_ret|]. cbn [join_all].
  apply preserves_bind; [done|]. intros y. apply preserves_bind; [done|]. intros. apply preserves_ret.
Qed.
End keeps.

(** ** Invalidation *)

Section invalidation.
Context `{Libs} (e : Env).

Lemma refresh_uncached u : lands (λ _, uncached u) (refresh_home_feed u).
Proof using Type.
  intros w v w' [= _ <-]. unfold uncached, on_redis, redis_del, connected. unfold_m.
  destruct (redis_up (w_redis w)) eqn:Hr; simpl; [|congruence]. intros _. by rewrite lookup_delete_eq.
Qed.
Lemma refresh_keeps u v : preserves (uncached u) (refresh_home_feed v).
Proof using Type. apply preserves_best_effort, uncached_del. Qed.
Lemma stories_keep {E} u r v : preserves (E := E) (uncached u) (invalidate_stories_feed r v).
Proof using Type. apply preserves_best_effort, uncached_pattern. Qed.

Lemma app_keep {E A} u (m : M World E A) : preserves (uncached u) m → preserves (app_uncached u) (on_world m).
Proof using Type. apply preserves_on_world. Qed.
Lemma app_db_keep {E A} u (m : M Db E A) : preserves (app_uncached u) (db m).
Proof using Type. intros a Ha. unfold db, on_world, on_db. by destruct (m (w_db (app_world a))). Qed.

(** Dropping the cached page of [v]: [u] has none afterwards if [u] is [v], or had none. *)
Lemma drop_home_lands u :
  lands (λ _, app_uncached u) (best_effort (E' := AppError) (on_world (refresh_home_feed u))).
Proof using Type.
  intros a v a' [= _ <-]. unfold on_world, app_uncached.
  pose proof (refresh_uncached u (app_world a)) as Hr. unfold refresh_home_feed, best_effort in *.
  destruct (on_redis (redis_del (feed_key u)) (app_world a)) as [x w]. simpl in *. by eapply Hr.
Qed.
Lemma drop_home_keeps u v :
  preserves (app_uncached u) (best_effort (E' := AppError) (on_world (refresh_home_feed v))).
Proof using Type. apply preserves_best_effort, app_keep, refresh_keeps. Qed.

Lemma viewer_lands u : lands (λ _, app_uncached u) (invalidate_viewer_feeds e u).
Proof using Type. apply lands_then; [apply drop_home_lands|]. intros _. apply app_keep, stories_keep. Qed.
Lemma viewer_keeps u v : preserves (app_uncached u) (invalidate_viewer_feeds e v).
Proof using Type. apply preserves_bind; [apply drop_home_keeps|]. intros _. apply app_keep, stories_keep. Qed.

(** Dropping the home pages of a list of readers drops every one of them. *)
Lemma readers_land u readers :
  u ∈ readers →
  lands (λ _, app_uncached u)
    (for_each readers (λ v, _ ← best_effort (E' := AppError) (on_world (refresh_home_feed v)); mret tt)).
Proof using Type.
  assert (Hkeep : ∀ rs, preserves (app_uncached u)
    (for_each rs (λ v, _ ← best_effort (E' := AppError) (on_world (refresh_home_feed v)); mret tt))).
  { intros rs. apply preserves_for_each. intros v. apply preserves_bind; [apply drop_home_keeps|auto with ciel]. }
  induction readers as [|v readers IH]; [by intros ?%not_elem_of_nil|]. intros Hin. cbn [for_each].
  destruct (decide (u = v)) as [->|Hne].
  - apply lands_then; [|intros _; apply Hkeep]. apply lands_then; [apply drop_home_lands|auto with ciel].
  - apply lands_bind. intros _. apply IH. set_solver.
Qed.
Lemma followers_land u author a :
  u = author ∨ follows_edge (w_db (app_world a)) u author = true →
  app_uncached u (snd (invalidate_followers_feeds e author true false a)).
Proof using Type.
  intros Hu. unfold invalidate_followers_feeds. unfold mbind at 1, M_bind at 1, try_. rewrite run_db. cbn.
  rewrite set_db_id. set (ids := select _ (follows _)).
  set (loop := for_each ids _). assert (Ht : total (loop ≫= λ _, invalidate_viewer_feeds e author)).
  { apply total_bind; [|intros; apply invalidate_viewer_total]. apply total_for_each. intros v.
    apply total_bind; [auto with total|auto with total]. }
  specialize (Ht a). destruct ((loop ≫= λ _, invalidate_viewer_feeds e author) a) as [[v|] a'] eqn:Hr; [|done].
  simpl. clear Ht. revert Hr. destruct Hu as [->|Hf].
  - apply (lands_bind (λ _, app_uncached author)). intros _. apply viewer_lands.
  - apply (lands_then (app_uncached u)); [|intros; apply viewer_keeps]. apply readers_land.
    unfold ids. apply elem_of_select. unfold follows_edge in Hf. apply has_key_true in Hf as [t Ht].
    exists (u, author), t. split; [done|]. by rewrite decide_True.
Qed.
End invalidation.

(** ** The requests that change what a home feed shows *)

Section requests.
Context `{Libs} (st : AppState) (e : Env).

Inductive FeedWrite :=
| Following (id : Uuid)
| Unfollowing (id : Uuid)
| Blocking (id : Uuid)
| Unblocking (id : Uuid)
| Posting (payload : CreatePostRequest).

(** The handler of the request; the result says whether anything changed. *)
Definition feed_write (auth : Uuid) (wr : FeedWrite) : M App AppError bool :=
  match wr with
  | Following id => follow_user st e id auth
  | Unfollowing id => unfollow_user e id auth
  | Blocking id => block_user e id auth
  | Unblocking id => unblock_user e id auth
  | Posting payload => _ ← create_post st e auth payload; mret true
  end.

(** Whose feed it concerns: the caller's, and for a post also the followers'. *)
Definition concerns (auth : Uuid) (wr : FeedWrite) (u : Uuid) (a : App) : Prop :=
  u = auth ∨ match wr with
             | Posting _ => follows_edge (w_db (app_world a)) u auth = true
             | _ => False
             end.

(** The caller of the four requests on the social graph. *)
Lemma viewer_tail_lands u (b : bool) (m : M App AppError unit) :
  lands (λ _, app_uncached u) m →
  lands (λ (r : bool) a, r = true → app_uncached u a) (_ ← (if b then m else mret tt); mret b).
Proof using Type.
  intros Hm. destruct b; [|by intros a v a' [= <- _]].
  apply (lands_weaken (λ _, app_uncached u)); [auto|]. apply lands_then; [done|auto with ciel].
Qed.
Lemma graph_write_lands auth wr :
  (∀ p, wr ≠ Posting p) → lands (λ (r : bool) a, r = true → app_uncached auth a) (feed_write auth wr).
Proof using Type.
  intros Hg. destruct wr as [id|id|id|id|p]; [..|by destruct (Hg p)];
    apply lands_bind; intros _; apply lands_bind; intros b; apply viewer_tail_lands; try apply viewer_lands.
  apply lands_bind; intros _. apply lands_bind; intros _. apply viewer_lands.
Qed.

(** The author of a post and every follower. *)
Lemma populate_post_keeps u i p : preserves (app_uncached u) (populate_post st e i p).
Proof using Type.
  apply preserves_bind; [|auto with ciel]. apply app_keep. unfold populate_post_avatar_urls.
  apply uncached_join. intros q. apply preserves_bind; [apply uncached_avatar|auto with ciel].
Qed.
Lemma create_post_leads auth payload u :
  leads (concerns auth (Posting payload) u) (app_uncached u) (create_post st e auth payload).
Proof using Type.
  unfold create_post, check_caption, fail_if.
  do 3 (apply leads_after; [by apply preserves_read_only; solve_reads|intros _]).
  apply leads_after.
  { apply preserves_map_err.
    apply (preserves_db (λ d, u = auth ∨ follows_edge d u auth = true)).
    by apply create_post_frame; intros ? d. }
  intros p. apply leads_then.
  - intros a Ha v a' Hr. pose proof (followers_land e u auth a Ha) as Hl. by rewrite Hr in Hl.
  - intros _. apply preserves_bind; [apply preserves_best_effort, app_db_keep|]. intros _. apply populate_post_keeps.
Qed.

Lemma feed_write_leads auth wr u a a' :
  concerns auth wr u a → feed_write auth wr a = (Ok true, a') → app_uncached u a'.
Proof using Type.
  intros Hu Hr. destruct wr as [id|id|id|id|p].
  5: { revert Hr. apply (leads_then (concerns auth (Posting p) u) (app_uncached u)); [apply create_post_leads| |done].
       auto with ciel. }
  all: destruct Hu as [->|[]]; by eapply (graph_write_lands auth); [|exact Hr|].
Qed.

(** C25: nobody waits for the cache to expire to see their own action. After a
    request that changed whom the caller follows or blocks, and after a new post, the
    caller's home feed (for a post, also every follower's) is computed from the
    database of that moment, whatever page was cached before and whether or not Redis
    answers. *)
Theorem feed_writes_are_read auth wr u a a' :
  concerns auth wr u a → feed_write auth wr a = (Ok true, a') →
  ∀ rnow n, fst (get_home_feed rnow u None n (app_world a')) = Ok (feed_page (w_db (app_world a')) u None n).
Proof using Type.
  intros Hu Hr rnow n. apply get_home_feed_db. intros _. unfold cache_miss. rewrite cached_page_run. simpl.
  pose proof (feed_write_leads _ _ _ _ _ Hu Hr) as Hc. unfold app_uncached, uncached in Hc.
  destruct (redis_up _); [|done]. unfold live. by rewrite Hc.
Qed.
End requests.

(** The first page of user 1 is cached; user 1 then unfollows the only author on it.
    The cache would still answer, but the next page comes from the database. *)
Definition page_cached : App :=
  set_app_world (snd (@get_home_feed one_page_codec 40 1 None 1 (app_world Sample.app))) Sample.app.
Lemma feed_writes_are_read_witness :
  let a' := snd (unfollow_user (Sample.env 50) 2 1 page_cached) in
  fst (@get_home_feed one_page_codec 60 1 None 1 (app_world page_cached)) = Ok first_page ∧
  feed_page (w_db (app_world a')) 1 None 1 = ([], None) ∧
  fst (@get_home_feed one_page_codec 60 1 None 1 (app_world a')) = Ok (feed_page (w_db (app_world a')) 1 None 1).
Proof.
  intros a'. split; [vm_compute; reflexivity|]. split; [vm_compute; reflexivity|].
  apply (@feed_writes_are_read Sample.toy_libs Sample.st (Sample.env 50) 1 (Unfollowing 2) 1 page_cached a').
  - by left.
  - vm_compute. reflexivity.
Defined.
